(* ===== verification/_CoqProject ===== *)
-Q . S2P
Prelude.v
State.v
Spinlock.v
CString.v
Kalloc.v
Proc.v
Sched.v
Vm.v
VmCopy.v
Uaccess.v
Sleeplock.v
Console.v
Bio.v
Cache.v
Blocks.v
Log.v
Fs.v
FsData.v
FsBlocks.v
FsInode.v
FsFile.v
FsWrite.v
FsDir.v
Mkfs.v
MkfsRep.v
MkfsSpec.v
MkfsMain.v
File.v
ProcLife.v
VmFree.v
ProcAlloc.v
Asm.v
AsmSpec.v
Exec.v
Syscall.v
Virtio.v
VirtioSpec.v
Trap.v
Ring.v
PipeSpec.v
ConsoleSpec.v
ULib.v
UGrep.v
UMalloc.v
USh.v
UShParse.v
UShRun.v
UPrintf.v
UProgs.v
UMain.v
