(* ===== verification/Prelude.v ===== *)
(** * xv6-riscv with priority scheduling: a verification library

    The program is a small Unix-like kernel for RISC-V (src/kernel) with a priority
    scheduler that ages waiting processes, the programs that run on it (src/user),
    and the host program that makes its disk image (src/mkfs).  This library translates
    its C code into functions of Rocq, and its assembly into programs of a RISC-V hart,
    and proves what the code promises.

    ** How the code is represented

    A routine of the kernel is a function in the monad [K] of this file, over the
    record [kstate] of State.v, which has a field for each global variable of the C
    code: the harts and their spinlocks, physical memory as bytes, the process
    table, the buffer cache, the log, the inode and file tables, pipes, console,
    disk queue and disk.  A run ends in [Done a s tr] (result, state and the rest of
    the trace), [Panicked], [Undefined] (behaviour C leaves undefined) or [Blocked]
    (the trace of the environment is used up, or fuel is).  A theorem that says what
    a routine does says that it ends in [Done].

    The trace is the list of what the rest of the machine does at the points where
    this thread of control lets it act: a switch to the scheduler, a spinlock held
    by another hart, a poll of a device.  A theorem either restricts these turns by
    hypotheses (the scheduler, the disk, pipes, the UART) or runs the routine where
    no turn is taken.  Integers are [Z] with the wrap-around of their C type written
    out ([u32], [i32], ...); addresses are [Z]; pointers into a static table are
    indices.

    User programs run in the same monad over [ustate] (ULib.v): their memory, the
    input not yet read, the writes performed, the break.  The system calls they make
    are the operations of the class [Sys], with what they are documented to do in
    [SysOk] and [SbrkOk].  The shell's parser runs over its store of nodes
    ([shstate], USh.v), and what a command starts is a value of [prog] (UShRun.v).
    mkfs runs over the blocks of its image and its global variables ([mkfs], Mkfs.v).
    The assembly runs on a hart ([hart], Asm.v): registers, control and status
    registers, privilege, and memory seen through the page table that satp names.

    ** The files

    - Prelude: the monad, its rules and tactics, record update, machine integers,
      lemmas on lists.  State: constants of param.h, memlayout.h, riscv.h and the
      data types of proc.h, fs.h, file.h, buf.h.
    - Spinlock (spinlock.c), CString (string.c), Kalloc (kalloc.c), Proc and Sched
      and ProcLife (proc.c), Vm (vm.c), Uaccess (arguments and copies of syscall.c
      and proc.c), Sleeplock (sleeplock.c), Console (console.c, uart.c, printk.c),
      Bio (bio.c), Log (log.c), Fs (fs.c), File (file.c, pipe.c), Exec (exec.c),
      Syscall (syscall.c, sysproc.c, sysfile.c), Virtio (virtio_disk.c), Trap
      (trap.c, plic.c, main.c): the kernel's code, one definition per function, with
      a definition of its own for a loop, and the theorems of the component.
    - Asm (entry.S, start.c, swtch.S, trampoline.S, kernelvec.S): a hart, its
      instructions, and the assembly as lists of them; AsmSpec: its theorems.
    - VmCopy: the two page tables of a fork.  VmFree: page tables as trees of pages,
      and what freeing them gives back.  ProcAlloc: the life of a slot of the process
      table.
    - Cache, Blocks: the buffer cache as seen from one process, the interface on
      which the log and the file system are verified.  FsData, FsBlocks, FsInode,
      FsFile, FsWrite, FsDir: the theorems on the file system, by layer.  VirtioSpec,
      PipeSpec, ConsoleSpec: those on the driver, pipes and console; Ring holds what
      the two circular buffers share.
    - Mkfs (mkfs.c); MkfsRep: files on an image; MkfsSpec, MkfsMain: its theorems.
    - ULib (ulib.c), UGrep (grep.c), UMalloc (umalloc.c), UPrintf (printf.c), UProgs
      (cat.c, wc.c, echo.c, nice.c): user programs.  USh (the parser of sh.c and the
      grammar of its commands), UShParse (its theorems), UShRun ([runcmd] and the
      meaning of a command).  UMain: the main functions of these programs and of
      kill.c, ln.c, mkdir.c, rm.c, sync.c, zombie.c, and [fmtname] of ls.c.

    ** What the theorems show

    - Scheduling: a round ages every waiting process and then switches to the first
      runnable process of the best priority, in round-robin order
      ([scheduler_round_decides]); any number of rounds runs ([scheduler_runs]); a
      runnable process is chosen after a bounded number of rounds whatever the
      priorities ([starvation_free]).  Sleeping: a wakeup that comes between
      [sleep_prepare] and [sleep] is not lost ([no_lost_wakeup]).
    - The machine: a process that traps finds its registers, on its return, as its
      trapframe has them, so as they were but for what the kernel stored there
      ([user_trap_roundtrip]); an interrupt of the kernel changes no register of the
      code it interrupts but tp ([kernelvec_transparent]);
      a thread that is switched out resumes where it left off ([swtch_resumes]); the
      boot code enters [main] in supervisor mode with its traps delegated, on stacks
      that do not overlap ([boot_spec], [boot_stacks_apart]).
    - Processes: [allocproc] takes the first free slot and gives it a trapframe and a
      page table, or gives back everything ([allocproc_spec]); [freeproc] returns every
      page the process owned to the free list ([freeproc_spec]); every sequence of
      allocations, kills, wakeups, changes of priority and scans of the scheduler keeps
      the table well-typed ([table_ops_typed]).
    - Memory: [kalloc] and [kfree] implement an abstract free list, which [kinit]
      fills with all of RAM; [mappages] maps exactly the range; [copyin] and
      [copyout] transfer exactly the bytes of mapped user pages; [uvmcopy] gives the
      child of a fork a copy of the parent's pages and shares none, and undoes
      everything when memory runs out ([uvmcopy_spec]).  The invariant [shape] (what is
      valid below the root is a page table or a leaf) is kept by all that map;
      [proc_pagetable] maps the trampoline and the trapframe or leaves no page behind
      ([proc_pagetable_spec]), and [proc_freepagetable] gives back exactly the pages of
      the address space ([proc_freepagetable_spec]).
    - Storage, from the device up: [virtio_disk_rw] transfers a block through the
      queue and its interrupt, and so is an instance of the interface [DiskOk]
      ([virtio_driver_ok]) on which the cache is verified; the cache is transparent
      ([bread_spec], [brelse_spec]); a transaction is atomic under a crash after any
      of its disk writes, also when recovery itself crashes ([end_op_crash_safe],
      [recovery_crash_safe]); [balloc] and [bfree] keep the bitmap; the inode table
      has one entry per inode; [readi] and [writei] read and write the byte sequence
      of a file through direct and indirect blocks; [dirlookup] and [skipelem]
      resolve names; [dirlink] adds a name and keeps the others ([dirlink_spec]).
      The image [mkfs_main] leaves is the file system asked for, in which the
      kernel's lookup finds every file ([mkfs_spec], [mkfs_mounts]): the invariants
      assumed above hold when the system first boots.
    - Pipes are first-in first-out queues across the wrap-around of their counters;
      the console is a line editor with echo; [printint] prints the digits.
    - User programs: [malloc] and [free] keep free and allocated blocks disjoint and
      lose no memory; grep's matcher decides the language of its pattern and grep
      prints exactly the matching lines; the shell's parser ends on every line and
      accepts exactly the grammar ([parsecmd_spec]), and running its tree starts
      exactly the programs of the command with their arguments and descriptors
      ([shell_spec]); [vprintf] writes what its format stands for, and [atoi] reads a
      printed number back ([vprintf_spec], [printf_atoi]); [wc] counts; nice's
      argument is parsed exactly up to the width of an int; cat writes its files in
      order up to the first it cannot open ([cat_main_spec]); the shell reads a line at
      a time, whole if it fits ([getcmd_spec]), and exits only at the end of its input
      ([sh_main_ends]); ls shows the last element of a path, padded ([fmtname_spec]).
    - Defects: [kill_zero_hits_free_slot], [malloc_overflow], [mkfs_root_hole].

    ** Fuel and bounds

    Loops over a table or a counted range recurse on the count of the C loop.  Loops
    over a linked list, a string or a device take fuel, and a run that exhausts it is
    [Blocked] ([None] for a pure loop): the theorems give an explicit bound that is
    enough, such as the length of the free list plus one for [free], twice that
    length for [malloc], the number of bytes for the string loops, NBUF for the scans
    of the buffer cache, four times the length of the line for the shell's parser,
    the blocks spanned plus one for [iappend].  Block numbers are below 2^31, the width at which virtio's
    sector number is computed; [malloc] is for requests below 2 GiB and a break below
    2^36, where the size of a block fits its 32-bit field (RAM is 2^27 bytes).

    ** Not modelled

    - Instruction fetch, the accessed and dirty bits of a page table entry, and the
      translation cache that sfence.vma flushes.  The C code and the assembly are two
      models: in the former [swtch] is a turn of the environment.
    - Weak memory: the fences of spinlock.c have no effect in a sequentially
      consistent model.  The flags that [panic] sets are not represented, a panic
      ends the run.
    - Messages on the console that carry no result (diagnostics of recovery, fs.c).
    - The programs that are a sequence of system calls (init.c, forphan.c, dorphan.c),
      the function of ls.c that goes through a directory, [start], [stat] and the
      wrappers of sbrk of ulib.c; the test drivers.
    - The host under mkfs: what it gives for the arguments' files is an input, its
      writes to the image are taken to succeed, and it is little-endian. *)

From stdpp Require Import prelude list strings gmap.
From Stdlib Require Import ZArith Lia ZifyBool.
Local Open Scope Z_scope.

(** The hint database of the development. *)
Create HintDb xv6.

(** ** Record update

    [r <| f := v |>] is the C assignment [r.f = v] on a record value, and
    [r <| f ::= g |>] is [r.f = g(r.f)].  A record takes part once it declares
    its eta-expansion as an instance of [Eta]. *)
Class Eta (R : Type) := eta : R -> R.
Class Setter {R E : Type} (get : R -> E) := upd_field : (E -> E) -> R -> R.

Ltac derive_setter :=
  lazymatch goal with
  | |- @Setter ?R ?E ?get =>
      let e := constr:(_ : Eta R) in
      let e := eval hnf in e in
      exact (fun (setter_f : E -> E) (setter_r : R) => ltac:(
        let b := eval cbv beta in (e setter_r) in
        match b with
        | context C [get setter_r] =>
            let b' := context C [setter_f (get setter_r)] in exact b'
        end))
  end.
#[export] Hint Extern 1 (Setter _) => derive_setter : typeclass_instances.

Arguments upd_field {_ _} _ {_} _ _ /.

Declare Scope record_scope.
Notation "r <| f := v |>" := (upd_field f (fun _ => v) r)
  (at level 1, left associativity, v at level 99) : record_scope.
Notation "r <| f ::= g |>" := (upd_field f g r)
  (at level 1, left associativity, g at level 99) : record_scope.
Open Scope record_scope.

(** ** Machine integers

    C integers are kept as [Z]; these are the conversions to the unsigned and
    signed types the source uses. *)
Definition u8 (z : Z) : Z := z mod 2 ^ 8.
Definition u16 (z : Z) : Z := z mod 2 ^ 16.
Definition u32 (z : Z) : Z := z mod 2 ^ 32.
Definition u64 (z : Z) : Z := z mod 2 ^ 64.
Definition i32 (z : Z) : Z := (z + 2 ^ 31) mod 2 ^ 32 - 2 ^ 31.
Definition i16 (z : Z) : Z := (z + 2 ^ 15) mod 2 ^ 16 - 2 ^ 15.
Definition i64 (z : Z) : Z := (z + 2 ^ 63) mod 2 ^ 64 - 2 ^ 63.

(** ** Outcomes and the kernel monad

    A kernel routine runs on a state [S] and a trace [list (S -> S)].  Each
    element of the trace is what the rest of the machine (other harts, other
    processes, device interrupts) does to the state at one point where this
    thread of control lets it act: a context switch, a contended spinlock, an
    open interrupt window.  A routine that needs one more element than the
    trace offers is [Blocked]; a failed [panic] check is [Panicked]; an
    out-of-bounds index or a null dereference is [Undefined]. *)
Inductive outcome (S A : Type) : Type :=
| Done (a : A) (s : S) (tr : list (S -> S))
| Panicked (msg : string)
| Undefined
| Blocked.
Arguments Done {S A} a s tr.
Arguments Panicked {S A} msg.
Arguments Undefined {S A}.
Arguments Blocked {S A}.

Definition K (S A : Type) : Type := S -> list (S -> S) -> outcome S A.

Section Monad.
Context {S : Type}.

Definition kret {A} (a : A) : K S A := fun s tr => Done a s tr.

Definition kbind {A B} (c : K S A) (k : A -> K S B) : K S B :=
  fun s tr =>
    match c s tr with
    | Done a s' tr' => k a s' tr'
    | Panicked m => Panicked m
    | Undefined => Undefined
    | Blocked => Blocked
    end.

Definition panic {A} (msg : string) : K S A := fun _ _ => Panicked msg.
Definition undefined {A} : K S A := fun _ _ => Undefined.
Definition kget : K S S := fun s tr => Done s s tr.
Definition gets {A} (f : S -> A) : K S A := fun s tr => Done (f s) s tr.
Definition modify (f : S -> S) : K S unit := fun s tr => Done tt (f s) tr.

(** The value of a partial C expression: undefined behaviour if it has none. *)
Definition deref {A} (o : option A) : K S A :=
  match o with Some a => kret a | None => undefined end.

(** A loop that has not ended within its fuel. *)
Definition hang {A} : K S A := fun _ _ => Blocked.

(** The rest of the machine takes one turn. *)
Definition environment : K S unit :=
  fun s tr => match tr with [] => Blocked | e :: tr' => Done tt (e s) tr' end.

Definition when (b : bool) (c : K S unit) : K S unit :=
  if b then c else kret tt.

(** [for (i = lo; i < lo + n; i++) body(i)]; the body returns [Some r] to leave
    the loop (a C [return], [goto] or [break] carrying [r]). *)
Fixpoint for_upto {A} (n : nat) (lo : nat) (body : nat -> K S (option A)) : K S (option A) :=
  match n with
  | O => kret None
  | Datatypes.S n' =>
      kbind (body lo) (fun r =>
        match r with
        | Some a => kret (Some a)
        | None => for_upto n' (Datatypes.S lo) body
        end)
  end.

(** The loop whose body updates the locals [a]. *)
Fixpoint for_acc {A} (n : nat) (lo : nat) (a : A) (body : nat -> A -> K S A) : K S A :=
  match n with
  | O => kret a
  | Datatypes.S n' => kbind (body lo a) (fun a' => for_acc n' (Datatypes.S lo) a' body)
  end.

(** [for (;;) body]: the body returns [Some r] to leave the loop.  An iteration
    that stays in the loop waits for the environment at least once, so one
    iteration more than the trace has turns is enough. *)
Fixpoint loop_fuel {A} (fuel : nat) (body : K S (option A)) : K S A :=
  match fuel with
  | O => hang
  | Datatypes.S fuel' =>
      kbind body (fun r =>
        match r with
        | Some a => kret a
        | None => loop_fuel fuel' body
        end)
  end.
Definition loop {A} (body : K S (option A)) : K S A :=
  fun s tr => loop_fuel (Datatypes.S (length tr)) body s tr.

(** The same loop with a body that never leaves it early. *)
Fixpoint for_each (n : nat) (lo : nat) (body : nat -> K S unit) : K S unit :=
  match n with
  | O => kret tt
  | Datatypes.S n' => kbind (body lo) (fun _ => for_each n' (Datatypes.S lo) body)
  end.
End Monad.

Declare Scope kernel_scope.
Delimit Scope kernel_scope with kernel.
Notation "'let!' x := c 'in' k" := (kbind c (fun x => k))
  (at level 10, x name, c at level 100, k at level 200) : kernel_scope.
Notation "'let!' ' p := c 'in' k" := (kbind c (fun x => match x with p => k end))
  (at level 10, p pattern, c at level 100, k at level 200) : kernel_scope.
Notation "c ';;' k" := (kbind c (fun _ => k))
  (at level 100, k at level 200, right associativity) : kernel_scope.
Open Scope kernel_scope.


(** ** Stepping through a routine *)
Lemma kbind_Done {S A B} (c : K S A) (k : A -> K S B) s tr a s' tr' :
  c s tr = Done a s' tr' -> kbind c k s tr = k a s' tr'.
Proof. unfold kbind. by intros ->. Qed.

Definition obind {S A B} (o : outcome S A) (k : A -> K S B) : outcome S B :=
  match o with
  | Done a s tr => k a s tr
  | Panicked m => Panicked m
  | Undefined => Undefined
  | Blocked => Blocked
  end.

Lemma kbind_outcome {S A B} (c : K S A) (k : A -> K S B) s tr o :
  c s tr = o -> kbind c k s tr = obind o k.
Proof. by intros <-. Qed.

Lemma kbind_Panicked {S A B} (c : K S A) (k : A -> K S B) s tr m :
  c s tr = Panicked m -> kbind c k s tr = Panicked m.
Proof. unfold kbind. by intros ->. Qed.

Lemma kbind_assoc {S A B C} (c : K S A) (k : A -> K S B) (h : B -> K S C) s tr :
  kbind (kbind c k) h s tr = kbind c (fun a => kbind (k a) h) s tr.
Proof. unfold kbind. by destruct (c s tr). Qed.

Lemma gets_run {S A} (f : S -> A) s tr : gets f s tr = Done (f s) s tr.
Proof. done. Qed.

Lemma kret_run {S A} (a : A) (s : S) tr : kret a s tr = Done a s tr.
Proof. done. Qed.

Lemma modify_run {S} (f : S -> S) s tr : modify f s tr = Done tt (f s) tr.
Proof. done. Qed.

(** Counted loops by invariant. *)
Lemma for_each_inv {S} (P : nat -> S -> Prop) (body : nat -> K S unit) tr n : forall lo s,
  P lo s ->
  (forall i s, (lo <= i < lo + n)%nat -> P i s ->
    exists s', body i s tr = Done tt s' tr /\ P (Datatypes.S i) s') ->
  exists s', for_each n lo body s tr = Done tt s' tr /\ P (lo + n)%nat s'.
Proof.
  induction n as [|n IH]; intros lo s HP Hb; cbn [for_each].
  - exists s. by rewrite Nat.add_0_r.
  - destruct (Hb lo s) as (s1 & H1 & HP1); [lia|done|].
    destruct (IH (Datatypes.S lo) s1 HP1) as (s2 & H2 & HP2).
    { intros i s' Hi. apply Hb. lia. }
    exists s2. split; [by rewrite (kbind_Done _ _ _ _ _ _ _ H1)|].
    by replace (lo + Datatypes.S n)%nat with (Datatypes.S lo + n)%nat by lia.
Qed.

(** A loop that its first iteration leaves. *)
Lemma loop_first {S A} (body : K S (option A)) s tr a s' tr' :
  body s tr = Done (Some a) s' tr' -> loop body s tr = Done a s' tr'.
Proof. intros H. unfold loop. cbn [loop_fuel]. unfold kbind. by rewrite H. Qed.

(** [kstep H] runs the first action of the goal's routine with the run lemma
    [H], leaving the lemma's premises; [kcase H] does so when the lemma gives the
    outcome by cases; [kexact H] steps with an equation that holds up to
    conversion; [kstate_is s] names the current state; [kred] runs the monad's own primitives. *)
Tactic Notation "kstep" open_constr(H) :=
  rewrite ?kbind_assoc; etransitivity; [eapply kbind_Done; eapply H|].
Tactic Notation "kcase" open_constr(H) :=
  rewrite ?kbind_assoc; etransitivity; [eapply kbind_outcome; eapply H|].
Tactic Notation "kexact" constr(H) :=
  rewrite ?kbind_assoc; etransitivity; [eapply kbind_Done; exact H|].
Tactic Notation "kstate_is" constr(s) :=
  lazymatch goal with |- ?c ?st ?tr = ?r => change (c s tr = r) end.
Ltac kred := cbv beta iota delta [kbind kget gets modify kret deref when panic undefined upd_field].

(** ** Routines that run to completion *)
(** [runs c s tr Q]: from [s] the routine [c] returns, without waiting for the
    environment, a result and a state that satisfy [Q]. *)
Definition runs {S A} (c : K S A) (s : S) (tr : list (S -> S)) (Q : A -> S -> Prop) : Prop :=
  exists a s', c s tr = Done a s' tr /\ Q a s'.

Lemma runs_bind {S A B} (c : K S A) (k : A -> K S B) s tr Q R :
  runs c s tr Q -> (forall a s', Q a s' -> runs (k a) s' tr R) -> runs (kbind c k) s tr R.
Proof.
  intros (a & s' & E & HQ) Hk. destruct (Hk a s' HQ) as (b & s2 & E2 & HR). exists b, s2.
  split; [|done]. by rewrite (kbind_Done _ _ _ _ _ _ _ E).
Qed.

Lemma runs_assoc {S A B C} (c : K S A) (k : A -> K S B) (h : B -> K S C) s tr R :
  runs (kbind c (fun a => kbind (k a) h)) s tr R -> runs (kbind (kbind c k) h) s tr R.
Proof. unfold runs. by setoid_rewrite kbind_assoc. Qed.

Lemma runs_ret {S A} (a : A) (s : S) tr (Q : A -> S -> Prop) : Q a s -> runs (kret a) s tr Q.
Proof. intros HQ. by exists a, s. Qed.

Lemma runs_det {S A} (c : K S A) s tr a s' : c s tr = Done a s' tr -> runs c s tr (fun b s1 => b = a /\ s1 = s').
Proof. intros E. by exists a, s'. Qed.

Lemma runs_kret {S A} (a : A) (s : S) tr : runs (kret a) s tr (fun b s1 => b = a /\ s1 = s).
Proof. by apply runs_det. Qed.

Lemma runs_gets {S A} (f : S -> A) s tr : runs (gets f) s tr (fun a s' => a = f s /\ s' = s).
Proof. by exists (f s), s. Qed.

Lemma runs_modify {S} (f : S -> S) s tr : runs (modify f) s tr (fun _ s' => s' = f s).
Proof. by exists tt, (f s). Qed.

Lemma runs_impl {S A} (c : K S A) s tr (Q R : A -> S -> Prop) :
  runs c s tr Q -> (forall a s', Q a s' -> R a s') -> runs c s tr R.
Proof. intros (a & s' & E & HQ) Himp. exists a, s'. auto. Qed.

Lemma runs_for_each {S} (P : nat -> S -> Prop) (body : nat -> K S unit) tr n lo s :
  P lo s ->
  (forall k s, (lo <= k < lo + n)%nat -> P k s -> runs (body k) s tr (fun _ s' => P (Datatypes.S k) s')) ->
  runs (for_each n lo body) s tr (fun _ s' => P (lo + n)%nat s').
Proof.
  intros HP Hb. destruct (for_each_inv P body tr n lo s HP) as (s' & E & HP').
  - intros k s1 Hk H1. destruct (Hb k s1 Hk H1) as ([] & s2 & E & H2). by exists s2.
  - by exists tt, s'.
Qed.

(** A loop that leaves with a result or goes on to the end. *)
Lemma runs_for_upto {S A} (P : nat -> S -> Prop) (Q : A -> S -> Prop) (body : nat -> K S (option A)) tr n : forall lo s,
  P lo s ->
  (forall k s, (lo <= k < lo + n)%nat -> P k s ->
    runs (body k) s tr (fun r s' => match r with Some a => Q a s' | None => P (Datatypes.S k) s' end)) ->
  runs (for_upto n lo body) s tr (fun r s' => match r with Some a => Q a s' | None => P (lo + n)%nat s' end).
Proof.
  induction n as [|n IH]; intros lo s HP Hb; cbn [for_upto].
  - apply runs_ret. by rewrite Nat.add_0_r.
  - eapply runs_bind; [apply (Hb lo s); [lia|done]|]. intros [a|] s' H'; [by apply runs_ret|].
    replace (lo + Datatypes.S n)%nat with (Datatypes.S lo + n)%nat by lia. apply IH; [done|].
    intros k s1 Hk. apply Hb. lia.
Qed.

Ltac rassoc := repeat match goal with |- runs (kbind (kbind _ _) _) _ _ _ => apply runs_assoc end.
(** [rstep H as p]: the next action runs by [H]; [rlast H as p]: the last one. *)
Tactic Notation "rstep" open_constr(H) "as" simple_intropattern(p) :=
  rassoc; eapply runs_bind; [eapply H|intros ? ? p; cbv beta].
Tactic Notation "rlast" open_constr(H) "as" simple_intropattern(p) :=
  eapply runs_impl; [eapply H|intros ? ? p; cbv beta].

(** ** Lists updated in place *)
Lemma alter_at {A} (f g : A -> A) (l : list A) i x :
  l !! i = Some x -> f x = g x -> alter f i l = alter g i l.
Proof. intros H E. apply list_alter_ext; [|done]. intros y Hy. by simplify_eq. Qed.

Lemma alter_at_id {A} (f : A -> A) (l : list A) i x :
  l !! i = Some x -> f x = x -> alter f i l = l.
Proof.
  intros H E. rewrite (alter_at f id l i x H E). by apply list_alter_id.
Qed.
