(* ===== verification/State.v ===== *)
(** * The kernel's global state

    The C globals of the kernel as one record, [kstate]: the harts and their
    spinlocks, physical memory and the page allocator's list head, the process
    table, the buffer cache, log, inode and file tables, and the disk.  Pointers into a static table ([struct proc *], [struct file *],
    [struct inode *]) are indices of that table, [option nat] where the C
    pointer may be null; addresses are [Z]. *)

From stdpp Require Import prelude list strings gmap countable.
From Stdlib Require Import ZArith Lia ZifyBool.
From S2P Require Import Prelude.
Local Open Scope Z_scope.

(** Primitive projections give the records definitional eta, so that an update
    that writes back what it read is the identity by conversion. *)
Set Primitive Projections.

(** ** Constants of param.h, riscv.h, memlayout.h *)
Definition NPROC : nat := 64.
Definition NCPU : nat := 8.
Definition NOFILE : nat := 16.
Definition PGSIZE : Z := 4096.
Definition KERNBASE : Z := 0x80000000.
Definition PHYSTOP : Z := KERNBASE + 128 * 1024 * 1024.
Definition MAXVA : Z := Z.shiftl 1 (9 + 9 + 9 + 12 - 1).
Definition UART0 : Z := 0x10000000.
Definition UART0_IRQ : Z := 10.
Definition VIRTIO0 : Z := 0x10001000.
Definition VIRTIO0_IRQ : Z := 1.
Definition PLIC : Z := 0x0c000000.
Definition PLIC_SENABLE (hart : Z) : Z := PLIC + 0x2080 + hart * 0x100.
Definition PLIC_SPRIORITY (hart : Z) : Z := PLIC + 0x201000 + hart * 0x2000.
Definition PLIC_SCLAIM (hart : Z) : Z := PLIC + 0x201004 + hart * 0x2000.
Definition TRAMPOLINE : Z := MAXVA - PGSIZE.
Definition TRAPFRAME : Z := TRAMPOLINE - PGSIZE.
Definition KSTACK (p : Z) : Z := TRAMPOLINE - (p + 1) * 2 * PGSIZE.
Definition PGROUNDUP (sz : Z) : Z := Z.land (u64 (sz + PGSIZE - 1)) (Z.lnot (PGSIZE - 1)).
Definition PGROUNDDOWN (a : Z) : Z := Z.land a (Z.lnot (PGSIZE - 1)).

(** Addresses the linker script and the assembly files provide: the end of the
    kernel image, the end of its text, the trampoline page and the entry
    points whose addresses the C code takes. *)
Class KernelLayout := {
  kernel_end : Z;
  etext : Z;
  trampoline : Z;
  forkret_addr : Z;
  kernelvec_addr : Z;
  usertrap_addr : Z;
  uservec_off : Z;
  userret_off : Z }.

(** ** Locks and wait channels *)
Inductive sleepid :=
| SL_buf (i : nat)
| SL_inode (i : nat)
| SL_tx.

Inductive lockid :=
| L_kmem
| L_pid
| L_wait
| L_ticks
| L_bcache
| L_log
| L_itable
| L_ftable
| L_cons
| L_pr
| L_vdisk
| L_proc (i : nat)
| L_pipe (pi : Z)
| L_sleep (sl : sleepid).

(** What a thread can sleep on; in C the address of the object. *)
Inductive wchan :=
| Ch_proc (i : nat)
| Ch_ticks
| Ch_log
| Ch_nread (pi : Z)
| Ch_nwrite (pi : Z)
| Ch_cons
| Ch_tx
| Ch_diskfree
| Ch_buf (i : nat)
| Ch_sleep (sl : sleepid).

#[export] Instance sleepid_eq : EqDecision sleepid.
Proof. solve_decision. Defined.
#[export] Instance lockid_eq : EqDecision lockid.
Proof. solve_decision. Defined.
#[export] Instance wchan_eq : EqDecision wchan.
Proof. solve_decision. Defined.

Definition sleepid_code (sl : sleepid) : nat * nat :=
  match sl with SL_buf i => (0, i)%nat | SL_inode i => (1, i)%nat | SL_tx => (2, 0)%nat end.

Definition sleepid_decode (c : nat * nat) : sleepid :=
  match c with (0, i) => SL_buf i | (1, i) => SL_inode i | _ => SL_tx end%nat.

#[export] Instance sleepid_countable : Countable sleepid.
Proof. apply (inj_countable' sleepid_code sleepid_decode). by intros []. Defined.

Definition lockid_code (l : lockid) : nat * (nat * Z) :=
  match l with
  | L_kmem => (0, (0, 0%Z))%nat | L_pid => (1, (0, 0%Z))%nat | L_wait => (2, (0, 0%Z))%nat
  | L_ticks => (3, (0, 0%Z))%nat | L_bcache => (4, (0, 0%Z))%nat | L_log => (5, (0, 0%Z))%nat
  | L_itable => (6, (0, 0%Z))%nat | L_ftable => (7, (0, 0%Z))%nat | L_cons => (8, (0, 0%Z))%nat
  | L_pr => (9, (0, 0%Z))%nat | L_vdisk => (10, (0, 0%Z))%nat
  | L_proc i => (11, (i, 0%Z))%nat | L_pipe pi => (12, (0, pi))%nat
  | L_sleep (SL_buf i) => (13, (i, 0%Z))%nat
  | L_sleep (SL_inode i) => (14, (i, 0%Z))%nat
  | L_sleep SL_tx => (15, (0, 0%Z))%nat
  end.

Definition lockid_decode (c : nat * (nat * Z)) : lockid :=
  match c with
  | (0, _) => L_kmem | (1, _) => L_pid | (2, _) => L_wait | (3, _) => L_ticks
  | (4, _) => L_bcache | (5, _) => L_log | (6, _) => L_itable | (7, _) => L_ftable
  | (8, _) => L_cons | (9, _) => L_pr | (10, _) => L_vdisk
  | (11, (i, _)) => L_proc i | (12, (_, pi)) => L_pipe pi
  | (13, (i, _)) => L_sleep (SL_buf i) | (14, (i, _)) => L_sleep (SL_inode i)
  | _ => L_sleep SL_tx
  end%nat.

#[export] Instance lockid_countable : Countable lockid.
Proof. apply (inj_countable' lockid_code lockid_decode). by intros [| | | | | | | | | | | | |[]]. Defined.

(** ** Processors (proc.h, [struct cpu])

    Besides the fields of the struct, the supervisor registers of the hart:
    [c_sie], [c_spp] and [c_spie] are bits of sstatus.  The saved scheduler
    context is not kept: [swtch] is a turn of the environment. *)
Record cpu := mkcpu {
  c_proc : option nat;
  c_noff : Z;
  c_intena : bool;
  c_sie : bool;
  c_satp : Z;
  c_spp : bool;
  c_spie : bool;
  c_stvec : Z;
  c_sepc : Z;
  c_scause : Z;
  c_stval : Z;
  c_stimecmp : Z }.
#[export] Instance eta_cpu : Eta cpu :=
  fun c => mkcpu (c_proc c) (c_noff c) (c_intena c) (c_sie c) (c_satp c) (c_spp c) (c_spie c)
    (c_stvec c) (c_sepc c) (c_scause c) (c_stval c) (c_stimecmp c).
Definition boot_cpu : cpu := mkcpu None 0 false false 0 false false 0 0 0 0 0.

(** ** Processes (proc.h, [struct proc]) *)
Inductive procstate := UNUSED | USED | SLEEPING | RUNNABLE | RUNNING | ZOMBIE.
#[export] Instance procstate_eq : EqDecision procstate.
Proof. solve_decision. Defined.

Definition PRIORITY_MIN : Z := 0.
Definition PRIORITY_MAX : Z := 31.
Definition PRIORITY_DEFAULT : Z := 10.
Definition AGING_INTERVAL : Z := 50.

Definition priority_valid (priority : Z) : bool :=
  (PRIORITY_MIN <=? priority) && (priority <=? PRIORITY_MAX).

(** [context] keeps the two registers [allocproc] sets; the pointers
    [p_pagetable] and [p_trapframe] are physical addresses, 0 when null. *)
Record context := mkcontext { ctx_ra : Z; ctx_sp : Z }.

Record proc := mkproc {
  p_state : procstate;
  p_chan : option wchan;
  p_killed : Z;
  p_xstate : Z;
  p_pid : Z;
  p_priority : Z;
  p_wait_ticks : Z;
  p_parent : option nat;
  p_kstack : Z;
  p_sz : Z;
  p_pagetable : Z;
  p_trapframe : Z;
  p_context : context;
  p_ofile : list (option nat);
  p_cwd : option nat;
  p_name : list Z }.
#[export] Instance eta_proc : Eta proc :=
  fun p => mkproc (p_state p) (p_chan p) (p_killed p) (p_xstate p) (p_pid p)
    (p_priority p) (p_wait_ticks p) (p_parent p) (p_kstack p) (p_sz p)
    (p_pagetable p) (p_trapframe p) (p_context p) (p_ofile p) (p_cwd p) (p_name p).

(** The bss image of a process slot. *)
Definition proc_bss : proc :=
  mkproc UNUSED None 0 0 0 0 0 None 0 0 0 0 (mkcontext 0 0)
    (replicate NOFILE None) None (replicate 16 0).

(** ** Disk blocks, buffers, inodes and files

    A block is the list of its [BSIZE] bytes.  In the buffer cache the address
    of a [struct buf] is its index in [bcache.buf], and [NBUF] stands for
    [&bcache.head]. *)
Definition BSIZE : Z := 1024.
Definition NFILE : nat := 100.
Definition NINODE : nat := 50.
Definition NDEV : Z := 10.
Definition ROOTDEV : Z := 1.
Definition ROOTINO : Z := 1.
Definition MAXARG : Z := 32.
Definition MAXOPBLOCKS : Z := 10.
Definition LOGBLOCKS : Z := MAXOPBLOCKS * 3.
Definition NBUF : nat := 30.
Definition NDIRECT : Z := 12.
Definition NINDIRECT : Z := BSIZE / 4.
Definition MAXFILE : Z := NDIRECT + NINDIRECT.
Definition zero_block : list Z := replicate 1024 0.

(** buf.h, [struct buf]; the sleep lock is kept in [k_sleep]. *)
Record buf := mkbuf {
  b_valid : Z;
  b_disk : Z;
  b_dev : Z;
  b_blockno : Z;
  b_refcnt : Z;
  b_prev : nat;
  b_next : nat;
  b_data : list Z }.
#[export] Instance eta_buf : Eta buf :=
  fun b => mkbuf (b_valid b) (b_disk b) (b_dev b) (b_blockno b) (b_refcnt b) (b_prev b) (b_next b) (b_data b).
Definition buf_bss : buf := mkbuf 0 0 0 0 0 0 0 zero_block.

(** log.c, [struct log] with its [struct logheader]. *)
Record logst := mklog {
  log_start : Z;
  log_outstanding : Z;
  log_committing : bool;
  log_dev : Z;
  log_ncommit : Z;
  lh_n : Z;
  lh_block : list Z }.
#[export] Instance eta_logst : Eta logst :=
  fun l => mklog (log_start l) (log_outstanding l) (log_committing l) (log_dev l) (log_ncommit l) (lh_n l) (lh_block l).

(** fs.h, [struct superblock]. *)
Record superblock := mksb {
  sb_magic : Z;
  sb_size : Z;
  sb_nblocks : Z;
  sb_ninodes : Z;
  sb_nlog : Z;
  sb_logstart : Z;
  sb_inodestart : Z;
  sb_bmapstart : Z }.

(** file.h, [struct inode] and [struct file]. *)
Record inode := mkinode {
  i_dev : Z;
  i_inum : Z;
  i_ref : Z;
  i_valid : Z;
  i_type : Z;
  i_major : Z;
  i_minor : Z;
  i_nlink : Z;
  i_size : Z;
  i_addrs : list Z }.
#[export] Instance eta_inode : Eta inode :=
  fun i => mkinode (i_dev i) (i_inum i) (i_ref i) (i_valid i) (i_type i) (i_major i) (i_minor i)
    (i_nlink i) (i_size i) (i_addrs i).
Definition inode_bss : inode := mkinode 0 0 0 0 0 0 0 0 0 (replicate 13 0).

Inductive ftype := FD_NONE | FD_PIPE | FD_INODE | FD_DEVICE.
#[export] Instance ftype_eq : EqDecision ftype.
Proof. solve_decision. Defined.

Record file := mkfile {
  f_type : ftype;
  f_ref : Z;
  f_readable : bool;
  f_writable : bool;
  f_pipe : Z;
  f_ip : option nat;
  f_off : Z;
  f_major : Z }.
#[export] Instance eta_file : Eta file :=
  fun f => mkfile (f_type f) (f_ref f) (f_readable f) (f_writable f) (f_pipe f) (f_ip f) (f_off f) (f_major f).
Definition file_bss : file := mkfile FD_NONE 0 false false 0 None 0 0.

(** pipe.c, [struct pipe]: it lives in a page of its own, whose address names it. *)
Definition PIPESIZE : Z := 512.
Record pipe := mkpipe {
  pi_data : list Z;
  pi_nread : Z;
  pi_nwrite : Z;
  pi_readopen : bool;
  pi_writeopen : bool }.
#[export] Instance eta_pipe : Eta pipe :=
  fun p => mkpipe (pi_data p) (pi_nread p) (pi_nwrite p) (pi_readopen p) (pi_writeopen p).

(** file.h, [struct devsw]: the only functions ever stored there are those of
    the console. *)
Inductive devops := Dev_console.

(** console.c, [cons]. *)
Definition INPUT_BUF_SIZE : Z := 128.
Record consst := mkcons {
  co_buf : list Z;
  co_r : Z;
  co_w : Z;
  co_e : Z }.
#[export] Instance eta_consst : Eta consst :=
  fun c => mkcons (co_buf c) (co_r c) (co_w c) (co_e c).

(** virtio.h and virtio_disk.c, [struct disk] and the queues it points to.  The
    address fields of a descriptor point to a request header, to a buffer's data
    or to a status byte. *)
Definition NUM : nat := 8.
Inductive vaddr := VA_null | VA_ops (i : nat) | VA_data (b : nat) | VA_status (i : nat).
Record virtq_desc := mkdesc {
  vd_addr : vaddr;
  vd_len : Z;
  vd_flags : Z;
  vd_next : Z }.
#[export] Instance eta_virtq_desc : Eta virtq_desc :=
  fun d => mkdesc (vd_addr d) (vd_len d) (vd_flags d) (vd_next d).
Record virtio_blk_req := mkreq {
  vr_type : Z;
  vr_reserved : Z;
  vr_sector : Z }.
#[export] Instance eta_virtio_blk_req : Eta virtio_blk_req :=
  fun r => mkreq (vr_type r) (vr_reserved r) (vr_sector r).
Record vinfo := mkinfo {
  vi_b : option nat;
  vi_status : Z }.
#[export] Instance eta_vinfo : Eta vinfo := fun i => mkinfo (vi_b i) (vi_status i).
Record vdisk := mkvdisk {
  v_desc : list virtq_desc;
  v_avail_idx : Z;
  v_avail_ring : list Z;
  v_used_idx_dev : Z;            (* disk.used->idx, written by the device *)
  v_used_ring : list Z;          (* disk.used->ring[i].id *)
  v_free : list bool;
  v_used_idx : Z;                (* disk.used_idx *)
  v_info : list vinfo;
  v_ops : list virtio_blk_req }.
#[export] Instance eta_vdisk : Eta vdisk :=
  fun v => mkvdisk (v_desc v) (v_avail_idx v) (v_avail_ring v) (v_used_idx_dev v) (v_used_ring v)
    (v_free v) (v_used_idx v) (v_info v) (v_ops v).
Definition vdisk_bss : vdisk :=
  mkvdisk (replicate NUM (mkdesc VA_null 0 0 0)) 0 (replicate NUM 0) 0 (replicate NUM 0)
    (replicate NUM false) 0 (replicate NUM (mkinfo None 0)) (replicate NUM (mkreq 0 0 0)).

(** ** The globals *)
Record kstate := mkstate {
  k_tp : nat;                    (* tp register: which hart executes *)
  k_cpus : list cpu;             (* cpus[NCPU] *)
  k_locks : gmap lockid nat;     (* held spinlocks, with the hart in lk->cpu *)
  k_mem : Z -> Z;                (* physical memory, one byte per address *)
  k_freelist : Z;                (* kmem.freelist *)
  k_procs : list proc;           (* proc[NPROC] *)
  k_nextpid : Z;
  k_initproc : option nat;
  k_ticks : Z;
  k_kpgtbl : Z;                  (* kernel_pagetable *)
  k_sleep : gmap sleepid Z;      (* held sleep locks, with the pid in lk->pid *)
  k_bufs : list buf;             (* bcache.buf[NBUF], then bcache.head *)
  k_log : logst;
  k_sb : superblock;
  k_inodes : list inode;         (* itable.inode[NINODE] *)
  k_files : list file;           (* ftable.file[NFILE] *)
  k_pipes : gmap Z pipe;         (* the struct pipe at each pipe page *)
  k_disk : Z -> list Z;          (* contents of the disk, by block number *)
  k_dhist : list (Z * list Z);   (* the writes the disk has performed, newest first *)
  k_vdisk : vdisk;               (* disk of virtio_disk.c *)
  k_devsw : gmap Z devops;       (* devsw[NDEV] *)
  k_cons : consst;
  k_uart_in : list Z;            (* bytes received and not yet read from RHR *)
  k_uart_out : list Z;           (* bytes written to THR, newest first *)
  k_started : bool;              (* started of main.c *)
  k_first : bool }.              (* first of forkret *)
#[export] Instance eta_kstate : Eta kstate :=
  fun s => mkstate (k_tp s) (k_cpus s) (k_locks s) (k_mem s) (k_freelist s)
    (k_procs s) (k_nextpid s) (k_initproc s) (k_ticks s) (k_kpgtbl s)
    (k_sleep s) (k_bufs s) (k_log s) (k_sb s) (k_inodes s) (k_files s) (k_pipes s)
    (k_disk s) (k_dhist s) (k_vdisk s) (k_devsw s) (k_cons s) (k_uart_in s) (k_uart_out s) (k_started s) (k_first s).

Abbreviation Kern := (K kstate).

(** The state the kernel boots in: the bss image, hart 0 executing with
    interrupts off. *)
Definition boot_state : kstate :=
  mkstate 0 (replicate NCPU boot_cpu) ∅ (fun _ => 0) 0
    (replicate NPROC proc_bss) 1 None 0 0
    ∅ (replicate (S NBUF) buf_bss) (mklog 0 0 false 0 0 0 (replicate 30 0)) (mksb 0 0 0 0 0 0 0 0)
    (replicate NINODE inode_bss) (replicate NFILE file_bss) ∅ (fun _ => zero_block) []
    vdisk_bss ∅ (mkcons (replicate 128 0) 0 0 0) [] [] false true.

(** ** Devices
    Loads and stores of memory-mapped registers are answered by the devices,
    which are not part of the kernel: a load yields a value and may change the
    device's side of the state, a store changes it.  [dev_time] is the time
    register of the hart. *)
Class Devices := {
  dev_load : Z -> kstate -> Z * kstate;
  dev_store : Z -> Z -> kstate -> kstate;
  dev_time : kstate -> Z }.
Definition mmio_load `{Devices} (a : Z) : Kern Z :=
  fun s tr => let '(v, s') := dev_load a s in Done v s' tr.
Definition mmio_store `{Devices} (a v : Z) : Kern unit := modify (dev_store a v).
