(* ===== verification/Spinlock.v ===== *)
(** * Interrupt nesting and spinlocks (kernel/spinlock.c)

    [push_off]/[pop_off] and [acquire]/[release] on the state of the hart that
    executes, with their panics.  A lock held by another hart makes [acquire]
    spin: each turn of the environment may release it.

    [enter lk s] is the state in which the current hart has just taken [lk];
    [touch s] is the trace a balanced critical section leaves, which is the
    saved interrupt flag and nothing else.  The run lemmas of this file are
    what every other component uses to step through a critical section. *)

From stdpp Require Import prelude list strings gmap.
From Stdlib Require Import ZArith Lia ZifyBool.
From S2P Require Import Prelude State.
Local Open Scope Z_scope.

(** ** The code *)
Definition cpuid : Kern nat := gets k_tp.

Definition mycpu : Kern cpu :=
  let! s := kget in deref (k_cpus s !! k_tp s).

(** An assignment through the [struct cpu *] that [mycpu] returns. *)
Definition set_mycpu (f : cpu -> cpu) : Kern unit :=
  modify (fun s => s <| k_cpus ::= alter f (k_tp s) |>).

Definition intr_on : Kern unit := set_mycpu (fun c => c <| c_sie := true |>).
Definition intr_off : Kern unit := set_mycpu (fun c => c <| c_sie := false |>).
Definition intr_get : Kern bool := let! c := mycpu in kret (c_sie c).

Definition push_off : Kern unit :=
  let! flags := intr_get in
  intr_off ;;
  let! c := mycpu in
  when (c_noff c =? 0) (set_mycpu (fun c => c <| c_intena := flags |>)) ;;
  set_mycpu (fun c => c <| c_noff ::= Z.add 1 |>).

Definition pop_off : Kern unit :=
  let! on := intr_get in
  if on then panic "pop_off - interruptible" else
  let! c := mycpu in
  if c_noff c <? 1 then panic "pop_off" else
  set_mycpu (fun c => c <| c_noff ::= fun n => n - 1 |>) ;;
  let! c := mycpu in
  when ((c_noff c =? 0) && c_intena c) intr_on.

Definition holding (lk : lockid) : Kern bool :=
  let! s := kget in kret (bool_decide (k_locks s !! lk = Some (k_tp s))).

(** [initlock]: the lock is free. *)
Definition initlock (lk : lockid) : Kern unit :=
  modify (fun s => s <| k_locks ::= delete lk |>).

(** The [__atomic_exchange_n] loop of [acquire]. *)
Fixpoint spin (lk : lockid) (s : kstate) (tr : list (kstate -> kstate)) : outcome kstate unit :=
  match k_locks s !! lk with
  | None => Done tt (s <| k_locks ::= <[lk := k_tp s]> |>) tr
  | Some _ =>
      match tr with
      | [] => Blocked
      | e :: tr' => spin lk (e s) tr'
      end
  end.

Definition acquire (lk : lockid) : Kern unit :=
  push_off ;;
  let! h := holding lk in
  if h then panic "acquire" else
  (fun s tr => spin lk s tr).

Definition release (lk : lockid) : Kern unit :=
  let! h := holding lk in
  if negb h then panic "release" else
  modify (fun s => s <| k_locks ::= delete lk |>) ;;
  pop_off.

(** Reading [c->proc] of the current hart with interrupts off (proc.c). *)
Definition myproc : Kern (option nat) :=
  push_off ;;
  let! c := mycpu in
  pop_off ;;
  kret (c_proc c).

(** ** What a critical section does to the hart *)
Definition push_cpu (c : cpu) : cpu :=
  c <| c_intena := if c_noff c =? 0 then c_sie c else c_intena c |>
    <| c_sie := false |>
    <| c_noff := 1 + c_noff c |>.

Definition touch_cpu (c : cpu) : cpu :=
  c <| c_intena := if c_noff c =? 0 then c_sie c else c_intena c |>.

(** The well-formedness of the hart's interrupt state: the nesting count is not
    negative, and while it is positive interrupts are off. *)
Definition cpu_ok (c : cpu) : Prop :=
  0 <= c_noff c /\ (0 < c_noff c -> c_sie c = false).

Definition hart_ok (s : kstate) : Prop :=
  exists c, k_cpus s !! k_tp s = Some c /\ cpu_ok c.

Definition enter (lk : lockid) (s : kstate) : kstate :=
  s <| k_cpus := alter push_cpu (k_tp s) (k_cpus s) |>
    <| k_locks := <[lk := k_tp s]> (k_locks s) |>.

Definition touch (s : kstate) : kstate :=
  s <| k_cpus := alter touch_cpu (k_tp s) (k_cpus s) |>.

(** ** Run lemmas *)
Lemma mycpu_run s tr c :
  k_cpus s !! k_tp s = Some c -> mycpu s tr = Done c s tr.
Proof. intros H. unfold mycpu, kbind, kget. by rewrite H. Qed.

Lemma set_mycpu_run f s tr :
  set_mycpu f s tr = Done tt (s <| k_cpus := alter f (k_tp s) (k_cpus s) |>) tr.
Proof. done. Qed.

Lemma push_off_run s tr c :
  k_cpus s !! k_tp s = Some c ->
  push_off s tr = Done tt (s <| k_cpus := alter push_cpu (k_tp s) (k_cpus s) |>) tr.
Proof.
  intros H. unfold push_off, intr_get, intr_off, mycpu, set_mycpu. kred. rewrite H. cbn.
  rewrite list_lookup_alter_eq, H. cbn.
  destruct (c_noff c =? 0) eqn:E; kred; cbn; rewrite !list_alter_alter_eq;
    erewrite (alter_at _ push_cpu); try done; unfold push_cpu; cbn; by rewrite E.
Qed.

Lemma pop_off_run s tr c :
  k_cpus s !! k_tp s = Some c -> cpu_ok c ->
  pop_off (s <| k_cpus := alter push_cpu (k_tp s) (k_cpus s) |>) tr = Done tt (touch s) tr.
Proof.
  intros H [Hn Hs]. unfold pop_off, intr_get, intr_on, mycpu, set_mycpu, touch. kred. cbn.
  rewrite list_lookup_alter_eq, H. cbn.
  rewrite list_lookup_alter_eq, H. cbn. rewrite (proj2 (Z.ltb_ge _ _)) by lia. cbn.
  rewrite !list_lookup_alter_eq, H. cbn. replace (1 + c_noff c - 1) with (c_noff c) by lia.
  rewrite list_alter_alter_eq.
  destruct (c_noff c =? 0) eqn:E; cbn; [destruct (c_sie c) eqn:Es; cbn|].
  all: rewrite ?list_alter_alter_eq; erewrite (alter_at _ touch_cpu); try done.
  all: unfold touch_cpu, push_cpu; destruct c; cbn in *; rewrite E; f_equal; try lia; try done.
Qed.

Lemma hart_ok_enter lk s : hart_ok s -> hart_ok (enter lk s).
Proof.
  intros (c & H & Hn & Hs). exists (push_cpu c). cbn. rewrite list_lookup_alter_eq, H.
  split; [done|]. split; cbn; [lia|done].
Qed.

Lemma hart_ok_touch s : hart_ok s -> hart_ok (touch s).
Proof.
  intros (c & H & Hn & Hs). exists (touch_cpu c). cbn. by rewrite list_lookup_alter_eq, H.
Qed.

(** A nested critical section leaves no trace at all. *)
Lemma touch_enter lk s : hart_ok s -> touch (enter lk s) = enter lk s.
Proof.
  intros (c & H & Hn & Hs). unfold touch, enter. cbn. f_equal.
  eapply alter_at_id; [by rewrite list_lookup_alter_eq, H|].
  unfold touch_cpu, push_cpu. cbn. destruct (Z.eqb_spec (1 + c_noff c) 0); [lia|done].
Qed.

Lemma touch_touch s : touch (touch s) = touch s.
Proof.
  unfold touch. cbn. f_equal. rewrite list_alter_alter_eq. apply list_alter_ext; [|done].
  intros c _. unfold touch_cpu. cbn. by destruct (c_noff c =? 0).
Qed.

Lemma enter_touch lk s : enter lk (touch s) = enter lk s.
Proof.
  unfold enter, touch. cbn. rewrite list_alter_alter_eq. f_equal. apply list_alter_ext; [|done].
  intros c _. unfold push_cpu, touch_cpu. cbn. by destruct (c_noff c =? 0).
Qed.

Lemma acquire_run lk s tr :
  hart_ok s -> k_locks s !! lk = None -> acquire lk s tr = Done tt (enter lk s) tr.
Proof.
  intros (c & H & _) Hl. unfold acquire, holding.
  kstep (push_off_run s tr c H). kred. cbn. rewrite bool_decide_eq_false_2 by (rewrite Hl; done).
  destruct tr; cbn; by rewrite Hl.
Qed.

(** Re-acquiring a lock the hart already holds is caught. *)
Lemma acquire_held lk s tr :
  hart_ok s -> k_locks s !! lk = Some (k_tp s) -> acquire lk s tr = Panicked "acquire".
Proof.
  intros (c & H & _) Hl. unfold acquire, holding.
  kstep (push_off_run s tr c H). kred. cbn. by rewrite bool_decide_eq_true_2.
Qed.

Lemma release_run lk s tr :
  hart_ok s -> k_locks s !! lk = None -> release lk (enter lk s) tr = Done tt (touch s) tr.
Proof.
  intros (c & H & Hc) Hl. unfold release, holding. kred. cbn.
  rewrite bool_decide_eq_true_2 by apply lookup_insert_eq. cbn. kred. cbn.
  rewrite delete_insert_id by done.
  rewrite <- (pop_off_run s tr c H Hc). done.
Qed.

(** Locks may be released in any order. *)
Lemma release_outer l1 l2 s tr :
  hart_ok s -> k_locks s !! l1 = None -> l1 <> l2 ->
  release l1 (enter l2 (enter l1 s)) tr = Done tt (enter l2 s) tr.
Proof.
  intros Hok Hl Hne. unfold release, holding. kred. cbn.
  rewrite bool_decide_eq_true_2.
  2: { rewrite lookup_insert_ne by done. apply lookup_insert_eq. }
  cbn. kred. cbn. rewrite delete_insert_ne, delete_insert_id by done.
  destruct (hart_ok_enter l2 s Hok) as (c & H & Hc).
  pose proof (pop_off_run (enter l2 s) tr c H Hc) as P. by rewrite touch_enter in P.
Qed.

Lemma release_not_held lk s tr :
  k_locks s !! lk <> Some (k_tp s) -> release lk s tr = Panicked "release".
Proof. intros H. unfold release, holding. kred. by rewrite bool_decide_eq_false_2. Qed.

Lemma myproc_run s tr c :
  k_cpus s !! k_tp s = Some c -> cpu_ok c ->
  myproc s tr = Done (c_proc c) (touch s) tr.
Proof.
  intros H Hc. unfold myproc. kstep (push_off_run s tr c H).
  kstep mycpu_run; [cbn; by rewrite list_lookup_alter_eq, H|].
  by kstep (pop_off_run s tr c H Hc).
Qed.

#[export] Hint Resolve hart_ok_enter hart_ok_touch : xv6.
