(* ===== verification/CString.v ===== *)
(** * Memory and string primitives (kernel/string.c)

    Memory is a function from addresses to byte values.  A [const char *] that is
    only read is a reader [nat -> Z] of the bytes it points to; a buffer that is
    written is the list of its bytes.  The loops are the source's loops. *)

From stdpp Require Import prelude list.
From Stdlib Require Import ZArith Lia ZifyBool.
From S2P Require Import Prelude State.
Local Open Scope Z_scope.

(** [*(char * )a = v] *)
Definition store8 (m : Z -> Z) (a v : Z) : Z -> Z :=
  fun x => if x =? a then u8 v else m x.

(** The memory after [n] iterations of the loop of [memset]. *)
Fixpoint memset_loop (m : Z -> Z) (dst c : Z) (n : nat) : Z -> Z :=
  match n with
  | O => m
  | S i => store8 (memset_loop m dst c i) (dst + Z.of_nat i) c
  end.
Definition memset (m : Z -> Z) (dst c n : Z) : Z -> Z := memset_loop m dst c (Z.to_nat n).

Fixpoint memcmp_loop (m : Z -> Z) (s1 s2 : Z) (n : nat) : Z :=
  match n with
  | O => 0
  | S n' => if negb (m s1 =? m s2) then m s1 - m s2 else memcmp_loop m (s1 + 1) (s2 + 1) n'
  end.
Definition memcmp (m : Z -> Z) (s1 s2 n : Z) : Z := memcmp_loop m s1 s2 (Z.to_nat n).

(** [while (n-- > 0) *--d = *--s;] *)
Fixpoint copy_backward (m : Z -> Z) (d s : Z) (n : nat) : Z -> Z :=
  match n with
  | O => m
  | S n' => copy_backward (store8 m (d - 1) (m (s - 1))) (d - 1) (s - 1) n'
  end.

(** [while (n-- > 0) *d++ = *s++;] *)
Fixpoint copy_forward (m : Z -> Z) (d s : Z) (n : nat) : Z -> Z :=
  match n with
  | O => m
  | S n' => copy_forward (store8 m d (m s)) (d + 1) (s + 1) n'
  end.

Definition memmove (m : Z -> Z) (dst src n : Z) : Z -> Z :=
  if n =? 0 then m else
  let s := src in
  let d := dst in
  if (s <? d) && (d <? s + n)
  then copy_backward m (d + n) (s + n) (Z.to_nat n)
  else copy_forward m d s (Z.to_nat n).

Fixpoint strncmp_from (p q : nat -> Z) (i n : nat) : Z :=
  match n with
  | O => 0
  | S n' =>
      if negb (p i =? 0) && (p i =? q i) then strncmp_from p q (S i) n'
      else p i - q i
  end.
Definition strncmp (p q : nat -> Z) (n : nat) : Z := strncmp_from p q 0 n.

(** [while (n-- > 0) *s++ = 0;] *)
Fixpoint pad_zero (s : list Z) (i n : nat) : list Z :=
  match n with
  | O => s
  | S n' => pad_zero (<[i := 0]> s) (S i) n'
  end.

Fixpoint strncpy_from (s : list Z) (t : nat -> Z) (i n : nat) : list Z :=
  match n with
  | O => s
  | S n' =>
      let s := <[i := t i]> s in
      if negb (t i =? 0) then strncpy_from s t (S i) n' else pad_zero s (S i) n'
  end.
Definition strncpy (s : list Z) (t : nat -> Z) (n : nat) : list Z := strncpy_from s t 0 n.

(** [n] is the loop counter after [--n]: what is left to copy. *)
Fixpoint safestrcpy_from (s : list Z) (t : nat -> Z) (i n : nat) : list Z :=
  match n with
  | O => <[i := 0]> s
  | S n' =>
      let s := <[i := t i]> s in
      if negb (t i =? 0) then safestrcpy_from s t (S i) n' else <[S i := 0]> s
  end.
Definition safestrcpy (s : list Z) (t : nat -> Z) (n : nat) : list Z :=
  match n with O => s | S n' => safestrcpy_from s t 0 n' end.

(** [strlen] reads until the first NUL; [fuel] bounds the bytes it may read. *)
Fixpoint strlen_from (s : nat -> Z) (n fuel : nat) : option nat :=
  match fuel with
  | O => None
  | S fuel' => if s n =? 0 then Some n else strlen_from s (S n) fuel'
  end.
Definition strlen (s : nat -> Z) (fuel : nat) : option nat := strlen_from s 0 fuel.

(** The reader of a buffer: bytes past its end are not the program's. *)
Definition reads (l : list Z) : nat -> Z := fun i => nth i l 0.
Arguments reads : simpl never.

(** ** What the loops compute *)
Lemma memset_spec m dst c n a :
  memset m dst c n a = if (dst <=? a) && (a <? dst + n) then u8 c else m a.
Proof.
  unfold memset. transitivity (if (dst <=? a) && (a <? dst + Z.of_nat (Z.to_nat n)) then u8 c else m a).
  - induction (Z.to_nat n) as [|i IH]; cbn [memset_loop].
    + destruct (_ && _) eqn:E; [|done]. lia.
    + unfold store8. rewrite IH. repeat case_match; try done; lia.
  - repeat case_match; try done; lia.
Qed.

Definition bytes (m : Z -> Z) : Prop := forall a, 0 <= m a < 2 ^ 8.

Lemma u8_byte z : 0 <= z < 2 ^ 8 -> u8 z = z.
Proof. apply Z.mod_small. Qed.

Lemma bytes_store8 m a v : bytes m -> bytes (store8 m a v).
Proof.
  intros H x. unfold store8. case_match; [|apply H]. unfold u8. apply Z.mod_pos_bound. lia.
Qed.

Lemma copy_forward_spec n : forall m d s a,
  bytes m -> (d <= s \/ s + Z.of_nat n <= d) ->
  copy_forward m d s n a =
    if (d <=? a) && (a <? d + Z.of_nat n) then m (s + (a - d)) else m a.
Proof.
  induction n as [|n IH]; intros m d s a Hm Hd; cbn [copy_forward].
  - destruct (_ && _) eqn:E; [lia|done].
  - rewrite IH by (auto using bytes_store8; lia). unfold store8.
    rewrite (u8_byte (m s)) by apply Hm. repeat case_match; try lia; f_equal; lia.
Qed.

Lemma copy_backward_spec n : forall m d s a,
  bytes m -> s <= d ->
  copy_backward m d s n a =
    if (d - Z.of_nat n <=? a) && (a <? d) then m (s + (a - d)) else m a.
Proof.
  induction n as [|n IH]; intros m d s a Hm Hd; cbn [copy_backward].
  - destruct (_ && _) eqn:E; [lia|done].
  - rewrite IH by (auto using bytes_store8; lia). unfold store8.
    rewrite (u8_byte (m (s - 1))) by apply Hm. repeat case_match; try lia; f_equal; lia.
Qed.

Lemma memmove_spec m dst src n a :
  bytes m -> 0 <= n ->
  memmove m dst src n a =
    if (dst <=? a) && (a <? dst + n) then m (src + (a - dst)) else m a.
Proof.
  intros Hm Hn. unfold memmove. destruct (Z.eqb_spec n 0) as [->|].
  { destruct (_ && _) eqn:E; [lia|done]. }
  destruct (_ && _) eqn:E.
  - rewrite copy_backward_spec by (done || lia). repeat case_match; try lia; f_equal; lia.
  - rewrite copy_forward_spec by (done || lia). repeat case_match; try lia; f_equal; lia.
Qed.

(** The C string at [p], cut at [n] bytes: its characters before the first NUL. *)
Fixpoint cstrn_from (p : nat -> Z) (i n : nat) : list Z :=
  match n with
  | O => []
  | S n' => if p i =? 0 then [] else p i :: cstrn_from p (S i) n'
  end.
Definition cstrn (p : nat -> Z) (n : nat) : list Z := cstrn_from p 0 n.

Lemma strncmp_from_eq p q n : forall i,
  strncmp_from p q i n = 0 <-> cstrn_from p i n = cstrn_from q i n.
Proof.
  induction n as [|n IH]; intros i; cbn [strncmp_from cstrn_from]; [done|].
  destruct (Z.eqb_spec (p i) 0) as [Hp|Hp], (Z.eqb_spec (q i) 0) as [Hq|Hq],
    (Z.eqb_spec (p i) (q i)) as [Hpq|Hpq]; cbn; rewrite ?IH; split; intros H; simplify_eq; try done;
    try lia; congruence.
Qed.

Lemma strncmp_eq p q n : strncmp p q n = 0 <-> cstrn p n = cstrn q n.
Proof. apply strncmp_from_eq. Qed.

Lemma cstrn_from_ext p q n : forall i,
  (forall j, (i <= j < i + n)%nat -> (forall k, (i <= k < j)%nat -> p k <> 0) -> p j = q j) ->
  cstrn_from p i n = cstrn_from q i n.
Proof.
  induction n as [|n IH]; intros i H; cbn [cstrn_from]; [done|].
  rewrite <- (H i) by lia. destruct (Z.eqb_spec (p i) 0); [done|]. f_equal.
  apply IH. intros j Hj Hk. apply H; [lia|]. intros k Hk'.
  destruct (decide (k = i)) as [->|]; [done|]. apply Hk. lia.
Qed.

Lemma reads_insert l i j v :
  (i < length l)%nat -> reads (<[i := v]> l) j = if decide (i = j) then v else reads l j.
Proof.
  intros Hi. unfold reads. rewrite !nth_lookup. case_decide as E.
  - subst. by rewrite list_lookup_insert_eq.
  - by rewrite list_lookup_insert_ne.
Qed.

Lemma length_pad_zero n : forall s i, length (pad_zero s i n) = length s.
Proof. induction n; intros s i; cbn; [done|]. by rewrite IHn, length_insert. Qed.

Lemma reads_pad_zero n : forall s i j,
  (i + n <= length s)%nat ->
  reads (pad_zero s i n) j = if decide (i <= j < i + n)%nat then 0 else reads s j.
Proof.
  induction n as [|n IH]; intros s i j Hl; cbn [pad_zero].
  - case_decide; [lia|done].
  - rewrite IH, reads_insert by (rewrite ?length_insert; lia). repeat case_decide; done || lia.
Qed.

Lemma length_strncpy_from n : forall s t i, length (strncpy_from s t i n) = length s.
Proof.
  induction n as [|n IH]; intros s t i; cbn; [done|].
  case_match; rewrite ?IH, ?length_pad_zero; apply length_insert.
Qed.

Lemma strncpy_from_before n : forall s t i j,
  (j < i)%nat -> (i + n <= length s)%nat -> reads (strncpy_from s t i n) j = reads s j.
Proof.
  induction n as [|n IH]; intros s t i j Hj Hl; cbn; [done|].
  case_match; rewrite ?IH, ?reads_pad_zero, ?reads_insert by (rewrite ?length_insert; lia);
    repeat case_decide; done || lia.
Qed.

Lemma strncpy_from_read n : forall s t i j,
  (i + n <= length s)%nat -> (i <= j < i + n)%nat ->
  (forall k, (i <= k < j)%nat -> t k <> 0) ->
  reads (strncpy_from s t i n) j = t j.
Proof.
  induction n as [|n IH]; intros s t i j Hl Hj Hk; cbn; [lia|].
  destruct (decide (i = j)) as [->|Hne].
  - destruct (Z.eqb_spec (t j) 0); cbn;
      rewrite ?strncpy_from_before, ?reads_pad_zero, reads_insert by (rewrite ?length_insert; lia);
      repeat case_decide; done || lia.
  - destruct (Z.eqb_spec (t i) 0) as [E|E]; cbn; [by destruct (Hk i); [lia|]|].
    apply IH; rewrite ?length_insert; try lia. intros; apply Hk; lia.
Qed.

Lemma strncpy_from_cstrn s t n :
  (n <= length s)%nat -> cstrn (reads (strncpy s t n)) n = cstrn t n.
Proof.
  intros Hl. unfold cstrn, strncpy. symmetry. apply cstrn_from_ext. intros j Hj Hk. symmetry.
  apply strncpy_from_read; try lia. intros; apply Hk; lia.
Qed.

Lemma length_safestrcpy_from n : forall s t i, length (safestrcpy_from s t i n) = length s.
Proof.
  induction n as [|n IH]; intros s t i; cbn; [apply length_insert|].
  case_match; rewrite ?IH, ?length_insert; done.
Qed.

Lemma length_safestrcpy n s t : length (safestrcpy s t n) = length s.
Proof. destruct n; [done|apply length_safestrcpy_from]. Qed.

Lemma safestrcpy_from_before n : forall s t i j,
  (j < i)%nat -> (i + n < length s)%nat -> reads (safestrcpy_from s t i n) j = reads s j.
Proof.
  induction n as [|n IH]; intros s t i j Hj Hl; cbn.
  - rewrite reads_insert by lia. case_decide; [lia|done].
  - case_match; rewrite ?IH, ?reads_insert by (rewrite ?length_insert; lia);
      repeat case_decide; done || lia.
Qed.

Lemma safestrcpy_from_cstrn n : forall s t i,
  (i + n < length s)%nat ->
  cstrn_from (reads (safestrcpy_from s t i n)) i (S n) = cstrn_from t i n.
Proof.
  induction n as [|n IH]; intros s t i Hl; cbn [safestrcpy_from].
  - cbn. rewrite reads_insert by lia. by rewrite decide_True.
  - cbn [cstrn_from]. destruct (Z.eqb_spec (t i) 0) as [E|E]; cbn [negb].
    + rewrite !reads_insert by (rewrite ?length_insert; lia).
      rewrite decide_False, decide_True by lia. by rewrite E.
    + rewrite safestrcpy_from_before, reads_insert by (rewrite ?length_insert; lia).
      rewrite decide_True by done. rewrite (proj2 (Z.eqb_neq _ _) E). f_equal.
      apply IH. rewrite length_insert. lia.
Qed.

(** The copy is NUL-terminated inside the [n] bytes and is the source string cut
    at [n - 1] characters. *)
Lemma safestrcpy_cstrn s t n :
  (0 < n <= length s)%nat -> cstrn (reads (safestrcpy s t n)) n = cstrn t (n - 1).
Proof.
  intros Hn. destruct n as [|n]; [lia|]. unfold cstrn. cbn [safestrcpy].
  rewrite safestrcpy_from_cstrn by lia. f_equal. lia.
Qed.

Lemma strlen_from_spec s fuel : forall n k,
  strlen_from s n fuel = Some k <->
  (n <= k < n + fuel)%nat /\ s k = 0 /\ forall j, (n <= j < k)%nat -> s j <> 0.
Proof.
  induction fuel as [|fuel IH]; intros n k; cbn.
  - split; [done|]. lia.
  - destruct (Z.eqb_spec (s n) 0) as [E|E].
    + split.
      * intros [= <-]. repeat split; try lia; done.
      * intros (H1 & H2 & H3). f_equal. destruct (decide (n = k)); [done|].
        by destruct (H3 n); [lia|].
    + rewrite IH. split; intros (H1 & H2 & H3); (split; [|split]); try done; try lia.
      * intros j Hj. destruct (decide (j = n)) as [->|]; [done|]. apply H3. lia.
      * destruct (decide (n = k)); [congruence|lia].
      * intros j Hj. apply H3. lia.
Qed.

(** ** Little-endian integers in memory *)
Fixpoint load_le (m : Z -> Z) (a : Z) (n : nat) : Z :=
  match n with O => 0 | S n' => m a + 256 * load_le m (a + 1) n' end.

Fixpoint store_le (m : Z -> Z) (a v : Z) (n : nat) : Z -> Z :=
  match n with O => m | S n' => store8 (store_le m (a + 1) (v / 256) n') a v end.

Definition load64 (m : Z -> Z) (a : Z) : Z := load_le m a 8.
Definition store64 (m : Z -> Z) (a v : Z) : Z -> Z := store_le m a v 8.
Arguments load64 : simpl never.
Arguments store64 : simpl never.

Lemma load_le_ext m m' n : forall a,
  (forall x, a <= x < a + Z.of_nat n -> m x = m' x) -> load_le m a n = load_le m' a n.
Proof.
  induction n as [|n IH]; intros a H; cbn [load_le]; [done|].
  rewrite (H a), (IH (a + 1)) by (intros; try apply H; lia). done.
Qed.

Lemma store_le_other n : forall m a v x,
  ~ (a <= x < a + Z.of_nat n) -> store_le m a v n x = m x.
Proof.
  induction n as [|n IH]; intros m a v x H; cbn [store_le]; [done|]. unfold store8.
  destruct (Z.eqb_spec x a); [lia|]. apply IH. lia.
Qed.

Lemma load_store_le n : forall m a v,
  0 <= v < 256 ^ Z.of_nat n -> load_le (store_le m a v n) a n = v.
Proof.
  induction n as [|n IH]; intros m a v Hv; cbn [load_le store_le].
  { change (256 ^ Z.of_nat 0) with 1 in Hv. lia. }
  rewrite Nat2Z.inj_succ, Z.pow_succ_r in Hv by lia.
  unfold store8 at 1. rewrite Z.eqb_refl.
  rewrite (load_le_ext _ (store_le m (a + 1) (v / 256) n)).
  2: { intros x Hx. unfold store8. destruct (Z.eqb_spec x a); [lia|done]. }
  rewrite IH.
  - unfold u8. change (2 ^ 8) with 256. pose proof (Z_div_mod_eq_full v 256). lia.
  - split; [apply Z.div_pos; lia|]. apply Z.div_lt_upper_bound; lia.
Qed.

Lemma bytes_store_le n : forall m a v, bytes m -> bytes (store_le m a v n).
Proof. induction n; intros m a v H; cbn; [done|]. by apply bytes_store8, IHn. Qed.

Lemma bytes_memset m d c n : bytes m -> bytes (memset m d c n).
Proof. intros H x. rewrite memset_spec. case_match; [|apply H]. unfold u8. apply Z.mod_pos_bound. lia. Qed.

Lemma load_le_range n : forall m a, bytes m -> 0 <= load_le m a n < 256 ^ Z.of_nat n.
Proof.
  induction n as [|n IH]; intros m a H; cbn [load_le]; [done|].
  rewrite Nat2Z.inj_succ, Z.pow_succ_r by lia. pose proof (IH m (a + 1) H). pose proof (H a). lia.
Qed.

Lemma load64_store64 m a v : 0 <= v < 2 ^ 64 -> load64 (store64 m a v) a = v.
Proof. intros H. apply load_store_le. done. Qed.

Lemma load64_ext m m' a :
  (forall x, a <= x < a + 8 -> m x = m' x) -> load64 m a = load64 m' a.
Proof. intros H. by apply load_le_ext. Qed.

Lemma store64_other m a v x : ~ (a <= x < a + 8) -> store64 m a v x = m x.
Proof. intros H. by apply store_le_other. Qed.

Lemma load64_store64_ne m a v a' :
  a + 8 <= a' \/ a' + 8 <= a -> load64 (store64 m a v) a' = load64 m a'.
Proof. intros Ha. apply load64_ext. intros b Hb. apply store64_other. lia. Qed.

Lemma load64_range m a : bytes m -> 0 <= load64 m a < 2 ^ 64.
Proof. intros H. by apply load_le_range. Qed.

(** ** Page rounding *)
Lemma land_page x : Z.land x (Z.lnot (PGSIZE - 1)) = x / PGSIZE * PGSIZE.
Proof.
  change (PGSIZE - 1) with (Z.ones 12). rewrite <- Z.ldiff_land, Z.ldiff_ones_r by lia.
  rewrite Z.shiftl_mul_pow2, Z.shiftr_div_pow2 by lia. done.
Qed.

Lemma PGROUNDUP_eq sz :
  0 <= sz < 2 ^ 64 - PGSIZE -> PGROUNDUP sz = (sz + PGSIZE - 1) / PGSIZE * PGSIZE.
Proof.
  intros H. unfold PGROUNDUP, u64. rewrite Z.mod_small; [apply land_page|].
  unfold PGSIZE in *. lia.
Qed.

Lemma PGROUNDDOWN_eq a : PGROUNDDOWN a = a / PGSIZE * PGSIZE.
Proof. apply land_page. Qed.

#[global] Opaque memset memmove load64 store64.

(** ** Kernel buffers as byte lists

    [write_bytes m a l] is [memmove] to address [a] from a kernel buffer holding
    [l]; [read_bytes m a n] is what [memmove] from [a] puts into one. *)
Fixpoint write_bytes (m : Z -> Z) (a : Z) (l : list Z) : Z -> Z :=
  match l with
  | [] => m
  | b :: l' => write_bytes (store8 m a b) (a + 1) l'
  end.

Fixpoint read_bytes (m : Z -> Z) (a : Z) (n : nat) : list Z :=
  match n with
  | O => []
  | S n' => m a :: read_bytes m (a + 1) n'
  end.

Lemma length_read_bytes n : forall m a, length (read_bytes m a n) = n.
Proof. induction n as [|n IH]; intros m a; [done|]. cbn [read_bytes length]. by rewrite IH. Qed.

Lemma read_bytes_lookup n : forall m a i,
  (i < n)%nat -> read_bytes m a n !! i = Some (m (a + Z.of_nat i)).
Proof.
  induction n as [|n IH]; intros m a [|i] Hi; cbn [read_bytes lookup list_lookup]; try lia.
  - do 2 f_equal. lia.
  - rewrite IH by lia. do 2 f_equal. lia.
Qed.

Lemma read_bytes_ext n m m' a :
  (forall x, a <= x < a + Z.of_nat n -> m x = m' x) -> read_bytes m a n = read_bytes m' a n.
Proof.
  intros Hx. apply list_eq_same_length with n; rewrite ?length_read_bytes; try done.
  intros i x y Hi. rewrite !read_bytes_lookup by done. intros [= <-] [= <-]. apply Hx. lia.
Qed.

Lemma read_bytes_shift n m m' a a' :
  (forall i, 0 <= i < Z.of_nat n -> m (a + i) = m' (a' + i)) -> read_bytes m a n = read_bytes m' a' n.
Proof.
  intros Hx. apply list_eq_same_length with n; rewrite ?length_read_bytes; try done.
  intros i x y Hi. rewrite !read_bytes_lookup by done. intros [= <-] [= <-]. apply Hx. lia.
Qed.

Lemma read_bytes_app n1 : forall n2 m a,
  read_bytes m a (n1 + n2) = read_bytes m a n1 ++ read_bytes m (a + Z.of_nat n1) n2.
Proof.
  induction n1 as [|n1 IH]; intros n2 m a; cbn [Nat.add].
  - cbn [read_bytes app]. f_equal. lia.
  - cbn [read_bytes app]. rewrite IH. do 3 f_equal. lia.
Qed.

Lemma write_bytes_other l : forall m a x,
  ~ (a <= x < a + Z.of_nat (length l)) -> write_bytes m a l x = m x.
Proof.
  induction l as [|b l IH]; intros m a x Hx; cbn [write_bytes length] in *; [done|].
  rewrite IH by lia. unfold store8. case_match; lia.
Qed.

Lemma write_bytes_at l : forall m a i b,
  l !! i = Some b -> write_bytes m a l (a + Z.of_nat i) = u8 b.
Proof.
  induction l as [|c l IH]; intros m a [|i] b Hb; cbn [lookup list_lookup write_bytes] in *; try done.
  - injection Hb as ->. rewrite write_bytes_other by lia. unfold store8. case_match; [done|lia].
  - replace (a + Z.of_nat (S i)) with ((a + 1) + Z.of_nat i) by lia. by apply IH.
Qed.

Definition byte_list (l : list Z) : Prop := Forall (fun b => 0 <= b < 2 ^ 8) l.

Lemma read_write_bytes l m a :
  byte_list l -> read_bytes (write_bytes m a l) a (length l) = l.
Proof.
  intros Hl. apply list_eq_same_length with (length l); rewrite ?length_read_bytes; try done.
  intros i x y Hi. rewrite read_bytes_lookup by done. intros [= <-] Hy.
  rewrite (write_bytes_at l m a i y Hy). apply u8_byte. by eapply (Forall_lookup_1 _ _ _ _ Hl).
Qed.

Lemma bytes_write_bytes l : forall m a, bytes m -> bytes (write_bytes m a l).
Proof. induction l as [|b l IH]; intros m a Hm; cbn [write_bytes]; [done|]. by apply IH, bytes_store8. Qed.

Lemma byte_list_read m a n : bytes m -> byte_list (read_bytes m a n).
Proof.
  intros Hm. apply Forall_lookup_2. intros i x Hx. pose proof (lookup_lt_Some _ _ _ Hx) as Hi.
  rewrite length_read_bytes in Hi. rewrite read_bytes_lookup in Hx by done. injection Hx as <-. apply Hm.
Qed.

Arguments read_bytes : simpl never.
Arguments write_bytes : simpl never.
