(* ===== verification/Kalloc.v ===== *)
(** * The physical page allocator (kernel/kalloc.c)

    The free list is threaded through the free pages themselves: the first eight
    bytes of a free page hold the address of the next one.  [kmem_list s l] says
    that the list rooted at [kmem.freelist] is [l]; the theorems show that
    [kalloc] and [kfree] are pop and push on [l] and that [kinit] builds the
    list of all pages of RAM above the kernel image. *)

From stdpp Require Import prelude list strings gmap.
From Stdlib Require Import ZArith Lia ZifyBool.
From S2P Require Import Prelude State Spinlock CString.
Local Open Scope Z_scope.

Section Kalloc.
Context `{KernelLayout}.

(** ** The code *)
Definition kfree (pa : Z) : Kern unit :=
  if negb (pa mod PGSIZE =? 0) || (pa <? kernel_end) || (PHYSTOP <=? pa)
  then panic "kfree" else
  modify (fun s => s <| k_mem := memset (k_mem s) pa 1 PGSIZE |>) ;;
  acquire L_kmem ;;
  modify (fun s => s <| k_mem := store64 (k_mem s) pa (k_freelist s) |>) ;;
  modify (fun s => s <| k_freelist := pa |>) ;;
  release L_kmem.

Definition kalloc : Kern Z :=
  acquire L_kmem ;;
  let! r := gets k_freelist in
  when (negb (r =? 0)) (modify (fun s => s <| k_freelist := load64 (k_mem s) r |>)) ;;
  release L_kmem ;;
  when (negb (r =? 0))
    (modify (fun s => s <| k_mem := memset (k_mem s) r 5 PGSIZE |>)) ;;
  kret r.

(** The loop of [freerange]; [fuel] counts the pages that may still fit. *)
Fixpoint freerange_loop (fuel : nat) (p pa_end : Z) : Kern unit :=
  match fuel with
  | O => hang
  | S fuel' =>
      if p + PGSIZE <=? pa_end
      then kfree p ;; freerange_loop fuel' (p + PGSIZE) pa_end
      else kret tt
  end.

Definition freerange (pa_start pa_end : Z) : Kern unit :=
  let p := PGROUNDUP pa_start in
  freerange_loop (S (Z.to_nat ((pa_end - p) / PGSIZE))) p pa_end.

Definition kinit : Kern unit :=
  initlock L_kmem ;;
  freerange kernel_end PHYSTOP.

(** ** The free list *)
Fixpoint chain (m : Z -> Z) (p : Z) (l : list Z) : Prop :=
  match l with
  | [] => p = 0
  | x :: l' => p = x /\ chain m (load64 m x) l'
  end.

Definition page_ok (x : Z) : Prop :=
  x mod PGSIZE = 0 /\ kernel_end <= x < PHYSTOP.

Definition kmem_list (s : kstate) (l : list Z) : Prop :=
  chain (k_mem s) (k_freelist s) l /\ NoDup l /\ Forall page_ok l.

Context (Hend : 0 < kernel_end).

Lemma page_ok_pos x : page_ok x -> 0 < x < 2 ^ 64.
Proof. intros [_ Hx]. assert (PHYSTOP < 2 ^ 64) by done. lia. Qed.

(** Different pages do not overlap. *)
Lemma pages_disjoint x y b :
  page_ok x -> page_ok y -> x <> y -> x <= b < x + PGSIZE -> ~ (y <= b < y + PGSIZE).
Proof.
  intros [Hx _] [Hy _] Hne Hb Hb'. apply Hne. unfold PGSIZE in *.
  apply Z.mod_divide in Hx as [i ->]; [|lia]. apply Z.mod_divide in Hy as [j ->]; [|lia]. lia.
Qed.

Lemma chain_ext m m' l : forall p,
  Forall page_ok l ->
  (forall x b, x ∈ l -> x <= b < x + PGSIZE -> m b = m' b) ->
  chain m p l -> chain m' p l.
Proof.
  induction l as [|x l IH]; intros p Hl Hm; cbn [chain]; [done|].
  intros [-> Hc]. split; [done|]. apply Forall_cons in Hl as [Hx Hl].
  rewrite <- (load64_ext m m' x).
  - apply IH; [done| |done]. intros; eapply Hm; [by right|done].
  - intros b Hb. apply (Hm x); [by left|]. unfold PGSIZE. lia.
Qed.

Lemma chain_root_pos m p l : Forall page_ok l -> chain m p l -> p = 0 <-> l = [].
Proof.
  intros Hl Hc. destruct l as [|x l]; cbn in Hc; [naive_solver|].
  destruct Hc as [-> _]. apply Forall_cons in Hl as [Hx _]. apply page_ok_pos in Hx.
  split; [lia|done].
Qed.

(** ** [kalloc] and [kfree] on a well-formed free list *)
Definition alloc_page (x : Z) (s : kstate) : kstate :=
  s <| k_freelist := load64 (k_mem s) x |>
    <| k_mem := memset (k_mem s) x 5 PGSIZE |>.

Definition free_page (x : Z) (s : kstate) : kstate :=
  s <| k_mem := store64 (memset (k_mem s) x 1 PGSIZE) x (k_freelist s) |>
    <| k_freelist := x |>.

Lemma kalloc_run_empty s tr :
  hart_ok s -> k_locks s !! L_kmem = None -> k_freelist s = 0 ->
  kalloc s tr = Done 0 (touch s) tr.
Proof.
  intros Hok Hl Hf. unfold kalloc. kstep acquire_run; [done..|].
  kred. change (k_freelist (enter L_kmem s)) with (k_freelist s). rewrite Hf. cbn.
  by kstep release_run.
Qed.

Lemma kalloc_run s tr x :
  hart_ok s -> k_locks s !! L_kmem = None -> k_freelist s = x -> x <> 0 ->
  kalloc s tr = Done x (touch (alloc_page x s)) tr.
Proof.
  intros Hok Hl Hf Hx. unfold kalloc. kstep acquire_run; [done..|].
  kstep gets_run. change (k_freelist (enter L_kmem s)) with (k_freelist s). rewrite Hf.
  rewrite (proj2 (Z.eqb_neq x 0)) by done. cbn [negb when].
  kstep modify_run. by kstep (release_run L_kmem (s <| k_freelist := load64 (k_mem s) x |>)).
Qed.

Lemma kfree_run s tr x :
  hart_ok s -> k_locks s !! L_kmem = None -> page_ok x ->
  kfree x s tr = Done tt (touch (free_page x s)) tr.
Proof.
  intros Hok Hl [Hx Hr]. unfold kfree.
  replace (_ || _) with false by lia.
  set (s1 := s <| k_mem := memset (k_mem s) x 1 PGSIZE |>).
  kstep (eq_refl : modify _ s tr = Done tt s1 tr). kstep acquire_run; [done..|].
  do 2 kstep modify_run. by apply (release_run L_kmem (free_page x s)).
Qed.

Lemma chain_after_alloc m x l :
  Forall page_ok (x :: l) -> NoDup (x :: l) -> chain m x (x :: l) ->
  chain (memset m x 5 PGSIZE) (load64 m x) l.
Proof.
  intros Hl [Hn _]%NoDup_cons [_ Hc]. apply Forall_cons in Hl as [Hx Hl].
  eapply chain_ext; [done| |done]. intros y b Hy Hb. rewrite memset_spec.
  assert (y <> x) by (by intros ->).
  pose proof (pages_disjoint y x b (proj1 (Forall_forall _ _) Hl y Hy) Hx). case_match; [lia|done].
Qed.

Lemma chain_after_free m p x l :
  page_ok x -> x ∉ l -> Forall page_ok l -> 0 <= p < 2 ^ 64 -> chain m p l ->
  chain (store64 (memset m x 1 PGSIZE) x p) x (x :: l).
Proof.
  intros Hx Hn Hl Hp Hc. split; [done|]. rewrite load64_store64 by done.
  eapply chain_ext; [done| |done]. intros y b Hy Hb.
  assert (y <> x) by (by intros ->).
  pose proof (pages_disjoint y x b (proj1 (Forall_forall _ _) Hl y Hy) Hx).
  rewrite store64_other, memset_spec by (unfold PGSIZE in *; lia). case_match; [lia|done].
Qed.

Lemma kmem_list_alloc s x l : kmem_list s (x :: l) -> kmem_list (alloc_page x s) l.
Proof.
  intros (Hc & Hn & Hl). split; [|split].
  - cbn. apply chain_after_alloc; [done..|]. split; [done|]. apply Hc.
  - by apply NoDup_cons in Hn as [].
  - by apply Forall_cons in Hl as [].
Qed.

Lemma kmem_list_free s x l :
  kmem_list s l -> page_ok x -> x ∉ l -> kmem_list (free_page x s) (x :: l).
Proof.
  intros (Hc & Hn & Hl) Hx Hnx. split; [|split].
  - cbn. apply chain_after_free; try done.
    destruct l as [|y l]; cbn in Hc; [lia|]. destruct Hc as [-> _].
    apply Forall_cons in Hl as [Hy _]. apply page_ok_pos in Hy. lia.
  - by constructor.
  - by constructor.
Qed.

Lemma freerange_loop_run fuel : forall p pa_end s tr l,
  hart_ok s -> k_locks s !! L_kmem = None -> kmem_list s l ->
  kernel_end <= p -> p mod PGSIZE = 0 -> pa_end <= PHYSTOP ->
  (forall x, x ∈ l -> x < p) -> Z.max 0 ((pa_end - p) / PGSIZE) < Z.of_nat fuel ->
  exists s' l',
    freerange_loop fuel p pa_end s tr = Done tt s' tr /\ kmem_list s' l' /\
    k_procs s' = k_procs s /\ k_locks s' = k_locks s /\
    forall x, x ∈ l' <-> x ∈ l \/ (p <= x /\ x + PGSIZE <= pa_end /\ x mod PGSIZE = 0).
Proof.
  induction fuel as [|fuel IH]; intros p pa_end s tr l Hok Hk Hl He Ha Hpe Hlt Hf;
    cbn [freerange_loop].
  - lia.
  - destruct (Z.leb_spec (p + PGSIZE) pa_end) as [Hle|Hgt].
    + assert (page_ok p) by (split; unfold PGSIZE in *; lia).
      assert (p ∉ l) by (intros Hin; apply Hlt in Hin; lia).
      assert ((p + PGSIZE) mod PGSIZE = 0).
      { replace (p + PGSIZE) with (p + 1 * PGSIZE) by lia. by rewrite Z_mod_plus_full. }
      assert (1 <= (pa_end - p) / PGSIZE) by (apply Z.div_le_lower_bound; unfold PGSIZE in *; lia).
      assert (Z.max 0 ((pa_end - (p + PGSIZE)) / PGSIZE) < Z.of_nat fuel).
      { replace (pa_end - (p + PGSIZE)) with (pa_end - p + (-1) * PGSIZE) by lia.
        rewrite Z_div_plus_full by done. lia. }
      destruct (IH (p + PGSIZE) pa_end (touch (free_page p s)) tr (p :: l))
        as (s' & l' & Hr & Hl' & Hp & Hlk & Hin); auto using kmem_list_free, hart_ok_touch.
      * by apply (kmem_list_free s p l).
      * unfold PGSIZE; lia.
      * intros x [->|Hx]%elem_of_cons; [|apply Hlt in Hx]; unfold PGSIZE; lia.
      * exists s', l'. split; [|split; [done|split; [done|split; [done|]]]].
        -- rewrite <- Hr. by kstep kfree_run.
        -- intros x. rewrite Hin, elem_of_cons. split; [intros [[->|]|]|intros [|(G1 & G2 & G3)]].
           ++ right. unfold PGSIZE in *. lia.
           ++ by left.
           ++ right. unfold PGSIZE in *. lia.
           ++ tauto.
           ++ destruct (decide (x = p)); [tauto|]. right. split; [|done].
              apply Z.mod_divide in G3 as [i ->]; [|done].
              apply Z.mod_divide in Ha as [j ->]; [|done]. unfold PGSIZE in *. lia.
    + exists s, l. do 4 (split; [done|]). intros x. split; [tauto|].
      intros [|(G1 & G2 & _)]; [done|lia].
Qed.

Lemma PGROUNDUP_ge sz :
  0 <= sz < 2 ^ 64 - PGSIZE -> sz <= PGROUNDUP sz < sz + PGSIZE /\ PGROUNDUP sz mod PGSIZE = 0.
Proof.
  intros Hsz. rewrite PGROUNDUP_eq by done. split; [|apply Z_mod_mult].
  pose proof (Z_div_mod_eq_full (sz + PGSIZE - 1) PGSIZE).
  pose proof (Z.mod_pos_bound (sz + PGSIZE - 1) PGSIZE). unfold PGSIZE in *. lia.
Qed.

(** ** The allocator refines a stack of free pages

    What the rest of the kernel relies on: the abstract allocator is a list of
    pages; allocation pops it, freeing pushes. *)
Definition spec_alloc (l : list Z) : Z * list Z :=
  match l with [] => (0, []) | x :: l' => (x, l') end.
Definition spec_free (x : Z) (l : list Z) : list Z := x :: l.

Definition same_outside (x : Z) (s s' : kstate) : Prop :=
  (forall b, ~ (x <= b < x + PGSIZE) -> k_mem s' b = k_mem s b) /\
  k_procs s' = k_procs s /\ k_locks s' = k_locks s.

(** C23. [kalloc] pops the free list: on a well-formed list it returns the page
    [spec_alloc] returns (0 when there is none), the remaining list is
    well-formed, the page is filled with 5s, no byte outside the page and no
    process changes, and every lock is as before. *)
Theorem kalloc_refines s tr l :
  hart_ok s -> k_locks s !! L_kmem = None -> kmem_list s l ->
  exists s',
    kalloc s tr = Done (spec_alloc l).1 s' tr /\
    kmem_list s' (spec_alloc l).2 /\
    same_outside (spec_alloc l).1 s s' /\
    ((spec_alloc l).1 <> 0 ->
      forall b, (spec_alloc l).1 <= b < (spec_alloc l).1 + PGSIZE -> k_mem s' b = 5).
Proof.
  intros Hok Hk Hl. pose proof Hl as (Hc & _ & Hp). destruct l as [|x l]; cbn [spec_alloc fst snd].
  - exists (touch s). split; [by apply kalloc_run_empty|].
    split; [exact Hl|]. by split.
  - assert (Hx : x <> 0).
    { apply Forall_cons in Hp as [Hx _]. apply page_ok_pos in Hx. lia. }
    exists (touch (alloc_page x s)). split; [apply kalloc_run; [done..|by destruct Hc|done]|].
    split; [by apply (kmem_list_alloc s)|]. split.
    + split; [|done]. intros b Hb. cbn. rewrite memset_spec. case_match; [lia|done].
    + intros _ b Hb. cbn. rewrite memset_spec. case_match; [done|lia].
Qed.

(** C24. [kfree] pushes its page: for a page of RAM that is not already free it
    succeeds, and the list [spec_free] gives is well-formed; outside that page
    nothing changes. *)
Theorem kfree_refines s tr l x :
  hart_ok s -> k_locks s !! L_kmem = None -> kmem_list s l -> page_ok x -> x ∉ l ->
  exists s',
    kfree x s tr = Done tt s' tr /\ kmem_list s' (spec_free x l) /\ same_outside x s s'.
Proof.
  intros Hok Hk Hl Hx Hn. exists (touch (free_page x s)). split; [by apply kfree_run|].
  split; [by apply (kmem_list_free s)|]. split; [|done]. intros b Hb. cbn.
  rewrite store64_other, memset_spec by (unfold PGSIZE in *; lia). case_match; [lia|done].
Qed.

(** [kfree] panics on every address that is not a page of RAM above the
    kernel image. *)
Theorem kfree_rejects s tr x : ~ page_ok x -> kfree x s tr = Panicked "kfree".
Proof.
  intros Hx. unfold kfree. replace (_ || _) with true; [done|].
  symmetry. apply Bool.not_false_iff_true. intros E. apply Hx. unfold page_ok. lia.
Qed.

(** After [kinit] the free list holds exactly the pages of RAM above the
    kernel image, each once. *)
Theorem kinit_frees_all s tr :
  hart_ok s -> k_freelist s = 0 -> kernel_end < PHYSTOP ->
  exists s' l,
    kinit s tr = Done tt s' tr /\ kmem_list s' l /\ forall x, x ∈ l <-> page_ok x.
Proof.
  intros Hok Hf He.
  assert (Hr : 0 <= kernel_end < 2 ^ 64 - PGSIZE).
  { assert (PHYSTOP < 2 ^ 64 - PGSIZE) by done. lia. }
  apply PGROUNDUP_ge in Hr as [Hr Hm].
  destruct (freerange_loop_run (S (Z.to_nat ((PHYSTOP - PGROUNDUP kernel_end) / PGSIZE)))
    (PGROUNDUP kernel_end) PHYSTOP (s <| k_locks ::= delete L_kmem |>) tr [])
    as (s' & l & Hrun & Hl & _ & _ & Hin); try done.
  - cbn. apply lookup_delete_eq.
  - split; [done|]. split; constructor.
  - lia.
  - by intros x Hx%elem_of_nil.
  - lia.
  - exists s', l. split; [unfold kinit, initlock; by kstep modify_run|]. split; [done|].
    intros x. rewrite Hin. unfold page_ok. split.
    + intros [Hx%elem_of_nil|(H1 & H2 & H3)]; [done|]. unfold PGSIZE in *. lia.
    + intros (H1 & H2). right.
      assert (Ht : PHYSTOP mod PGSIZE = 0) by done.
      apply Z.mod_divide in H1 as [i ->]; [|done]. apply Z.mod_divide in Hm as [j Hj]; [|done].
      apply Z.mod_divide in Ht as [t Ht]; [|done]. rewrite Z_mod_mult. unfold PGSIZE in *. lia.
Qed.
End Kalloc.

(** ** A small memory: four free pages above a small kernel image *)
Definition demo_layout : KernelLayout := {|
  kernel_end := 0x80022000; etext := 0x80008000; trampoline := 0x80007000;
  forkret_addr := 0x80001a00; kernelvec_addr := 0x80005800; usertrap_addr := 0x80002400;
  uservec_off := 0; userret_off := 0x9a |}.

Definition demo_free : list Z := [0x80100000; 0x80101000; 0x80102000; 0x80103000].
Definition demo_mem : Z -> Z :=
  store64 (store64 (store64 (fun _ => 0) 0x80100000 0x80101000) 0x80101000 0x80102000)
    0x80102000 0x80103000.
Definition demo_kmem : kstate := boot_state <| k_mem := demo_mem |> <| k_freelist := 0x80100000 |>.

Lemma boot_hart : hart_ok boot_state.
Proof. exists boot_cpu. split; [done|]. split; cbn; [lia|done]. Qed.

Lemma demo_kmem_list : @kmem_list demo_layout demo_kmem demo_free.
Proof.
  split; [|split].
  - vm_compute. tauto.
  - apply (bool_decide_unpack _). by vm_compute.
  - unfold demo_free, page_ok. repeat (apply Forall_cons; split); try apply Forall_nil; done.
Qed.

Lemma kalloc_refines_witness :
  exists s', kalloc demo_kmem [] = Done 0x80100000 s' [] /\
    @kmem_list demo_layout s' [0x80101000; 0x80102000; 0x80103000] /\
    same_outside 0x80100000 demo_kmem s' /\
    (0x80100000 <> 0 -> forall b, 0x80100000 <= b < 0x80100000 + PGSIZE -> k_mem s' b = 5).
Proof.
  apply (@kalloc_refines demo_layout eq_refl demo_kmem [] demo_free).
  - exact boot_hart.
  - reflexivity.
  - exact demo_kmem_list.
Defined.

Lemma kfree_refines_witness :
  exists s', @kfree demo_layout 0x80200000 demo_kmem [] = Done tt s' [] /\
    @kmem_list demo_layout s' (spec_free 0x80200000 demo_free) /\ same_outside 0x80200000 demo_kmem s'.
Proof.
  apply (@kfree_refines demo_layout eq_refl demo_kmem [] demo_free 0x80200000).
  - exact boot_hart.
  - reflexivity.
  - exact demo_kmem_list.
  - done.
  - apply (bool_decide_unpack _). by vm_compute.
Defined.

Lemma kfree_rejects_witness : @kfree demo_layout 0x80200001 demo_kmem [] = Panicked "kfree".
Proof. apply (@kfree_rejects demo_layout demo_kmem [] 0x80200001). intros [Hx _]. by vm_compute in Hx. Defined.

Lemma kinit_frees_all_witness :
  exists s' l, @kinit demo_layout boot_state [] = Done tt s' [] /\
    @kmem_list demo_layout s' l /\ forall x, x ∈ l <-> @page_ok demo_layout x.
Proof.
  apply (@kinit_frees_all demo_layout eq_refl boot_state []).
  - exact boot_hart.
  - reflexivity.
  - reflexivity.
Defined.
