(* ===== verification/Proc.v ===== *)
(** * Processes: waiting, waking and priorities (kernel/proc.c)

    The part of proc.c that works on the process table alone: giving up the
    CPU, sleep and wakeup, kill, and the priority system calls.  Every routine
    takes and releases [p->lock] as the source does; [swtch] is a turn of the
    environment, which runs the rest of the machine and comes back when the
    scheduler has chosen this thread again. *)

From stdpp Require Import prelude list strings gmap.
From Stdlib Require Import ZArith Lia ZifyBool.
From S2P Require Import Prelude State Spinlock.
Local Open Scope Z_scope.

(** ** Access to [proc[i]] *)
Definition get_proc (i : nat) : Kern proc :=
  let! s := kget in deref (k_procs s !! i).
Definition upd_proc (i : nat) (f : proc -> proc) : Kern unit :=
  modify (fun s => s <| k_procs ::= alter f i |>).

(** [myproc()] where the source dereferences the result at once. *)
Definition curproc : Kern nat := let! p := myproc in deref p.

(** ** The code *)
Definition procinit : Kern unit :=
  initlock L_pid ;;
  initlock L_wait ;;
  for_each NPROC 0 (fun i =>
    initlock (L_proc i) ;;
    upd_proc i (fun p => p <| p_state := UNUSED |>
                           <| p_priority := PRIORITY_DEFAULT |>
                           <| p_wait_ticks := 0 |>
                           <| p_kstack := KSTACK (Z.of_nat i) |>)).

Definition allocpid : Kern Z :=
  acquire L_pid ;;
  let! pid := gets k_nextpid in
  modify (fun s => s <| k_nextpid := i32 (k_nextpid s + 1) |>) ;;
  release L_pid ;;
  kret pid.

(** swtch.S saves this thread's registers and resumes another one; the thread
    continues when some scheduler switches back to it. *)
Definition swtch : Kern unit := environment.

Definition sched : Kern unit :=
  let! p := curproc in
  let! h := holding (L_proc p) in
  if negb h then panic "sched p->lock" else
  let! c := mycpu in
  if negb (c_noff c =? 1) then panic "sched locks" else
  let! pp := get_proc p in
  if decide (p_state pp = RUNNING) then panic "sched RUNNING" else
  let! on := intr_get in
  if on then panic "sched interruptible" else
  let! c := mycpu in
  let intena := c_intena c in
  swtch ;;
  set_mycpu (fun c => c <| c_intena := intena |>).

Definition yield : Kern unit :=
  let! p := curproc in
  acquire (L_proc p) ;;
  upd_proc p (fun q => q <| p_state := RUNNABLE |>) ;;
  sched ;;
  release (L_proc p).

Definition sleep_prepare (chan : option wchan) : Kern unit :=
  let! p := curproc in
  acquire (L_proc p) ;;
  if decide (chan = None) then panic "sleep_prepare: zero chan" else
  upd_proc p (fun q => q <| p_chan := chan |>) ;;
  release (L_proc p).

Definition sleep : Kern unit :=
  let! p := curproc in
  acquire (L_proc p) ;;
  let! q := get_proc p in
  when (bool_decide (p_chan q <> None))
    (upd_proc p (fun q => q <| p_state := SLEEPING |>) ;; sched) ;;
  release (L_proc p).

Definition wakeup (chan : option wchan) : Kern unit :=
  for_each NPROC 0 (fun i =>
    acquire (L_proc i) ;;
    let! p := get_proc i in
    when (bool_decide (p_chan p = chan))
      (upd_proc i (fun p => p <| p_chan := None |>) ;;
       when (bool_decide (p_state p = SLEEPING))
         (upd_proc i (fun p => p <| p_state := RUNNABLE |>))) ;;
    release (L_proc i)).

(** A system call's [return -1] is the value -1. *)
Definition ksetpriority (pid priority : Z) : Kern Z :=
  if (pid <=? 0) || negb (priority_valid priority) then kret (-1) else
  let! r := for_upto NPROC 0 (fun i =>
    acquire (L_proc i) ;;
    let! p := get_proc i in
    if bool_decide (p_state p <> UNUSED) && (p_pid p =? pid) then
      upd_proc i (fun p => p <| p_priority := priority |>) ;;
      upd_proc i (fun p => p <| p_wait_ticks := 0 |>) ;;
      release (L_proc i) ;;
      kret (Some 0)
    else
      release (L_proc i) ;;
      kret None) in
  kret (default (-1) r).

Definition kgetpriority (pid : Z) : Kern Z :=
  if pid <=? 0 then kret (-1) else
  let! r := for_upto NPROC 0 (fun i =>
    acquire (L_proc i) ;;
    let! p := get_proc i in
    if bool_decide (p_state p <> UNUSED) && (p_pid p =? pid) then
      let priority := p_priority p in
      release (L_proc i) ;;
      kret (Some priority)
    else
      release (L_proc i) ;;
      kret None) in
  kret (default (-1) r).

Definition kkill (pid : Z) : Kern Z :=
  let! r := for_upto NPROC 0 (fun i =>
    acquire (L_proc i) ;;
    let! p := get_proc i in
    if p_pid p =? pid then
      upd_proc i (fun p => p <| p_killed := 1 |>) ;;
      when (bool_decide (p_state p = SLEEPING))
        (upd_proc i (fun p => p <| p_state := RUNNABLE |>)) ;;
      release (L_proc i) ;;
      kret (Some 0)
    else
      release (L_proc i) ;;
      kret None) in
  kret (default (-1) r).

Definition setkilled (i : nat) : Kern unit :=
  acquire (L_proc i) ;;
  upd_proc i (fun p => p <| p_killed := 1 |>) ;;
  release (L_proc i).

Definition killed (i : nat) : Kern Z :=
  acquire (L_proc i) ;;
  let! p := get_proc i in
  let k := p_killed p in
  release (L_proc i) ;;
  kret k.

(** ** Quiescent states

    The hart is well-formed, no process lock is held and the table has its
    [NPROC] slots: where a scan of the table can start. *)
Record quiescent (s : kstate) : Prop := {
  q_hart : hart_ok s;
  q_free : forall i, k_locks s !! L_proc i = None;
  q_len : length (k_procs s) = NPROC }.

Lemma quiescent_touch s : quiescent s -> quiescent (touch s).
Proof. intros [H1 H2 H3]. split; [by apply hart_ok_touch|done..]. Qed.

Lemma quiescent_procs s l :
  quiescent s -> length l = NPROC -> quiescent (s <| k_procs := l |>).
Proof. intros [H1 H2 H3] Hl. by split. Qed.

#[export] Hint Resolve quiescent_touch quiescent_procs q_hart q_free : xv6.

Lemma get_proc_run s tr i p : k_procs s !! i = Some p -> get_proc i s tr = Done p s tr.
Proof. intros H. unfold get_proc. kred. by rewrite H. Qed.

(** ** Scanning the process table

    A loop over the table whose iteration [i] locks slot [i], updates it with
    [f] and unlocks it is [map f] on the table; a loop that looks for the first
    slot that passes a test stops there. *)
Section ScanAcc.
Context {A : Type} (f : proc -> proc) (g : A -> proc -> A) (body : nat -> A -> Kern A).
Context (Hbody : forall (i : nat) (a : A) (p : proc) s tr,
  quiescent s -> k_procs s !! i = Some p ->
  body i a s tr = Done (g a p) (touch (s <| k_procs := alter f i (k_procs s) |>)) tr).

Lemma for_acc_map l2 : forall l1 a s tr, quiescent s -> k_procs s = l1 ++ l2 ->
  for_acc (length l2) (length l1) a body (touch s) tr =
    Done (foldl g a l2) (touch (s <| k_procs := l1 ++ (f <$> l2) |>)) tr.
Proof.
  induction l2 as [|p l2 IH]; intros l1 a s tr Hq Hs; cbn [length for_acc fmap list_fmap foldl].
  - cbn. rewrite app_nil_r in *. unfold kret. by rewrite <- Hs.
  - kstep (Hbody (length l1) a p); [by apply quiescent_touch|cbn; by rewrite Hs, list_lookup_middle|].
    set (s1 := s <| k_procs := l1 ++ f p :: l2 |>).
    replace (touch _) with (touch s1).
    2: { change (touch s1 = touch (touch (s <| k_procs := alter f (length l1) (k_procs s) |>))).
         rewrite touch_touch, Hs. rewrite alter_app_r_alt by lia. by rewrite Nat.sub_diag. }
    replace (S (length l1)) with (length (l1 ++ [f p])) by (rewrite length_app; cbn; lia).
    rewrite (IH (l1 ++ [f p]) _ s1).
    + unfold s1. cbn. by rewrite <- app_assoc.
    + apply quiescent_procs; [done|]. rewrite <- (q_len s Hq), Hs, !length_app. done.
    + unfold s1. cbn. by rewrite <- app_assoc.
Qed.

Lemma for_acc_map_all a s tr : quiescent s ->
  for_acc NPROC 0 a body s tr =
    Done (foldl g a (k_procs s)) (touch (s <| k_procs := f <$> k_procs s |>)) tr.
Proof.
  intros Hq. destruct (k_procs s) as [|p l] eqn:E.
  { pose proof (q_len s Hq) as Hn. by rewrite E in Hn. }
  pose proof (q_len s Hq) as Hn. rewrite E in Hn. injection Hn as Hn.
  change NPROC with (S 63). rewrite <- Hn. cbn [for_acc].
  kstep (Hbody 0%nat a p); [done|by rewrite E|]. rewrite E.
  change (alter f 0%nat (p :: l)) with ([f p] ++ l).
  rewrite (for_acc_map l [f p] _ (s <| k_procs := [f p] ++ l |>) tr); [done| |done].
  apply quiescent_procs; [done|]. cbn. by rewrite Hn.
Qed.
End ScanAcc.

Lemma for_each_acc n : forall lo (body : nat -> Kern unit) s tr,
  for_each n lo body s tr = for_acc n lo tt (fun i _ => body i) s tr.
Proof.
  induction n as [|n IH]; intros lo body s tr; cbn; [done|]. unfold kbind.
  destruct (body lo s tr) as [[]| | |]; [apply IH|done..].
Qed.

Section Scans.
Context (f : proc -> proc).

Lemma for_each_map_all body :
  (forall (i : nat) (p : proc) s tr, quiescent s -> k_procs s !! i = Some p ->
    body i s tr = Done tt (touch (s <| k_procs := alter f i (k_procs s) |>)) tr) ->
  forall s tr, quiescent s ->
    for_each NPROC 0 body s tr = Done tt (touch (s <| k_procs := f <$> k_procs s |>)) tr.
Proof.
  intros Hb s tr Hq. rewrite for_each_acc.
  rewrite (for_acc_map_all f (fun _ _ => tt)); [by destruct (foldl _ _ _)| |done].
  intros i [] p; apply Hb.
Qed.

Section First.
Context {A : Type} (P : proc -> Prop) `{!forall p, Decision (P p)} (r : proc -> A).
Context (body : nat -> Kern (option A)).
Context (Hbody : forall (i : nat) (p : proc) s tr, quiescent s -> k_procs s !! i = Some p ->
  body i s tr =
    if decide (P p) then Done (Some (r p)) (touch (s <| k_procs := alter f i (k_procs s) |>)) tr
    else Done None (touch s) tr).

Definition found_at (o : option (nat * proc)) (off : nat) (s : kstate) tr : outcome kstate (option A) :=
  match o with
  | Some (i, p) => Done (Some (r p)) (touch (s <| k_procs := alter f (off + i)%nat (k_procs s) |>)) tr
  | None => Done None (touch s) tr
  end.

Lemma for_upto_first l2 : forall l1 s tr, quiescent s -> k_procs s = l1 ++ l2 ->
  for_upto (length l2) (length l1) body (touch s) tr = found_at (list_find P l2) (length l1) s tr.
Proof.
  induction l2 as [|p l2 IH]; intros l1 s tr Hq Hs; cbn [length for_upto list_find]; [done|].
  assert (Hp : k_procs (touch s) !! length l1 = Some p) by (cbn; by rewrite Hs, list_lookup_middle).
  pose proof (Hbody _ _ (touch s) tr (quiescent_touch s Hq) Hp) as Hb.
  destruct (decide (P p)) as [HP|HP].
  - kstep Hb. cbn [found_at]. rewrite Nat.add_0_r. unfold kret. f_equal.
    exact (touch_touch (s <| k_procs := alter f (length l1) (k_procs s) |>)).
  - kstep Hb. rewrite touch_touch.
    replace (S (length l1)) with (length (l1 ++ [p])) by (rewrite length_app; cbn; lia).
    rewrite IH; [|done|by rewrite <- app_assoc].
    rewrite length_app. destruct (list_find P l2) as [[i q]|]; [|done]. cbn.
    do 4 f_equal. lia.
Qed.

Lemma for_upto_first_all s tr : quiescent s ->
  for_upto NPROC 0 body s tr = found_at (list_find P (k_procs s)) 0 s tr.
Proof.
  intros Hq. destruct (k_procs s) as [|p l] eqn:E.
  { pose proof (q_len s Hq) as Hn. by rewrite E in Hn. }
  pose proof (q_len s Hq) as Hn. rewrite E in Hn. injection Hn as Hn.
  change NPROC with (S 63). rewrite <- Hn. cbn [for_upto list_find].
  assert (Hp : k_procs s !! 0%nat = Some p) by (by rewrite E).
  pose proof (Hbody _ _ s tr Hq Hp) as Hb. destruct (decide (P p)) as [HP|HP].
  - by kstep Hb.
  - kstep Hb. etransitivity; [apply (for_upto_first l [p] s tr Hq E)|]. by destruct (list_find P l) as [[i q]|].
Qed.
End First.
End Scans.

(** ** What the routines do to the table *)
Definition wake (chan : option wchan) (p : proc) : proc :=
  if decide (p_chan p = chan) then
    p <| p_chan := None |>
      <| p_state := if decide (p_state p = SLEEPING) then RUNNABLE else p_state p |>
  else p.

Lemma alter_procs_at s i f g (p : proc) :
  k_procs s !! i = Some p -> f p = g p ->
  s <| k_procs := alter f i (k_procs s) |> = s <| k_procs := alter g i (k_procs s) |>.
Proof. intros H E. cbn. by rewrite (alter_at f g (k_procs s) i p H E). Qed.

(** A critical section of one slot: lock, update with [f], unlock. *)
Lemma slot_release s tr i f :
  quiescent s ->
  release (L_proc i) (enter (L_proc i) s <| k_procs := alter f i (k_procs s) |>) tr =
    Done tt (touch (s <| k_procs := alter f i (k_procs s) |>)) tr.
Proof.
  intros Hq. apply (release_run (L_proc i) (s <| k_procs := alter f i (k_procs s) |>)); apply Hq.
Qed.

Lemma slot_release_id s tr i :
  quiescent s -> release (L_proc i) (enter (L_proc i) s) tr = Done tt (touch s) tr.
Proof. intros Hq. apply release_run; apply Hq. Qed.

Lemma slot_acquire s tr i :
  quiescent s -> acquire (L_proc i) s tr = Done tt (enter (L_proc i) s) tr.
Proof. intros Hq. apply acquire_run; apply Hq. Qed.

Lemma wakeup_run chan s tr :
  quiescent s -> wakeup chan s tr = Done tt (touch (s <| k_procs := wake chan <$> k_procs s |>)) tr.
Proof.
  intros Hq. unfold wakeup. apply for_each_map_all; [|done]. clear s tr Hq.
  intros i p s tr Hq Hp. kstep slot_acquire; [done|]. kstep get_proc_run; [done|].
  destruct (decide (p_chan p = chan)) as [Hc|Hc].
  - rewrite bool_decide_eq_true_2 by done. cbn [when]. unfold upd_proc. kstep modify_run.
    destruct (decide (p_state p = SLEEPING)) as [Hs|Hs].
    + rewrite bool_decide_eq_true_2 by done. cbn [when]. kstep modify_run. cbn.
      rewrite list_alter_alter_eq. etransitivity; [by apply slot_release|]. do 2 f_equal.
      eapply alter_procs_at; [done|]. unfold wake. cbn. by rewrite !decide_True.
    + rewrite bool_decide_eq_false_2 by done. cbn [when]. kstep kret_run. cbn.
      etransitivity; [by apply slot_release|]. do 2 f_equal.
      eapply alter_procs_at; [done|]. unfold wake. cbn. by rewrite decide_True, decide_False.
  - rewrite bool_decide_eq_false_2 by done. cbn [when]. kstep kret_run.
    etransitivity; [by apply slot_release_id|]. do 2 f_equal. cbn.
    erewrite (alter_at_id (wake chan)); [done|done|]. unfold wake. by rewrite decide_False.
Qed.

Definition live_pid (pid : Z) (p : proc) : Prop := p_state p <> UNUSED /\ p_pid p = pid.
#[export] Instance live_pid_dec pid p : Decision (live_pid pid p).
Proof. apply and_dec; apply _. Defined.

Lemma live_pid_test pid p :
  bool_decide (p_state p <> UNUSED) && (p_pid p =? pid) = bool_decide (live_pid pid p).
Proof.
  apply eq_true_iff_eq. rewrite andb_true_iff, !bool_decide_eq_true, Z.eqb_eq. done.
Qed.

Definition set_prio (v : Z) (p : proc) : proc := p <| p_priority := v |> <| p_wait_ticks := 0 |>.
Definition kill_proc (p : proc) : proc :=
  p <| p_killed := 1 |> <| p_state := if decide (p_state p = SLEEPING) then RUNNABLE else p_state p |>.

Lemma ksetpriority_run pid v s tr :
  quiescent s ->
  ksetpriority pid v s tr =
    if (pid <=? 0) || negb (priority_valid v) then Done (-1) s tr else
    match list_find (live_pid pid) (k_procs s) with
    | Some (i, _) => Done 0 (touch (s <| k_procs := alter (set_prio v) i (k_procs s) |>)) tr
    | None => Done (-1) (touch s) tr
    end.
Proof.
  intros Hq. unfold ksetpriority. destruct (_ || _); [done|].
  kcase (for_upto_first_all (set_prio v) (live_pid pid) (fun _ => 0)); [|done|].
  2: { by destruct (list_find _ _) as [[i p]|]. }
  clear s tr Hq. intros i p s tr Hq Hp. kstep slot_acquire; [done|]. kstep get_proc_run; [done|].
  rewrite live_pid_test. destruct (decide (live_pid pid p)).
  - rewrite bool_decide_eq_true_2 by done. unfold upd_proc. do 2 kstep modify_run. cbn.
    rewrite list_alter_alter_eq. by kstep slot_release.
  - rewrite bool_decide_eq_false_2 by done. by kstep slot_release_id.
Qed.

Lemma kgetpriority_run pid s tr :
  quiescent s ->
  kgetpriority pid s tr =
    if pid <=? 0 then Done (-1) s tr else
    match list_find (live_pid pid) (k_procs s) with
    | Some (_, p) => Done (p_priority p) (touch s) tr
    | None => Done (-1) (touch s) tr
    end.
Proof.
  intros Hq. unfold kgetpriority. destruct (_ <=? _); [done|].
  kcase (for_upto_first_all id (live_pid pid) p_priority); [|done|].
  2: { destruct (list_find _ _) as [[i p]|]; cbn; [|done].
       by rewrite list_alter_id. }
  clear s tr Hq. intros i p s tr Hq Hp. kstep slot_acquire; [done|]. kstep get_proc_run; [done|].
  rewrite live_pid_test, (list_alter_id id) by done. destruct (decide (live_pid pid p)).
  - rewrite bool_decide_eq_true_2 by done. by kstep slot_release_id.
  - rewrite bool_decide_eq_false_2 by done. by kstep slot_release_id.
Qed.

Lemma kkill_run pid s tr :
  quiescent s ->
  kkill pid s tr =
    match list_find (fun p => p_pid p = pid) (k_procs s) with
    | Some (i, _) => Done 0 (touch (s <| k_procs := alter kill_proc i (k_procs s) |>)) tr
    | None => Done (-1) (touch s) tr
    end.
Proof.
  intros Hq. unfold kkill.
  kcase (for_upto_first_all kill_proc (fun p => p_pid p = pid) (fun _ => 0)); [|done|].
  2: { by destruct (list_find _ _) as [[i p]|]. }
  clear s tr Hq. intros i p s tr Hq Hp. kstep slot_acquire; [done|]. kstep get_proc_run; [done|].
  destruct (Z.eqb_spec (p_pid p) pid).
  - rewrite decide_True by done. unfold upd_proc. kstep modify_run.
    destruct (decide (p_state p = SLEEPING)) as [Hs|Hs].
    + rewrite bool_decide_eq_true_2 by done. cbn [when]. kstep modify_run. cbn.
      rewrite list_alter_alter_eq. kstep slot_release; [done|]. unfold kret. do 2 f_equal.
      eapply alter_procs_at; [done|]. unfold kill_proc. cbn. by rewrite decide_True.
    + rewrite bool_decide_eq_false_2 by done. cbn [when]. kstep kret_run. cbn.
      kstep slot_release; [done|]. unfold kret. do 2 f_equal.
      eapply alter_procs_at; [done|]. unfold kill_proc. cbn. by rewrite decide_False.
  - rewrite decide_False by done. by kstep slot_release_id.
Qed.

Lemma killed_run i s tr p :
  quiescent s -> k_procs s !! i = Some p -> killed i s tr = Done (p_killed p) (touch s) tr.
Proof.
  intros Hq Hp. unfold killed. kstep slot_acquire; [done|]. kstep get_proc_run; [done|].
  by kstep slot_release_id.
Qed.

Lemma setkilled_run i s tr :
  quiescent s ->
  setkilled i s tr =
    Done tt (touch (s <| k_procs := alter (fun p => p <| p_killed := 1 |>) i (k_procs s) |>)) tr.
Proof.
  intros Hq. unfold setkilled, upd_proc. kstep slot_acquire; [done|]. kstep modify_run. cbn.
  by apply slot_release.
Qed.

(** ** Priorities seen through the system calls *)
(** What [kgetpriority] returns for a valid pid. *)
Definition priority_of (pid : Z) (l : list proc) : Z :=
  match list_find (live_pid pid) l with Some (_, p) => p_priority p | None => -1 end.

Lemma list_find_alter {A} (P : A -> Prop) `{!forall x, Decision (P x)} (f : A -> A) i (l : list A) :
  (forall x, P (f x) <-> P x) ->
  list_find P (alter f i l) = prod_map id (fun x => x) <$> match list_find P l with
    | Some (j, x) => Some (j, if decide (j = i) then f x else x)
    | None => None
    end.
Proof.
  intros Hf. revert i. induction l as [|x l IH]; intros i; [done|].
  destruct i as [|i]; cbn [alter list_alter list_find].
  - destruct (decide (P x)) as [HP|HP].
    + rewrite decide_True by (by apply Hf). by rewrite decide_True.
    + rewrite decide_False by (by rewrite Hf). by destruct (list_find P l) as [[j y]|].
  - destruct (decide (P x)) as [HP|HP]; [by rewrite decide_False|].
    change (list_alter f i l) with (alter f i l). rewrite IH.
    destruct (list_find P l) as [[j y]|]; [|done]. cbn.
    destruct (decide (j = i)); [by rewrite decide_True by congruence|by rewrite decide_False by congruence].
Qed.

Lemma live_set_prio pid v p : live_pid pid (set_prio v p) <-> live_pid pid p.
Proof. done. Qed.

Lemma priority_of_set pid pid' v i p l :
  list_find (live_pid pid) l = Some (i, p) ->
  priority_of pid' (alter (set_prio v) i l) = if decide (pid' = pid) then v else priority_of pid' l.
Proof.
  intros Hf. unfold priority_of. rewrite list_find_alter by apply live_set_prio.
  destruct (decide (pid' = pid)) as [->|Hne].
  - rewrite Hf. cbn. by rewrite decide_True.
  - destruct (list_find (live_pid pid') l) as [[j q]|] eqn:E; [|done]. cbn.
    apply list_find_Some in E as (Hj & [_ Hq] & _). apply list_find_Some in Hf as (Hi & [_ Hp] & _).
    rewrite decide_False; [done|]. intros ->. congruence.
Qed.

(** Setting a priority and reading it back.  For a pid in use and a
    priority in range, [ksetpriority] returns 0; afterwards [kgetpriority]
    returns the new value for that pid and the same value as before for every
    other pid. *)
Theorem set_get_priority pid v s tr i p :
  quiescent s -> 0 < pid -> priority_valid v = true ->
  list_find (live_pid pid) (k_procs s) = Some (i, p) ->
  exists s', ksetpriority pid v s tr = Done 0 s' tr /\ quiescent s' /\
    forall pid', 0 < pid' ->
      kgetpriority pid' s' tr =
        Done (if decide (pid' = pid) then v else priority_of pid' (k_procs s)) s' tr.
Proof.
  intros Hq Hpid Hv Hf.
  set (s1 := s <| k_procs := alter (set_prio v) i (k_procs s) |>).
  assert (Hq1 : quiescent s1) by (apply quiescent_procs; [done|]; rewrite length_alter; apply Hq).
  exists (touch s1). split; [|split; [by apply quiescent_touch|]].
  - rewrite ksetpriority_run by done. rewrite Hv, (proj2 (Z.leb_gt _ _)) by lia. cbn [orb negb].
    by rewrite Hf.
  - intros pid' Hpid'. rewrite kgetpriority_run by (by apply quiescent_touch).
    rewrite (proj2 (Z.leb_gt _ _)) by lia. rewrite touch_touch.
    rewrite <- (priority_of_set pid pid' v i p) by done. unfold priority_of.
    change (k_procs (touch s1)) with (alter (set_prio v) i (k_procs s)).
    match goal with |- match ?x with _ => _ end = Done ?y _ _ =>
      change y with (match x with Some (_, p) => p_priority p | None => -1 end); by destruct x as [[]|] end.
Qed.

(** The priority system calls reject what they must: a pid that is not
    positive, a priority outside the range and a pid that no slot in use has
    are answered with -1, and the process table is unchanged. *)
Theorem priority_calls_reject pid v s tr :
  quiescent s ->
  pid <= 0 \/ priority_valid v = false \/ list_find (live_pid pid) (k_procs s) = None ->
  exists s', ksetpriority pid v s tr = Done (-1) s' tr /\ k_procs s' = k_procs s /\ k_locks s' = k_locks s /\
    (pid <= 0 \/ list_find (live_pid pid) (k_procs s) = None -> exists s', kgetpriority pid s tr = Done (-1) s' tr).
Proof.
  intros Hq Hrej. rewrite ksetpriority_run, kgetpriority_run by done.
  destruct ((pid <=? 0) || negb (priority_valid v)) eqn:E.
  - exists s. split; [done|]. split; [done|]. split; [done|].
    destruct (Z.leb_spec pid 0); [by eexists|]. intros [|Hf]; [lia|]. rewrite Hf. by eexists.
  - destruct Hrej as [H|[H|H]]; [lia|rewrite H in E; lia|]. rewrite H. exists (touch s).
    split; [done|]. split; [done|]. split; [done|]. intros _. destruct (_ <=? _); by eexists.
Qed.

(** [wakeup] wakes exactly the processes waiting on its channel: afterwards
    no slot is registered on the channel, a slot that slept on it is runnable,
    and every other slot is untouched. *)
Theorem wakeup_spec chan s tr :
  quiescent s ->
  exists s', wakeup (Some chan) s tr = Done tt s' tr /\ quiescent s' /\
    forall i p, k_procs s !! i = Some p -> exists p', k_procs s' !! i = Some p' /\
      p_chan p' <> Some chan /\
      (p_chan p = Some chan -> p_state p = SLEEPING -> p_state p' = RUNNABLE) /\
      (p_chan p <> Some chan -> p' = p).
Proof.
  intros Hq. rewrite wakeup_run by done. eexists. split; [done|]. split.
  - apply quiescent_touch, quiescent_procs; [done|]. rewrite length_fmap. apply Hq.
  - intros i p Hp. exists (wake (Some chan) p). cbn. rewrite list_lookup_fmap, Hp. split; [done|].
    unfold wake. destruct (decide (p_chan p = Some chan)) as [E|E]; cbn.
    + split; [done|]. split; [|done]. intros _ ->. by rewrite decide_True.
    + done.
Qed.

(** [kkill] marks the first slot with the given pid and takes it out of its
    sleep, and reports failure only when no slot has the pid. *)
Theorem kkill_spec pid s tr :
  quiescent s ->
  exists s', quiescent s' /\
    match list_find (fun p => p_pid p = pid) (k_procs s) with
    | Some (i, p) => kkill pid s tr = Done 0 s' tr /\ killed i s' tr = Done 1 s' tr /\
        (forall j, j <> i -> k_procs s' !! j = k_procs s !! j) /\
        exists p', k_procs s' !! i = Some p' /\ p_state p' <> SLEEPING /\ p_pid p' = pid
    | None => kkill pid s tr = Done (-1) s' tr /\ k_procs s' = k_procs s
    end.
Proof.
  intros Hq. rewrite kkill_run by done. destruct (list_find _ _) as [[i p]|] eqn:E.
  - set (s1 := s <| k_procs := alter kill_proc i (k_procs s) |>).
    assert (Hq1 : quiescent s1) by (apply quiescent_procs; [done|]; rewrite length_alter; apply Hq).
    apply list_find_Some in E as (Hi & Hpid & _).
    assert (Hp : k_procs (touch s1) !! i = Some (kill_proc p)) by (cbn; by rewrite list_lookup_alter_eq, Hi).
    exists (touch s1). split; [by apply quiescent_touch|]. split; [done|]. split; [|split].
    + rewrite (killed_run i (touch s1) tr (kill_proc p)); auto using quiescent_touch. by rewrite touch_touch.
    + intros j Hj. cbn. by rewrite list_lookup_alter_ne.
    + exists (kill_proc p). split; [done|]. split; [|done]. cbn. by destruct (decide _).
  - exists (touch s). split; [by apply quiescent_touch|done].
Qed.

(** ** Sleeping without losing a wakeup *)
Lemma curproc_run s tr c i :
  k_cpus s !! k_tp s = Some c -> cpu_ok c -> c_proc c = Some i -> curproc s tr = Done i (touch s) tr.
Proof. intros Hc Hok Hp. unfold curproc. kstep myproc_run; [done..|]. by rewrite Hp. Qed.

(** What a routine run by hart [h] does, seen from the hart that executes. *)
Definition remote (h : nat) (c : Kern unit) (s : kstate) : kstate :=
  match c (s <| k_tp := h |>) [] with
  | Done _ s' _ => s' <| k_tp := k_tp s |>
  | _ => s
  end.

Section SleepWakeup.
Context (i : nat) (p : proc) (c : cpu) (s : kstate).
Context (Hq : quiescent s) (Hc : k_cpus s !! k_tp s = Some c) (Hcp : c_proc c = Some i).
Context (Hp : k_procs s !! i = Some p).

Lemma cur_cpu_ok : cpu_ok c.
Proof. destruct (q_hart s Hq) as (c' & Hc' & Hok). congruence. Qed.

Lemma curproc_here tr : curproc s tr = Done i (touch s) tr.
Proof. by apply (curproc_run s tr c); [|apply cur_cpu_ok|]. Qed.

Lemma sleep_prepare_run chan tr :
  sleep_prepare (Some chan) s tr =
    Done tt (touch (s <| k_procs := alter (fun q => q <| p_chan := Some chan |>) i (k_procs s) |>)) tr.
Proof.
  unfold sleep_prepare. kstep curproc_here. kstep slot_acquire; [by apply quiescent_touch|].
  rewrite decide_False by done. unfold upd_proc. kstep modify_run. rewrite enter_touch. cbn.
  by apply slot_release.
Qed.

(** The channel has been cleared: [sleep] returns at once. *)
Lemma sleep_awake tr : p_chan p = None -> sleep s tr = Done tt (touch s) tr.
Proof.
  intros Hn. unfold sleep. kstep curproc_here. kstep slot_acquire; [by apply quiescent_touch|].
  kstep get_proc_run; [done|]. rewrite Hn, bool_decide_eq_false_2 by (by intros []). cbn [when].
  kstep kret_run. rewrite enter_touch. by apply slot_release_id.
Qed.

(** The state in which a thread gives up the hart to sleep. *)
Definition asleep : kstate :=
  (enter (L_proc i) s) <| k_procs := alter (fun q => q <| p_state := SLEEPING |>) i (k_procs s) |>.

Lemma sched_run (s1 : kstate) c1 q e tr :
  k_cpus s1 !! k_tp s1 = Some c1 -> c_proc c1 = Some i -> c_noff c1 = 1 -> c_sie c1 = false ->
  k_locks s1 !! L_proc i = Some (k_tp s1) -> k_procs s1 !! i = Some q -> p_state q <> RUNNING ->
  sched s1 (e :: tr) = set_mycpu (fun c => c <| c_intena := c_intena c1 |>) (e s1) tr /\
  sched s1 [] = Blocked.
Proof.
  intros Hc1 Hp1 Hn1 Hs1 Hl Hq1 Hst.
  assert (Hok : cpu_ok c1) by (split; [lia|done]).
  assert (Ht : touch s1 = s1).
  { unfold touch. rewrite (alter_at_id _ _ _ c1 Hc1); [done|]. unfold touch_cpu.
    rewrite Hn1. destruct c1; cbn in *. by rewrite Hn1. }
  assert (Hcur : forall tr, curproc s1 tr = Done i s1 tr)
    by (intros tr'; rewrite <- Ht at 2; by apply (curproc_run s1 tr' c1)).
  split.
  all: unfold sched; (kstep Hcur); unfold holding; kred; rewrite bool_decide_eq_true_2 by done; cbn [negb].
  all: unfold mycpu, get_proc, intr_get, mycpu, swtch, environment; kred; rewrite ?Hc1; kred;
    rewrite Hn1; cbn [Z.eqb Pos.eqb negb]; rewrite ?Hq1; kred; rewrite decide_False by done;
    rewrite ?Hc1; kred; rewrite ?Hc1, Hs1; kred; rewrite ?Hc1; kred; done.
Qed.

(** The channel is still registered: the thread gives up the hart asleep. *)
Lemma sleep_blocks chan : p_chan p = Some chan -> c_noff c = 0 ->
  sleep s [] = Blocked /\
  forall e tr, sleep s (e :: tr) =
    (set_mycpu (fun c0 => c0 <| c_intena := c_sie c |>) ;; release (L_proc i)) (e asleep) tr.
Proof.
  intros Hn Hnoff. assert (Hne : bool_decide (p_chan p <> None) = true)
    by (rewrite Hn; by apply bool_decide_eq_true_2).
  set (c1 := push_cpu c). assert (Hci : c_intena c1 = c_sie c) by (unfold c1; cbn; by rewrite Hnoff).
  assert (Hsched : forall e tr, sched asleep (e :: tr) =
    set_mycpu (fun c0 => c0 <| c_intena := c_sie c |>) (e asleep) tr /\ sched asleep [] = Blocked).
  { intros e tr. rewrite <- Hci. apply (sched_run asleep c1 (p <| p_state := SLEEPING |>)); try done.
    - cbn. by rewrite list_lookup_alter_eq, Hc.
    - cbn. lia.
    - cbn. apply lookup_insert_eq.
    - cbn. by rewrite list_lookup_alter_eq, Hp. }
  unfold sleep. split; [|intros e tr];
    (kstep curproc_here; kstep slot_acquire; [by apply quiescent_touch|]);
    (kstep get_proc_run; [done|]); rewrite Hne; cbn [when]; unfold upd_proc; kstep modify_run;
    rewrite enter_touch; change ((enter (L_proc i) s) <| k_procs ::= _ |>) with asleep.
  - unfold kbind. by rewrite (proj2 (Hsched id [])).
  - unfold kbind. by rewrite (proj1 (Hsched e tr)).
Qed.
End SleepWakeup.

(** C25. No wakeup is lost.  A process registers on a channel and then sleeps; a
    wakeup of that channel that another hart performs in between is not missed,
    since [sleep] then returns without giving up the hart.  Without one, the
    process gives up the hart and waits, asleep and still registered. *)
Theorem no_lost_wakeup i p c chan h s :
  quiescent s -> k_cpus s !! k_tp s = Some c -> c_proc c = Some i -> c_noff c = 0 ->
  k_procs s !! i = Some p -> p_state p = RUNNING ->
  h <> k_tp s -> hart_ok (s <| k_tp := h |>) ->
  let register_then_sleep := sleep_prepare (Some chan) ;; environment ;; sleep in
  (exists s', register_then_sleep s [remote h (wakeup (Some chan))] = Done tt s' [] /\
    quiescent s' /\ k_procs s' !! i = Some (p <| p_chan := None |>)) /\
  register_then_sleep s [id] = Blocked /\
  exists s1 k, (forall e, register_then_sleep s [id; e] = k (e s1)) /\
    k_procs s1 !! i = Some (p <| p_chan := Some chan |> <| p_state := SLEEPING |>).
Proof.
  intros Hq Hc Hcp Hnoff Hp Hrun Hh Hhart prog.
  set (f := fun q : proc => q <| p_chan := Some chan |>).
  set (s1 := touch (s <| k_procs := alter f i (k_procs s) |>)).
  assert (Hq1 : quiescent s1).
  { apply quiescent_touch, quiescent_procs; [done|]. rewrite length_alter. apply Hq. }
  assert (Hprep : forall tr, sleep_prepare (Some chan) s tr = Done tt s1 tr)
    by (intros tr; by apply (sleep_prepare_run i c s)).
  assert (Hc1 : k_cpus s1 !! k_tp s1 = Some (touch_cpu c)) by (cbn; by rewrite list_lookup_alter_eq, Hc).
  assert (Hp1 : k_procs s1 !! i = Some (f p)) by (cbn; by rewrite list_lookup_alter_eq, Hp).
  split; [|split].
  - set (s2 := remote h (wakeup (Some chan)) s1).
    assert (Hh1 : quiescent (s1 <| k_tp := h |>)).
    { split; [|apply Hq1|apply Hq1]. destruct Hhart as (ch & Hch & Hok). exists ch. split; [|done].
      cbn in *. by rewrite list_lookup_alter_ne. }
    assert (E2 : s2 = (touch ((s1 <| k_tp := h |>) <| k_procs := wake (Some chan) <$> k_procs s1 |>))
                       <| k_tp := k_tp s |>).
    { unfold s2, remote. by rewrite wakeup_run. }
    assert (Hc2 : k_cpus s2 !! k_tp s2 = Some (touch_cpu c)).
    { rewrite E2. cbn. rewrite list_lookup_alter_ne by done. exact Hc1. }
    assert (Hp2 : k_procs s2 !! i = Some (p <| p_chan := None |>)).
    { rewrite E2. cbn [k_procs upd_field touch]. rewrite list_lookup_fmap, Hp1. cbn. unfold wake. cbn.
      rewrite !decide_True by done. by rewrite decide_False by (rewrite Hrun; done). }
    assert (Hq2 : quiescent s2).
    { split; [| |].
      - exists (touch_cpu c). split; [done|]. destruct (cur_cpu_ok c s Hq Hc). done.
      - intros j. rewrite E2. apply Hq1.
      - rewrite E2. cbn. rewrite length_fmap. apply (q_len _ Hq1). }
    exists (touch s2). split; [|split; [by apply quiescent_touch|done]].
    unfold prog. kstep Hprep. kstep (eq_refl : environment s1 [_] = Done tt s2 []).
    by apply (sleep_awake i (p <| p_chan := None |>) (touch_cpu c)).
  - unfold prog. kstep Hprep. kstep (eq_refl : environment s1 [id] = Done tt s1 []).
    by apply (sleep_blocks i (f p) (touch_cpu c) s1 Hq1 Hc1 Hcp Hp1 chan).
  - destruct (sleep_blocks i (f p) (touch_cpu c) s1 Hq1 Hc1 Hcp Hp1 chan eq_refl Hnoff) as [_ Hb].
    exists (asleep i s1), (fun s' => (set_mycpu (fun c0 => c0 <| c_intena := c_sie (touch_cpu c) |>) ;;
      release (L_proc i)) s' []). split.
    + intros e. unfold prog. kstep Hprep. kstep (eq_refl : environment s1 [id; e] = Done tt s1 [e]). by rewrite Hb.
    + cbn [asleep k_procs upd_field]. by rewrite list_lookup_alter_eq, Hp1.
Qed.

(** ** A table with two processes, one of them on hart 0 *)
Definition demo_running : proc := proc_bss <| p_state := RUNNING |> <| p_pid := 5 |> <| p_priority := 10 |>.
Definition demo_waiting : proc :=
  proc_bss <| p_state := SLEEPING |> <| p_pid := 7 |> <| p_priority := 20 |> <| p_chan := Some Ch_ticks |>.
Definition demo_procs : kstate :=
  boot_state <| k_procs := <[1%nat := demo_running]> (<[3%nat := demo_waiting]> (replicate NPROC proc_bss)) |>
    <| k_cpus := <[0%nat := boot_cpu <| c_proc := Some 1%nat |>]> (replicate NCPU boot_cpu) |>.

Lemma demo_quiescent : quiescent demo_procs.
Proof.
  split; [|done|done]. exists (boot_cpu <| c_proc := Some 1%nat |>). split; [done|]. split; cbn; [lia|done].
Qed.

Lemma set_get_priority_witness :
  exists s', ksetpriority 7 3 demo_procs [] = Done 0 s' [] /\ quiescent s' /\
    forall pid', 0 < pid' -> kgetpriority pid' s' [] =
      Done (if decide (pid' = 7) then 3 else priority_of pid' (k_procs demo_procs)) s' [].
Proof.
  apply (set_get_priority 7 3 demo_procs [] 3 demo_waiting).
  - exact demo_quiescent.
  - lia.
  - reflexivity.
  - reflexivity.
Defined.

Lemma priority_calls_reject_witness :
  exists s', ksetpriority 7 32 demo_procs [] = Done (-1) s' [] /\ k_procs s' = k_procs demo_procs /\
    k_locks s' = k_locks demo_procs /\
    (7 <= 0 \/ list_find (live_pid 7) (k_procs demo_procs) = None ->
      exists s', kgetpriority 7 demo_procs [] = Done (-1) s' []).
Proof.
  apply (priority_calls_reject 7 32 demo_procs []).
  - exact demo_quiescent.
  - right. left. reflexivity.
Defined.

Lemma wakeup_spec_witness :
  exists s', wakeup (Some Ch_ticks) demo_procs [] = Done tt s' [] /\ quiescent s' /\
    forall i p, k_procs demo_procs !! i = Some p -> exists p', k_procs s' !! i = Some p' /\
      p_chan p' <> Some Ch_ticks /\
      (p_chan p = Some Ch_ticks -> p_state p = SLEEPING -> p_state p' = RUNNABLE) /\
      (p_chan p <> Some Ch_ticks -> p' = p).
Proof. apply (wakeup_spec Ch_ticks demo_procs []). exact demo_quiescent. Defined.

Lemma kkill_spec_witness :
  exists s', quiescent s' /\ kkill 7 demo_procs [] = Done 0 s' [] /\ killed 3 s' [] = Done 1 s' [] /\
    (forall j, j <> 3%nat -> k_procs s' !! j = k_procs demo_procs !! j) /\
    exists p', k_procs s' !! 3%nat = Some p' /\ p_state p' <> SLEEPING /\ p_pid p' = 7.
Proof. apply (kkill_spec 7 demo_procs []). exact demo_quiescent. Defined.

Lemma no_lost_wakeup_witness :
  let register_then_sleep := sleep_prepare (Some Ch_log) ;; environment ;; sleep in
  (exists s', register_then_sleep demo_procs [remote 2 (wakeup (Some Ch_log))] = Done tt s' [] /\
    quiescent s' /\ k_procs s' !! 1%nat = Some (demo_running <| p_chan := None |>)) /\
  register_then_sleep demo_procs [id] = Blocked /\
  exists s1 k, (forall e, register_then_sleep demo_procs [id; e] = k (e s1)) /\
    k_procs s1 !! 1%nat = Some (demo_running <| p_chan := Some Ch_log |> <| p_state := SLEEPING |>).
Proof.
  apply (no_lost_wakeup 1 demo_running (boot_cpu <| c_proc := Some 1%nat |>) Ch_log 2 demo_procs).
  - exact demo_quiescent.
  - reflexivity.
  - reflexivity.
  - reflexivity.
  - reflexivity.
  - reflexivity.
  - done.
  - exists boot_cpu. split; [done|]. split; cbn; [lia|done].
Defined.
