(* ===== verification/Sched.v ===== *)
(** * The priority scheduler with aging (kernel/proc.c, [scheduler])

    One iteration of the scheduler's loop is [scheduler_round]: open the
    interrupt window, age and scan the whole table for the best priority, then
    search for a process of that priority from [next_index] on and switch to
    it.  [scheduler] runs a number of iterations and logs which process each
    one switched to.

    The theorems: the scan computes the minimum priority of the runnable
    processes; the process switched to has that priority and is the first such
    in round-robin order; priorities stay in range; and a runnable process is
    switched to within [MAX_WAIT_ROUNDS] iterations whatever the other
    processes do. *)

From stdpp Require Import prelude list strings gmap.
From Stdlib Require Import ZArith Lia ZifyBool.
From S2P Require Import Prelude State Spinlock Proc.
Local Open Scope Z_scope.

(** ** The code *)
Definition apply_aging (i : nat) : Kern unit :=
  let! p := get_proc i in
  when (bool_decide (p_state p = RUNNABLE) && (AGING_INTERVAL <=? p_wait_ticks p) &&
        priority_valid (p_priority p) && (PRIORITY_MIN <? p_priority p))
    (upd_proc i (fun p => p <| p_priority := p_priority p - 1 |>) ;;
     upd_proc i (fun p => p <| p_wait_ticks := 0 |>)).

(** The first loop; its locals are [best_priority] and [found]. *)
Definition scan_table : Kern (Z * bool) :=
  for_acc NPROC 0 (PRIORITY_MAX + 1, false) (fun i '(best_priority, found) =>
    acquire (L_proc i) ;;
    apply_aging i ;;
    let! p := get_proc i in
    let! r :=
      if decide (p_state p = RUNNABLE) then
        upd_proc i (fun p => p <| p_wait_ticks := u32 (p_wait_ticks p + 1) |>) ;;
        if p_priority p <? best_priority
        then kret (p_priority p, true)
        else kret (best_priority, found)
      else kret (best_priority, found) in
    release (L_proc i) ;;
    kret r).

(** The second loop: [Some index] when it switched to [proc[index]]. *)
Definition select_body (next_index : nat) (best_priority : Z) (offset : nat) : Kern (option nat) :=
  let index := ((next_index + offset) mod NPROC)%nat in
  acquire (L_proc index) ;;
  let! p := get_proc index in
  if bool_decide (p_state p = RUNNABLE) && (p_priority p =? best_priority) then
    upd_proc index (fun p => p <| p_state := RUNNING |>) ;;
    set_mycpu (fun c => c <| c_proc := Some index |>) ;;
    upd_proc index (fun p => p <| p_wait_ticks := 0 |>) ;;
    swtch ;;
    set_mycpu (fun c => c <| c_intena := false |>) ;;
    set_mycpu (fun c => c <| c_proc := None |>) ;;
    release (L_proc index) ;;
    kret (Some index)
  else
    release (L_proc index) ;;
    kret None.

Definition select_and_run (next_index : nat) (best_priority : Z) : Kern (option nat) :=
  for_upto NPROC 0 (select_body next_index best_priority).

(** One iteration of [for (;;)]: the new [next_index], and the process it
    switched to.  [wfi] stops the hart until an interrupt is pending and
    changes no state; the interrupt is taken in the next window. *)
Definition scheduler_round (next_index : nat) : Kern (nat * option nat) :=
  intr_on ;;
  environment ;;
  intr_off ;;
  let! '(best_priority, found) := scan_table in
  if (found : bool) then
    let! selected := select_and_run next_index best_priority in
    match selected with
    | Some index => kret (((index + 1) mod NPROC)%nat, Some index)
    | None => kret (next_index, None)
    end
  else kret (next_index, None).

Fixpoint scheduler_rounds (n next_index : nat) : Kern (list (option nat)) :=
  match n with
  | O => kret []
  | S n' =>
      let! '(next_index', ran) := scheduler_round next_index in
      let! log := scheduler_rounds n' next_index' in
      kret (ran :: log)
  end.

Definition scheduler (n : nat) : Kern (list (option nat)) :=
  let! id := cpuid in
  let next_index := (id mod NPROC)%nat in
  set_mycpu (fun c => c <| c_proc := None |>) ;;
  scheduler_rounds n next_index.

(** ** Reference definitions: what a round computes *)
Definition ageable (p : proc) : bool :=
  bool_decide (p_state p = RUNNABLE) && (AGING_INTERVAL <=? p_wait_ticks p) &&
  priority_valid (p_priority p) && (PRIORITY_MIN <? p_priority p).

Definition age (p : proc) : proc :=
  if ageable p then p <| p_priority := p_priority p - 1 |> <| p_wait_ticks := 0 |> else p.

(** What the first loop does to a slot. *)
Definition tick (p : proc) : proc :=
  let p := age p in
  if decide (p_state p = RUNNABLE)
  then p <| p_wait_ticks := u32 (p_wait_ticks p + 1) |> else p.

Definition scan_acc (a : Z * bool) (p : proc) : Z * bool :=
  if decide (p_state p = RUNNABLE)
  then if p_priority (age p) <? a.1 then (p_priority (age p), true) else a
  else a.

Definition scan_result (l : list proc) : Z * bool := foldl scan_acc (PRIORITY_MAX + 1, false) l.

(** The table read from slot [n] on, wrapping around. *)
Definition rotate (n : nat) (l : list proc) : list proc := drop n l ++ take n l.

Definition ready (best : Z) (p : proc) : Prop := p_state p = RUNNABLE /\ p_priority p = best.
#[export] Instance ready_dec best p : Decision (ready best p).
Proof. apply and_dec; apply _. Defined.

(** The slot the second loop stops at. *)
Definition pick (next : nat) (best : Z) (l : list proc) : option nat :=
  match list_find (ready best) (rotate next l) with
  | Some (o, _) => Some ((next + o) mod NPROC)%nat
  | None => None
  end.

Definition run_proc (p : proc) : proc := p <| p_state := RUNNING |> <| p_wait_ticks := 0 |>.

(** The state in which [swtch] leaves the scheduler for slot [i]. *)
Definition dispatch (i : nat) (s : kstate) : kstate :=
  (enter (L_proc i) s)
    <| k_procs := alter run_proc i (k_procs s) |>
    <| k_cpus ::= alter (fun c => c <| c_proc := Some i |>) (k_tp s) |>.

(** ** Run lemmas *)
Lemma apply_aging_run i p s tr :
  k_procs s !! i = Some p ->
  apply_aging i s tr = Done tt (s <| k_procs := alter age i (k_procs s) |>) tr.
Proof.
  intros Hp. unfold apply_aging. kstep get_proc_run; [done|]. fold (ageable p).
  destruct (ageable p) eqn:E; cbn [when]; unfold upd_proc.
  - kstep modify_run. etransitivity; [apply modify_run|]. cbn. rewrite list_alter_alter_eq.
    f_equal. eapply alter_procs_at; [done|]. unfold age. by rewrite E.
  - unfold kret. f_equal. cbn. erewrite (alter_at_id age); [done|done|]. unfold age. by rewrite E.
Qed.

Lemma age_state p : p_state (age p) = p_state p.
Proof. unfold age. by destruct (ageable p). Qed.

Lemma scan_run s tr :
  quiescent s ->
  scan_table s tr =
    Done (scan_result (k_procs s)) (touch (s <| k_procs := tick <$> k_procs s |>)) tr.
Proof.
  intros Hq. unfold scan_table, scan_result. apply (for_acc_map_all tick scan_acc); [|done].
  clear s tr Hq. intros i [b fnd] p s tr Hq Hp. kstep slot_acquire; [done|].
  kstep apply_aging_run; [done|].
  kstep (get_proc_run _ _ i (age p)); [cbn; by rewrite list_lookup_alter_eq, Hp|].
  unfold scan_acc, tick. cbn [fst]. rewrite age_state.
  destruct (decide (p_state p = RUNNABLE)) as [Hr|Hr].
  - unfold upd_proc. kstep modify_run. destruct (_ <? _); kstep kret_run; cbn;
      rewrite list_alter_alter_eq; (kstep slot_release; [done|]); unfold kret; do 2 f_equal;
      (eapply alter_procs_at; [done|]); cbn; by rewrite age_state, decide_True.
  - kstep kret_run. cbn. kstep slot_release; [done|]. unfold kret. do 2 f_equal.
    eapply alter_procs_at; [done|]. cbn. by rewrite age_state, decide_False.
Qed.

Lemma rotate_lookup n l o :
  (n < length l)%nat -> (o < length l)%nat -> length l = NPROC ->
  rotate n l !! o = l !! ((n + o) mod NPROC)%nat.
Proof.
  intros Hn Ho Hl. unfold rotate. rewrite lookup_app, lookup_drop, length_drop.
  destruct (decide (n + o < NPROC)%nat) as [Hlt|Hge].
  - rewrite Nat.mod_small by done. destruct (lookup_lt_is_Some_2 l (n + o)) as [p Hp]; [lia|].
    by rewrite Hp.
  - rewrite (lookup_ge_None_2 l (n + o)) by lia.
    replace ((n + o) mod NPROC)%nat with (n + o - NPROC)%nat.
    + rewrite lookup_take_lt by lia. f_equal. lia.
    + rewrite <- (Nat.mod_small (n + o - NPROC) NPROC) by (unfold NPROC in *; lia).
      rewrite <- (Nat.Div0.mod_add (n + o - NPROC) 1 NPROC). f_equal. lia.
Qed.

Lemma length_rotate n l : length (rotate n l) = length l.
Proof. unfold rotate. rewrite length_app, length_drop, length_take. lia. Qed.

(** What runs after [swtch] returns to the scheduler. *)
Definition after_switch (i : nat) : Kern (option nat) :=
  set_mycpu (fun c => c <| c_intena := false |>) ;;
  set_mycpu (fun c => c <| c_proc := None |>) ;;
  release (L_proc i) ;;
  kret (Some i).

Definition switch_to (i : nat) (s : kstate) tr : outcome kstate (option nat) :=
  match tr with
  | [] => Blocked
  | e :: tr' => after_switch i (e (dispatch i s)) tr'
  end.

Lemma dispatch_touch i s : dispatch i (touch s) = dispatch i s.
Proof. unfold dispatch. by rewrite enter_touch. Qed.

Lemma select_body_run next best off s tr p :
  quiescent s -> k_procs s !! ((next + off) mod NPROC)%nat = Some p ->
  select_body next best off s tr =
    if decide (ready best p) then switch_to ((next + off) mod NPROC)%nat s tr
    else Done None (touch s) tr.
Proof.
  intros Hq Hp. unfold select_body. kstep slot_acquire; [done|]. kstep get_proc_run; [done|].
  replace (_ && _) with (bool_decide (ready best p)).
  2: { apply eq_true_iff_eq. by rewrite andb_true_iff, !bool_decide_eq_true, Z.eqb_eq. }
  destruct (decide (ready best p)) as [Hr|Hr].
  - rewrite bool_decide_eq_true_2 by done. unfold upd_proc, set_mycpu. do 3 kstep modify_run.
    match goal with |- kbind _ _ ?X _ = _ => replace X with (dispatch ((next + off) mod NPROC)%nat s) end.
    + by destruct tr.
    + generalize ((next + off) mod NPROC)%nat. intros i. unfold dispatch. cbn.
      by rewrite !list_alter_alter_eq.
  - rewrite bool_decide_eq_false_2 by done. by kstep slot_release_id.
Qed.

Definition select_outcome (next lo : nat) (o : option (nat * proc)) (s : kstate) tr :
    outcome kstate (option nat) :=
  match o with
  | None => Done None (touch s) tr
  | Some (off, _) => switch_to ((next + (lo + off)) mod NPROC)%nat s tr
  end.

Lemma after_switch_some i s tr r s' tr' : after_switch i s tr = Done r s' tr' -> r = Some i.
Proof.
  unfold after_switch, set_mycpu. kred. destruct (release _ _ _); naive_solver.
Qed.

Lemma kbind_some_ret (c : outcome kstate (option nat)) :
  (forall r s tr, c = Done r s tr -> is_Some r) ->
  forall k, obind c (fun r => match r with Some a => kret (Some a) | None => k end) = c.
Proof.
  intros H k. destruct c as [r s tr| | |]; [|done..]. destruct (H r s tr eq_refl) as [a ->]. done.
Qed.

Lemma switch_to_some i s tr r s' tr' : switch_to i s tr = Done r s' tr' -> is_Some r.
Proof. destruct tr; cbn; [done|]. intros ->%after_switch_some. eauto. Qed.

Lemma select_loop next best l2 : forall lo s tr,
  (next < NPROC)%nat -> quiescent s -> drop lo (rotate next (k_procs s)) = l2 ->
  for_upto (length l2) lo (select_body next best) (touch s) tr =
    select_outcome next lo (list_find (ready best) l2) s tr.
Proof.
  induction l2 as [|p l2 IH]; intros lo s tr Hn Hq Hl; cbn [length for_upto list_find].
  { by cbn; unfold kret. }
  assert (Hp : rotate next (k_procs s) !! lo = Some p).
  { rewrite <- (Nat.add_0_r lo), <- lookup_drop, Hl. done. }
  rewrite rotate_lookup in Hp by
    (try apply lookup_lt_Some in Hp; rewrite ?length_rotate in *; rewrite ?(q_len s Hq) in *; done).
  pose proof (select_body_run next best lo (touch s) tr p (quiescent_touch s Hq) Hp) as Hb.
  destruct (decide (ready best p)) as [Hr|Hr].
  - rewrite (kbind_outcome _ _ _ _ _ Hb), kbind_some_ret by apply switch_to_some.
    cbn. rewrite Nat.add_0_r. unfold switch_to. by rewrite dispatch_touch.
  - kstep Hb. rewrite touch_touch, IH; [|done|done|].
    + destruct (list_find _ l2) as [[i q]|]; [|done]. cbn [prod_map fst snd fmap option_fmap option_map].
      unfold select_outcome. by replace (lo + S i)%nat with (S lo + i)%nat by lia.
    + rewrite <- Nat.add_1_r, <- drop_drop, Hl. done.
Qed.

Lemma select_run next best s tr :
  (next < NPROC)%nat -> quiescent s ->
  select_and_run next best s tr =
    select_outcome next 0 (list_find (ready best) (rotate next (k_procs s))) s tr.
Proof.
  intros Hn Hq. unfold select_and_run.
  destruct (rotate next (k_procs s)) as [|p l] eqn:E.
  { pose proof (length_rotate next (k_procs s)) as Hl. rewrite E, (q_len s Hq) in Hl. done. }
  assert (Hl : length l = 63%nat).
  { pose proof (length_rotate next (k_procs s)) as Hl. rewrite E, (q_len s Hq) in Hl. by injection Hl. }
  assert (Hp : rotate next (k_procs s) !! 0%nat = Some p) by (by rewrite E).
  rewrite rotate_lookup in Hp by (rewrite ?(q_len s Hq); unfold NPROC in *; lia || done).
  change NPROC with (S 63) at 1. rewrite <- Hl. cbn [for_upto list_find].
  pose proof (select_body_run next best 0 s tr p Hq Hp) as Hb.
  destruct (decide (ready best p)) as [Hr|Hr].
  - rewrite (kbind_outcome _ _ _ _ _ Hb), kbind_some_ret by apply switch_to_some. done.
  - kstep Hb. etransitivity; [apply (select_loop next best l 1 s tr Hn Hq); by rewrite E|].
    by destruct (list_find _ l) as [[i q]|].
Qed.

Definition switched_back (i : nat) (s : kstate) : kstate :=
  s <| k_locks := delete (L_proc i) (k_locks s) |>
    <| k_cpus := alter (fun c => c <| c_intena := false |> <| c_proc := None |> <| c_noff := 0 |>)
         (k_tp s) (k_cpus s) |>.

Lemma after_switch_run i s tr c :
  k_cpus s !! k_tp s = Some c -> c_noff c = 1 -> c_sie c = false ->
  k_locks s !! L_proc i = Some (k_tp s) ->
  after_switch i s tr = Done (Some i) (switched_back i s) tr.
Proof.
  intros Hc Hn Hs Hl. unfold after_switch. kstep set_mycpu_run. kstep set_mycpu_run.
  unfold release, holding. kred. cbn. rewrite bool_decide_eq_true_2 by done. cbn.
  unfold pop_off, intr_get, mycpu, set_mycpu. kred. cbn.
  rewrite !list_lookup_alter_eq, Hc. cbn. rewrite Hs. cbn.
  rewrite !list_lookup_alter_eq, Hc. cbn. rewrite Hn. cbn.
  rewrite !list_lookup_alter_eq, Hc. cbn. rewrite andb_false_r. cbn. kred.
  unfold switched_back. cbn. rewrite !list_alter_alter_eq. do 2 f_equal.
  eapply alter_at; [done|]. cbn. by rewrite Hn.
Qed.

(** ** The best priority *)
Definition runnable (p : proc) : Prop := p_state p = RUNNABLE.
#[export] Instance runnable_dec p : Decision (runnable p).
Proof. unfold runnable. apply _. Defined.

(** The scheduling fields of a slot are in range: the priority is one of the 32
    levels, and a slot that can still age has not waited longer than the
    interval. *)
Record slot_ok (p : proc) : Prop := {
  so_prio : PRIORITY_MIN <= p_priority p <= PRIORITY_MAX;
  so_wait : 0 <= p_wait_ticks p;
  so_age : PRIORITY_MIN < p_priority p -> p_wait_ticks p <= AGING_INTERVAL }.

Definition table_ok (s : kstate) : Prop := Forall slot_ok (k_procs s).

Lemma tick_state p : p_state (tick p) = p_state p.
Proof. unfold tick. destruct (decide _); apply age_state. Qed.

Lemma tick_priority p : p_priority (tick p) = p_priority (age p).
Proof. unfold tick. by destruct (decide _). Qed.

Lemma tick_runnable p : runnable (tick p) <-> runnable p.
Proof. unfold runnable. by rewrite tick_state. Qed.

Lemma age_ok p : slot_ok p -> slot_ok (age p) /\ (PRIORITY_MIN < p_priority (age p) -> runnable p ->
  p_wait_ticks (age p) < AGING_INTERVAL).
Proof.
  intros [Hp Hw Ha]. unfold age. destruct (ageable p) eqn:E.
  - unfold ageable, PRIORITY_MIN, PRIORITY_MAX, AGING_INTERVAL in *.
    split; [split|]; cbn; unfold PRIORITY_MIN, PRIORITY_MAX, AGING_INTERVAL; lia.
  - split; [done|]. intros Hlt Hr. unfold ageable, priority_valid, runnable in *.
    rewrite bool_decide_eq_true_2 in E by done.
    unfold PRIORITY_MIN, PRIORITY_MAX, AGING_INTERVAL in *. lia.
Qed.

Lemma tick_ok p : slot_ok p -> slot_ok (tick p).
Proof.
  intros Hok. destruct (age_ok p Hok) as [Ha Hlt]. unfold tick. rewrite age_state.
  destruct (decide _) as [Hr|]; [|done]. destruct Ha as [Hp Hw Ha]. split; cbn; [done|..].
  - unfold u32. apply Z.mod_pos_bound. lia.
  - intros H. specialize (Hlt H Hr). unfold u32, AGING_INTERVAL in *. rewrite Z.mod_small; lia.
Qed.

Lemma run_proc_ok p : slot_ok p -> slot_ok (run_proc p).
Proof. intros [Hp Hw Ha]. split; cbn; [done|lia|done]. Qed.

Lemma scan_fold l : forall b f, let r := foldl scan_acc (b, f) l in
  r.1 <= b /\ (forall p, p ∈ l -> runnable p -> r.1 <= p_priority (tick p)) /\
  (r = (b, f) \/ r.2 = true /\ exists p, p ∈ l /\ runnable p /\ p_priority (tick p) = r.1).
Proof.
  induction l as [|p l IH]; intros b f; cbn [foldl].
  { cbn. split; [lia|]. split; [by intros ? ?%elem_of_nil|by left]. }
  assert (Hs : scan_acc (b, f) p = (b, f) /\ (runnable p -> b <= p_priority (tick p)) \/
    runnable p /\ p_priority (tick p) < b /\ scan_acc (b, f) p = (p_priority (tick p), true)).
  { unfold scan_acc, runnable. cbn [fst]. rewrite tick_priority.
    destruct (decide _); [|by left]. destruct (Z.ltb_spec (p_priority (age p)) b); [by right|by left]. }
  destruct Hs as [[-> Hb]|(Hr & Hlt & ->)].
  - destruct (IH b f) as (H1 & H2 & H3). split; [done|]. split.
    + intros q [->|Hq]%elem_of_cons Hrq; [specialize (Hb Hrq); lia|by apply H2].
    + destruct H3 as [H3|(H3 & q & Hq & H4)]; [by left|]. right. split; [done|].
      exists q. split; [by right|done].
  - destruct (IH (p_priority (tick p)) true) as (H1 & H2 & H3). split; [lia|]. split.
    + intros q [->|Hq]%elem_of_cons Hrq; [done|by apply H2].
    + right. destruct H3 as [->|(H3 & q & Hq & H4)].
      * split; [done|]. exists p. split; [by left|done].
      * split; [done|]. exists q. split; [by right|done].
Qed.

(** [best] is the smallest priority value of the runnable slots of [l]. *)
Definition best_of (best : Z) (l : list proc) : Prop :=
  (exists p, p ∈ l /\ ready best p) /\ (forall p, p ∈ l -> runnable p -> best <= p_priority p).

Lemma scan_best l :
  Forall slot_ok l ->
  if (scan_result l).2 then best_of (scan_result l).1 (tick <$> l)
  else forall p, p ∈ tick <$> l -> ~ runnable p.
Proof.
  intros Hok. destruct (scan_fold l (PRIORITY_MAX + 1) false) as (_ & H2 & H3).
  fold (scan_result l) in *. destruct H3 as [H3|(H3 & p & Hp & Hr & He)]; rewrite H3 in *.
  - intros q (p & -> & Hp)%list_elem_of_fmap Hr.
    specialize (H2 p Hp (proj1 (tick_runnable p) Hr)). cbn in H2.
    pose proof (so_prio _ (tick_ok p (proj1 (Forall_forall _ _) Hok p Hp))). lia.
  - split.
    + exists (tick p). split; [by apply list_elem_of_fmap_2|]. split; [by apply tick_runnable|done].
    + intros q (p' & -> & Hp')%list_elem_of_fmap Hr'.
      by apply H2, (proj1 (tick_runnable p')).
Qed.

(** ** One iteration *)
(** Where an iteration starts: no lock is held, the nesting count is zero, the
    hart runs no process and the table is in range. *)
Record at_head (s : kstate) : Prop := {
  h_quiet : quiescent s;
  h_noff : exists c, k_cpus s !! k_tp s = Some c /\ c_noff c = 0 /\ c_proc c = None;
  h_table : table_ok s }.

(** What a turn of the rest of the machine leaves alone.  When it hands the
    hart back, the hart's nesting count, interrupt flag and process are what
    they were, the locks that were held are held and no other is, and the scheduling
    fields are in range. *)
Record turn (s s' : kstate) : Prop := {
  t_tp : k_tp s' = k_tp s;
  t_locks : k_locks s' = k_locks s;
  t_cpu : forall c, k_cpus s !! k_tp s = Some c ->
    exists c', k_cpus s' !! k_tp s = Some c' /\ c_noff c' = c_noff c /\ c_sie c' = c_sie c /\
      c_proc c' = c_proc c;
  t_len : length (k_procs s') = length (k_procs s);
  t_table : table_ok s -> table_ok s' }.

(** The state after the interrupt window. *)
Definition window (e : kstate -> kstate) (s : kstate) : kstate :=
  let s' := e (s <| k_cpus := alter (fun c => c <| c_sie := true |>) (k_tp s) (k_cpus s) |>) in
  s' <| k_cpus := alter (fun c => c <| c_sie := false |>) (k_tp s') (k_cpus s') |>.

(** The state after the scan. *)
Definition scanned (s : kstate) : kstate := touch (s <| k_procs := tick <$> k_procs s |>).

Lemma window_head e s : at_head s -> (forall s, turn s (e s)) -> at_head (window e s).
Proof.
  intros [Hq (c & Hc & Hn & Hpr) Ht] He. unfold window.
  set (s0 := s <| k_cpus := _ |>). destruct (He s0) as [T1 T2 T3 T4 T5].
  destruct (T3 (c <| c_sie := true |>)) as (c' & Hc' & Hn' & _ & Hpr').
  { unfold s0. cbn. by rewrite list_lookup_alter_eq, Hc. }
  assert (Hc2 : alter (fun c => c <| c_sie := false |>) (k_tp (e s0)) (k_cpus (e s0)) !! k_tp (e s0)
     = Some (c' <| c_sie := false |>)) by (rewrite list_lookup_alter_eq, T1, Hc'; done).
  cbn in Hn', Hpr'. split; cbn.
  - split; cbn.
    + exists (c' <| c_sie := false |>). split; [exact Hc2|]. split; cbn; [lia|done].
    + intros i. rewrite T2. apply Hq.
    + rewrite T4. apply Hq.
  - exists (c' <| c_sie := false |>). split; [exact Hc2|]. cbn. split; [lia|congruence].
  - by apply T5.
Qed.

Lemma touch_head s : at_head s -> at_head (touch s).
Proof.
  intros [Hq (c & Hc & Hn & Hpr) Ht]. split; [by apply quiescent_touch| |done].
  exists (touch_cpu c). cbn. by rewrite list_lookup_alter_eq, Hc.
Qed.

Lemma scanned_head s : at_head s -> at_head (scanned s).
Proof.
  intros [Hq Hc Ht]. apply touch_head. split; [|done|].
  - apply quiescent_procs; [done|]. rewrite length_fmap. apply Hq.
  - unfold table_ok. cbn. apply Forall_fmap. eapply Forall_impl; [done|]. apply tick_ok.
Qed.

(** Switching to slot [i] and back. *)
Lemma switch_run i s e tr :
  at_head s -> (forall s, turn s (e s)) ->
  switch_to i s (e :: tr) = Done (Some i) (switched_back i (e (dispatch i s))) tr /\
  at_head (switched_back i (e (dispatch i s))).
Proof.
  intros [Hq (c & Hc & Hn & Hpr) Ht] He. cbn [switch_to].
  destruct (He (dispatch i s)) as [T1 T2 T3 T4 T5].
  destruct (T3 ((push_cpu c) <| c_proc := Some i |>)) as (c' & Hc' & Hn' & Hs' & _).
  { cbn. by rewrite list_alter_alter_eq, list_lookup_alter_eq, Hc. }
  cbn in Hn', Hs'. change (k_tp (dispatch i s)) with (k_tp s) in *.
  split.
  - apply (after_switch_run i _ tr c'); [by rewrite T1|lia|done|].
    rewrite T2, T1. apply lookup_insert_eq.
  - split; cbn; [split; cbn| |].
    + eexists. split; [cbn; rewrite list_lookup_alter_eq, T1, Hc'; reflexivity|]. split; cbn; [lia|done].
    + intros j. rewrite T2. cbn. rewrite delete_insert_id by apply Hq. apply Hq.
    + rewrite T4. cbn. rewrite length_alter. apply Hq.
    + eexists. split; [rewrite list_lookup_alter_eq, T1, Hc'; reflexivity|done].
    + apply T5. unfold table_ok. cbn. apply Forall_alter; [done|]. intros p Hp _.
      apply run_proc_ok. by eapply (Forall_lookup_1 _ _ _ _ Ht).
Qed.

(** [i] is the first slot of priority [best] from [next] on. *)
Definition first_from (next : nat) (best : Z) (l : list proc) (i : nat) : Prop :=
  exists o, (o < NPROC)%nat /\ i = ((next + o) mod NPROC)%nat /\
    (exists p, l !! i = Some p /\ ready best p) /\
    forall o' q, (o' < o)%nat -> l !! ((next + o') mod NPROC)%nat = Some q -> ~ ready best q.

Lemma pick_first next best l :
  length l = NPROC -> (next < NPROC)%nat ->
  match pick next best l with
  | Some i => first_from next best l i
  | None => forall p, p ∈ l -> ~ ready best p
  end.
Proof.
  intros Hl Hn. unfold pick. destruct (list_find _ _) as [[o p]|] eqn:E.
  - apply list_find_Some in E as (Ho & Hr & Hmin). pose proof (lookup_lt_Some _ _ _ Ho) as Hlt.
    rewrite length_rotate in Hlt. rewrite rotate_lookup in Ho by (lia || done).
    exists o. split; [lia|]. split; [done|]. split; [by exists p|].
    intros o' q Ho' Hq. apply (Hmin o' q); [|done]. by rewrite rotate_lookup by lia.
  - apply list_find_None in E. intros p Hp. eapply Forall_forall in E; [exact E|].
    unfold rotate. rewrite <- (take_drop next l) in Hp. rewrite elem_of_app in *. tauto.
Qed.

(** The slot an iteration chooses, from the table [l] before aging. *)
Definition choose (next : nat) (l : list proc) : option nat :=
  if (scan_result l).2 then pick next (scan_result l).1 (tick <$> l) else None.

Lemma scheduler_round_run next s e1 e2 tr :
  at_head s -> (forall s, turn s (e1 s)) -> (forall s, turn s (e2 s)) -> (next < NPROC)%nat ->
  scheduler_round next s (e1 :: e2 :: tr) =
    let l := k_procs (window e1 s) in
    let s1 := scanned (window e1 s) in
    match choose next l with
    | Some i => Done (((i + 1) mod NPROC)%nat, Some i) (switched_back i (e2 (dispatch i s1))) tr
    | None => Done (next, None) s1 (e2 :: tr)
    end.
Proof.
  intros Hh He1 He2 Hn. pose proof (window_head e1 s Hh He1) as Hw.
  unfold scheduler_round, intr_on, intr_off, set_mycpu. kstep modify_run.
  kstep (eq_refl : environment _ (_ :: _) = Done _ _ _). kstep modify_run.
  kstep (scan_run (window e1 s)); [apply Hw|].
  fold (scanned (window e1 s)). cbv zeta. unfold choose.
  destruct (scan_result _) as [best []] eqn:E; cbn [fst snd]; [|done].
  kcase (select_run next best (scanned (window e1 s))); [done|apply scanned_head, Hw|].
  unfold pick. cbn [k_procs scanned touch upd_field]. destruct (list_find _ _) as [[o p]|]; cbn [select_outcome].
  - rewrite (proj1 (switch_run _ _ e2 tr (scanned_head _ Hw) He2)). done.
  - unfold scanned. by rewrite touch_touch.
Qed.

(** What an iteration decides, given the table after aging. *)
Definition decision (next : nat) (l : list proc) (r : option nat) : Prop :=
  match r with
  | Some i => exists best, best_of best l /\ first_from next best l i
  | None => forall p, p ∈ l -> ~ runnable p
  end.

Lemma scan_decision next l :
  length l = NPROC -> (next < NPROC)%nat -> Forall slot_ok l ->
  decision next (tick <$> l) (choose next l).
Proof.
  intros Hl Hn Hok. unfold choose. pose proof (scan_best l Hok) as Hb. destruct (scan_result l) as [best []].
  - cbn [fst snd] in *. pose proof (pick_first next best (tick <$> l)) as Hp.
    rewrite length_fmap in Hp. specialize (Hp Hl Hn).
    destruct (pick _ _ _) as [i|]; [by exists best|]. destruct Hb as [(p & Hin & Hr) _].
    by destruct (Hp p Hin).
  - done.
Qed.

(** ** Waiting *)
(** How far [i] is from [next] in round-robin order. *)
Definition dist (next i : nat) : nat := if decide (next <= i)%nat then (i - next)%nat else (i + NPROC - next)%nat.

(** A bound on the iterations until slot [i], holding [p], is switched to:
    aging takes [AGING_INTERVAL] of them for each level, and at the top level
    it is a matter of at most a turn round the table. *)
Definition rank (next i : nat) (p : proc) : Z :=
  if decide (p_priority p = PRIORITY_MIN) then Z.of_nat (dist next i)
  else Z.of_nat NPROC + AGING_INTERVAL * p_priority p - p_wait_ticks p.

Definition MAX_WAIT_ROUNDS : Z := Z.of_nat NPROC + AGING_INTERVAL * PRIORITY_MAX + 1.

(** The process is still waiting and has not lost ground. *)
Definition not_set_back (p p' : proc) : Prop :=
  runnable p' /\
  (p_priority p' < p_priority p \/ p_priority p' = p_priority p /\ p_wait_ticks p <= p_wait_ticks p').

(** A turn in which the hart does not run [i] does not set [i] back. *)
Definition keeps (i : nat) (s s' : kstate) : Prop :=
  forall c p, k_cpus s !! k_tp s = Some c -> c_proc c <> Some i ->
    k_procs s !! i = Some p -> runnable p ->
    exists p', k_procs s' !! i = Some p' /\ not_set_back p p'.

Lemma index_mod a : (a < NPROC + NPROC)%nat ->
  (a mod NPROC)%nat = if decide (a < NPROC)%nat then a else (a - NPROC)%nat.
Proof.
  intros H. destruct (decide _); [by apply Nat.mod_small|].
  rewrite <- (Nat.mod_small (a - NPROC) NPROC) by lia.
  rewrite <- (Nat.Div0.mod_add (a - NPROC) 1 NPROC). f_equal. lia.
Qed.

Lemma dist_lt next i : (i < NPROC)%nat -> (next < NPROC)%nat -> (dist next i < NPROC)%nat.
Proof. unfold dist. destruct (decide _); lia. Qed.

Lemma dist_index next i : (i < NPROC)%nat -> (next < NPROC)%nat -> ((next + dist next i) mod NPROC)%nat = i.
Proof. intros Hi Hn. unfold dist. rewrite index_mod; repeat destruct (decide _); lia. Qed.

Lemma dist_after next i o : (i < NPROC)%nat -> (next < NPROC)%nat -> (o < dist next i)%nat ->
  (dist (((next + o) mod NPROC + 1) mod NPROC) i < dist next i)%nat.
Proof.
  intros Hi Hn Ho. pose proof (dist_lt next i Hi Hn).
  rewrite (index_mod (next + o)), index_mod by (repeat destruct (decide _); lia).
  unfold dist in *. repeat destruct (decide _); lia.
Qed.

Lemma rank_bound next i p : slot_ok p -> (i < NPROC)%nat -> (next < NPROC)%nat ->
  0 <= rank next i p < MAX_WAIT_ROUNDS.
Proof.
  intros [Hp Hw Ha] Hi Hn. pose proof (dist_lt next i Hi Hn). unfold rank, MAX_WAIT_ROUNDS.
  unfold PRIORITY_MIN, PRIORITY_MAX, AGING_INTERVAL in *. destruct (decide _); lia.
Qed.

(** Above the top level the rank only depends on the process. *)
Lemma rank_set_back next next' i p p' : slot_ok p -> slot_ok p' -> not_set_back p p' ->
  (i < NPROC)%nat -> (next' < NPROC)%nat ->
  p_priority p <> PRIORITY_MIN \/ next = next' -> rank next' i p' <= rank next i p.
Proof.
  intros [Hp Hw Ha] [Hp' Hw' Ha'] [_ Hb] Hi Hn' Hn. pose proof (dist_lt next' i Hi Hn').
  unfold rank, PRIORITY_MIN, PRIORITY_MAX, AGING_INTERVAL in *.
  repeat destruct (decide _); destruct Hn; subst; lia.
Qed.

Lemma rank_tick next i p : slot_ok p -> runnable p -> (i < NPROC)%nat -> (next < NPROC)%nat ->
  p_priority p <> PRIORITY_MIN -> rank next i (tick p) < rank next i p.
Proof.
  intros Hok Hr Hi Hn Hne. pose proof (dist_lt next i Hi Hn). pose proof (tick_ok p Hok) as Ht.
  destruct (age_ok p Hok) as [_ Hlt]. destruct Hok as [Hp Hw Ha]. unfold rank. rewrite tick_priority.
  assert (Hw2 : p_wait_ticks (tick p) = u32 (p_wait_ticks (age p) + 1)).
  { unfold tick. rewrite age_state. by destruct (decide _). }
  assert (u32 (p_wait_ticks (age p) + 1) = p_wait_ticks (age p) + 1 \/ p_priority (age p) = PRIORITY_MIN).
  { destruct (decide (p_priority (age p) = PRIORITY_MIN)); [by right|left].
    unfold u32. apply Z.mod_small. destruct (age_ok p) as [[Hp' Hw' Ha'] _]; [by split|].
    specialize (Ha' ltac:(lia)). unfold AGING_INTERVAL in *. lia. }
  unfold age in *. destruct (ageable p) eqn:E; cbn in *.
  - unfold ageable, PRIORITY_MIN, PRIORITY_MAX, AGING_INTERVAL in *. repeat destruct (decide _); lia.
  - unfold PRIORITY_MIN, PRIORITY_MAX, AGING_INTERVAL in *. repeat destruct (decide _); lia.
Qed.

Definition fair (i : nat) (e : kstate -> kstate) : Prop :=
  forall s, turn s (e s) /\ keeps i s (e s).

(** Slot [i] holds a waiting process of rank at most [r]. *)
Definition waits (i : nat) (next : nat) (r : Z) (s : kstate) : Prop :=
  exists p, k_procs s !! i = Some p /\ runnable p /\ rank next i p <= r.

Lemma slot_of s i p : table_ok s -> k_procs s !! i = Some p -> slot_ok p.
Proof. intros Ht Hp. by eapply (Forall_lookup_1 _ _ _ _ Ht). Qed.

Lemma next_lt i : ((i + 1) mod NPROC < NPROC)%nat.
Proof. by apply Nat.mod_upper_bound. Qed.

Lemma window_waits i next r e s : at_head s -> (next < NPROC)%nat -> fair i e ->
  waits i next r s -> waits i next r (window e s).
Proof.
  intros Hh Hn He (p & Hp & Hr & Hk). pose proof (window_head e s Hh (fun s => proj1 (He s))) as Hw.
  pose proof (lookup_lt_Some _ _ _ Hp) as Hi. rewrite (q_len s (h_quiet s Hh)) in Hi.
  pose proof (h_noff s Hh) as (c & Hc & _ & Hcp).
  destruct (proj2 (He (s <| k_cpus := alter (fun c => c <| c_sie := true |>) (k_tp s) (k_cpus s) |>))
    (c <| c_sie := true |>) p) as (p' & Hp' & Hb); cbn in *.
  - by rewrite list_lookup_alter_eq, Hc.
  - by rewrite Hcp.
  - done.
  - done.
  - exists p'. split; [done|]. split; [apply Hb|]. etransitivity; [|exact Hk].
    apply (rank_set_back next next i p p'); auto.
    + by eapply slot_of; [apply (h_table s)|].
    + by eapply slot_of; [apply (h_table _ Hw)|].
Qed.

(** Once [i] is at the top level, another choice of slot brings [next] closer to
    it; below the top level, the scan itself lowers the rank. *)
Section Rank.
Context (l : list proc) (next i j : nat) (p p' : proc).
Context (Hl : Forall slot_ok l) (Hi : (i < NPROC)%nat) (Hn : (next < NPROC)%nat).
Context (Hp : l !! i = Some p) (Hr : runnable p) (Hok' : slot_ok p').
Context (Hb : not_set_back (tick p) p') (Hne : j <> i) (Hd : decision next (tick <$> l) (Some j)).

Lemma rank_slot : slot_ok p.
Proof. by eapply (Forall_lookup_1 _ _ _ _ Hl). Qed.

Lemma tick_top : p_priority p = PRIORITY_MIN -> p_priority (tick p) = PRIORITY_MIN.
Proof.
  intros H0. rewrite tick_priority. unfold age. destruct (ageable p) eqn:E; [|done].
  unfold ageable in E. lia.
Qed.

Lemma stays_top : p_priority (tick p) = PRIORITY_MIN -> p_priority p' = PRIORITY_MIN.
Proof. intros H0. destruct Hb as [_ ?]. pose proof (so_prio _ Hok'). lia. Qed.

Lemma best_top best : p_priority p = PRIORITY_MIN -> best_of best (tick <$> l) -> best = PRIORITY_MIN.
Proof.
  intros H0 [(q & Hq & [_ <-]) Hmin]. apply list_elem_of_fmap in Hq as (q' & -> & Hq').
  pose proof (so_prio _ (tick_ok _ (proj1 (Forall_forall _ _) Hl q' Hq'))).
  specialize (Hmin (tick p) (list_elem_of_fmap_2 _ _ _ (list_elem_of_lookup_2 _ _ _ Hp))
    (proj2 (tick_runnable p) Hr)). rewrite (tick_top H0) in Hmin. lia.
Qed.

Lemma rank_at_top : p_priority p = PRIORITY_MIN -> rank ((j + 1) mod NPROC) i p' < rank next i p.
Proof.
  intros H0. destruct Hd as (best & Hbest & o & Ho & Hj & _ & Hno).
  rewrite (best_top best H0 Hbest) in Hno.
  assert (Hlt : (o < dist next i)%nat).
  { destruct (decide (dist next i < o)%nat) as [Hlt|].
    - destruct (Hno (dist next i) (tick p) Hlt); [by rewrite dist_index, list_lookup_fmap, Hp|].
      split; [by apply tick_runnable|by apply tick_top].
    - destruct (decide (o = dist next i)); [|lia]. subst o.
      destruct Hne. by rewrite Hj, dist_index. }
  pose proof (dist_after next i o Hi Hn Hlt). rewrite Hj. unfold rank.
  rewrite (decide_True _ _ H0), (decide_True _ _ (stays_top (tick_top H0))). lia.
Qed.

Lemma rank_below_top : p_priority p <> PRIORITY_MIN -> rank ((j + 1) mod NPROC) i p' < rank next i p.
Proof.
  intros H0. pose proof rank_slot as Hok. pose proof (rank_tick next i p Hok Hr Hi Hn H0).
  destruct (decide (p_priority (tick p) = PRIORITY_MIN)) as [H1|H1].
  - pose proof (dist_lt ((j + 1) mod NPROC) i Hi (next_lt j)).
    unfold rank. rewrite (decide_False _ _ H0), (decide_True _ _ (stays_top H1)).
    destruct Hok as [Ha1 Ha2 Ha3]. unfold PRIORITY_MIN, AGING_INTERVAL in *. lia.
  - pose proof (rank_set_back next ((j + 1) mod NPROC) i (tick p) p' (tick_ok p Hok) Hok' Hb Hi
      (next_lt j) (or_introl H1)). lia.
Qed.

Lemma rank_decreases : rank ((j + 1) mod NPROC) i p' < rank next i p.
Proof.
  destruct (decide (p_priority p = PRIORITY_MIN)); [by apply rank_at_top|by apply rank_below_top].
Qed.
End Rank.

(** After the decision to run another slot, the rank is smaller. *)
Lemma dispatch_waits i j next r e s :
  at_head (scanned s) -> at_head s -> (next < NPROC)%nat -> fair i e -> j <> i ->
  decision next (tick <$> k_procs s) (Some j) -> waits i next r s ->
  waits i ((j + 1) mod NPROC) (r - 1) (switched_back j (e (dispatch j (scanned s)))).
Proof.
  intros Hh Hs Hn He Hne Hd (p & Hp & Hr & Hk).
  pose proof (lookup_lt_Some _ _ _ Hp) as Hi. rewrite (q_len s (h_quiet s Hs)) in Hi.
  assert (Hp1 : k_procs (dispatch j (scanned s)) !! i = Some (tick p)).
  { cbn. rewrite list_lookup_alter_ne by done. by rewrite list_lookup_fmap, Hp. }
  destruct (h_noff _ Hh) as (c & Hc & _).
  destruct (proj2 (He (dispatch j (scanned s))) ((push_cpu c) <| c_proc := Some j |>) (tick p))
    as (p' & Hp' & Hb).
  - cbn [dispatch k_cpus k_tp upd_field]. change (k_tp (enter _ ?x)) with (k_tp x).
    cbn [enter k_cpus k_tp upd_field]. by rewrite !list_lookup_alter_eq, Hc.
  - cbn. congruence.
  - done.
  - by apply tick_runnable.
  - destruct (switch_run j (scanned s) e [] Hh (fun s => proj1 (He s))) as [_ Hh2].
    exists p'. split; [done|]. split; [apply Hb|].
    pose proof (rank_decreases _ next i j p p' (h_table s Hs) Hi Hn Hp Hr
      (slot_of _ i p' (h_table _ Hh2) Hp') Hb Hne Hd). lia.
Qed.

(** One iteration, whatever it decides. *)
Lemma round_ok next s e1 e2 tr :
  at_head s -> (forall s, turn s (e1 s)) -> (forall s, turn s (e2 s)) -> (next < NPROC)%nat ->
  exists next' r s' tr',
    scheduler_round next s (e1 :: e2 :: tr) = Done (next', r) s' tr' /\
    at_head s' /\ (next' < NPROC)%nat /\ (tr' = tr \/ tr' = e2 :: tr).
Proof.
  intros Hh He1 He2 Hn. pose proof (window_head e1 s Hh He1) as Hw.
  rewrite scheduler_round_run by done. cbv zeta. destruct (choose _ _) as [i|].
  - eexists _, _, _, _. split; [done|].
    split; [apply (switch_run i _ e2 [] (scanned_head _ Hw) He2)|]. split; [apply next_lt|by left].
  - eexists _, _, _, _. split; [done|]. split; [by apply scanned_head|]. by auto.
Qed.

(** One iteration while [i] waits: it runs [i] or lowers its rank. *)
Lemma round_progress i next r s e1 e2 tr :
  at_head s -> fair i e1 -> fair i e2 -> (next < NPROC)%nat -> waits i next r s ->
  exists next' ran s',
    scheduler_round next s (e1 :: e2 :: tr) = Done (next', ran) s' tr /\
    at_head s' /\ (next' < NPROC)%nat /\ (ran = Some i \/ waits i next' (r - 1) s').
Proof.
  intros Hh He1 He2 Hn Hwt. pose proof (window_head e1 s Hh (fun s => proj1 (He1 s))) as Hw.
  pose proof (window_waits i next r e1 s Hh Hn He1 Hwt) as Hwt1.
  rewrite scheduler_round_run by (done || intros; (apply He1 || apply He2)). cbv zeta.
  pose proof (scan_decision next (k_procs (window e1 s)) (q_len _ (h_quiet _ Hw)) Hn (h_table _ Hw)) as Hd.
  destruct (choose _ _) as [j|].
  - eexists _, _, _. split; [done|].
    split; [apply (switch_run j _ e2 [] (scanned_head _ Hw) (fun s => proj1 (He2 s)))|].
    split; [apply next_lt|]. destruct (decide (j = i)) as [->|Hne]; [by left|right].
    apply (dispatch_waits i j next r e2 (window e1 s)); auto using scanned_head.
  - destruct Hwt1 as (p & Hp & Hr & _). destruct (Hd (tick p)); [|by apply tick_runnable].
    apply list_elem_of_fmap_2. by eapply list_elem_of_lookup_2.
Qed.

Lemma rounds_ok n : forall next s tr,
  at_head s -> (next < NPROC)%nat -> Forall (fun e => forall s, turn s (e s)) tr ->
  (2 * n <= length tr)%nat ->
  exists log s' tr', scheduler_rounds n next s tr = Done log s' tr' /\ at_head s' /\ length log = n.
Proof.
  induction n as [|n IH]; intros next s tr Hh Hn Htr Hlen; cbn [scheduler_rounds].
  { by exists [], s, tr. }
  destruct tr as [|e1 [|e2 tr]]; cbn [length] in Hlen; [lia..|].
  apply Forall_cons in Htr as [He1 Htr']. pose proof Htr' as Htr2. apply Forall_cons in Htr2 as [He2 Htr2].
  destruct (round_ok next s e1 e2 tr Hh He1 He2 Hn) as (next' & r & s' & tr' & Hrun & Hh' & Hn' & Htr).
  destruct (IH next' s' tr' Hh' Hn') as (log & s2 & tr2 & Hlog & Hh2 & Hl2).
  { by destruct Htr as [->| ->]. }
  { destruct Htr as [->| ->]; cbn; lia. }
  exists (r :: log), s2, tr2. split; [|by cbn; auto]. kstep Hrun. by kstep Hlog.
Qed.

Lemma rounds_reach i n : forall next r s tr,
  at_head s -> (next < NPROC)%nat -> Forall (fair i) tr -> (2 * n <= length tr)%nat ->
  waits i next r s -> 0 <= r + 1 <= Z.of_nat n ->
  exists log s' tr', scheduler_rounds n next s tr = Done log s' tr' /\ Some i ∈ log.
Proof.
  induction n as [|n IH]; intros next r s tr Hh Hn Htr Hlen Hw Hr; cbn [scheduler_rounds].
  { destruct Hw as (p & Hp & _ & Hk). pose proof (lookup_lt_Some _ _ _ Hp) as Hi.
    rewrite (q_len _ (h_quiet _ Hh)) in Hi.
    pose proof (rank_bound next i p (slot_of s i p (h_table s Hh) Hp) Hi Hn). lia. }
  destruct tr as [|e1 [|e2 tr]]; cbn [length] in Hlen; [lia..|].
  apply Forall_cons in Htr as [He1 Htr]. apply Forall_cons in Htr as [He2 Htr].
  destruct (round_progress i next r s e1 e2 tr Hh He1 He2 Hn Hw)
    as (next' & ran & s' & Hrun & Hh' & Hn' & [->|Hw']).
  - destruct (rounds_ok n next' s' tr Hh' Hn') as (log & s2 & tr2 & Hlog & _); [|lia|].
    { eapply Forall_impl; [done|]. intros e He s0. apply He. }
    exists (Some i :: log), s2, tr2. split; [|by left]. kstep Hrun. by kstep Hlog.
  - assert (Hr' : 0 <= (r - 1) + 1 <= Z.of_nat n).
    { destruct Hw as (p & Hp & _ & Hk). pose proof (lookup_lt_Some _ _ _ Hp) as Hi.
      rewrite (q_len _ (h_quiet _ Hh)) in Hi.
      pose proof (rank_bound next i p (slot_of s i p (h_table s Hh) Hp) Hi Hn). lia. }
    destruct (IH next' (r - 1) s' tr) as (log & s2 & tr2 & Hlog & Hin); auto with lia.
    exists (ran :: log), s2, tr2. split; [|by right]. kstep Hrun. by kstep Hlog.
Qed.

Section Theorems.

(** C2. Starvation freedom.  Whatever the running processes and the interrupt
    handlers do in their turns, as long as they do not set the waiting process
    [i] back, the scheduler switches to [i] within [MAX_WAIT_ROUNDS] iterations;
    it never panics, blocks or leaves the table on the way. *)
Theorem starvation_free (i n next : nat) s tr p :
  at_head s -> (next < NPROC)%nat -> k_procs s !! i = Some p -> runnable p ->
  Forall (fair i) tr -> (2 * n <= length tr)%nat -> MAX_WAIT_ROUNDS <= Z.of_nat n ->
  exists log s' tr', scheduler_rounds n next s tr = Done log s' tr' /\ Some i ∈ log.
Proof.
  intros Hh Hn Hp Hr Htr Hlen Hmax. pose proof (lookup_lt_Some _ _ _ Hp) as Hi.
  rewrite (q_len _ (h_quiet _ Hh)) in Hi.
  pose proof (rank_bound next i p (slot_of s i p (h_table s Hh) Hp) Hi Hn).
  apply (rounds_reach i n next (rank next i p)); auto with lia.
  by exists p.
Qed.

(** C26. What an iteration decides.  After aging, a slot is switched to if and
    only if some slot is runnable; it has the smallest priority value of the
    runnable slots and is the first such slot from [next_index] on; it is
    running, with its waiting count cleared, when the switch happens; the next
    iteration starts behind it. *)
Theorem scheduler_round_decides next s e1 e2 tr :
  at_head s -> (forall s, turn s (e1 s)) -> (forall s, turn s (e2 s)) -> (next < NPROC)%nat ->
  let s1 := scanned (window e1 s) in
  exists r,
    decision next (k_procs s1) r /\
    scheduler_round next s (e1 :: e2 :: tr) =
      match r with
      | Some i => Done (((i + 1) mod NPROC)%nat, Some i) (switched_back i (e2 (dispatch i s1))) tr
      | None => Done (next, None) s1 (e2 :: tr)
      end.
Proof.
  intros Hh He1 He2 Hn s1. pose proof (window_head e1 s Hh He1) as Hw.
  exists (choose next (k_procs (window e1 s))). split.
  - apply scan_decision; [apply Hw|done|apply Hw].
  - by rewrite scheduler_round_run.
Qed.

(** The scheduler runs for ever: any number of iterations completes without
    a panic, and each starts with no lock held, interrupts nested zero deep and
    every priority and waiting count in range. *)
Theorem scheduler_runs n s tr c :
  quiescent s -> k_cpus s !! k_tp s = Some c -> c_noff c = 0 -> table_ok s ->
  Forall (fun e => forall s, turn s (e s)) tr -> (2 * n <= length tr)%nat ->
  exists log s' tr', scheduler n s tr = Done log s' tr' /\ at_head s' /\ length log = n.
Proof.
  intros Hq Hc Hn Ht Htr Hlen.
  set (s1 := s <| k_cpus := alter (fun c => c <| c_proc := None |>) (k_tp s) (k_cpus s) |>).
  assert (Hc1 : k_cpus s1 !! k_tp s1 = Some (c <| c_proc := None |>))
    by (cbn; by rewrite list_lookup_alter_eq, Hc).
  destruct (rounds_ok n (k_tp s mod NPROC) s1 tr) as (log & s' & tr' & Hlog & Hh & Hl);
    [|by apply Nat.mod_upper_bound|done..|].
  - split; [split; [|apply Hq..]| |done].
    + exists (c <| c_proc := None |>). split; [done|]. split; cbn; [lia|intros; lia].
    + by exists (c <| c_proc := None |>).
  - exists log, s', tr'. split; [|done]. unfold scheduler, cpuid. kstep gets_run. by kstep set_mycpu_run.
Qed.
End Theorems.

(** ** A run: one process of the top priority that never sleeps, and one of the
    lowest *)
Definition demo_proc (pr : Z) : proc :=
  proc_bss <| p_state := RUNNABLE |> <| p_priority := pr |>.

Definition demo_table : list proc :=
  <[0%nat := demo_proc 0]> (<[3%nat := demo_proc 31]> (replicate NPROC proc_bss)).

Definition demo_sched : kstate := boot_state <| k_procs := demo_table |>.

(** The timer takes the hart from whoever runs. *)
Definition preempt (s : kstate) : kstate :=
  s <| k_procs ::= fmap (fun p => if decide (p_state p = RUNNING)
                                  then p <| p_state := RUNNABLE |> else p) |>.

Lemma preempt_fair i : fair i preempt.
Proof.
  intros s. split.
  - split; cbn; [done|done|by intros c Hc; exists c|by rewrite length_fmap|].
    intros Ht. apply Forall_fmap. eapply Forall_impl; [exact Ht|]. intros p Hp. cbn.
    destruct (decide _); [|done]. by destruct Hp.
  - intros c p Hc Hcp Hp Hr. exists p. cbn. rewrite list_lookup_fmap, Hp. cbn.
    unfold runnable in Hr. rewrite decide_False by (rewrite Hr; done). split; [done|].
    split; [done|]. right. split; [done|lia].
Qed.

Lemma demo_head : at_head demo_sched.
Proof.
  split.
  - split; [|done|done]. exists boot_cpu. split; [done|]. split; cbn; [lia|done].
  - by exists boot_cpu.
  - unfold table_ok, demo_sched, demo_table, demo_proc. cbn.
    repeat (apply Forall_cons; split); try apply Forall_nil; split; cbn;
      unfold PRIORITY_MIN, PRIORITY_MAX, AGING_INTERVAL; lia.
Qed.

Lemma starvation_free_witness :
  exists log s' tr',
    scheduler_rounds 1615 0 demo_sched (replicate 3230 preempt) = Done log s' tr' /\ Some 3%nat ∈ log.
Proof.
  apply (starvation_free 3 1615 0 demo_sched (replicate 3230 preempt) (demo_proc 31)).
  - exact demo_head.
  - unfold NPROC. lia.
  - reflexivity.
  - reflexivity.
  - apply Forall_replicate, preempt_fair.
  - rewrite length_replicate. lia.
  - unfold MAX_WAIT_ROUNDS, NPROC, AGING_INTERVAL, PRIORITY_MAX. lia.
Defined.

Lemma scheduler_round_decides_witness :
  exists r, decision 0 (k_procs (scanned (window preempt demo_sched))) r /\
    scheduler_round 0 demo_sched [preempt; preempt] =
      match r with
      | Some i => Done (((i + 1) mod NPROC)%nat, Some i)
          (switched_back i (preempt (dispatch i (scanned (window preempt demo_sched))))) []
      | None => Done (0%nat, None) (scanned (window preempt demo_sched)) [preempt]
      end.
Proof.
  apply (scheduler_round_decides 0 demo_sched preempt preempt []).
  - exact demo_head.
  - intros s. apply (preempt_fair 0).
  - intros s. apply (preempt_fair 0).
  - unfold NPROC. lia.
Defined.

Lemma scheduler_runs_witness :
  exists log s' tr',
    scheduler 2 demo_sched (replicate 4 preempt) = Done log s' tr' /\ at_head s' /\ length log = 2%nat.
Proof.
  apply (scheduler_runs 2 demo_sched (replicate 4 preempt) boot_cpu).
  - apply demo_head.
  - reflexivity.
  - reflexivity.
  - apply demo_head.
  - apply Forall_replicate. intros s. apply (preempt_fair 0).
  - reflexivity || (cbn; lia).
Defined.
