(* ===== verification/Vm.v ===== *)
(** * Page tables and user memory (kernel/vm.c)

    Sv39 page tables live in physical memory: a table is a page of 512 entries
    of eight bytes.  The routines of vm.c read and write them there, and
    allocate and free pages with kalloc.c.  A kernel buffer that [copyout]
    reads from is the list of its bytes; [copyin] and [copyinstr] return, next
    to the C result, the bytes they have written to their destination. *)

From stdpp Require Import prelude list strings gmap.
From Stdlib Require Import ZArith Lia ZifyBool.
From S2P Require Import Prelude State Spinlock CString Kalloc.
Local Open Scope Z_scope.

(** ** Page-table entries (riscv.h) *)
Definition PTE_V : Z := Z.shiftl 1 0.
Definition PTE_R : Z := Z.shiftl 1 1.
Definition PTE_W : Z := Z.shiftl 1 2.
Definition PTE_X : Z := Z.shiftl 1 3.
Definition PTE_U : Z := Z.shiftl 1 4.
Definition PA2PTE (pa : Z) : Z := Z.shiftl (Z.shiftr pa 12) 10.
Definition PTE2PA (pte : Z) : Z := Z.shiftl (Z.shiftr pte 10) 12.
Definition PTE_FLAGS (pte : Z) : Z := Z.land pte 0x3FF.
Definition PXSHIFT (level : Z) : Z := 12 + 9 * level.
Definition PX (level va : Z) : Z := Z.land (Z.shiftr va (PXSHIFT level)) 0x1FF.
Definition MAKE_SATP (pagetable : Z) : Z := Z.lor (Z.shiftl 8 60) (Z.shiftr pagetable 12).

(** [e & flag] as a C condition. *)
Definition has (e flag : Z) : bool := negb (Z.land e flag =? 0).

Section Vm.
Context `{KernelLayout}.

Definition load_pte (a : Z) : Kern Z := gets (fun s => load64 (k_mem s) a).
Definition store_pte (a v : Z) : Kern unit := modify (fun s => s <| k_mem := store64 (k_mem s) a v |>).
Definition zero_page (pa : Z) : Kern unit := modify (fun s => s <| k_mem := memset (k_mem s) pa 0 PGSIZE |>).

(** ** Walking a page table *)
(** The loop of [walk]; [level] counts down to 0. *)
Fixpoint walk_levels (level : nat) (pagetable va : Z) (alloc : bool) : Kern Z :=
  match level with
  | O => kret (pagetable + 8 * PX 0 va)
  | S level' =>
      let pte := pagetable + 8 * PX (Z.of_nat level) va in
      let! e := load_pte pte in
      if has e PTE_V then walk_levels level' (PTE2PA e) va alloc
      else if negb alloc then kret 0 else
      let! page := kalloc in
      if page =? 0 then kret 0 else
      zero_page page ;;
      store_pte pte (Z.lor (PA2PTE page) PTE_V) ;;
      walk_levels level' page va alloc
  end.

Definition walk (pagetable va : Z) (alloc : bool) : Kern Z :=
  if MAXVA <=? va then panic "walk" else walk_levels 2 pagetable va alloc.

Definition walkaddr (pagetable va : Z) : Kern Z :=
  if MAXVA <=? va then kret 0 else
  let! pte := walk pagetable va false in
  if pte =? 0 then kret 0 else
  let! e := load_pte pte in
  if negb (has e PTE_V) then kret 0 else
  if negb (has e PTE_U) then kret 0 else
  kret (PTE2PA e).

Definition ismapped (pagetable va : Z) : Kern bool :=
  let! pte := walk pagetable va false in
  if pte =? 0 then kret false else
  let! e := load_pte pte in
  kret (has e PTE_V).

(** ** Mapping *)
Fixpoint mappages_loop (fuel : nat) (pagetable a last pa perm : Z) : Kern Z :=
  match fuel with
  | O => hang
  | S fuel' =>
      let! pte := walk pagetable a true in
      if pte =? 0 then kret (-1) else
      let! e := load_pte pte in
      if has e PTE_V then panic "mappages: remap" else
      store_pte pte (Z.lor (Z.lor (PA2PTE pa) perm) PTE_V) ;;
      if a =? last then kret 0
      else mappages_loop fuel' pagetable (u64 (a + PGSIZE)) last (u64 (pa + PGSIZE)) perm
  end.

Definition mappages (pagetable va size pa perm : Z) : Kern Z :=
  if negb (va mod PGSIZE =? 0) then panic "mappages: va not aligned" else
  if negb (size mod PGSIZE =? 0) then panic "mappages: size not aligned" else
  if size =? 0 then panic "mappages: size" else
  mappages_loop (Z.to_nat (size / PGSIZE)) pagetable va (u64 (va + size - PGSIZE)) pa perm.

Definition kvmmap (kpgtbl va pa sz perm : Z) : Kern unit :=
  let! r := mappages kpgtbl va sz pa perm in
  when (negb (r =? 0)) (panic "kvmmap").


(** proc.c: a page for each process's kernel stack, with a guard page below. *)
Definition proc_mapstacks (kpgtbl : Z) : Kern unit :=
  for_each NPROC 0 (fun i =>
    let! pa := kalloc in
    if pa =? 0 then panic "kalloc" else
    let va := KSTACK (Z.of_nat i) in
    kvmmap kpgtbl va pa PGSIZE (Z.lor PTE_R PTE_W)).

Definition kvmmake : Kern Z :=
  let! kpgtbl := kalloc in
  zero_page kpgtbl ;;
  kvmmap kpgtbl UART0 UART0 PGSIZE (Z.lor PTE_R PTE_W) ;;
  kvmmap kpgtbl VIRTIO0 VIRTIO0 PGSIZE (Z.lor PTE_R PTE_W) ;;
  kvmmap kpgtbl PLIC PLIC 0x4000000 (Z.lor PTE_R PTE_W) ;;
  kvmmap kpgtbl KERNBASE KERNBASE (etext - KERNBASE) (Z.lor PTE_R PTE_X) ;;
  kvmmap kpgtbl etext etext (PHYSTOP - etext) (Z.lor PTE_R PTE_W) ;;
  kvmmap kpgtbl TRAMPOLINE trampoline PGSIZE (Z.lor PTE_R PTE_X) ;;
  proc_mapstacks kpgtbl ;;
  kret kpgtbl.

Definition kvminit : Kern unit :=
  let! kpgtbl := kvmmake in
  modify (fun s => s <| k_kpgtbl := kpgtbl |>).

(** The fences order memory accesses of the hardware walker and change no state
    of the model. *)
Definition kvminithart : Kern unit :=
  let! kpgtbl := gets k_kpgtbl in
  set_mycpu (fun c => c <| c_satp := MAKE_SATP kpgtbl |>).

(** ** User address spaces *)
Definition uvmcreate : Kern Z :=
  let! pagetable := kalloc in
  if pagetable =? 0 then kret 0 else
  zero_page pagetable ;;
  kret pagetable.

Fixpoint uvmunmap_loop (fuel : nat) (pagetable a a_end : Z) (do_free : bool) : Kern unit :=
  match fuel with
  | O => kret tt
  | S fuel' =>
      if a_end <=? a then kret tt else
      let! pte := walk pagetable a false in
      (if pte =? 0 then kret tt else
       let! e := load_pte pte in
       if negb (has e PTE_V) then kret tt else
       when do_free (kfree (PTE2PA e)) ;;
       store_pte pte 0) ;;
      uvmunmap_loop fuel' pagetable (u64 (a + PGSIZE)) a_end do_free
  end.

Definition uvmunmap (pagetable va npages : Z) (do_free : bool) : Kern unit :=
  if negb (va mod PGSIZE =? 0) then panic "uvmunmap: not aligned" else
  uvmunmap_loop (Z.to_nat npages) pagetable va (u64 (va + npages * PGSIZE)) do_free.

Definition uvmdealloc (pagetable oldsz newsz : Z) : Kern Z :=
  if oldsz <=? newsz then kret oldsz else
  when (PGROUNDUP newsz <? PGROUNDUP oldsz)
    (let npages := i32 ((PGROUNDUP oldsz - PGROUNDUP newsz) / PGSIZE) in
     uvmunmap pagetable (PGROUNDUP newsz) (u64 npages) true) ;;
  kret newsz.

Fixpoint uvmalloc_loop (fuel : nat) (pagetable a oldsz newsz xperm : Z) : Kern Z :=
  match fuel with
  | O => hang
  | S fuel' =>
      if newsz <=? a then kret newsz else
      let! mem := kalloc in
      if mem =? 0 then
        uvmdealloc pagetable a oldsz ;;
        kret 0
      else
      zero_page mem ;;
      let! r := mappages pagetable a PGSIZE mem (Z.lor (Z.lor PTE_R PTE_U) xperm) in
      if negb (r =? 0) then
        kfree mem ;;
        uvmdealloc pagetable a oldsz ;;
        kret 0
      else uvmalloc_loop fuel' pagetable (u64 (a + PGSIZE)) oldsz newsz xperm
  end.

Definition uvmalloc (pagetable oldsz newsz xperm : Z) : Kern Z :=
  if newsz <? oldsz then kret oldsz else
  let oldsz := PGROUNDUP oldsz in
  uvmalloc_loop (S (Z.to_nat ((newsz - oldsz + PGSIZE - 1) / PGSIZE))) pagetable oldsz oldsz newsz xperm.

(** [freewalk] recurses through the levels; a table of level 0 has no tables
    below it, so three levels are enough for a table [walk] has built. *)
Fixpoint freewalk (level : nat) (pagetable : Z) : Kern unit :=
  match level with
  | O => hang
  | S level' =>
      for_each 512 0 (fun i =>
        let! pte := load_pte (pagetable + 8 * Z.of_nat i) in
        if has pte PTE_V && (Z.land pte (Z.lor (Z.lor PTE_R PTE_W) PTE_X) =? 0) then
          let child := PTE2PA pte in
          freewalk level' child ;;
          store_pte (pagetable + 8 * Z.of_nat i) 0
        else if has pte PTE_V then panic "freewalk: leaf"
        else kret tt) ;;
      kfree pagetable
  end.

Definition uvmfree (pagetable sz : Z) : Kern unit :=
  when (0 <? sz) (uvmunmap pagetable 0 (PGROUNDUP sz / PGSIZE) true) ;;
  freewalk 3 pagetable.

Fixpoint uvmcopy_loop (fuel : nat) (old new i sz : Z) : Kern Z :=
  match fuel with
  | O => hang
  | S fuel' =>
      if sz <=? i then kret 0 else
      let! pte := walk old i false in
      if pte =? 0 then uvmcopy_loop fuel' old new (u64 (i + PGSIZE)) sz else
      let! e := load_pte pte in
      if negb (has e PTE_V) then uvmcopy_loop fuel' old new (u64 (i + PGSIZE)) sz else
      let pa := PTE2PA e in
      let flags := PTE_FLAGS e in
      let! mem := kalloc in
      if mem =? 0 then
        uvmunmap new 0 (i / PGSIZE) true ;;
        kret (-1)
      else
      modify (fun s => s <| k_mem := memmove (k_mem s) mem pa PGSIZE |>) ;;
      let! r := mappages new i PGSIZE mem flags in
      if negb (r =? 0) then
        kfree mem ;;
        uvmunmap new 0 (i / PGSIZE) true ;;
        kret (-1)
      else uvmcopy_loop fuel' old new (u64 (i + PGSIZE)) sz
  end.

Definition uvmcopy (old new sz : Z) : Kern Z :=
  uvmcopy_loop (S (Z.to_nat ((sz + PGSIZE - 1) / PGSIZE))) old new 0 sz.

Definition uvmclear (pagetable va : Z) : Kern unit :=
  let! pte := walk pagetable va false in
  if pte =? 0 then panic "uvmclear" else
  let! e := load_pte pte in
  store_pte pte (Z.land e (Z.lnot PTE_U)).

Definition vmfault (pagetable psz va : Z) (read : bool) : Kern Z :=
  if psz <=? va then kret 0 else
  let va := PGROUNDDOWN va in
  let! m := ismapped pagetable va in
  if m then kret 0 else
  let! mem := kalloc in
  if mem =? 0 then kret 0 else
  zero_page mem ;;
  let! r := mappages pagetable va PGSIZE mem (Z.lor (Z.lor PTE_W PTE_U) PTE_R) in
  if negb (r =? 0) then
    kfree mem ;;
    kret 0
  else kret mem.

(** ** Copying between kernel and user space

    Each iteration of these loops copies at least one byte, so one iteration
    more than there are bytes is enough. *)
Fixpoint copyout_loop (fuel : nat) (pagetable psz dstva : Z) (src : list Z) : Kern Z :=
  match fuel with
  | O => hang
  | S fuel' =>
      if Z.of_nat (length src) <=? 0 then kret 0 else
      let va0 := PGROUNDDOWN dstva in
      if MAXVA <=? va0 then kret (-1) else
      let! pa0 := walkaddr pagetable va0 in
      let! pa0 := if pa0 =? 0 then vmfault pagetable psz va0 false else kret pa0 in
      if pa0 =? 0 then kret (-1) else
      let! pte := walk pagetable va0 false in
      let! e := load_pte pte in
      if negb (has e PTE_W) then kret (-1) else
      let n := Z.to_nat (Z.min (PGSIZE - (dstva - va0)) (Z.of_nat (length src))) in
      modify (fun s => s <| k_mem := write_bytes (k_mem s) (pa0 + (dstva - va0)) (take n src) |>) ;;
      copyout_loop fuel' pagetable psz (u64 (va0 + PGSIZE)) (drop n src)
  end.

Definition copyout (pagetable psz dstva : Z) (src : list Z) : Kern Z :=
  copyout_loop (S (length src)) pagetable psz dstva src.

(** The result and the bytes put at [dst]. *)
Fixpoint copyin_loop (fuel : nat) (pagetable psz : Z) (dst : list Z) (srcva : Z) (len : Z) : Kern (Z * list Z) :=
  match fuel with
  | O => hang
  | S fuel' =>
      if len <=? 0 then kret (0, dst) else
      let va0 := PGROUNDDOWN srcva in
      let! pa0 := walkaddr pagetable va0 in
      let! pa0 := if pa0 =? 0 then vmfault pagetable psz va0 true else kret pa0 in
      if pa0 =? 0 then kret (-1, dst) else
      let n := Z.min (PGSIZE - (srcva - va0)) len in
      let! chunk := gets (fun s => read_bytes (k_mem s) (pa0 + (srcva - va0)) (Z.to_nat n)) in
      copyin_loop fuel' pagetable psz (dst ++ chunk) (u64 (va0 + PGSIZE)) (len - n)
  end.

Definition copyin (pagetable psz srcva len : Z) : Kern (Z * list Z) :=
  copyin_loop (S (Z.to_nat len)) pagetable psz [] srcva len.

(** The inner loop of [copyinstr]: the bytes copied from [p], at most [n], and
    whether the last one is the terminator. *)
Fixpoint str_chunk (m : Z -> Z) (p : Z) (n : nat) : list Z * bool :=
  match n with
  | O => ([], false)
  | S n' =>
      if m p =? 0 then ([0], true)
      else let '(l, got_null) := str_chunk m (p + 1) n' in (m p :: l, got_null)
  end.

Fixpoint copyinstr_loop (fuel : nat) (pagetable psz : Z) (dst : list Z) (srcva max : Z) : Kern (Z * list Z) :=
  match fuel with
  | O => hang
  | S fuel' =>
      if max <=? 0 then kret (-1, dst) else
      let va0 := PGROUNDDOWN srcva in
      let! pa0 := walkaddr pagetable va0 in
      let! pa0 := if pa0 =? 0 then vmfault pagetable psz va0 true else kret pa0 in
      if pa0 =? 0 then kret (-1, dst) else
      let n := Z.min (PGSIZE - (srcva - va0)) max in
      let! '(chunk, got_null) :=
        gets (fun s => str_chunk (k_mem s) (pa0 + (srcva - va0)) (Z.to_nat n)) in
      if (got_null : bool) then kret (0, dst ++ chunk)
      else copyinstr_loop fuel' pagetable psz (dst ++ chunk) (u64 (va0 + PGSIZE)) (max - n)
  end.

Definition copyinstr (pagetable psz srcva max : Z) : Kern (Z * list Z) :=
  copyinstr_loop (S (Z.to_nat max)) pagetable psz [] srcva max.
End Vm.

(** ** Arithmetic of entries and indices *)
Lemma PX_bound level va : 0 <= PX level va < 512.
Proof. unfold PX. change 0x1FF with (Z.ones 9). rewrite Z.land_ones by lia. apply Z.mod_pos_bound. lia. Qed.

Lemma PX_div level va : 0 <= level -> PX level va = (va / 2 ^ (12 + 9 * level)) mod 512.
Proof.
  intros Hl. unfold PX, PXSHIFT. change 0x1FF with (Z.ones 9).
  rewrite Z.land_ones, Z.shiftr_div_pow2 by lia. done.
Qed.

(** The three indices determine the page. *)
Lemma PX_inj va va' :
  0 <= va < MAXVA -> 0 <= va' < MAXVA ->
  PX 2 va = PX 2 va' -> PX 1 va = PX 1 va' -> PX 0 va = PX 0 va' -> va / PGSIZE = va' / PGSIZE.
Proof.
  rewrite !PX_div by lia. cbn. change MAXVA with (2 ^ 38). unfold PGSIZE. intros.
  Z.to_euclidean_division_equations. lia.
Qed.

Lemma PX_page level va va' : 0 <= level -> va / PGSIZE = va' / PGSIZE -> PX level va = PX level va'.
Proof.
  intros Hl E. rewrite !PX_div by done. rewrite Z.pow_add_r, <- !Z.div_div by lia.
  change (2 ^ 12) with PGSIZE. by rewrite E.
Qed.

Lemma has_V_lor x : has (Z.lor x PTE_V) PTE_V = true.
Proof.
  unfold has. apply negb_true_iff, Z.eqb_neq. intros E.
  assert (Hb : Z.testbit (Z.land (Z.lor x PTE_V) PTE_V) 0 = false) by (by rewrite E).
  rewrite Z.land_spec, Z.lor_spec in Hb. by rewrite orb_true_r in Hb.
Qed.

Lemma PTE2PA_PA2PTE pa flags :
  pa mod PGSIZE = 0 -> 0 <= flags < 1024 -> PTE2PA (Z.lor (PA2PTE pa) flags) = pa.
Proof.
  intros Hpa Hf. unfold PTE2PA, PA2PTE. rewrite Z.shiftr_lor.
  rewrite Z.shiftr_shiftl_l by lia. change (10 - 10) with 0. rewrite Z.shiftl_0_r.
  rewrite (Z.shiftr_div_pow2 flags), Z.div_small, Z.lor_0_r by lia.
  rewrite Z.shiftr_div_pow2, Z.shiftl_mul_pow2 by lia. change (2 ^ 12) with PGSIZE.
  pose proof (Z_div_mod_eq_full pa PGSIZE). lia.
Qed.

Lemma lor_range n x y : 0 <= n -> 0 <= x < 2 ^ n -> 0 <= y < 2 ^ n -> 0 <= Z.lor x y < 2 ^ n.
Proof.
  intros Hn Hx Hy. assert (0 <= Z.lor x y) by (apply Z.lor_nonneg; lia). split; [done|].
  assert (Hlog : forall z, 0 <= z < 2 ^ n -> z = 0 \/ Z.log2 z < n).
  { intros z Hz. destruct (decide (z = 0)); [by left|right]. apply Z.log2_lt_pow2; lia. }
  destruct (Hlog x Hx) as [->|]; [rewrite Z.lor_0_l; lia|].
  destruct (Hlog y Hy) as [->|]; [rewrite Z.lor_0_r; lia|].
  destruct (decide (Z.lor x y = 0)) as [->|]; [lia|].
  apply Z.log2_lt_pow2; [lia|]. rewrite Z.log2_lor by lia. lia.
Qed.

Lemma pte_range pa flags :
  0 <= pa < 2 ^ 56 -> 0 <= flags < 1024 -> 0 <= Z.lor (PA2PTE pa) flags < 2 ^ 64.
Proof.
  intros Hpa Hf. unfold PA2PTE. rewrite Z.shiftr_div_pow2, Z.shiftl_mul_pow2 by lia.
  assert (0 <= pa / 2 ^ 12 < 2 ^ 44) by (split; [apply Z.div_pos|apply Z.div_lt_upper_bound]; lia).
  apply lor_range; lia.
Qed.

(** ** The tables of a page table

    [tbl m root path] is the table reached from [root] by the indices [path];
    tables of the tree have paths of length at most two. *)
Definition entry (m : Z -> Z) (t i : Z) : option Z :=
  let e := load64 m (t + 8 * i) in if has e PTE_V then Some (PTE2PA e) else None.

Fixpoint tbl (m : Z -> Z) (t : Z) (path : list Z) : option Z :=
  match path with
  | [] => Some t
  | i :: path' => match entry m t i with Some t' => tbl m t' path' | None => None end
  end.

Definition index (i : Z) : Prop := 0 <= i < 512.

Lemma tbl_app m p : forall t q,
  tbl m t (p ++ q) = match tbl m t p with Some t' => tbl m t' q | None => None end.
Proof.
  induction p as [|i p IH]; intros t q; cbn; [done|]. by destruct (entry m t i).
Qed.

Lemma tbl_snoc m t p i :
  tbl m t (p ++ [i]) = match tbl m t p with Some t' => entry m t' i | None => None end.
Proof. rewrite tbl_app. destruct (tbl m t p); cbn; [by destruct (entry _ _ _)|done]. Qed.

Lemma entry_ext m m' t i :
  index i -> (forall b, t <= b < t + PGSIZE -> m' b = m b) -> entry m' t i = entry m t i.
Proof.
  intros Hi Hm. unfold entry. rewrite (load64_ext m' m); [done|].
  intros b Hb. apply Hm. unfold index, PGSIZE in *. lia.
Qed.

Section PageTable.
Context `{KernelLayout} (Hend : 0 < kernel_end).

(** The tables are pages of RAM, each reached by one path, and none is on the
    free list [l]. *)
Record pt_ok (m : Z -> Z) (root : Z) (l : list Z) : Prop := {
  pt_page : forall p t, Forall index p -> (length p <= 2)%nat -> tbl m root p = Some t -> page_ok t;
  pt_used : forall p t, Forall index p -> (length p <= 2)%nat -> tbl m root p = Some t -> t ∉ l;
  pt_inj : forall p q t, Forall index p -> Forall index q -> (length p <= 2)%nat -> (length q <= 2)%nat ->
    tbl m root p = Some t -> tbl m root q = Some t -> p = q }.

(** Memory changes that stay off the tables leave them as they are. *)
Definition off_tables (m : Z -> Z) (root : Z) (m' : Z -> Z) : Prop :=
  forall p t b, Forall index p -> (length p <= 2)%nat -> tbl m root p = Some t ->
    t <= b < t + PGSIZE -> m' b = m b.

Lemma tbl_ext m m' root p :
  off_tables m root m' -> Forall index p -> (length p <= 3)%nat -> tbl m' root p = tbl m root p.
Proof.
  intros Hm. induction p as [|i p IH] using rev_ind; intros Hp Hlen; [done|].
  rewrite length_app in Hlen. cbn in Hlen. apply Forall_app in Hp as [Hp Hi].
  rewrite Forall_singleton in Hi. rewrite !tbl_snoc, IH by (done || lia). destruct (tbl m root p) as [t|] eqn:E; [|done].
  apply entry_ext; [done|]. intros b Hb. eapply (Hm p t); (done || lia).
Qed.

Lemma pt_ok_ext m m' root l l' :
  off_tables m root m' -> (forall t, t ∈ l' -> t ∈ l) -> pt_ok m root l -> pt_ok m' root l'.
Proof.
  intros Hm Hl [H1 H2 H3]. split.
  - intros p t Hp Hlen. rewrite (tbl_ext m) by (done || lia). by apply H1.
  - intros p t Hp Hlen. rewrite (tbl_ext m) by (done || lia). intros Ht Hin. eapply H2; eauto.
  - intros p q t Hp Hq Hlp Hlq. rewrite !(tbl_ext m m') by (done || lia). by apply H3.
Qed.

Lemma page_distinct x y : page_ok x -> page_ok y -> x <> y -> x + PGSIZE <= y \/ y + PGSIZE <= x.
Proof.
  intros Hx Hy Hne. pose proof (pages_disjoint x y x Hx Hy Hne). 
  pose proof (pages_disjoint y x y Hy Hx (not_eq_sym Hne)). unfold PGSIZE in *. lia.
Qed.

(** *** Writing one entry *)
Section Store.
Context (m : Z -> Z) (root : Z) (l : list Z) (p : list Z) (t i v : Z).
Context (Hok : pt_ok m root l) (Hp : Forall index p) (Hlen : (length p <= 2)%nat).
Context (Ht : tbl m root p = Some t) (Hi : index i) (Hv : 0 <= v < 2 ^ 64).

Abbreviation m' := (store64 m (t + 8 * i) v).

Lemma entry_store_other q t' j :
  Forall index q -> (length q <= 2)%nat -> tbl m root q = Some t' -> index j ->
  ~ (q = p /\ j = i) -> entry m' t' j = entry m t' j.
Proof.
  intros Hq Hlq Hq' Hj Hne. unfold entry. rewrite load64_store64_ne; [done|].
  destruct (decide (t' = t)) as [->|Htt].
  - assert (j <> i) by (intros ->; apply Hne; split; [by eapply (pt_inj _ _ _ Hok)|done]). lia.
  - pose proof (page_distinct t t' (pt_page _ _ _ Hok _ _ Hp Hlen Ht)
      (pt_page _ _ _ Hok _ _ Hq Hlq Hq') (not_eq_sym Htt)). unfold index, PGSIZE in *. lia.
Qed.

Lemma tbl_store_other q :
  Forall index q -> (length q <= 3)%nat -> ~ (p ++ [i]) `prefix_of` q -> tbl m' root q = tbl m root q.
Proof.
  induction q as [|j q IH] using rev_ind; intros Hq Hlq Hpre; [done|].
  rewrite length_app in Hlq. cbn in Hlq. apply Forall_app in Hq as [Hq Hj].
  rewrite Forall_singleton in Hj. rewrite !tbl_snoc, IH; [|done|lia|].
  2: { intros Hpre'. apply Hpre. by apply prefix_app_r. }
  destruct (tbl m root q) as [t'|] eqn:E; [|done].
  apply (entry_store_other q); [done|lia|done|done|]. by intros [-> ->].
Qed.

Lemma tbl_store_path : tbl m' root p = Some t.
Proof.
  rewrite tbl_store_other; [done|done|lia|]. intros Hpre%prefix_length.
  rewrite length_app in Hpre. cbn in Hpre. lia.
Qed.

Lemma tbl_store_at r :
  tbl m' root (p ++ i :: r) = if has v PTE_V then tbl m' (PTE2PA v) r else None.
Proof.
  rewrite tbl_app, tbl_store_path. cbn [tbl]. unfold entry.
  rewrite load64_store64 by done. by destruct (has v PTE_V).
Qed.
End Store.

(** *** Adding a table *)
Section Add.
Context (m : Z -> Z) (root : Z) (g : Z) (l : list Z) (p : list Z) (t i : Z).
Context (Hok : pt_ok m root (g :: l)) (Hp : Forall index p) (Hlen : (length p <= 1)%nat).
Context (Ht : tbl m root p = Some t) (Hi : index i) (Hg : page_ok g) (Hgl : g ∉ l).
Context (Hnone : entry m t i = None).
Context (Hzero : forall b, g <= b < g + PGSIZE -> m b = 0).

Abbreviation v := (Z.lor (PA2PTE g) PTE_V).
Abbreviation m' := (store64 m (t + 8 * i) v).

Lemma new_entry : has v PTE_V = true /\ PTE2PA v = g /\ 0 <= v < 2 ^ 64.
Proof.
  split; [apply has_V_lor|]. split; [apply PTE2PA_PA2PTE; [apply Hg|done]|].
  apply pte_range; [|done]. pose proof (page_ok_pos Hend g Hg). destruct Hg as [_ Hr].
  assert (PHYSTOP < 2 ^ 56) by done. lia.
Qed.

Lemma new_not_table : g <> t.
Proof. intros ->. eapply (pt_used _ _ _ Hok p t); [done|lia|done|]. by left. Qed.

Lemma new_empty j : index j -> entry m' g j = None.
Proof.
  intros Hj. pose proof (page_distinct g t Hg (pt_page _ _ _ Hok p t Hp ltac:(lia) Ht) new_not_table).
  unfold entry. rewrite load64_store64_ne by (unfold index, PGSIZE in *; lia).
  rewrite (load64_ext m (fun _ => 0)); [done|].
  intros b Hb. apply Hzero. unfold index, PGSIZE in *. lia.
Qed.

Lemma tbl_add q :
  Forall index q -> (length q <= 3)%nat ->
  tbl m' root q = if decide (q = p ++ [i]) then Some g else tbl m root q.
Proof.
  intros Hq Hlq. destruct (new_entry) as (Hv & Hpa & Hr).
  destruct (decide ((p ++ [i]) `prefix_of` q)) as [[r ->]|Hpre].
  - rewrite <- app_assoc. cbn [app]. rewrite (tbl_store_at m root (g :: l)) by (done || lia).
    rewrite Hv, Hpa. destruct r as [|j r].
    + by rewrite decide_True.
    + rewrite decide_False. 2: { intros E%(f_equal length). rewrite !length_app in E. cbn in E. lia. }
      rewrite tbl_app, Ht. cbn [tbl]. rewrite Hnone. rewrite new_empty; [done|].
      apply Forall_app in Hq as [_ Hq]. by apply Forall_cons in Hq as [Hj _].
  - rewrite (tbl_store_other m root (g :: l) p) by (done || lia).
    rewrite decide_False; [done|]. intros ->. by apply Hpre.
Qed.

Lemma pt_ok_add : pt_ok m' root l.
Proof.
  destruct Hok as [H1 H2 H3]. split.
  - intros q t' Hq Hlq. rewrite tbl_add by (done || lia). destruct (decide _); [by intros [= <-]|by apply H1].
  - intros q t' Hq Hlq. rewrite tbl_add by (done || lia). destruct (decide _); [by intros [= <-]|].
    intros Ht' Hin. eapply (H2 q t'); [done..|]. by right.
  - intros q r t' Hq Hr Hlq Hlr. rewrite !tbl_add by (done || lia).
    assert (Hold : forall q, Forall index q -> (length q <= 2)%nat -> tbl m root q <> Some g).
    { intros q' Hq' Hl' E. eapply (H2 q' g); [done..|]. by left. }
    destruct (decide (q = _)), (decide (r = _)); [congruence|..]; intros E1 E2; simplify_eq.
    + by destruct (Hold r).
    + by destruct (Hold q).
    + by apply (H3 q r t').
Qed.
End Add.

(** ** The address space a page table describes *)
Definition vpath (va : Z) : list Z := [PX 2 va; PX 1 va].

(** The leaf entry of [va]; 0 (not valid) where a table is missing. *)
Definition pte_val (m : Z -> Z) (root va : Z) : Z :=
  match tbl m root (vpath va) with
  | Some t => load64 m (t + 8 * PX 0 va)
  | None => 0
  end.

Definition pte_addr (m : Z -> Z) (root va : Z) : Z :=
  match tbl m root (vpath va) with
  | Some t => t + 8 * PX 0 va
  | None => 0
  end.

Lemma vpath_index va : Forall index (vpath va).
Proof. repeat constructor; apply PX_bound. Qed.

Fixpoint level_path (level : nat) (va : Z) : list Z :=
  match level with O => [] | S level' => PX (Z.of_nat level) va :: level_path level' va end.

Lemma walk_levels_lookup level : forall t va s tr,
  walk_levels level t va false s tr =
    Done (match tbl (k_mem s) t (level_path level va) with
          | Some t' => t' + 8 * PX 0 va | None => 0 end) s tr.
Proof.
  induction level as [|level IH]; intros t va s tr; [done|]. cbn [walk_levels level_path tbl].
  unfold load_pte. kstep gets_run. unfold entry.
  destruct (has _ PTE_V); [apply IH|done].
Qed.

Lemma walk_lookup root va s tr :
  va < MAXVA -> walk root va false s tr = Done (pte_addr (k_mem s) root va) s tr.
Proof.
  intros Hva. unfold walk. rewrite (proj2 (Z.leb_gt _ _)) by done. apply walk_levels_lookup.
Qed.

(** States that differ in memory, the free list and the hart's saved interrupt
    flag only. *)
Definition with_mem (m : Z -> Z) (f : Z) (s : kstate) : kstate :=
  s <| k_mem := m |> <| k_freelist := f |>.
Definition vm_frame (s s' : kstate) : Prop :=
  exists m f, s' = with_mem m f s \/ s' = touch (with_mem m f s).

Lemma vm_frame_refl s : vm_frame s s.
Proof. exists (k_mem s), (k_freelist s). by left. Qed.

Lemma vm_frame_mem s m : vm_frame s (s <| k_mem := m |>).
Proof. exists m, (k_freelist s). by left. Qed.

Lemma vm_frame_trans s1 s2 s3 : vm_frame s1 s2 -> vm_frame s2 s3 -> vm_frame s1 s3.
Proof.
  intros (m & f & H1) (m' & f' & H2). exists m', f'.
  destruct H1 as [-> | ->], H2 as [-> | ->]; auto; right.
  exact (touch_touch (with_mem m' f' s1)).
Qed.

Lemma vm_frame_hart s s' : vm_frame s s' -> hart_ok s -> hart_ok s'.
Proof. intros (m & f & [-> | ->]) Hs; [done|by apply (hart_ok_touch (with_mem m f s))]. Qed.

Lemma vm_frame_same s s' : vm_frame s s' -> k_locks s' = k_locks s /\ k_procs s' = k_procs s /\ k_tp s' = k_tp s.
Proof. by intros (m & f & [-> | ->]). Qed.

(** [kmem_ready s l]: the allocator can be called and its free list is [l]. *)
Record kmem_ready (s : kstate) (l : list Z) : Prop := {
  kr_hart : hart_ok s;
  kr_lock : k_locks s !! L_kmem = None;
  kr_list : kmem_list s l }.

Lemma kmem_ready_mem s l m :
  kmem_ready s l -> (forall x b, x ∈ l -> x <= b < x + PGSIZE -> m b = k_mem s b) ->
  kmem_ready (s <| k_mem := m |>) l.
Proof.
  intros [H1 H2 (H3 & H4 & H5)] Hm. split; [done|done|]. split; [|done]. cbn.
  eapply chain_ext; [done| |done]. intros x b Hx Hb. symmetry. by eapply Hm.
Qed.

(** The shape of the tables [walk] builds: an entry that points to a table has
    no permission bits, and the root has none in its upper half, which [MAXVA]
    leaves unused. *)
Definition pointer_only (e : Z) : bool := Z.land e (Z.lor (Z.lor PTE_R PTE_W) PTE_X) =? 0.

Record shape (m : Z -> Z) (root : Z) : Prop := {
  sh_low : forall i, 256 <= i < 512 -> entry m root i = None;
  sh_pointer : forall p t i, Forall index p -> (length p <= 1)%nat -> tbl m root p = Some t -> index i ->
    has (load64 m (t + 8 * i)) PTE_V = true -> pointer_only (load64 m (t + 8 * i)) = true }.

Lemma shape_ext m m' root : off_tables m root m' -> shape m root -> shape m' root.
Proof.
  intros Hm [H1 H2]. split.
  - intros i Hi. rewrite (entry_ext m); [by apply H1|unfold index; lia|]. intros b Hb. apply (Hm [] root); [done|cbn; lia|done|done].
  - intros p t i Hp Hl. rewrite (tbl_ext m) by (done || lia). intros Ht Hi.
    rewrite (load64_ext m' m); [by apply (H2 p)|]. intros b Hb. eapply (Hm p t); [done|lia|done|].
    unfold index, PGSIZE in *. lia.
Qed.

(** [vm_step root s l s' l']: the step takes pages off the free list, at most to
    add tables, and writes to tables and pages off the list only. *)
Record vm_step (root : Z) (s : kstate) (l : list Z) (s' : kstate) (l' : list Z) : Prop := {
  vs_frame : vm_frame s s';
  vs_kmem : kmem_ready s' l';
  vs_pt : pt_ok (k_mem s') root l';
  vs_list : exists k, l = k ++ l';
  vs_tbl : forall p t, Forall index p -> (length p <= 2)%nat -> tbl (k_mem s) root p = Some t ->
    tbl (k_mem s') root p = Some t;
  vs_new : forall p t, Forall index p -> (length p <= 2)%nat -> tbl (k_mem s') root p = Some t ->
    tbl (k_mem s) root p = Some t \/ t ∈ l /\ t ∉ l';
  vs_mem : forall x, page_ok x -> x ∉ l ->
    (forall p t, Forall index p -> (length p <= 2)%nat -> tbl (k_mem s) root p = Some t -> t <> x) ->
    forall b, x <= b < x + PGSIZE -> k_mem s' b = k_mem s b;
  vs_used : forall x, x ∈ l -> x ∉ l' ->
    exists p, Forall index p /\ (length p <= 2)%nat /\ tbl (k_mem s') root p = Some x;
  vs_shape : shape (k_mem s) root -> shape (k_mem s') root }.

Lemma vm_step_refl root s l : kmem_ready s l -> pt_ok (k_mem s) root l -> vm_step root s l s l.
Proof.
  intros Hk Hp. split; auto using vm_frame_refl; [by exists []|by intros].
Qed.

Lemma vm_step_trans root s1 l1 s2 l2 s3 l3 :
  vm_step root s1 l1 s2 l2 -> vm_step root s2 l2 s3 l3 -> vm_step root s1 l1 s3 l3.
Proof.
  intros [A1 A2 A3 [k1 A4] A6 A7 A8 A9 A10] [B1 B2 B3 [k2 B4] B6 B7 B8 B9 B10]. split; auto.
  - by eapply vm_frame_trans.
  - exists (k1 ++ k2). by rewrite <- app_assoc, <- B4.
  - intros p t Hp Hl Ht. destruct (B7 p t Hp Hl Ht) as [Ht2|[Hin Hn]].
    + destruct (A7 p t Hp Hl Ht2) as [|[Hin Hn]]; [by left|]. right. split; [done|].
      rewrite B4, elem_of_app in Hn. tauto.
    + right. split; [|done]. rewrite A4, elem_of_app. tauto.
  - intros x Hx Hxl Hxt b Hb. rewrite (B8 x); [by apply (A8 x)|done| | |done].
    + rewrite A4, elem_of_app in Hxl. tauto.
    + intros p t Hp Hl Ht ->. destruct (A7 p x Hp Hl Ht) as [Ht1|[Hin _]]; [by eapply Hxt|done].
  - intros x Hx Hx3. destruct (decide (x ∈ l2)) as [H2|H2]; [by apply B9|].
    destruct (A9 x Hx H2) as (p & Hp & Hl & Ht). exists p. split; [done|]. split; [done|]. by apply B6.
Qed.

(** *** One more table *)
Section AddTable.
Context (root : Z) (s : kstate) (g : Z) (l : list Z) (p : list Z) (t i : Z).
Context (Hk : kmem_ready s (g :: l)) (Hok : pt_ok (k_mem s) root (g :: l)).
Context (Hp : Forall index p) (Hlen : (length p <= 1)%nat) (Ht : tbl (k_mem s) root p = Some t).
Context (Hi : index i) (Hnone : entry (k_mem s) t i = None) (Hlow : p = [] -> i < 256).

Definition cleared : Z -> Z := memset (memset (k_mem s) g 5 PGSIZE) g 0 PGSIZE.
Definition added : kstate :=
  (touch (alloc_page g s)) <| k_mem := store64 cleared (t + 8 * i) (Z.lor (PA2PTE g) PTE_V) |>.

Lemma g_page : page_ok g /\ (g ∉ l) /\ g <> 0.
Proof.
  destruct (kr_list _ _ Hk) as (_ & Hn & Hf). apply NoDup_cons in Hn as [Hn _].
  apply Forall_cons in Hf as [Hg _]. split; [done|]. split; [done|].
  intros ->. by destruct (page_ok_pos Hend 0 Hg).
Qed.

Lemma cleared_at b : cleared b = if decide (g <= b < g + PGSIZE) then 0 else k_mem s b.
Proof. unfold cleared. rewrite !memset_spec. repeat case_match; repeat destruct (decide _); done || lia. Qed.

Lemma cleared_off : off_tables (k_mem s) root cleared.
Proof.
  intros q t' b Hq Hlq Ht' Hb. rewrite cleared_at. destruct (decide _); [|done].
  destruct (pages_disjoint t' g b) as []; auto; [by eapply (pt_page _ _ _ Hok)|apply g_page|].
  intros ->. eapply (pt_used _ _ _ Hok q g); [done..|]. by left.
Qed.

Lemma cleared_ok : pt_ok cleared root (g :: l).
Proof. eapply pt_ok_ext; [apply cleared_off|done|done]. Qed.

Lemma cleared_tbl q : Forall index q -> (length q <= 3)%nat -> tbl cleared root q = tbl (k_mem s) root q.
Proof. intros Hq Hl. apply tbl_ext; [apply cleared_off|done|done]. Qed.

Lemma t_not_g : t <> g.
Proof. intros ->. eapply (pt_used _ _ _ Hok p g); [done|lia|done|]. by left. Qed.

Lemma t_page : page_ok t.
Proof. by eapply (pt_page _ _ _ Hok p t); [|lia|]. Qed.

Lemma cleared_none : entry cleared t i = None.
Proof.
  rewrite <- Hnone. apply entry_ext; [done|]. intros b Hb. eapply cleared_off; [done|lia|done|done].
Qed.

Lemma added_tbl q : Forall index q -> (length q <= 3)%nat ->
  tbl (k_mem added) root q = if decide (q = p ++ [i]) then Some g else tbl (k_mem s) root q.
Proof.
  intros Hq Hl. cbn. destruct g_page as (Hg & Hgl & _).
  rewrite (tbl_add cleared root g l p t i cleared_ok Hp Hlen); [|by rewrite cleared_tbl by (done || lia)|done..| | |done|done].
  - destruct (decide _); [done|by apply cleared_tbl].
  - apply cleared_none.
  - intros b Hb. rewrite cleared_at. by rewrite decide_True.
Qed.

(** Memory outside the new table and the entry that points to it. *)
Lemma added_mem b :
  ~ (g <= b < g + PGSIZE) -> ~ (t + 8 * i <= b < t + 8 * i + 8) -> k_mem added b = k_mem s b.
Proof.
  intros H1 H2. cbn. rewrite store64_other by done. rewrite cleared_at. by rewrite decide_False.
Qed.

Lemma added_tbl_at : tbl (k_mem added) root (p ++ [i]) = Some g.
Proof.
  rewrite added_tbl; [by rewrite decide_True| |].
  - apply Forall_app. split; [done|]. by apply Forall_singleton.
  - rewrite length_app. cbn. lia.
Qed.

Lemma added_val va : pte_val (k_mem added) root va = pte_val (k_mem s) root va.
Proof.
  unfold pte_val. rewrite added_tbl by (apply vpath_index || cbn; lia).
  destruct g_page as (Hg & Hgl & _). pose proof t_page. pose proof (PX_bound 0 va).
  destruct (decide _) as [E|E].
  - rewrite (load64_ext _ (fun _ => 0)).
    + rewrite E, tbl_snoc, Ht, Hnone. done.
    + intros b Hb. pose proof (page_distinct g t Hg t_page (not_eq_sym t_not_g)). cbn.
      rewrite store64_other, cleared_at by (unfold index, PGSIZE in *; lia).
      rewrite decide_True; [done|]. unfold PGSIZE. lia.
  - destruct (tbl (k_mem s) root (vpath va)) as [t'|] eqn:E'; [|done].
    assert (Hn : ~ (vpath va = p)) by (intros E2; apply (f_equal length) in E2; cbn in E2; lia).
    assert (Htt : t' <> t).
    { intros ->. apply Hn. eapply (pt_inj _ _ _ Hok); [apply vpath_index|done|cbn; lia|lia|done..]. }
    assert (Hg' : t' <> g).
    { intros ->. eapply (pt_used _ _ _ Hok _ g (vpath_index va)); [cbn; lia|done|by left]. }
    assert (Ht' : page_ok t') by (eapply (pt_page _ _ _ Hok _ t' (vpath_index va)); [cbn; lia|done]).
    pose proof (page_distinct t' t Ht' t_page Htt). pose proof (page_distinct t' g Ht' Hg Hg').
    apply load64_ext. intros b Hb. apply added_mem; unfold index, PGSIZE in *; lia.
Qed.

(** The entries of the tables: the new one has none, and one points to it. *)
Lemma added_pte q t' j : Forall index q -> (length q <= 2)%nat -> index j -> tbl (k_mem added) root q = Some t' ->
  q = p ++ [i] /\ load64 (k_mem added) (t' + 8 * j) = 0 \/
  q = p /\ j = i /\ load64 (k_mem added) (t' + 8 * j) = Z.lor (PA2PTE g) PTE_V \/
  ~ (q = p /\ j = i) /\ tbl (k_mem s) root q = Some t' /\ load64 (k_mem added) (t' + 8 * j) = load64 (k_mem s) (t' + 8 * j).
Proof.
  intros Hq Hl Hj. rewrite added_tbl by (done || lia). destruct g_page as (Hg & _ & _). pose proof t_page as Htp.
  pose proof (page_distinct g t Hg Htp (not_eq_sym t_not_g)) as Hgt.
  destruct (decide (q = p ++ [i])) as [->|Hne].
  - intros [= <-]. left. split; [done|]. rewrite (load64_ext _ (fun _ => 0)); [done|]. intros b Hb. cbn.
    rewrite store64_other, cleared_at by (unfold index, PGSIZE in *; lia).
    rewrite decide_True; [done|]. unfold index, PGSIZE in *. lia.
  - intros Ht'. right. destruct (decide (q = p /\ j = i)) as [[-> ->]|Hno].
    + left. split; [done|]. split; [done|]. rewrite Ht in Ht'. injection Ht' as <-. cbn. apply load64_store64.
      apply pte_range; [|done]. assert (PHYSTOP < 2 ^ 56) by done. destruct Hg. lia.
    + right. split; [done|]. split; [done|].
      assert (Ht'p : page_ok t') by (by eapply (pt_page _ _ _ Hok q)).
      assert (t' <> g) by (intros ->; eapply (pt_used _ _ _ Hok q g); [done..|]; by left).
      pose proof (page_distinct t' g Ht'p Hg ltac:(done)).
      apply load64_ext. intros b Hb. apply added_mem; [unfold index, PGSIZE in *; lia|].
      destruct (decide (t' = t)) as [->|Htt]; [|pose proof (page_distinct t' t Ht'p Htp Htt); unfold index, PGSIZE in *; lia].
      assert (q = p) by exact (pt_inj _ _ _ Hok q p t Hq Hp Hl ltac:(lia) Ht' Ht). assert (j <> i) by tauto. lia.
Qed.

Lemma added_shape : shape (k_mem s) root -> shape (k_mem added) root.
Proof.
  intros [H1 H2]. split.
  - intros j Hj. unfold entry.
    destruct (added_pte [] root j) as [[E _]|[(E & -> & _)|(_ & _ & ->)]]; [done|cbn; lia|unfold index; lia|done|..].
    + by destruct p.
    + symmetry in E. specialize (Hlow E). lia.
    + by apply H1.
  - intros q t' j Hq Hl Ht' Hj. destruct (added_pte q t' j) as [[_ ->]|[(_ & _ & ->)|(_ & Hq' & ->)]]; [done|lia|done|done|..].
    + done.
    + intros _. unfold pointer_only. apply Z.eqb_eq, Z.bits_inj'. intros k Hk'. unfold PA2PTE.
      rewrite Z.land_spec, Z.lor_spec, Z.bits_0. destruct (decide (k < 4)) as [Hk4|Hk4].
      * rewrite Z.shiftl_spec_low by lia. assert (k = 0 \/ k = 1 \/ k = 2 \/ k = 3) as [->|[->|[->| ->]]] by lia; done.
      * rewrite (Z.bits_above_log2 (Z.lor (Z.lor PTE_R PTE_W) PTE_X)); [apply andb_false_r|done|]. change (Z.log2 _) with 3. lia.
    + by apply (H2 q).
Qed.

Lemma added_step : vm_step root s (g :: l) added l.
Proof.
  destruct g_page as (Hg & Hgl & _). pose proof t_page as Htp.
  split.
  - exists (k_mem added), (k_freelist added). by right.
  - apply (kmem_ready_mem (touch (alloc_page g s))).
    + split; [apply hart_ok_touch, Hk|apply Hk|]. apply (kmem_list_alloc s), Hk.
    + intros x b Hx Hb.
      assert (Hxp : page_ok x).
      { destruct (kr_list _ _ Hk) as (_ & _ & Hf). eapply Forall_forall in Hf; [exact Hf|by right]. }
      assert (x <> g) by (by intros ->).
      assert (x <> t). { intros ->. eapply (pt_used _ _ _ Hok p t); [done|lia|done|]. by right. }
      pose proof (page_distinct x g Hxp Hg ltac:(done)).
      pose proof (page_distinct x t Hxp Htp ltac:(done)). cbn.
      rewrite store64_other by (unfold index, PGSIZE in *; lia).
      rewrite cleared_at, decide_False, memset_spec by lia. by case_match; [lia|].
  - destruct g_page as (_ & _ & Hg0). apply (pt_ok_add cleared root g l p t i); auto.
    + apply cleared_ok.
    + by rewrite cleared_tbl by (done || lia).
    + apply cleared_none.
    + intros b Hb. rewrite cleared_at. by rewrite decide_True.
  - by exists [g].
  - intros q t' Hq Hl Ht'. rewrite added_tbl by (done || lia). destruct (decide _) as [->|]; [|done].
    rewrite tbl_snoc, Ht, Hnone in Ht'. done.
  - intros q t' Hq Hl. rewrite added_tbl by (done || lia). destruct (decide _) as [->|]; [|by left].
    intros [= <-]. right. split; [by left|done].
  - intros x Hx Hxl Hxt b Hb. apply added_mem.
    + pose proof (page_distinct x g Hx Hg ltac:(intros ->; apply Hxl; by left)). lia.
    + assert (x <> t) by (intros ->; eapply (Hxt p t); (done || lia)).
      pose proof (page_distinct x t Hx Htp ltac:(done)).
      unfold index, PGSIZE in *. lia.
  - intros x [->|Hx]%elem_of_cons Hxl; [|done]. exists (p ++ [i]). split; [by apply Forall_app; rewrite Forall_singleton|].
    split; [rewrite length_app; cbn; lia|]. apply added_tbl_at.
  - apply added_shape.
Qed.
End AddTable.

Lemma walk_levels_alloc level va : forall p t s tr l root,
  p ++ level_path level va = vpath va ->
  0 <= va < MAXVA -> tbl (k_mem s) root p = Some t -> kmem_ready s l -> pt_ok (k_mem s) root l ->
  exists s' l',
    walk_levels level t va true s tr =
      Done (match tbl (k_mem s') root (vpath va) with Some t' => t' + 8 * PX 0 va | None => 0 end) s' tr /\
    vm_step root s l s' l' /\ (tbl (k_mem s') root (vpath va) = None -> l' = []) /\
    (forall va, pte_val (k_mem s') root va = pte_val (k_mem s) root va).
Proof.
  induction level as [|level IH]; intros p t s tr l root Hpath Hva Ht Hk Hok.
  - exists s, l. cbn [level_path] in Hpath. rewrite app_nil_r in Hpath. rewrite <- Hpath, Ht.
    split; [done|]. by split; [by apply vm_step_refl|].
  - cbn [walk_levels]. unfold load_pte. set (i := PX (Z.of_nat (S level)) va) in *.
    assert (Hpath2 : (p ++ [i]) ++ level_path level va = vpath va).
    { rewrite <- app_assoc. exact Hpath. }
    assert (Hidx : Forall index (p ++ [i])) by
      (pose proof (vpath_index va) as Hv; rewrite <- Hpath2 in Hv; by apply Forall_app in Hv as []).
    apply Forall_app in Hidx as [Hp Hi]. rewrite Forall_singleton in Hi.
    assert (Hlen : (length p <= 1)%nat).
    { apply (f_equal length) in Hpath2. rewrite !length_app in Hpath2. cbn in Hpath2. lia. }
    destruct (entry (k_mem s) t i) as [t'|] eqn:E.
    + destruct (IH (p ++ [i]) t' s tr l root Hpath2) as (s' & l' & Hrun & Hs); auto.
      { by rewrite tbl_snoc, Ht. }
      exists s', l'. split; [|done]. kstep gets_run. unfold entry in E.
      destruct (has _ PTE_V); [|done]. by injection E as ->.
    + destruct l as [|g l].
      * exists (touch s), []. assert (Hnone : tbl (k_mem s) root (vpath va) = None).
        { by rewrite <- Hpath2, tbl_app, tbl_snoc, Ht, E. }
        cbn [k_mem touch upd_field]. rewrite Hnone. split; [|split; [|done]].
        -- kstep gets_run. unfold entry in E. destruct (has _ PTE_V); [done|]. cbn [negb].
           kstep (kalloc_run_empty s); [apply Hk|apply Hk|apply Hk|]. done.
        -- split; [by exists (k_mem s), (k_freelist s); right| |done|by exists []|done|by left|done|by intros|done].
           split; [apply hart_ok_touch, Hk|apply Hk..].
      * assert (Hlow : p = [] -> i < 256).
        { intros ->. assert (level = 1%nat) as -> by (apply (f_equal length) in Hpath2; destruct level as [|[|level]]; done).
          unfold i. rewrite PX_div by lia. cbn. change MAXVA with (2 ^ 38) in Hva. Z.to_euclidean_division_equations. lia. }
        pose proof (added_step root s g l p t i Hk Hok Hp Hlen Ht Hi E Hlow) as Hstep.
        destruct (IH (p ++ [i]) g (added s g t i) tr l root Hpath2 Hva) as (s' & l' & Hrun & Hs & Hno & Hval).
        { by apply (added_tbl_at root s g l p t i). }
        { apply Hstep. } { apply Hstep. }
        exists s', l'. split; [|split; [by eapply vm_step_trans|split; [done|]]].
        2: { intros va'. rewrite Hval. by apply (added_val root s g l p t i). }
        kstep gets_run. unfold entry in E. destruct (has _ PTE_V); [done|]. cbn [negb].
        assert (Hg : g <> 0) by (destruct (kr_list _ _ Hk) as (_ & _ & Hf); apply Forall_cons in Hf as [Hg _];
          intros ->; by destruct (page_ok_pos Hend 0 Hg)).
        kstep (kalloc_run s tr g); [apply Hk|apply Hk|apply (kr_list _ _ Hk)|done|].
        rewrite (proj2 (Z.eqb_neq g 0)) by done. unfold zero_page, store_pte.
        do 2 kstep modify_run. exact Hrun.
Qed.

Lemma walk_alloc va s tr l root :
  0 <= va < MAXVA -> kmem_ready s l -> pt_ok (k_mem s) root l ->
  exists s' l',
    walk root va true s tr = Done (pte_addr (k_mem s') root va) s' tr /\
    vm_step root s l s' l' /\ (tbl (k_mem s') root (vpath va) = None -> l' = []) /\
    (forall va, pte_val (k_mem s') root va = pte_val (k_mem s) root va).
Proof.
  intros Hva Hk Hok. unfold walk. rewrite (proj2 (Z.leb_gt _ _)) by lia.
  apply (walk_levels_alloc 2 va [] root s tr l root); done.
Qed.

(** *** Writing a leaf entry *)
Section Leaf.
Context (root va v t : Z) (s : kstate) (l : list Z).
Context (Hva : 0 <= va < MAXVA) (Hv : 0 <= v < 2 ^ 64).
Context (Hk : kmem_ready s l) (Hok : pt_ok (k_mem s) root l).
Context (Ht : tbl (k_mem s) root (vpath va) = Some t).

Definition leaf_set : kstate := s <| k_mem := store64 (k_mem s) (t + 8 * PX 0 va) v |>.

Lemma leaf_tbl q : Forall index q -> (length q <= 2)%nat ->
  tbl (k_mem leaf_set) root q = tbl (k_mem s) root q.
Proof.
  intros Hq Hl. apply (tbl_store_other (k_mem s) root l (vpath va)); try done; try (cbn; lia).
  - apply vpath_index.
  - apply PX_bound.
  - intros Hpre%prefix_length. cbn in Hpre. lia.
Qed.

Lemma leaf_page : page_ok t /\ t ∉ l.
Proof.
  split; [eapply (pt_page _ _ _ Hok)|eapply (pt_used _ _ _ Hok)];
    (apply vpath_index || exact Ht || (cbn; lia)).
Qed.

Lemma leaf_mem b : ~ (t <= b < t + PGSIZE) -> k_mem leaf_set b = k_mem s b.
Proof. intros Hb. apply store64_other. pose proof (PX_bound 0 va). unfold PGSIZE in *. lia. Qed.

(** An entry of a table above the last level is not the one written. *)
Lemma leaf_entry q t' j : Forall index q -> (length q <= 1)%nat -> index j -> tbl (k_mem s) root q = Some t' ->
  load64 (k_mem leaf_set) (t' + 8 * j) = load64 (k_mem s) (t' + 8 * j).
Proof.
  intros Hq Hl Hj Ht'. apply load64_ext. intros b Hb. apply leaf_mem.
  assert (Ht'p : page_ok t') by (eapply (pt_page _ _ _ Hok q); (done || lia)).
  destruct leaf_page as [Htp _]. assert (Hne : t' <> t).
  { intros ->. assert (E : q = vpath va) by (eapply (pt_inj _ _ _ Hok); [done|apply vpath_index|lia|cbn; lia|done|done]).
    apply (f_equal length) in E. cbn in E. lia. }
  pose proof (page_distinct t' t Ht'p Htp Hne). unfold index, PGSIZE in *. lia.
Qed.

Lemma leaf_shape : shape (k_mem s) root -> shape (k_mem leaf_set) root.
Proof.
  intros [H1 H2]. split.
  - intros i Hi. unfold entry. rewrite (leaf_entry [] root i); [by apply H1|done|cbn; lia|unfold index; lia|done].
  - intros q t' i Hq Hl. rewrite leaf_tbl by (done || lia). intros Ht' Hi. rewrite (leaf_entry q t' i) by done. by apply (H2 q).
Qed.

Lemma leaf_step : vm_step root s l leaf_set l.
Proof.
  destruct leaf_page as [Htp Htl]. split.
  - apply vm_frame_mem.
  - apply kmem_ready_mem; [done|]. intros x b Hx Hb. apply leaf_mem.
    assert (Hxp : page_ok x).
    { destruct (kr_list _ _ Hk) as (_ & _ & Hf). by eapply Forall_forall in Hf. }
    assert (x <> t) by (by intros ->). pose proof (page_distinct x t Hxp Htp ltac:(done)). lia.
  - destruct Hok as [H1 H2 H3]. split.
    + intros q t' Hq Hl. rewrite leaf_tbl by done. by apply H1.
    + intros q t' Hq Hl. rewrite leaf_tbl by done. by apply H2.
    + intros q r t' Hq Hr Hlq Hlr. rewrite !leaf_tbl by done. by apply H3.
  - by exists [].
  - intros q t' Hq Hl. by rewrite leaf_tbl.
  - intros q t' Hq Hl. rewrite leaf_tbl by done. by left.
  - intros x Hx Hxl Hxt b Hb. apply leaf_mem.
    assert (x <> t) by (intros ->; eapply (Hxt (vpath va) t); (apply vpath_index || done || (cbn; lia))).
    pose proof (page_distinct x t Hx Htp ltac:(done)). lia.
  - by intros.
  - apply leaf_shape.
Qed.

Lemma leaf_val va' : 0 <= va' < MAXVA ->
  pte_val (k_mem leaf_set) root va' =
    if decide (va' / PGSIZE = va / PGSIZE) then v else pte_val (k_mem s) root va'.
Proof.
  intros Hva'. unfold pte_val. rewrite leaf_tbl by (apply vpath_index || (cbn; lia)).
  destruct (decide (va' / PGSIZE = va / PGSIZE)) as [E|E].
  - assert (Hpath : vpath va' = vpath va) by (unfold vpath; by rewrite !(PX_page _ va' va) by (lia || done)).
    rewrite Hpath, Ht, (PX_page 0 va' va) by (lia || done). by apply load64_store64.
  - destruct (tbl (k_mem s) root (vpath va')) as [t'|] eqn:E'; [|done].
    pose proof (PX_bound 0 va). pose proof (PX_bound 0 va').
    apply load64_store64_ne. destruct (decide (t' = t)) as [->|Hne].
    + assert (Hpath : vpath va' = vpath va).
      { eapply (pt_inj _ _ _ Hok); (apply vpath_index || eassumption || (cbn; lia)). }
      injection Hpath as Hpx2 Hpx1.
      assert (PX 0 va' <> PX 0 va) by (intros Hpx0; apply E; by apply PX_inj). lia.
    + assert (Ht' : page_ok t').
      { eapply (pt_page _ _ _ Hok); (apply vpath_index || eassumption || (cbn; lia)). }
      destruct leaf_page as [Htp _]. pose proof (page_distinct t' t Ht' Htp Hne).
      unfold PGSIZE in *. lia.
Qed.
End Leaf.

(** *** [mappages] *)
Definition leaf_pte (pa perm : Z) : Z := Z.lor (Z.lor (PA2PTE pa) perm) PTE_V.

(** The entries after [k] pages from [va] on have been mapped to [pa] on. *)
Definition map_pages (va pa perm : Z) (k : nat) (f : Z -> Z) (va' : Z) : Z :=
  if decide (va <= va' < va + Z.of_nat k * PGSIZE)
  then leaf_pte (pa + (va' - va) / PGSIZE * PGSIZE) perm else f va'.

Lemma leaf_pte_range pa perm : 0 <= pa < 2 ^ 56 -> 0 <= perm < 1024 -> 0 <= leaf_pte pa perm < 2 ^ 64.
Proof.
  intros Hpa Hperm. unfold leaf_pte. rewrite <- Z.lor_assoc. apply pte_range; [done|].
  change 1024 with (2 ^ 10) in *. apply lor_range; done || lia.
Qed.

Lemma leaf_pte_spec pa perm :
  pa mod PGSIZE = 0 -> 0 <= perm < 1024 ->
  PTE2PA (leaf_pte pa perm) = pa /\ has (leaf_pte pa perm) PTE_V = true.
Proof.
  intros Hpa Hperm. split; [|apply has_V_lor]. unfold leaf_pte. rewrite <- Z.lor_assoc.
  apply PTE2PA_PA2PTE; [done|]. change 1024 with (2 ^ 10) in *. apply lor_range; done || lia.
Qed.

(** The first page of [k + 1] and the rest. *)
Lemma map_pages_S va pa perm k f va' :
  va mod PGSIZE = 0 -> map_pages va pa perm (S k) f va' =
    map_pages (va + PGSIZE) (pa + PGSIZE) perm k
      (fun x => if decide (x / PGSIZE = va / PGSIZE) then leaf_pte pa perm else f x) va'.
Proof.
  intros Hva. unfold map_pages.
  assert (Hpage : va' / PGSIZE = va / PGSIZE <-> va <= va' < va + PGSIZE)
    by (unfold PGSIZE in *; Z.to_euclidean_division_equations; lia).
  destruct (decide (va + PGSIZE <= va' < _)) as [H1|H1].
  - rewrite decide_True by (unfold PGSIZE in *; lia). f_equal.
    replace (va' - va) with (va' - (va + PGSIZE) + 1 * PGSIZE) by lia.
    rewrite Z_div_plus_full by done. lia.
  - destruct (decide (va' / PGSIZE = va / PGSIZE)) as [H2|H2].
    + apply Hpage in H2. rewrite decide_True by (unfold PGSIZE in *; lia).
      rewrite Z.div_small by lia. f_equal. lia.
    + rewrite decide_False; [done|]. intros H3. apply H2, Hpage. unfold PGSIZE in *. lia.
Qed.

Definition unmapped (f : Z -> Z) (va : Z) (n : nat) : Prop :=
  forall va', va <= va' < va + Z.of_nat n * PGSIZE -> has (f va') PTE_V = false.

(** One iteration: the page at [a] is mapped, or memory has run out. *)
Lemma mappages_one root a pa perm s tr l :
  0 <= a < MAXVA -> 0 <= pa < 2 ^ 56 -> 0 <= perm < 1024 ->
  kmem_ready s l -> pt_ok (k_mem s) root l -> has (pte_val (k_mem s) root a) PTE_V = false ->
  exists s' l', vm_step root s l s' l' /\
    ((l' = [] /\ (forall x, pte_val (k_mem s') root x = pte_val (k_mem s) root x) /\
      walk root a true s tr = Done 0 s' tr) \/
     ((forall x, 0 <= x < MAXVA -> pte_val (k_mem s') root x =
        if decide (x / PGSIZE = a / PGSIZE) then leaf_pte pa perm else pte_val (k_mem s) root x) /\
      exists s1 pte, 0 < pte /\ walk root a true s tr = Done pte s1 tr /\
        has (load64 (k_mem s1) pte) PTE_V = false /\
        s' = s1 <| k_mem := store64 (k_mem s1) pte (leaf_pte pa perm) |>)).
Proof.
  intros Ha Hpa Hperm Hk Hok Hun.
  destruct (walk_alloc a s tr l root Ha Hk Hok) as (s1 & l1 & Hrun & Hstep & Hno & Hval).
  unfold pte_addr in Hrun. destruct (tbl (k_mem s1) root (vpath a)) as [t|] eqn:Et.
  - pose proof (leaf_page root a t s1 l1 (vs_pt _ _ _ _ _ Hstep) Et) as [Htp _].
    pose proof (page_ok_pos Hend t Htp). pose proof (PX_bound 0 a).
    exists (leaf_set a (leaf_pte pa perm) t s1), l1. split.
    + eapply vm_step_trans; [done|]. by apply leaf_step; [apply Hstep..|].
    + right. split.
      * intros x Hx. rewrite (leaf_val root a (leaf_pte pa perm) t s1 l1); auto using leaf_pte_range.
        { by destruct (decide _). } { apply Hstep. }
      * exists s1, (t + 8 * PX 0 a). split; [lia|]. split; [done|]. split; [|done].
        rewrite <- Hun, <- Hval. unfold pte_val. by rewrite Et.
  - exists s1, l1. split; [done|]. left. split; [by apply Hno|]. by split.
Qed.

Lemma mappages_loop_S fuel root a last pa perm s tr :
  mappages_loop (S fuel) root a last pa perm s tr =
    (let! pte := walk root a true in
     if pte =? 0 then kret (-1) else
     let! e := load_pte pte in
     if has e PTE_V then panic "mappages: remap" else
     store_pte pte (leaf_pte pa perm) ;;
     if a =? last then kret 0
     else mappages_loop fuel root (u64 (a + PGSIZE)) last (u64 (pa + PGSIZE)) perm) s tr.
Proof. done. Qed.

Lemma mappages_loop_run root perm n : forall a pa s tr l,
  0 <= a -> a + Z.of_nat (S n) * PGSIZE <= MAXVA -> a mod PGSIZE = 0 ->
  0 <= pa -> pa + Z.of_nat (S n) * PGSIZE <= 2 ^ 56 -> 0 <= perm < 1024 ->
  kmem_ready s l -> pt_ok (k_mem s) root l -> unmapped (pte_val (k_mem s) root) a (S n) ->
  exists r s' l' k,
    mappages_loop (S n) root a (a + Z.of_nat n * PGSIZE) pa perm s tr = Done r s' tr /\
    vm_step root s l s' l' /\
    (r = 0 /\ k = S n \/ r = -1 /\ (k < S n)%nat /\ l' = []) /\
    forall x, 0 <= x < MAXVA ->
      pte_val (k_mem s') root x = map_pages a pa perm k (pte_val (k_mem s) root) x.
Proof.
  assert (Hm : MAXVA + PGSIZE < 2 ^ 64) by done. assert (Hpg : PGSIZE = 4096) by done.
  induction n as [|n IH]; intros a pa s tr l Ha Hmax Hal Hpa Hpmax Hperm Hk Hok Hun;
    (destruct (mappages_one root a pa perm s tr l) as (s1 & l1 & Hstep & Hcase);
      [lia|lia|done|done|done|apply Hun; lia|]);
    (destruct Hcase as [(-> & Hval & Hrun)|(Hval & s0 & pte & Hpte & Hrun & Hun0 & Hs1)];
      [exists (-1), s1, [], O; split; [rewrite mappages_loop_S; by kstep Hrun|];
       split; [done|]; split; [right; split; [done|split; [lia|done]]|];
       intros x Hx; rewrite Hval; unfold map_pages; rewrite decide_False by lia; done|]).
  - exists 0, s1, l1, 1%nat. split; [|split; [done|split; [by left|]]].
    + rewrite mappages_loop_S. kstep Hrun. rewrite (proj2 (Z.eqb_neq pte 0)) by lia. unfold load_pte, store_pte.
      kstep gets_run. rewrite Hun0. kstep modify_run. rewrite (proj2 (Z.eqb_eq a _)) by lia. by rewrite Hs1.
    + intros x Hx. rewrite map_pages_S by done. rewrite Hval by done. unfold map_pages.
      by destruct (decide (_ <= _ < _)); [lia|].
  - destruct (IH (a + PGSIZE) (pa + PGSIZE) s1 tr l1) as (r & s2 & l2 & k & Hrun2 & Hstep2 & Hr & Hval2);
      try lia; try done; [by rewrite <- Zplus_mod_idemp_r, Z_mod_same_full, Z.add_0_r|apply Hstep..| |].
    { intros x Hx. rewrite Hval by lia. rewrite decide_False; [apply Hun; lia|].
      rewrite Hpg in *. Z.to_euclidean_division_equations. lia. }
    exists r, s2, l2, (S k). split; [|split; [by eapply vm_step_trans|split; [destruct Hr as [[-> ->]|(-> & ? & ->)]; [by left|right; split; [done|]; split; [lia|done]]|]]].
    + rewrite mappages_loop_S. kstep Hrun. rewrite (proj2 (Z.eqb_neq pte 0)) by lia. unfold load_pte, store_pte.
      kstep gets_run. rewrite Hun0. kstep modify_run. rewrite (proj2 (Z.eqb_neq a _)) by (rewrite Hpg; lia).
      unfold u64. rewrite !Z.mod_small by (rewrite Hpg in *; lia). rewrite Hs1 in Hrun2.
      replace (a + Z.of_nat (S n) * PGSIZE) with (a + PGSIZE + Z.of_nat n * PGSIZE) by lia. exact Hrun2.
    + intros x Hx. rewrite Hval2, map_pages_S by done. unfold map_pages. destruct (decide _); [done|]. by apply Hval.
Qed.

Lemma mappages_run root va size pa perm s tr l :
  0 <= va -> 0 < size -> va + size <= MAXVA -> va mod PGSIZE = 0 -> size mod PGSIZE = 0 ->
  0 <= pa -> pa + size <= 2 ^ 56 -> 0 <= perm < 1024 ->
  kmem_ready s l -> pt_ok (k_mem s) root l ->
  (forall va', va <= va' < va + size -> has (pte_val (k_mem s) root va') PTE_V = false) ->
  exists r s' l' k,
    mappages root va size pa perm s tr = Done r s' tr /\
    vm_step root s l s' l' /\
    (r = 0 /\ Z.of_nat k * PGSIZE = size \/ r = -1 /\ Z.of_nat k * PGSIZE < size /\ l' = []) /\
    forall va', 0 <= va' < MAXVA ->
      pte_val (k_mem s') root va' = map_pages va pa perm k (pte_val (k_mem s) root) va'.
Proof.
  intros Hva Hsz Hmax Hal Hsal Hpa Hpm Hperm Hk Hok Hun.
  assert (Hm : MAXVA + PGSIZE < 2 ^ 64) by done. assert (Hpg : PGSIZE = 4096) by done.
  apply Z.mod_divide in Hsal as [q ->]; [|done].
  destruct (Z.to_nat q) as [|n] eqn:En; [lia|]. assert (q = Z.of_nat (S n)) as -> by lia.
  destruct (mappages_loop_run root perm n va pa s tr l) as (r & s' & l' & k & Hrun & Hstep & Hr & Hval); auto.
  exists r, s', l', k. split; [|split; [done|split; [|done]]].
  - unfold mappages. rewrite Hal, Z_mod_mult. cbn [Z.eqb negb].
    rewrite (proj2 (Z.eqb_neq _ 0)) by lia. rewrite Z_div_mult, Nat2Z.id by lia.
    unfold u64. rewrite Z.mod_small by lia. rewrite <- Hrun.
    by replace (va + Z.of_nat (S n) * PGSIZE - PGSIZE) with (va + Z.of_nat n * PGSIZE) by lia.
  - destruct Hr as [[-> ->]|(-> & ? & ->)]; [by left|right]. split; [done|]. split; [|done]. rewrite Hpg. lia.
Qed.

(** C16. [mappages] adds the mappings it is asked for and no other.  For an
    aligned, not yet mapped range below [MAXVA], it either returns 0 with every
    page of the range mapped to the corresponding physical page with the given
    permissions, or returns -1 because no page was left for a table, with a
    prefix of the range mapped.  In both cases every other entry reads as
    before, the tables stay a tree of pages disjoint from the free list, and no
    page outside the tables is written. *)
Theorem mappages_spec root va size pa perm s tr l :
  0 <= va -> 0 < size -> va + size <= MAXVA -> va mod PGSIZE = 0 -> size mod PGSIZE = 0 ->
  0 <= pa -> pa + size <= 2 ^ 56 -> 0 <= perm < 1024 ->
  kmem_ready s l -> pt_ok (k_mem s) root l ->
  (forall va', va <= va' < va + size -> has (pte_val (k_mem s) root va') PTE_V = false) ->
  exists r s' l' k,
    mappages root va size pa perm s tr = Done r s' tr /\
    vm_step root s l s' l' /\
    (r = 0 /\ Z.of_nat k * PGSIZE = size \/ r = -1 /\ Z.of_nat k * PGSIZE < size /\ l' = []) /\
    forall va', 0 <= va' < MAXVA ->
      pte_val (k_mem s') root va' = map_pages va pa perm k (pte_val (k_mem s) root) va'.
Proof. apply mappages_run. Qed.

Lemma pte_addr_load root va s l :
  pt_ok (k_mem s) root l ->
  if pte_addr (k_mem s) root va =? 0 then pte_val (k_mem s) root va = 0
  else load64 (k_mem s) (pte_addr (k_mem s) root va) = pte_val (k_mem s) root va.
Proof.
  intros Hok. unfold pte_addr, pte_val. destruct (tbl _ _ _) as [t|] eqn:E; [|done].
  assert (Ht : page_ok t) by (eapply (pt_page _ _ _ Hok); (apply vpath_index || exact E || (cbn; lia))).
  pose proof (page_ok_pos Hend t Ht). pose proof (PX_bound 0 va).
  by rewrite (proj2 (Z.eqb_neq _ 0)) by lia.
Qed.

(** The page a user-accessible valid entry maps [va] to; 0 if there is none. *)
Definition user_page (f : Z -> Z) (va : Z) : Z :=
  if (va <? MAXVA) && has (f va) PTE_V && has (f va) PTE_U then PTE2PA (f va) else 0.

Lemma walkaddr_run root va s tr l :
  pt_ok (k_mem s) root l ->
  walkaddr root va s tr = Done (user_page (pte_val (k_mem s) root) va) s tr.
Proof.
  intros Hok. unfold walkaddr, user_page. destruct (Z.leb_spec MAXVA va).
  { by rewrite (proj2 (Z.ltb_ge _ _)). }
  rewrite (proj2 (Z.ltb_lt _ _)) by done. kstep walk_lookup; [done|].
  pose proof (pte_addr_load root va s l Hok) as Hload.
  destruct (_ =? 0); [by rewrite Hload|]. unfold load_pte. kstep gets_run. rewrite Hload.
  by destruct (has _ PTE_V), (has _ PTE_U).
Qed.

(** ** User memory through the page table *)
Lemma pte_val_page m root va va' : va / PGSIZE = va' / PGSIZE -> pte_val m root va = pte_val m root va'.
Proof.
  intros E. unfold pte_val, vpath. by rewrite !(PX_page _ va va') by (lia || done).
Qed.

Lemma user_page_down m root va : 0 <= va ->
  user_page (pte_val m root) (PGROUNDDOWN va) = user_page (pte_val m root) va.
Proof.
  intros Hva. rewrite PGROUNDDOWN_eq. unfold user_page.
  rewrite (pte_val_page m root (va / PGSIZE * PGSIZE) va) by (by rewrite Z.div_mul).
  replace (va / PGSIZE * PGSIZE <? MAXVA) with (va <? MAXVA); [done|].
  apply eq_true_iff_eq. rewrite !Z.ltb_lt. change MAXVA with (2 ^ 26 * PGSIZE).
  unfold PGSIZE. Z.to_euclidean_division_equations. lia.
Qed.

(** The byte a user access to [va] reaches. *)
Definition phys (f : Z -> Z) (va : Z) : Z := user_page f va + va mod PGSIZE.
Definition user_byte (m : Z -> Z) (root va : Z) : Z := m (phys (pte_val m root) va).

Definition accessible (f : Z -> Z) (va len : Z) : Prop :=
  forall x, va <= x < va + len -> user_page f x <> 0.

Section Copy.
Context (root : Z).

(** The part of a transfer that lies in one page. *)
Lemma page_chunk m va n :
  0 <= va -> 0 <= n -> va - PGROUNDDOWN va + n <= PGSIZE ->
  read_bytes m (user_page (pte_val m root) va + (va - PGROUNDDOWN va)) (Z.to_nat n) =
    read_bytes (user_byte m root) va (Z.to_nat n).
Proof.
  intros Hva Hn Hpg. apply read_bytes_shift. intros i Hi. unfold user_byte, phys.
  rewrite <- (user_page_down m root (va + i)), <- (user_page_down m root va) by lia.
  rewrite !PGROUNDDOWN_eq in *. f_equal.
  assert (E : (va + i) / PGSIZE = va / PGSIZE)
    by (unfold PGSIZE in *; Z.to_euclidean_division_equations; lia).
  rewrite E. pose proof (Z_div_mod_eq_full (va + i) PGSIZE). rewrite E in *. lia.
Qed.

Lemma copyin_loop_run fuel : forall dst psz va len s tr l,
  pt_ok (k_mem s) root l -> 0 <= va -> va + len <= MAXVA -> 0 <= len < Z.of_nat fuel ->
  accessible (pte_val (k_mem s) root) va len ->
  copyin_loop fuel root psz dst va len s tr =
    Done (0, dst ++ read_bytes (user_byte (k_mem s) root) va (Z.to_nat len)) s tr.
Proof.
  induction fuel as [|fuel IH]; intros dst psz va len s tr l Hok Hva Hmax Hlen Hacc; [lia|].
  cbn [copyin_loop]. destruct (Z.leb_spec len 0).
  { replace (Z.to_nat len) with O by lia. unfold kret. by rewrite app_nil_r. }
  kstep walkaddr_run; [done|]. rewrite user_page_down by done.
  rewrite (proj2 (Z.eqb_neq _ 0)) by (apply Hacc; lia). kstep kret_run.
  rewrite (proj2 (Z.eqb_neq _ 0)) by (apply Hacc; lia). kstep gets_run.
  assert (Hdown : PGROUNDDOWN va <= va < PGROUNDDOWN va + PGSIZE).
  { rewrite PGROUNDDOWN_eq. unfold PGSIZE. Z.to_euclidean_division_equations. lia. }
  set (n := Z.min (PGSIZE - (va - PGROUNDDOWN va)) len).
  rewrite page_chunk by lia. assert (Hm : MAXVA + PGSIZE < 2 ^ 64) by done.
  unfold u64. rewrite Z.mod_small by (rewrite PGROUNDDOWN_eq in *; unfold PGSIZE in *; lia).
  destruct (decide (n = len)) as [Hn|Hn].
  - rewrite Hn, Z.sub_diag. destruct fuel; [lia|]. cbn [copyin_loop].
    rewrite (proj2 (Z.leb_le _ _)) by lia. done.
  - assert (Hn' : PGROUNDDOWN va + PGSIZE = va + n) by lia. rewrite Hn'.
    rewrite (IH _ psz _ _ s tr l); try lia; [|done|intros x Hx; apply Hacc; lia].
    rewrite <- app_assoc. do 3 f_equal.
    rewrite <- (Z2Nat.id n) at 2 by lia. rewrite <- read_bytes_app. f_equal. lia.
Qed.
End Copy.

(** [copyin] returns the user's bytes: where the whole range is accessible,
    it succeeds and delivers the bytes the page table maps the range to. *)
Theorem copyin_spec root psz srcva len s tr l :
  pt_ok (k_mem s) root l -> 0 <= srcva -> 0 <= len -> srcva + len <= MAXVA ->
  accessible (pte_val (k_mem s) root) srcva len ->
  copyin root psz srcva len s tr =
    Done (0, read_bytes (user_byte (k_mem s) root) srcva (Z.to_nat len)) s tr.
Proof.
  intros Hok Hva Hlen Hmax Hacc. unfold copyin.
  rewrite (copyin_loop_run root _ [] psz srcva len s tr l); (done || lia).
Qed.

(** *** [copyout] *)
(** User pages are pages of RAM other than tables, and no page is mapped at two
    user addresses. *)
Record user_sep (m : Z -> Z) (root : Z) : Prop := {
  us_page : forall va, 0 <= va -> user_page (pte_val m root) va <> 0 -> page_ok (user_page (pte_val m root) va);
  us_table : forall va p t, 0 <= va -> user_page (pte_val m root) va <> 0 -> Forall index p -> (length p <= 2)%nat ->
    tbl m root p = Some t -> user_page (pte_val m root) va <> t;
  us_inj : forall va va', 0 <= va -> 0 <= va' -> user_page (pte_val m root) va <> 0 ->
    user_page (pte_val m root) va = user_page (pte_val m root) va' -> va / PGSIZE = va' / PGSIZE }.

Lemma pte_val_ext m m' root va :
  off_tables m root m' -> pte_val m' root va = pte_val m root va.
Proof.
  intros Hm. unfold pte_val. rewrite (tbl_ext m) by (done || apply vpath_index || (cbn; lia)).
  destruct (tbl m root (vpath va)) as [t|] eqn:E; [|done]. pose proof (PX_bound 0 va).
  apply load64_ext. intros b Hb. eapply (Hm (vpath va) t); [apply vpath_index|cbn; lia|done|].
  unfold PGSIZE. lia.
Qed.

(** [m'] is [m] with [src] written to the user addresses from [va] on. *)
Definition copied (f : Z -> Z) (va : Z) (src : list Z) (m m' : Z -> Z) : Prop :=
  (forall i b, src !! i = Some b -> m' (phys f (va + Z.of_nat i)) = u8 b) /\
  (forall b, (forall i, (i < length src)%nat -> b <> phys f (va + Z.of_nat i)) -> m' b = m b).

Lemma copied_app f va c1 c2 m m1 m2 :
  (forall x y, va <= x < va + Z.of_nat (length (c1 ++ c2)) -> va <= y < va + Z.of_nat (length (c1 ++ c2)) ->
    phys f x = phys f y -> x = y) ->
  copied f va c1 m m1 -> copied f (va + Z.of_nat (length c1)) c2 m1 m2 -> copied f va (c1 ++ c2) m m2.
Proof.
  rewrite length_app. intros Hinj [A1 A2] [B1 B2]. split.
  - intros i b [Hi|[Hlen Hi]]%lookup_app_Some.
    + pose proof (lookup_lt_Some _ _ _ Hi). rewrite B2; [by apply A1|].
      intros j Hj E. apply Hinj in E; lia.
    + replace (va + Z.of_nat i) with (va + Z.of_nat (length c1) + Z.of_nat (i - length c1)) by lia.
      by apply B1.
  - rewrite length_app. intros b Hb. rewrite B2.
    + apply A2. intros i Hi. apply Hb. lia.
    + intros i Hi. replace (va + Z.of_nat (length c1) + Z.of_nat i) with (va + Z.of_nat (length c1 + i)) by lia.
      apply Hb. lia.
Qed.

Section CopyOut.
Context (root : Z).

Lemma phys_inj m x y : user_sep m root -> 0 <= x -> 0 <= y ->
  user_page (pte_val m root) x <> 0 -> user_page (pte_val m root) y <> 0 ->
  phys (pte_val m root) x = phys (pte_val m root) y -> x = y.
Proof.
  intros [H1 H2 H3] Hx Hy Hux Huy E. unfold phys in E.
  assert (Hp : user_page (pte_val m root) x = user_page (pte_val m root) y).
  { pose proof (H1 x Hx Hux) as [Ax _]. pose proof (H1 y Hy Huy) as [Ay _].
    apply Z.mod_divide in Ax as [i Ax]; [|done]. apply Z.mod_divide in Ay as [j Ay]; [|done].
    pose proof (Z.mod_pos_bound x PGSIZE). pose proof (Z.mod_pos_bound y PGSIZE).
    rewrite Ax, Ay in *. unfold PGSIZE in *. lia. }
  pose proof (H3 x y Hx Hy Hux Hp). pose proof (Z_div_mod_eq_full x PGSIZE). pose proof (Z_div_mod_eq_full y PGSIZE).
  lia.
Qed.

Lemma chunk_copied m va src l :
  pt_ok m root l -> user_sep m root -> 0 <= va -> user_page (pte_val m root) va <> 0 ->
  va - PGROUNDDOWN va + Z.of_nat (length src) <= PGSIZE ->
  let m' := write_bytes m (user_page (pte_val m root) va + (va - PGROUNDDOWN va)) src in
  copied (pte_val m root) va src m m' /\ off_tables m root m'.
Proof.
  intros Hok Hsep Hva Hu Hlen m'.
  assert (Hdown : PGROUNDDOWN va <= va < PGROUNDDOWN va + PGSIZE).
  { rewrite PGROUNDDOWN_eq. unfold PGSIZE. Z.to_euclidean_division_equations. lia. }
  assert (Hphys : forall i, 0 <= i < Z.of_nat (length src) ->
    phys (pte_val m root) (va + i) = user_page (pte_val m root) va + (va - PGROUNDDOWN va) + i).
  { intros i Hi. unfold phys. rewrite <- (user_page_down m root (va + i)), <- (user_page_down m root va) by lia.
    rewrite !PGROUNDDOWN_eq in *.
    assert (E : (va + i) / PGSIZE = va / PGSIZE)
      by (unfold PGSIZE in *; Z.to_euclidean_division_equations; lia).
    rewrite E. pose proof (Z_div_mod_eq_full (va + i) PGSIZE). rewrite E in *. lia. }
  split; [split|].
  - intros i b Hi. pose proof (lookup_lt_Some _ _ _ Hi). rewrite Hphys by lia. by apply write_bytes_at.
  - intros b Hb. apply write_bytes_other. intros Hr.
    apply (Hb (Z.to_nat (b - (user_page (pte_val m root) va + (va - PGROUNDDOWN va))))); [lia|].
    rewrite Hphys; lia.
  - intros p t b Hp Hl Ht Hb. apply write_bytes_other. intros Hr.
    pose proof (page_distinct _ t (us_page _ _ Hsep va Hva Hu) (pt_page _ _ _ Hok p t Hp Hl Ht)
      (us_table _ _ Hsep va p t Hva Hu Hp Hl Ht)). lia.
Qed.

Lemma user_sep_ext m m' : off_tables m root m' -> user_sep m root -> user_sep m' root.
Proof.
  intros Hm [H1 H2 H3].
  assert (Hu : forall va, user_page (pte_val m' root) va = user_page (pte_val m root) va).
  { intros va. unfold user_page. by rewrite !(pte_val_ext m m'). }
  split.
  - intros va. rewrite Hu. apply H1.
  - intros va p t Hva. rewrite Hu. intros Hne Hp Hl Ht. rewrite (tbl_ext m) in Ht by (done || lia). by eapply H2.
  - intros va va'. rewrite !Hu. apply H3.
Qed.

(** The range can be written by the user. *)
Definition writable (f : Z -> Z) (va len : Z) : Prop :=
  forall x, va <= x < va + len -> user_page f x <> 0 /\ has (f x) PTE_W = true.

Lemma copied_ext f f' va src m m' :
  (forall x, f x = f' x) -> copied f va src m m' -> copied f' va src m m'.
Proof.
  intros Hf. unfold copied. assert (Hp : forall x, phys f x = phys f' x).
  { intros x. unfold phys, user_page. by rewrite Hf. }
  intros [A B]. split.
  - intros i b Hi. rewrite <- Hp. by apply A.
  - intros b Hb. apply B. intros i Hi. rewrite Hp. by apply Hb.
Qed.

Lemma down_range va : PGROUNDDOWN va <= va < PGROUNDDOWN va + PGSIZE.
Proof. rewrite PGROUNDDOWN_eq. unfold PGSIZE. Z.to_euclidean_division_equations. lia. Qed.

Lemma down_max va : va < MAXVA -> PGROUNDDOWN va + PGSIZE <= MAXVA.
Proof.
  rewrite PGROUNDDOWN_eq. change MAXVA with (2 ^ 26 * PGSIZE). unfold PGSIZE.
  Z.to_euclidean_division_equations. lia.
Qed.

(** One iteration on an accessible, writable page. *)
Lemma copyout_step fuel psz va src s tr l :
  pt_ok (k_mem s) root l -> 0 <= va < MAXVA -> src <> [] ->
  user_page (pte_val (k_mem s) root) va <> 0 -> has (pte_val (k_mem s) root va) PTE_W = true ->
  let n := Z.to_nat (Z.min (PGSIZE - (va - PGROUNDDOWN va)) (Z.of_nat (length src))) in
  copyout_loop (S fuel) root psz va src s tr =
    copyout_loop fuel root psz (PGROUNDDOWN va + PGSIZE) (drop n src)
      (s <| k_mem := write_bytes (k_mem s)
             (user_page (pte_val (k_mem s) root) va + (va - PGROUNDDOWN va)) (take n src) |>) tr.
Proof.
  intros Hok Hva Hsrc Hu HW n. pose proof (down_range va). pose proof (down_max va ltac:(lia)).
  assert (Hdiv : PGROUNDDOWN va / PGSIZE = va / PGSIZE) by (by rewrite PGROUNDDOWN_eq, Z.div_mul).
  cbn [copyout_loop]. rewrite (proj2 (Z.leb_gt _ _)) by (destruct src; [done|cbn; lia]).
  rewrite (proj2 (Z.leb_gt _ _)) by lia. kstep walkaddr_run; [done|]. rewrite user_page_down by lia.
  rewrite (proj2 (Z.eqb_neq _ 0)) by done. kstep kret_run. rewrite (proj2 (Z.eqb_neq _ 0)) by done.
  kstep walk_lookup; [lia|]. unfold load_pte. kstep gets_run.
  pose proof (pte_addr_load root (PGROUNDDOWN va) s l Hok) as Hload.
  assert (Hval : load64 (k_mem s) (pte_addr (k_mem s) root (PGROUNDDOWN va)) = pte_val (k_mem s) root va).
  { destruct (_ =? 0); rewrite (pte_val_page _ _ _ va Hdiv) in Hload; [|done].
    by rewrite Hload in HW. }
  rewrite Hval, HW. cbn [negb]. kstep modify_run. unfold u64. rewrite Z.mod_small; [done|].
  rewrite PGROUNDDOWN_eq in *. assert (MAXVA < 2 ^ 64) by done. unfold PGSIZE in *. lia.
Qed.

Lemma copyout_loop_run fuel : forall psz va src s tr l,
  pt_ok (k_mem s) root l -> user_sep (k_mem s) root ->
  0 <= va -> va + Z.of_nat (length src) <= MAXVA -> (length src < fuel)%nat ->
  writable (pte_val (k_mem s) root) va (Z.of_nat (length src)) ->
  exists m', copyout_loop fuel root psz va src s tr = Done 0 (s <| k_mem := m' |>) tr /\
    copied (pte_val (k_mem s) root) va src (k_mem s) m' /\ off_tables (k_mem s) root m'.
Proof.
  induction fuel as [|fuel IH]; intros psz va src s tr l Hok Hsep Hva Hmax Hlen Hw; [lia|].
  destruct (decide (src = [])) as [->|Hsrc].
  { exists (k_mem s). split; [done|]. split; [|done]. by split. }
  assert (Hpos : (0 < length src)%nat) by (destruct src; [done|cbn; lia]).
  destruct (Hw va) as [Hu HW]; [lia|]. pose proof (down_range va). pose proof (down_max va ltac:(lia)).
  rewrite (copyout_step fuel psz va src s tr l) by (done || lia).
  set (n := Z.to_nat _). set (m1 := write_bytes _ _ _).
  assert (Htn : length (take n src) = n) by (rewrite length_take; lia).
  destruct (chunk_copied (k_mem s) va (take n src) l Hok Hsep Hva Hu) as [Hc Hoff]; [lia|]. fold m1 in Hc, Hoff.
  assert (Hf : forall x, pte_val m1 root x = pte_val (k_mem s) root x) by (intros x; by apply pte_val_ext).
  assert (Hnext : drop n src = [] \/ PGROUNDDOWN va + PGSIZE = va + Z.of_nat n).
  { destruct (decide (n = length src)); [left; apply drop_ge; lia|right; lia]. }
  destruct (IH psz (PGROUNDDOWN va + PGSIZE) (drop n src) (s <| k_mem := m1 |>) tr l)
    as (m' & Hrun & Hc' & Hoff').
  - by apply (pt_ok_ext (k_mem s) m1 root l l).
  - by apply (user_sep_ext (k_mem s)).
  - lia.
  - destruct Hnext as [->|E]; [cbn; lia|]. rewrite length_drop, E. lia.
  - rewrite length_drop. lia.
  - cbn. intros x. unfold user_page. rewrite Hf. intros Hx. apply Hw.
    destruct Hnext as [E|E]; [rewrite E in Hx; cbn in Hx; lia|]. rewrite length_drop in Hx. lia.
  - exists m'. split; [done|]. split.
    + rewrite <- (take_drop n src). eapply copied_app; [|exact Hc|].
      * rewrite take_drop. intros x y Hx Hy. apply phys_inj; try done; try lia; apply Hw; lia.
      * rewrite Htn. destruct Hnext as [E|E].
        -- rewrite E in *. destruct Hc' as [_ Hc']. split; [done|]. intros b _. apply Hc'. intros i Hi. cbn in Hi. lia.
        -- rewrite <- E. by eapply copied_ext; [exact Hf|].
    + intros p t b Hp Hl Ht Hb. rewrite <- (Hoff p t b Hp Hl Ht Hb). eapply (Hoff' p t); try done.
      cbn. rewrite (tbl_ext (k_mem s) m1); (done || lia).
Qed.
End CopyOut.

(** C37. [copyout] writes the user's bytes: where the whole range is mapped
    writable, it succeeds, each byte of [src] is where the page table maps its
    user address, no other byte of memory changes, and the address space is the
    same. *)
Theorem copyout_spec root psz dstva src s tr l :
  pt_ok (k_mem s) root l -> user_sep (k_mem s) root ->
  0 <= dstva -> dstva + Z.of_nat (length src) <= MAXVA ->
  writable (pte_val (k_mem s) root) dstva (Z.of_nat (length src)) ->
  exists m', copyout root psz dstva src s tr = Done 0 (s <| k_mem := m' |>) tr /\
    copied (pte_val (k_mem s) root) dstva src (k_mem s) m' /\
    forall va, pte_val m' root va = pte_val (k_mem s) root va.
Proof.
  intros Hok Hsep Hva Hmax Hw.
  destruct (copyout_loop_run root (S (length src)) psz dstva src s tr l) as (m' & Hrun & Hc & Hoff); auto.
  exists m'. split; [done|]. split; [done|]. intros va. by apply pte_val_ext.
Qed.

(** *** Empty page tables *)
Lemma tbl_zero m root p :
  (forall b, root <= b < root + PGSIZE -> m b = 0) -> Forall index p ->
  tbl m root p = match p with [] => Some root | _ => None end.
Proof.
  intros Hz Hp. destruct p as [|i p]; [done|]. cbn [tbl]. unfold entry.
  apply Forall_cons in Hp as [Hi _]. rewrite (load64_ext m (fun _ => 0)); [done|].
  intros b Hb. apply Hz. unfold index, PGSIZE in *. lia.
Qed.

Lemma pt_ok_zero m root l :
  (forall b, root <= b < root + PGSIZE -> m b = 0) -> page_ok root -> root ∉ l -> pt_ok m root l.
Proof.
  intros Hz Hr Hl. split.
  - intros p t Hp _. rewrite tbl_zero by done. destruct p; [by intros [= <-]|done].
  - intros p t Hp _. rewrite tbl_zero by done. destruct p; [by intros [= <-]|done].
  - intros p q t Hp Hq _ _. rewrite !tbl_zero by done. by destruct p, q.
Qed.

Lemma pte_val_zero m root va :
  (forall b, root <= b < root + PGSIZE -> m b = 0) -> pte_val m root va = 0.
Proof. intros Hz. unfold pte_val. by rewrite tbl_zero by (done || apply vpath_index). Qed.

Lemma shape_zero m root : (forall b, root <= b < root + PGSIZE -> m b = 0) -> shape m root.
Proof.
  intros Hz. assert (Hl : forall i, index i -> load64 m (root + 8 * i) = 0).
  { intros i Hi. rewrite (load64_ext m (fun _ => 0)); [done|]. intros b Hb. apply Hz. unfold index, PGSIZE in *. lia. }
  split.
  - intros i Hi. unfold entry. rewrite Hl; [done|]. unfold index. lia.
  - intros p t i Hp _. rewrite tbl_zero by done. destruct p; [|done]. intros [= <-] Hi. by rewrite Hl.
Qed.

(** [uvmcreate] returns 0 only when memory has run out; otherwise it returns
    a page table that maps nothing. *)
Theorem uvmcreate_spec s tr l :
  kmem_ready s l ->
  exists r s', uvmcreate s tr = Done r s' tr /\ vm_frame s s' /\
    match l with
    | [] => r = 0 /\ kmem_ready s' []
    | g :: l' => r = g /\ kmem_ready s' l' /\ pt_ok (k_mem s') r l' /\
        forall b, r <= b < r + PGSIZE -> k_mem s' b = 0
    end.
Proof.
  intros Hk. destruct l as [|g l].
  - exists 0, (touch s). split.
    + unfold uvmcreate. by kstep (kalloc_run_empty s); [apply Hk..|].
    + split; [by exists (k_mem s), (k_freelist s); right|]. split; [done|].
      split; [apply hart_ok_touch, Hk|apply Hk..].
  - destruct (kr_list _ _ Hk) as (Hc & Hn & Hf). apply NoDup_cons in Hn as [Hn _].
    apply Forall_cons in Hf as [Hg Hf]. pose proof (page_ok_pos Hend g Hg).
    set (s1 := touch (alloc_page g s)). set (s' := s1 <| k_mem := memset (k_mem s1) g 0 PGSIZE |>).
    assert (Hz : forall b, g <= b < g + PGSIZE -> k_mem s' b = 0).
    { intros b Hb. cbn. rewrite memset_spec. by case_match; [|lia]. }
    exists g, s'. split; [|split; [by exists (k_mem s'), (k_freelist s'); right|split; [done|split; [|split]]]].
    + unfold uvmcreate. kstep (kalloc_run s tr g); [apply Hk|apply Hk|apply Hc|lia|].
      rewrite (proj2 (Z.eqb_neq g 0)) by lia. unfold zero_page. fold s1. kstep modify_run. reflexivity.
    + apply (kmem_ready_mem (touch (alloc_page g s))).
      * split; [apply hart_ok_touch, Hk|apply Hk|]. apply (kmem_list_alloc s), Hk.
      * intros x b Hx Hb. cbn. rewrite memset_spec. case_match; [|done].
        eapply Forall_forall in Hf; [|done]. assert (x <> g) by (by intros ->).
        pose proof (page_distinct x g Hf Hg ltac:(done)). lia.
    + by apply pt_ok_zero.
    + exact Hz.
Qed.
End PageTable.

(** ** An address space of one page *)
Definition demo_root : Z := 0x80200000.

Lemma demo_ready : @kmem_ready demo_layout demo_kmem demo_free.
Proof. split; [exact boot_hart|done|exact demo_kmem_list]. Qed.

Lemma demo_root_zero b : demo_root <= b < demo_root + PGSIZE -> k_mem demo_kmem b = 0.
Proof.
  intros Hb. unfold demo_kmem, demo_mem, demo_root, PGSIZE in *. cbn.
  rewrite !store64_other by lia. done.
Qed.

Lemma demo_pt : @pt_ok demo_layout (k_mem demo_kmem) demo_root demo_free.
Proof.
  apply pt_ok_zero; [exact demo_root_zero|done|]. apply (bool_decide_unpack _). by vm_compute.
Qed.

Lemma mappages_spec_witness :
  exists r s' l' k,
    mappages demo_root 0 PGSIZE 0x80300000 23 demo_kmem [] = Done r s' [] /\
    @vm_step demo_layout demo_root demo_kmem demo_free s' l' /\
    (r = 0 /\ Z.of_nat k * PGSIZE = PGSIZE \/ r = -1 /\ Z.of_nat k * PGSIZE < PGSIZE /\ l' = []) /\
    forall va', 0 <= va' < MAXVA ->
      pte_val (k_mem s') demo_root va' =
        map_pages 0 0x80300000 23 k (pte_val (k_mem demo_kmem) demo_root) va'.
Proof.
  apply (@mappages_spec demo_layout eq_refl demo_root 0 PGSIZE 0x80300000 23 demo_kmem [] demo_free);
    [done|done|done|done|done|done|done|done|exact demo_ready|exact demo_pt|].
  intros va' _. by rewrite pte_val_zero by exact demo_root_zero.
Defined.

Lemma uvmcreate_spec_witness :
  exists r s', uvmcreate demo_kmem [] = Done r s' [] /\ vm_frame demo_kmem s' /\
    r = 0x80100000 /\ @kmem_ready demo_layout s' [0x80101000; 0x80102000; 0x80103000] /\
    @pt_ok demo_layout (k_mem s') r [0x80101000; 0x80102000; 0x80103000] /\
    forall b, r <= b < r + PGSIZE -> k_mem s' b = 0.
Proof. apply (@uvmcreate_spec demo_layout eq_refl demo_kmem [] demo_free). exact demo_ready. Defined.

(** The state after mapping the page at user address 0, with all permissions. *)
Definition final {A} (o : outcome kstate A) : kstate :=
  match o with Done _ s _ => s | _ => boot_state end.
Definition demo_user : kstate := final (mappages demo_root 0 PGSIZE 0x80300000 30 demo_kmem []).

Lemma demo_user_ok : exists l,
  @vm_step demo_layout demo_root demo_kmem demo_free demo_user l /\
  forall va, 0 <= va < MAXVA -> pte_val (k_mem demo_user) demo_root va =
    if decide (0 <= va < PGSIZE) then leaf_pte 0x80300000 30 else 0.
Proof.
  destruct (@mappages_loop_run demo_layout eq_refl demo_root 30 0 0 0x80300000 demo_kmem [] demo_free)
    as (r & s' & l' & k & Hrun & Hstep & Hr & Hval);
    [done|done|done|done|done|done|exact demo_ready|exact demo_pt| |].
  { intros va' _. by rewrite pte_val_zero by exact demo_root_zero. }
  assert (E : demo_user = s').
  { unfold demo_user. change (mappages demo_root 0 PGSIZE 0x80300000 30 demo_kmem []) with
      (mappages_loop 1 demo_root 0 (0 + Z.of_nat 0 * PGSIZE) 0x80300000 30 demo_kmem []). by rewrite Hrun. }
  assert (Hr0 : r = 0).
  { assert (Hc : match mappages_loop 1 demo_root 0 (0 + Z.of_nat 0 * PGSIZE) 0x80300000 30 demo_kmem []
              with Done r _ _ => r | _ => 1 end = 0) by (by vm_compute).
    by rewrite Hrun in Hc. }
  rewrite E. exists l'. split; [done|]. destruct Hr as [[_ ->]|[-> _]]; [|done].
  intros va Hva. rewrite Hval by done. unfold map_pages. change (0 + Z.of_nat 1 * PGSIZE) with PGSIZE.
  destruct (decide _); [|by rewrite pte_val_zero by exact demo_root_zero].
  by rewrite Z.sub_0_r, Z.div_small.
Qed.

Lemma demo_user_page va : 0 <= va ->
  user_page (pte_val (k_mem demo_user) demo_root) va = if decide (va < PGSIZE) then 0x80300000 else 0.
Proof.
  destruct demo_user_ok as (l & _ & Hval). intros Hva. unfold user_page.
  destruct (Z.ltb_spec va MAXVA) as [Hm|Hm]; cbn [andb].
  - rewrite Hval by done. destruct (decide (va < PGSIZE)).
    + by rewrite decide_True.
    + by rewrite decide_False by lia.
  - rewrite decide_False; [done|]. unfold PGSIZE. change MAXVA with (2 ^ 38) in Hm. lia.
Qed.

Lemma copyin_spec_witness :
  exists l, @pt_ok demo_layout (k_mem demo_user) demo_root l /\
  @copyin demo_layout demo_root PGSIZE 16 100 demo_user [] =
    Done (0, read_bytes (user_byte (k_mem demo_user) demo_root) 16 100) demo_user [].
Proof.
  destruct demo_user_ok as (l & Hstep & _). exists l. split; [apply Hstep|].
  apply (@copyin_spec demo_layout eq_refl demo_root PGSIZE 16 100 demo_user [] l);
    [apply Hstep|done|done|done|].
  intros x Hx. rewrite demo_user_page by lia. rewrite decide_True; [done|]. unfold PGSIZE. lia.
Defined.

Lemma demo_user_sep : @user_sep demo_layout (k_mem demo_user) demo_root.
Proof.
  destruct demo_user_ok as (l & Hstep & Hval). split.
  - intros va Hva. rewrite demo_user_page by done. by destruct (decide _).
  - intros va p t Hva. rewrite demo_user_page by done. destruct (decide _); [|done]. intros _ Hp Hl Ht E.
    destruct (vs_new _ _ _ _ _ Hstep p t Hp Hl Ht) as [Ht0|[Hin _]].
    + rewrite tbl_zero in Ht0 by (done || exact demo_root_zero). destruct p; [|done]. by injection Ht0 as <-.
    + subst t. revert Hin. apply (bool_decide_unpack _). by vm_compute.
  - intros va va' Hva Hva'. rewrite !demo_user_page by done.
    repeat destruct (decide _); try done. intros _ _. by rewrite !Z.div_small.
Qed.

Lemma copyout_spec_witness :
  exists m', @copyout demo_layout demo_root PGSIZE 4000 [104; 105] demo_user [] =
      Done 0 (demo_user <| k_mem := m' |>) [] /\
    copied (pte_val (k_mem demo_user) demo_root) 4000 [104; 105] (k_mem demo_user) m' /\
    forall va, pte_val m' demo_root va = pte_val (k_mem demo_user) demo_root va.
Proof.
  destruct demo_user_ok as (l & Hstep & Hval).
  apply (@copyout_spec demo_layout eq_refl demo_root PGSIZE 4000 [104; 105] demo_user [] l);
    [apply Hstep|exact demo_user_sep|done|done|].
  cbn [length]. intros x Hx. rewrite demo_user_page by lia.
    rewrite Hval by (change MAXVA with (2 ^ 38); lia).
    rewrite !decide_True by (unfold PGSIZE; lia). done.
Defined.
