(* ===== verification/VmCopy.v ===== *)
(** * Copying an address space (kernel/vm.c: uvmcopy, uvmunmap)

    [fork] gives the child a copy of the parent's memory.  Every page of memory
    plays at most one role: free, table of one of the two page tables, or frame of
    one of the two address spaces.  That this stays so is the isolation of the two
    processes. *)

From stdpp Require Import prelude list strings gmap.
From Stdlib Require Import ZArith Lia ZifyBool.
From S2P Require Import Prelude State Spinlock CString Kalloc Proc Vm.
Local Open Scope Z_scope.

(** ** Copies of bytes and flags of entries *)
#[local] Transparent memmove.
Lemma copy_forward_apart n : forall m d s a, (d + Z.of_nat n <= s \/ s + Z.of_nat n <= d) ->
  copy_forward m d s n a = if decide (d <= a < d + Z.of_nat n) then u8 (m (s + (a - d))) else m a.
Proof.
  induction n as [|n IH]; intros m d s a Hd; cbn [copy_forward]; [by rewrite decide_False by lia|].
  rewrite IH by lia. unfold store8. destruct (decide (d + 1 <= a < d + 1 + Z.of_nat n)) as [Hin|Hin].
  - rewrite decide_True by lia. case_match; [lia|]. f_equal. f_equal. lia.
  - case_match.
    + rewrite decide_True by lia. f_equal. f_equal. lia.
    + rewrite decide_False by lia. done.
Qed.

Lemma memmove_apart m d s n a : 0 <= n -> (d + n <= s \/ s + n <= d) ->
  memmove m d s n a = if decide (d <= a < d + n) then u8 (m (s + (a - d))) else m a.
Proof.
  intros Hn Hd. unfold memmove. destruct (Z.eqb_spec n 0) as [->|]; [by rewrite decide_False by lia|].
  destruct (_ && _) eqn:E; [lia|]. rewrite copy_forward_apart, Z2Nat.id by lia. done.
Qed.

#[local] Opaque memmove.

Lemma flags_range e : 0 <= PTE_FLAGS e < 1024.
Proof.
  unfold PTE_FLAGS. change 0x3FF with (Z.ones 10). rewrite Z.land_ones by lia. apply Z.mod_pos_bound. lia.
Qed.

Lemma flags_leaf pa e : has e PTE_V = true -> PTE_FLAGS (leaf_pte pa (PTE_FLAGS e)) = PTE_FLAGS e.
Proof.
  intros He. unfold PTE_FLAGS, leaf_pte, PA2PTE. apply Z.bits_inj'. intros k Hk. change 0x3FF with (Z.ones 10).
  rewrite !Z.land_spec, !Z.lor_spec, Z.land_spec. destruct (Z.ltb_spec k 10) as [Hlt|Hge].
  - rewrite Z.shiftl_spec_low by lia. rewrite Z.ones_spec_low by lia. change PTE_V with (2 ^ 0). rewrite Z.pow2_bits_eqb by lia.
    destruct (Z.eqb_spec 0 k) as [<-|]; [|by destruct (Z.testbit e k)].
    unfold has in He. rewrite orb_true_r. symmetry. change PTE_V with (2 ^ 0) in He. rewrite andb_true_r.
    destruct (Z.testbit e 0) eqn:E; [done|]. exfalso. apply negb_true_iff, Z.eqb_neq in He. apply He.
    apply Z.bits_inj'. intros j Hj. rewrite Z.land_spec, Z.pow2_bits_eqb, Z.bits_0 by lia.
    destruct (Z.eqb_spec 0 j) as [<-|]; [by rewrite E|by rewrite andb_false_r].
  - by rewrite Z.ones_spec_high, !andb_false_r by lia.
Qed.

(** ** The roles of pages *)
Inductive role := Free | TabOld (p : list Z) | TabNew (p : list Z) | FrOld (n : Z) | FrNew (n : Z).
#[export] Instance role_eq_dec : EqDecision role.
Proof. solve_decision. Defined.

Section Copy.
Context `{KernelLayout} (Hend : 0 < kernel_end) (old new sz : Z) (Hsz : 0 <= sz <= MAXVA).

Definition valid (m : Z -> Z) (root va : Z) : Prop := has (pte_val m root va) PTE_V = true.
Definition frame (m : Z -> Z) (root va : Z) : Z := PTE2PA (pte_val m root va).

Inductive plays (m : Z -> Z) (l : list Z) : Z -> role -> Prop :=
| pl_free x : x ∈ l -> plays m l x Free
| pl_told p x : Forall index p -> (length p <= 2)%nat -> tbl m old p = Some x -> plays m l x (TabOld p)
| pl_tnew p x : Forall index p -> (length p <= 2)%nat -> tbl m new p = Some x -> plays m l x (TabNew p)
| pl_fold va x : 0 <= va < sz -> valid m old va -> frame m old va = x -> plays m l x (FrOld (va / PGSIZE))
| pl_fnew va x : 0 <= va < sz -> valid m new va -> frame m new va = x -> plays m l x (FrNew (va / PGSIZE)).

(** Every page plays one role at most. *)
Record apart (m : Z -> Z) (l : list Z) : Prop := {
  ap_page : forall x r, plays m l x r -> page_ok x;
  ap_one : forall x r r', plays m l x r -> plays m l x r' -> r = r' }.

Definition idle (m : Z -> Z) (l : list Z) (g : Z) : Prop := forall r, ~ plays m l g r.

Lemma apart_pt_old m l : apart m l -> pt_ok m old l.
Proof.
  intros [A1 A2]. split.
  - intros p t Hp Hl Ht. by apply (A1 t (TabOld p)), pl_told.
  - intros p t Hp Hl Ht Hin. by specialize (A2 t (TabOld p) Free ltac:(by apply pl_told) ltac:(by apply pl_free)).
  - intros p q t Hp Hq Hlp Hlq Ht Hu. by specialize (A2 t (TabOld p) (TabOld q) ltac:(by apply pl_told) ltac:(by apply pl_told)) as [= ->].
Qed.

Lemma apart_pt_new m l : apart m l -> pt_ok m new l.
Proof.
  intros [A1 A2]. split.
  - intros p t Hp Hl Ht. by apply (A1 t (TabNew p)), pl_tnew.
  - intros p t Hp Hl Ht Hin. by specialize (A2 t (TabNew p) Free ltac:(by apply pl_tnew) ltac:(by apply pl_free)).
  - intros p q t Hp Hq Hlp Hlq Ht Hu. by specialize (A2 t (TabNew p) (TabNew q) ltac:(by apply pl_tnew) ltac:(by apply pl_tnew)) as [= ->].
Qed.

(** A frame that two addresses share is at one page. *)
Lemma frame_page m l va va' : apart m l -> 0 <= va < sz -> 0 <= va' < sz -> valid m new va -> valid m new va' ->
  frame m new va = frame m new va' -> va / PGSIZE = va' / PGSIZE.
Proof.
  intros A Hva Hva' Hv Hv' E. assert (H1 : plays m l (frame m new va) (FrNew (va / PGSIZE))) by (by apply pl_fnew).
  assert (H2 : plays m l (frame m new va) (FrNew (va' / PGSIZE))) by (by apply pl_fnew).
  by injection (ap_one _ _ A _ _ _ H1 H2).
Qed.

(** Roles after a change of memory that stays off the tables. *)
Lemma plays_off m m' l l' x r : off_tables m old m' -> off_tables m new m' -> (r = Free -> x ∈ l' -> x ∈ l) ->
  plays m' l' x r -> plays m l x r.
Proof.
  intros Ho Hn Hl. destruct 1 as [x Hx|p x Hp Hle Ht|p x Hp Hle Ht|va x Hva Hv Hf|va x Hva Hv Hf].
  - apply pl_free. by apply Hl.
  - apply pl_told; [done..|]. by rewrite (tbl_ext m m') in Ht by (done || lia).
  - apply pl_tnew; [done..|]. by rewrite (tbl_ext m m') in Ht by (done || lia).
  - unfold valid, frame in *. rewrite (pte_val_ext m m') in Hv, Hf by done. by apply pl_fold.
  - unfold valid, frame in *. rewrite (pte_val_ext m m') in Hv, Hf by done. by apply pl_fnew.
Qed.

Lemma plays_on m m' l l' x r : off_tables m old m' -> off_tables m new m' -> (r = Free -> x ∈ l -> x ∈ l') ->
  plays m l x r -> plays m' l' x r.
Proof.
  intros Ho Hn Hl. destruct 1 as [x Hx|p x Hp Hle Ht|p x Hp Hle Ht|va x Hva Hv Hf|va x Hva Hv Hf].
  - apply pl_free. by apply Hl.
  - apply pl_told; [done..|]. by rewrite (tbl_ext m m') by (done || lia).
  - apply pl_tnew; [done..|]. by rewrite (tbl_ext m m') by (done || lia).
  - apply pl_fold; [done|..]; unfold valid, frame in *; by rewrite (pte_val_ext m m').
  - apply pl_fnew; [done|..]; unfold valid, frame in *; by rewrite (pte_val_ext m m').
Qed.

(** A change within a page that is no table. *)
Lemma off_page m m' l g : apart m l -> page_ok g -> (forall b, ~ (g <= b < g + PGSIZE) -> m' b = m b) ->
  (forall p, ~ plays m l g (TabOld p)) -> (forall p, ~ plays m l g (TabNew p)) -> off_tables m old m' /\ off_tables m new m'.
Proof.
  intros A Hg Hm Ho Hn. split; intros p t b Hp Hl Ht Hb; apply Hm.
  - assert (Hr : plays m l t (TabOld p)) by (by apply pl_told). assert (t <> g) by (intros ->; by eapply Ho).
    pose proof (page_distinct t g (ap_page _ _ A _ _ Hr) Hg ltac:(done)). lia.
  - assert (Hr : plays m l t (TabNew p)) by (by apply pl_tnew). assert (t <> g) by (intros ->; by eapply Hn).
    pose proof (page_distinct t g (ap_page _ _ A _ _ Hr) Hg ltac:(done)). lia.
Qed.

(** What a step leaves alone: the old address space, and the new one's pages. *)
Record keeps (m : Z -> Z) (l : list Z) (m' : Z -> Z) : Prop := {
  ke_old : forall va, pte_val m' old va = pte_val m old va;
  ke_page : forall x r, plays m l x r -> (exists n, r = FrOld n \/ r = FrNew n) -> forall b, x <= b < x + PGSIZE -> m' b = m b }.

Lemma keeps_off m m' l g : apart m l -> page_ok g -> (forall b, ~ (g <= b < g + PGSIZE) -> m' b = m b) ->
  (forall r, plays m l g r -> r = Free) ->
  keeps m l m' /\ off_tables m old m' /\ off_tables m new m'.
Proof.
  intros A Hg Hm Hf. destruct (off_page m m' l g A Hg Hm) as [Ho Hn].
  { intros p Hp. by apply Hf in Hp. } { intros p Hp. by apply Hf in Hp. }
  split; [|done]. split; [intros va; by apply pte_val_ext|]. intros x r Hx Hr b Hb. apply Hm.
  assert (x <> g). { intros ->. apply Hf in Hx as ->. by destruct Hr as [n [|]]. }
  pose proof (page_distinct x g (ap_page _ _ A _ _ Hx) Hg ltac:(done)). lia.
Qed.

(** *** Taking a page, filling it and giving it back *)
Lemma take_page s g l tr : kmem_ready s (g :: l) -> apart (k_mem s) (g :: l) -> let s' := touch (alloc_page g s) in
  kalloc s tr = Done g s' tr /\ g <> 0 /\ page_ok g /\ kmem_ready s' l /\ apart (k_mem s') l /\ idle (k_mem s') l g /\
  keeps (k_mem s) (g :: l) (k_mem s') /\ (forall va, pte_val (k_mem s') new va = pte_val (k_mem s) new va) /\ vm_frame s s' /\
  (forall y r, y <> g -> plays (k_mem s) (g :: l) y r -> plays (k_mem s') l y r).
Proof.
  intros Hk A s'. destruct (kr_list _ _ Hk) as (Hc & Hn & Hf). apply NoDup_cons in Hn as [Hn _].
  apply Forall_cons in Hf as [Hg Hf]. pose proof (page_ok_pos Hend g Hg).
  assert (Hrole : plays (k_mem s) (g :: l) g Free) by (apply pl_free; by left).
  destruct (keeps_off (k_mem s) (k_mem s') (g :: l) g A Hg) as (Hkeep & Ho & Hnw).
  { intros b Hb. cbn. rewrite memset_spec. by case_match; [lia|]. } { intros r Hr. by apply (ap_one _ _ A g). }
  assert (Hback : forall x r, plays (k_mem s') l x r -> plays (k_mem s) (g :: l) x r).
  { intros x r. apply plays_off; [done|done|]. intros _ Hx. by right. }
  split; [apply kalloc_run; [apply Hk|apply Hk|apply Hc|lia]|]. split; [lia|]. split; [done|].
  split; [split; [apply hart_ok_touch, Hk|apply Hk|apply (kmem_list_alloc s), Hk]|]. split; [|split].
  - split; [intros x r Hx; by eapply (ap_page _ _ A), Hback|]. intros x r r' Hx Hx'. eapply (ap_one _ _ A); by apply Hback.
  - intros r Hr. pose proof (ap_one _ _ A _ _ _ (Hback _ _ Hr) Hrole) as ->. by inversion Hr.
  - split; [done|]. split; [intros va; by apply pte_val_ext|]. split; [exists (k_mem s'), (k_freelist s'); by right|].
    intros y r Hy. apply plays_on; [done|done|]. by intros _ [->|]%elem_of_cons.
Qed.

Lemma fill_page s g l m' : kmem_ready s l -> apart (k_mem s) l -> page_ok g -> idle (k_mem s) l g ->
  (forall b, ~ (g <= b < g + PGSIZE) -> m' b = k_mem s b) -> let s' := s <| k_mem := m' |> in
  kmem_ready s' l /\ apart m' l /\ idle m' l g /\ keeps (k_mem s) l m' /\ (forall va, pte_val m' new va = pte_val (k_mem s) new va) /\
  (forall y r, plays (k_mem s) l y r -> plays m' l y r).
Proof.
  intros Hk A Hg Hid Hm s'. destruct (keeps_off (k_mem s) m' l g A Hg Hm) as (Hkeep & Ho & Hn); [intros r Hr; by apply Hid in Hr|].
  assert (Hback : forall x r, plays m' l x r -> plays (k_mem s) l x r) by (intros x r; by apply plays_off).
  split; [|split; [|split; [|split; [done|split; [intros va; by apply pte_val_ext|intros y r; by apply plays_on]]]]].
  - apply kmem_ready_mem; [done|]. intros x b Hx Hb. apply Hm. assert (Hr : plays (k_mem s) l x Free) by (by apply pl_free).
    assert (x <> g) by (intros ->; by apply Hid in Hr). pose proof (page_distinct x g (ap_page _ _ A _ _ Hr) Hg ltac:(done)). lia.
  - split; [intros x r Hx; by eapply (ap_page _ _ A), Hback|]. intros x r r' Hx Hx'. eapply (ap_one _ _ A); by apply Hback.
  - intros r Hr. by apply Hback, Hid in Hr.
Qed.

Lemma give_page s g l tr : kmem_ready s l -> apart (k_mem s) l -> page_ok g -> idle (k_mem s) l g -> let s' := touch (free_page g s) in
  kfree g s tr = Done tt s' tr /\ kmem_ready s' (g :: l) /\ apart (k_mem s') (g :: l) /\ keeps (k_mem s) l (k_mem s') /\
  (forall va, pte_val (k_mem s') new va = pte_val (k_mem s) new va) /\ vm_frame s s' /\
  (forall y r, plays (k_mem s) l y r -> plays (k_mem s') (g :: l) y r).
Proof.
  intros Hk A Hg Hid s'. assert (Hgl : g ∉ l) by (intros Hin; by apply (Hid Free), pl_free).
  destruct (keeps_off (k_mem s) (k_mem s') l g A Hg) as (Hkeep & Ho & Hn).
  { intros b Hb. cbn. rewrite store64_other, memset_spec by (unfold PGSIZE in *; lia). by case_match; [lia|]. }
  { intros r Hr. by apply Hid in Hr. }
  assert (Hback : forall x r, plays (k_mem s') (g :: l) x r -> x = g /\ r = Free \/ plays (k_mem s) l x r).
  { intros x r Hx. destruct (decide (r = Free /\ x = g)) as [[-> ->]|Hne]; [by left|right].
    eapply plays_off; [exact Ho|exact Hn| |exact Hx]. intros -> [->|Hin]%elem_of_cons; [tauto|done]. }
  split; [apply kfree_run; [apply Hk|apply Hk|done]|].
  split; [split; [apply hart_ok_touch, Hk|apply Hk|apply (kmem_list_free Hend s); [apply Hk|done|done]]|]. split; [|split; [done|]].
  - split.
    + intros x r Hx. destruct (Hback x r Hx) as [[-> _]|Hr]; [done|by eapply (ap_page _ _ A)].
    + intros x r r' Hx Hx'. destruct (Hback x r Hx) as [[-> ->]|Hr], (Hback _ r' Hx') as [[E ->]|Hr']; [done|by apply Hid in Hr'| |].
      * subst x. by apply Hid in Hr.
      * by apply (ap_one _ _ A x).
  - split; [intros va; by apply pte_val_ext|]. split; [exists (k_mem s'), (k_freelist s'); by right|].
    intros y r. apply plays_on; [done|done|]. intros _ Hin. by right.
Qed.

(** *** Mapping a page *)
(** The state after pages have gone from the free list to tables of the new page
    table, and possibly [g] to the frame at [va]. *)
Section Step.
Context (s s' : kstate) (l l' : list Z) (g va : Z) (mapped : bool).
Context (Hk : kmem_ready s l) (A : apart (k_mem s) l) (Hg : page_ok g) (Hid : idle (k_mem s) l g).
Context (Hva : 0 <= va < sz) (Hstep : vm_step new s l s' l').
Context (Hval : forall x, 0 <= x < MAXVA -> has (pte_val (k_mem s') new x) PTE_V = true ->
  pte_val (k_mem s') new x = pte_val (k_mem s) new x \/ mapped = true /\ x / PGSIZE = va / PGSIZE /\ frame (k_mem s') new x = g).
Context (Hstay : forall x, 0 <= x < MAXVA -> valid (k_mem s) new x -> pte_val (k_mem s') new x = pte_val (k_mem s) new x).

Lemma step_page x r : plays (k_mem s) l x r -> r <> Free -> (forall p, r <> TabNew p) -> forall b, x <= b < x + PGSIZE -> k_mem s' b = k_mem s b.
Proof.
  intros Hx Hf Hn. apply (vs_mem _ _ _ _ _ Hstep); [by eapply (ap_page _ _ A)| |].
  - intros Hin. apply Hf. eapply (ap_one _ _ A); [exact Hx|by apply pl_free].
  - intros p t Hp Hl Ht ->. apply (Hn p). eapply (ap_one _ _ A); [exact Hx|by apply pl_tnew].
Qed.

Lemma step_off : off_tables (k_mem s) old (k_mem s').
Proof. intros p t b Hp Hl Ht. by apply (step_page t (TabOld p)); [apply pl_told|done|done]. Qed.

Lemma step_old x : pte_val (k_mem s') old x = pte_val (k_mem s) old x.
Proof. apply pte_val_ext, step_off. Qed.

Lemma step_back x r : plays (k_mem s') l' x r ->
  plays (k_mem s) l x r \/ (exists p, r = TabNew p /\ x ∈ l /\ x ∉ l') \/ (mapped = true /\ x = g /\ r = FrNew (va / PGSIZE)).
Proof.
  destruct 1 as [x Hx|p x Hp Hle Ht|p x Hp Hle Ht|y x Hy Hv Hf|y x Hy Hv Hf].
  - left. apply pl_free. destruct (vs_list _ _ _ _ _ Hstep) as [k ->]. apply elem_of_app. by right.
  - left. apply pl_told; [done..|]. by rewrite (tbl_ext (k_mem s)) in Ht by (apply step_off || done || lia).
  - destruct (vs_new _ _ _ _ _ Hstep p x Hp Hle Ht) as [Ht0|[H1 H2]]; [left; by apply pl_tnew|]. right; left. by exists p.
  - left. unfold valid, frame in *. rewrite step_old in Hv, Hf. by apply pl_fold.
  - unfold valid, frame in Hv, Hf. destruct (Hval y ltac:(lia) Hv) as [E|(E & Ep & Eg)].
    + left. rewrite E in Hv, Hf. by apply pl_fnew.
    + right; right. unfold frame in Eg. rewrite Eg in Hf. by rewrite Ep.
Qed.

Lemma step_apart : apart (k_mem s') l'.
Proof.
  split.
  - intros x r Hx. destruct (step_back x r Hx) as [Hr|[(p & _ & Hin & _)|(_ & -> & _)]]; [by eapply (ap_page _ _ A)| |done].
    eapply (ap_page _ _ A). by apply pl_free.
  - assert (Hfresh : forall x r r', plays (k_mem s') l' x r -> plays (k_mem s) l x r -> x ∈ l -> x ∉ l' -> r = r').
    { intros x r r' Hx Hr Hin Hno. pose proof (ap_one _ _ A x r Free Hr ltac:(by apply pl_free)) as ->. by inversion Hx. }
    assert (Hgl : g ∉ l) by (intros Hin; by apply (Hid Free), pl_free).
    intros x r r' Hx Hx'. destruct (step_back x r Hx) as [Hr|[(p & -> & Hin & Hno)|(_ & -> & ->)]],
      (step_back _ r' Hx') as [Hr'|[(q & -> & Hin' & Hno')|(_ & E & ->)]]; subst; try done.
    + by apply (ap_one _ _ A x).
    + by apply (Hfresh x).
    + by apply Hid in Hr.
    + symmetry. by apply (Hfresh x).
    + inversion Hx; inversion Hx'; subst. f_equal. by apply (pt_inj _ _ _ (vs_pt _ _ _ _ _ Hstep) _ _ x).
    + by apply Hid in Hr'.
Qed.

Lemma step_keeps : keeps (k_mem s) l (k_mem s').
Proof. split; [exact step_old|]. intros x r Hx Hr. apply (step_page x r Hx); destruct Hr as [n [-> | ->]]; done. Qed.

(** No page is lost. *)
Lemma step_used x r : plays (k_mem s) l x r -> exists r', plays (k_mem s') l' x r'.
Proof.
  destruct 1 as [x Hx|p x Hp Hle Ht|p x Hp Hle Ht|y x Hy Hv Hf|y x Hy Hv Hf].
  - destruct (decide (x ∈ l')) as [Hin|Hno]; [exists Free; by apply pl_free|].
    destruct (vs_used _ _ _ _ _ Hstep x Hx Hno) as (p & Hp & Hl & Ht). exists (TabNew p). by apply pl_tnew.
  - exists (TabOld p). apply pl_told; [done..|]. by rewrite (tbl_ext (k_mem s)) by (apply step_off || done || lia).
  - exists (TabNew p). apply pl_tnew; [done..|]. by apply (vs_tbl _ _ _ _ _ Hstep).
  - eexists. apply (pl_fold _ _ y); [done|..]; unfold valid, frame in *; by rewrite step_old.
  - eexists. apply (pl_fnew _ _ y); [done|..]; unfold valid, frame in *; by rewrite Hstay by (done || lia).
Qed.

Lemma step_idle : mapped = false -> idle (k_mem s') l' g.
Proof.
  intros Hm r Hr. destruct (step_back g r Hr) as [H0|[(p & _ & Hin & _)|(E & _)]]; [by apply Hid in H0| |congruence].
  by apply (Hid Free), pl_free.
Qed.

Lemma step_g b : g <= b < g + PGSIZE -> k_mem s' b = k_mem s b.
Proof.
  apply (vs_mem _ _ _ _ _ Hstep); [done| |].
  - intros Hin. by apply (Hid Free), pl_free.
  - intros p t Hp Hl Ht ->. by apply (Hid (TabNew p)), pl_tnew.
Qed.
End Step.

Lemma map_page s l g va flags tr : kmem_ready s l -> apart (k_mem s) l -> page_ok g -> idle (k_mem s) l g ->
  0 <= va < sz -> va mod PGSIZE = 0 -> 0 <= flags < 1024 -> ~ valid (k_mem s) new va ->
  exists r s' l', mappages new va PGSIZE g flags s tr = Done r s' tr /\ kmem_ready s' l' /\ apart (k_mem s') l' /\
    keeps (k_mem s) l (k_mem s') /\ vm_frame s s' /\ (forall x r, plays (k_mem s) l x r -> exists r', plays (k_mem s') l' x r') /\
    (forall b, g <= b < g + PGSIZE -> k_mem s' b = k_mem s b) /\
    (r = 0 /\ (forall x, 0 <= x < MAXVA -> pte_val (k_mem s') new x =
       if decide (x / PGSIZE = va / PGSIZE) then leaf_pte g flags else pte_val (k_mem s) new x) \/
     r = -1 /\ idle (k_mem s') l' g /\ forall x, 0 <= x < MAXVA -> pte_val (k_mem s') new x = pte_val (k_mem s) new x).
Proof.
  intros Hk A Hg Hid Hva Hal Hfl Hno. assert (Hmax : va + PGSIZE <= MAXVA).
  { assert (Hm : MAXVA mod PGSIZE = 0) by done. pose proof (Z_div_mod_eq_full va PGSIZE). pose proof (Z_div_mod_eq_full MAXVA PGSIZE). unfold PGSIZE in *. lia. }
  assert (Hpage : forall x, va <= x < va + PGSIZE <-> x / PGSIZE = va / PGSIZE).
  { intros x. pose proof (Z_div_mod_eq_full va PGSIZE). pose proof (Z_div_mod_eq_full x PGSIZE). pose proof (Z.mod_pos_bound x PGSIZE). unfold PGSIZE in *. lia. }
  destruct (mappages_run Hend new va PGSIZE g flags s tr l) as (r & s' & l' & k & Hrun & Hstep & Hr & Hval);
    try done; try lia; [pose proof (page_ok_pos Hend g Hg); lia| | | |].
  { destruct Hg as [_ Hg]. assert (PHYSTOP + PGSIZE <= 2 ^ 56) by done. lia. } { by apply apart_pt_new. }
  { intros x Hx. rewrite (pte_val_page (k_mem s) new x va) by (by apply Hpage). by apply not_true_is_false. }
  destruct (leaf_pte_spec g flags (proj1 Hg) Hfl) as [Hpa Hv].
  assert (Hx : forall x, 0 <= x < MAXVA -> pte_val (k_mem s') new x =
    if decide (r = 0 /\ x / PGSIZE = va / PGSIZE) then leaf_pte g flags else pte_val (k_mem s) new x).
  { intros x Hx. rewrite Hval by done. unfold map_pages. destruct Hr as [[-> Hkk]|(-> & Hkk & _)].
    - destruct (decide (x / PGSIZE = va / PGSIZE)) as [E|E].
      + rewrite (decide_True (P := va <= x < _)), (decide_True (P := 0 = 0 /\ _)) by (rewrite ?Hkk; try split; try done; by apply Hpage).
        apply Hpage in E. rewrite Z.div_small by lia. f_equal. lia.
      + rewrite !decide_False; [done|by intros [_ ?]|rewrite Hkk; intros HF; by apply E, Hpage].
    - assert (k = O) as -> by (unfold PGSIZE in *; lia). rewrite !decide_False; [done|by intros [? _]|cbn; lia]. }
  exists r, s', l'. set (b := bool_decide (r = 0)).
  assert (Hvb : forall x, 0 <= x < MAXVA -> has (pte_val (k_mem s') new x) PTE_V = true ->
    pte_val (k_mem s') new x = pte_val (k_mem s) new x \/ b = true /\ x / PGSIZE = va / PGSIZE /\ frame (k_mem s') new x = g).
  { intros x Hxr _. unfold frame. rewrite (Hx x Hxr). destruct (decide _) as [[-> E]|]; [right|by left]. by split. }
  assert (Hst : forall x, 0 <= x < MAXVA -> valid (k_mem s) new x -> pte_val (k_mem s') new x = pte_val (k_mem s) new x).
  { intros x Hxr Hvx. rewrite Hx by done. rewrite decide_False; [done|]. intros [_ E]. apply Hno. unfold valid in *.
    by rewrite <- (pte_val_page (k_mem s) new x va). }
  split; [done|]. split; [apply Hstep|]. split; [by apply (step_apart s s' l l' g va b)|].
  split; [by apply (step_keeps s s' l l')|]. split; [apply Hstep|]. split; [intros x r'; by apply (step_used s s' l l')|].
  split; [by apply (step_g s s' l l' g)|]. destruct Hr as [[-> _]|(-> & _)]; [left|right]; split; try done.
  - intros x Hxr. rewrite Hx by done. destruct (decide (x / PGSIZE = va / PGSIZE)); [by rewrite decide_True|by rewrite decide_False by (by intros [_ ?])].
  - split; [by apply (step_idle s s' l l' g va b)|]. intros x Hxr. rewrite Hx, decide_False by (done || by intros [? _]). done.
Qed.

(** *** Unmapping a page *)
(** The old address space is as before. *)
Record keeps_old (m m' : Z -> Z) : Prop := {
  ko_pte : forall va, pte_val m' old va = pte_val m old va;
  ko_byte : forall va k, 0 <= va < sz -> valid m old va -> 0 <= k < PGSIZE -> m' (frame m old va + k) = m (frame m old va + k) }.

Lemma keeps_old_refl m : keeps_old m m.
Proof. done. Qed.

Lemma keeps_old_trans m1 m2 m3 : keeps_old m1 m2 -> keeps_old m2 m3 -> keeps_old m1 m3.
Proof.
  intros [A1 A2] [B1 B2]. split; [intros va; by rewrite B1|]. intros va k Hva Hv Hk. rewrite <- A2 by done.
  specialize (B2 va k Hva). unfold valid, frame in *. rewrite A1 in B2. by apply B2.
Qed.

Lemma keeps_keeps_old m l m' : keeps m l m' -> keeps_old m m'.
Proof.
  intros [K1 K2]. split; [done|]. intros va k Hva Hv Hk. eapply (K2 _ (FrOld (va / PGSIZE))); [by apply pl_fold|by eexists; left|lia].
Qed.

Lemma pt_ok_cons m l x : apart m l -> (forall p, ~ plays m l x (TabNew p)) -> pt_ok m new (x :: l).
Proof.
  intros A Hx. destruct (apart_pt_new m l A) as [P1 P2 P3]. split; [done| |done].
  intros p t Hp Hl Ht [->|Hin]%elem_of_cons; [|by eapply P2]. by apply (Hx p), pl_tnew.
Qed.

Section Unmap.
Context (s : kstate) (l : list Z) (va t : Z) (Hk : kmem_ready s l) (A : apart (k_mem s) l) (Hva : 0 <= va < sz) (Hv : valid (k_mem s) new va).
Context (Ht : tbl (k_mem s) new (vpath va) = Some t).
Let x := frame (k_mem s) new va.
Let s1 := touch (free_page x s).
Let s2 := leaf_set va 0 t s1.

Lemma unmap_role r : plays (k_mem s) l x r -> r = FrNew (va / PGSIZE).
Proof. intros Hr. eapply (ap_one _ _ A); [exact Hr|by apply pl_fnew]. Qed.

Lemma unmap_x : page_ok x /\ x ∉ l.
Proof.
  split; [eapply (ap_page _ _ A); by apply (pl_fnew _ _ va)|]. intros Hin. by specialize (unmap_role Free ltac:(by apply pl_free)).
Qed.

Lemma unmap_off : off_tables (k_mem s) old (k_mem s1) /\ off_tables (k_mem s) new (k_mem s1).
Proof.
  destruct unmap_x as [Hx _]. apply (off_page _ _ l x A Hx).
  - intros b Hb. cbn. rewrite store64_other, memset_spec by (unfold PGSIZE in *; lia). by case_match; [lia|].
  - intros p Hp. by apply unmap_role in Hp.
  - intros p Hp. by apply unmap_role in Hp.
Qed.

Lemma unmap_freed : kmem_ready s1 (x :: l) /\ pt_ok (k_mem s1) new (x :: l) /\ tbl (k_mem s1) new (vpath va) = Some t.
Proof.
  destruct unmap_x as [Hx Hxl], unmap_off as [_ Hn]. split; [|split].
  - split; [apply hart_ok_touch, Hk|apply Hk|apply (kmem_list_free Hend s); [apply Hk|done|done]].
  - apply (pt_ok_ext (k_mem s) _ new (x :: l)); [done|done|]. apply pt_ok_cons; [done|]. intros p Hp. by apply unmap_role in Hp.
  - by rewrite (tbl_ext (k_mem s)) by (done || apply vpath_index || (cbn; lia)).
Qed.

Lemma unmap_step : vm_step new s1 (x :: l) s2 (x :: l).
Proof. destruct unmap_freed as (H1 & H2 & H3). by apply leaf_step. Qed.

Lemma unmap_val y : 0 <= y < MAXVA -> pte_val (k_mem s2) new y = if decide (y / PGSIZE = va / PGSIZE) then 0 else pte_val (k_mem s) new y.
Proof.
  intros Hy. destruct unmap_freed as (H1 & H2 & H3). unfold s2. rewrite (leaf_val new va 0 t s1 (x :: l)) by (done || lia).
  destruct (decide _); [done|]. apply pte_val_ext, unmap_off.
Qed.

(** The table that is written is none of the old ones, and no frame. *)
Lemma unmap_page y r : plays (k_mem s) l y r -> r <> Free -> (forall p, r <> TabNew p) -> r <> FrNew (va / PGSIZE) ->
  forall b, y <= b < y + PGSIZE -> k_mem s2 b = k_mem s b.
Proof.
  intros Hy Hf Hn Hne b Hb. pose proof (ap_page _ _ A _ _ Hy) as Hyp. destruct unmap_x as [Hx _].
  assert (Hyx : y <> x) by (intros ->; by apply unmap_role in Hy).
  transitivity (k_mem s1 b).
  - apply (vs_mem _ _ _ _ _ unmap_step y Hyp); [| |done].
    + intros [->|Hin]%elem_of_cons; [done|]. apply Hf. eapply (ap_one _ _ A); [exact Hy|by apply pl_free].
    + intros p u Hp Hl Hu ->. rewrite (tbl_ext (k_mem s)) in Hu by (apply unmap_off || done || lia).
      apply (Hn p). eapply (ap_one _ _ A); [exact Hy|by apply pl_tnew].
  - pose proof (page_distinct y x Hyp Hx Hyx). cbn. rewrite store64_other, memset_spec by (unfold PGSIZE in *; lia). by case_match; [lia|].
Qed.

Lemma unmap_off_old : off_tables (k_mem s) old (k_mem s2).
Proof. intros p u b Hp Hl Hu. by apply (unmap_page u (TabOld p)); [apply pl_told|done..]. Qed.

Lemma unmap_back y r : plays (k_mem s2) (x :: l) y r -> y = x /\ r = Free \/ plays (k_mem s) l y r /\ r <> FrNew (va / PGSIZE).
Proof.
  destruct 1 as [y Hy|p y Hp Hle Hu|p y Hp Hle Hu|z y Hz Hvz Hf|z y Hz Hvz Hf].
  - apply elem_of_cons in Hy as [->|Hy]; [by left|right]. split; [by apply pl_free|done].
  - right. split; [|done]. apply pl_told; [done..|]. by rewrite (tbl_ext (k_mem s)) in Hu by (apply unmap_off_old || done || lia).
  - right. split; [|done]. apply pl_tnew; [done..|]. destruct (vs_new _ _ _ _ _ unmap_step p y Hp Hle Hu) as [Hu1|[H1 H2]]; [|done].
    by rewrite (tbl_ext (k_mem s)) in Hu1 by (apply unmap_off || done || lia).
  - right. split; [|done]. unfold valid, frame in *. rewrite !(pte_val_ext (k_mem s) (k_mem s2)) in Hvz, Hf by apply unmap_off_old. by apply pl_fold.
  - right. unfold valid, frame in *. rewrite unmap_val in Hvz, Hf by lia. destruct (decide (z / PGSIZE = va / PGSIZE)) as [E|E]; [done|].
    split; [by apply pl_fnew|]. by intros [= ?].
Qed.

Lemma unmap_apart : apart (k_mem s2) (x :: l).
Proof.
  destruct unmap_x as [Hx Hxl]. split.
  - intros y r Hy. destruct (unmap_back y r Hy) as [[-> _]|[Hr _]]; [done|by eapply (ap_page _ _ A)].
  - intros y r r' Hy Hy'. destruct (unmap_back y r Hy) as [[-> ->]|[Hr Hne]], (unmap_back _ r' Hy') as [[E ->]|[Hr' Hne']]; try done.
    + by apply unmap_role in Hr'.
    + subst y. by apply unmap_role in Hr.
    + by apply (ap_one _ _ A y).
Qed.

Lemma unmap_keeps : keeps_old (k_mem s) (k_mem s2).
Proof.
  split; [intros y; apply pte_val_ext, unmap_off_old|]. intros y k Hy Hvy Hk'. eapply (unmap_page _ (FrOld (y / PGSIZE))); [by apply pl_fold|done..|lia].
Qed.

Lemma unmap_used y r : plays (k_mem s) l y r -> exists r', plays (k_mem s2) (x :: l) y r'.
Proof.
  destruct (decide (y = x)) as [->|Hyx]; [intros _; exists Free; apply pl_free; by left|].
  intros Hy. exists r. destruct Hy as [y Hy|p y Hp Hle Hu|p y Hp Hle Hu|z y Hz Hvz Hf|z y Hz Hvz Hf].
  - apply pl_free. by right.
  - apply pl_told; [done..|]. by rewrite (tbl_ext (k_mem s)) by (apply unmap_off_old || done || lia).
  - apply pl_tnew; [done..|]. apply (vs_tbl _ _ _ _ _ unmap_step); [done..|]. by rewrite (tbl_ext (k_mem s)) by (apply unmap_off || done || lia).
  - apply pl_fold; [done|..]; unfold valid, frame in *; by rewrite (pte_val_ext (k_mem s)) by apply unmap_off_old.
  - assert (E : z / PGSIZE <> va / PGSIZE).
    { intros E. apply Hyx. rewrite <- Hf. unfold x, frame. by rewrite (pte_val_page _ _ z va). }
    apply pl_fnew; [done|..]; unfold valid, frame in *; rewrite unmap_val by lia; by rewrite decide_False.
Qed.
End Unmap.

(** ** The loops *)
(** What every step of [uvmcopy] does: roles stay apart, the old address space is
    kept, and no page that had a role is without one. *)
Record sound (s : kstate) (l : list Z) (s' : kstate) (l' : list Z) : Prop := {
  so_kmem : kmem_ready s' l';
  so_apart : apart (k_mem s') l';
  so_old : keeps_old (k_mem s) (k_mem s');
  so_frame : vm_frame s s';
  so_used : forall y r, plays (k_mem s) l y r -> exists r', plays (k_mem s') l' y r' }.

Lemma sound_refl s l : kmem_ready s l -> apart (k_mem s) l -> sound s l s l.
Proof. intros Hk A. split; try done; [apply vm_frame_refl|by eexists]. Qed.

Lemma sound_trans s1 l1 s2 l2 s3 l3 : sound s1 l1 s2 l2 -> sound s2 l2 s3 l3 -> sound s1 l1 s3 l3.
Proof.
  intros [A1 A2 A3 A4 A5] [B1 B2 B3 B4 B5]. split; try done.
  - by eapply keeps_old_trans.
  - by eapply vm_frame_trans.
  - intros y r Hy. destruct (A5 y r Hy) as [r' Hr']. by apply (B5 y r').
Qed.

(** A page of the new address space is mapped, or has no entry. *)
Lemma walk_new s l va tr : apart (k_mem s) l -> va < MAXVA ->
  walk new va false s tr = Done (pte_addr (k_mem s) new va) s tr /\
  (pte_addr (k_mem s) new va = 0 -> ~ valid (k_mem s) new va) /\
  (pte_addr (k_mem s) new va <> 0 -> load64 (k_mem s) (pte_addr (k_mem s) new va) = pte_val (k_mem s) new va).
Proof.
  intros A Hva. split; [by apply walk_lookup|]. pose proof (pte_addr_load Hend new va s l (apart_pt_new _ _ A)) as Hl.
  split; intros E; [rewrite E in Hl; unfold valid; cbn [Z.eqb] in Hl; by rewrite Hl|by rewrite (proj2 (Z.eqb_neq _ _) E) in Hl].
Qed.

Lemma uvmunmap_loop_run n tr : forall a s l, kmem_ready s l -> apart (k_mem s) l -> 0 <= a -> a mod PGSIZE = 0 ->
  a + Z.of_nat n * PGSIZE <= sz ->
  runs (uvmunmap_loop n new a (a + Z.of_nat n * PGSIZE) true) s tr (fun _ s' => exists l', sound s l s' l' /\
    (forall y, a <= y < a + Z.of_nat n * PGSIZE -> ~ valid (k_mem s') new y) /\
    (forall y, 0 <= y < MAXVA -> ~ (a <= y < a + Z.of_nat n * PGSIZE) -> pte_val (k_mem s') new y = pte_val (k_mem s) new y)).
Proof.
  assert (Hm : MAXVA + PGSIZE < 2 ^ 64) by done. assert (Hpg : PGSIZE = 4096) by done.
  induction n as [|n IH]; intros a s l Hk A Ha Hal Hle; cbn [uvmunmap_loop].
  { apply runs_ret. exists l. split; [by apply sound_refl|]. split; [intros y Hy; lia|done]. }
  rewrite (proj2 (Z.leb_gt _ _)) by lia. destruct (walk_new s l a tr A ltac:(lia)) as (Hw & Hw0 & Hwl).
  assert (Hpage : forall y, a <= y < a + PGSIZE <-> y / PGSIZE = a / PGSIZE).
  { intros y. pose proof (Z_div_mod_eq_full a PGSIZE). pose proof (Z_div_mod_eq_full y PGSIZE). pose proof (Z.mod_pos_bound y PGSIZE). unfold PGSIZE in *. lia. }
  rstep (runs_det _ _ _ _ _ Hw) as [-> ->].
  assert (Hone : runs (if pte_addr (k_mem s) new a =? 0 then kret tt
       else let! e := load_pte (pte_addr (k_mem s) new a) in
            if negb (has e PTE_V) then kret tt else when true (kfree (PTE2PA e)) ;; store_pte (pte_addr (k_mem s) new a) 0) s tr
    (fun _ s' => exists l', sound s l s' l' /\ ~ valid (k_mem s') new a /\
      forall y, 0 <= y < MAXVA -> y / PGSIZE <> a / PGSIZE -> pte_val (k_mem s') new y = pte_val (k_mem s) new y)).
  { destruct (Z.eqb_spec (pte_addr (k_mem s) new a) 0) as [E|E].
    { apply runs_ret. exists l. split; [by apply sound_refl|]. split; [by apply Hw0|done]. }
    unfold load_pte. rstep (runs_gets _ s tr) as [-> ->]. rewrite (Hwl E). destruct (has (pte_val (k_mem s) new a) PTE_V) eqn:Ev; cbn [negb].
    2: { apply runs_ret. exists l. split; [by apply sound_refl|]. split; [unfold valid; by rewrite Ev|done]. }
    assert (Ht : exists t, tbl (k_mem s) new (vpath a) = Some t /\ pte_addr (k_mem s) new a = t + 8 * PX 0 a).
    { unfold pte_addr in *. destruct (tbl _ _ _) as [t|]; [by exists t|done]. } destruct Ht as (t & Ht & Et).
    assert (Hva : 0 <= a < sz) by lia. destruct (unmap_x s l a A Hva Ev) as [Hx Hxl]. cbn [when].
    rstep (runs_det _ _ _ _ _ (kfree_run s tr (frame (k_mem s) new a) (kr_hart _ _ Hk) (kr_lock _ _ Hk) Hx)) as [-> ->].
    unfold store_pte. rlast (runs_modify _ _ tr) as ->. rewrite Et. fold (leaf_set a 0 t (touch (free_page (frame (k_mem s) new a) s))).
    exists (frame (k_mem s) new a :: l). split; [split|split].
    - apply (unmap_step s l a t Hk A Hva Ev Ht).
    - by apply unmap_apart.
    - by apply (unmap_keeps s l a t).
    - eapply vm_frame_trans; [|apply (unmap_step s l a t Hk A Hva Ev Ht)]. eexists _, _. right. reflexivity.
    - intros y r. by apply unmap_used.
    - unfold valid. rewrite (unmap_val s l a t) by (done || lia). rewrite decide_True by done. done.
    - intros y Hy Hne. rewrite (unmap_val s l a t) by (done || lia). by rewrite decide_False. }
  rstep Hone as (l1 & S1 & Hno & Hsame). rename s' into s1.
  replace (u64 (a + PGSIZE)) with (a + PGSIZE) by (unfold u64; rewrite Z.mod_small; lia).
  replace (a + Z.of_nat (S n) * PGSIZE) with (a + PGSIZE + Z.of_nat n * PGSIZE) by lia.
  rlast (IH (a + PGSIZE) s1 l1 (so_kmem _ _ _ _ S1) (so_apart _ _ _ _ S1)) as (l2 & S2 & Hno2 & Hsame2);
    [lia|by rewrite <- Zplus_mod_idemp_r, Z_mod_same_full, Z.add_0_r|lia|].
  exists l2. split; [by eapply sound_trans|]. split.
  - intros y Hy. destruct (decide (y < a + PGSIZE)) as [Hlt|]; [|apply Hno2; lia].
    unfold valid in *. rewrite (Hsame2 y) by lia. by rewrite (pte_val_page _ _ y a) by (apply Hpage; lia).
  - intros y Hy Hout. rewrite Hsame2 by lia. apply Hsame; [done|]. intros E. apply Hpage in E. lia.
Qed.

(** *** [uvmcopy] *)
(** Address [va] of the new space in [m] is a copy of that of the old one in [m0]. *)
Definition copy_at (m0 m : Z -> Z) (va : Z) : Prop :=
  (valid m new va <-> valid m0 old va) /\
  (valid m0 old va -> PTE_FLAGS (pte_val m new va) = PTE_FLAGS (pte_val m0 old va) /\
    m (frame m new va + va mod PGSIZE) = u8 (m0 (frame m0 old va + va mod PGSIZE))).

Lemma copy_keep m0 m l m' va : 0 <= va < sz -> copy_at m0 m va -> keeps m l m' -> pte_val m' new va = pte_val m new va -> copy_at m0 m' va.
Proof.
  intros Hva [C1 C2] K E. unfold copy_at, valid, frame in *. rewrite E. split; [done|]. intros Hv. destruct (C2 Hv) as [F1 F2]. split; [done|].
  rewrite <- F2. apply C1 in Hv. pose proof (Z.mod_pos_bound va PGSIZE).
  eapply (ke_page _ _ _ K (PTE2PA (pte_val m new va)) (FrNew (va / PGSIZE))); [by apply pl_fnew|eexists; by right|unfold PGSIZE in *; lia].
Qed.

(** A step in which the page [g] leaves the list for the new address space. *)
Lemma sound_page s g l s1 l1 s2 : kmem_ready s2 l1 -> apart (k_mem s2) l1 -> keeps (k_mem s) (g :: l) (k_mem s1) -> keeps (k_mem s1) l (k_mem s2) ->
  vm_frame s s2 -> (forall y r, plays (k_mem s) (g :: l) y r -> exists r', plays (k_mem s2) l1 y r') -> sound s (g :: l) s2 l1.
Proof.
  intros Hk A K1 K2 Hf Hu. split; try done. eapply keeps_old_trans; by eapply keeps_keeps_old.
Qed.

(** The old page is copied to a fresh one. *)
Lemma fresh_copy s g l va tr : kmem_ready s (g :: l) -> apart (k_mem s) (g :: l) -> 0 <= va < sz -> valid (k_mem s) old va ->
  let pa := frame (k_mem s) old va in let s1 := touch (alloc_page g s) in let m2 := memmove (k_mem s1) g pa PGSIZE in
  let s2 := s1 <| k_mem := m2 |> in
  kalloc s tr = Done g s1 tr /\ g <> 0 /\ page_ok g /\ kmem_ready s2 l /\ apart m2 l /\ idle m2 l g /\
  keeps (k_mem s) (g :: l) m2 /\ (forall y, pte_val m2 new y = pte_val (k_mem s) new y) /\ vm_frame s s2 /\
  (forall y r, y <> g -> plays (k_mem s) (g :: l) y r -> plays m2 l y r) /\
  (forall k, 0 <= k < PGSIZE -> m2 (g + k) = u8 (k_mem s (pa + k))).
Proof.
  intros Hk A Hva Hv pa s1 m2 s2. destruct (take_page s g l tr Hk A) as (T1 & T2 & T3 & T4 & T5 & T6 & T7 & T8 & T9 & T10). fold s1 in T1, T4, T5, T6, T7, T8, T9, T10.
  assert (Hpa : plays (k_mem s) (g :: l) pa (FrOld (va / PGSIZE))) by (by apply pl_fold).
  assert (Hne : pa <> g). { intros E. rewrite E in Hpa. by specialize (ap_one _ _ A g _ Free Hpa ltac:(apply pl_free; by left)). }
  pose proof (page_distinct pa g (ap_page _ _ A _ _ Hpa) T3 Hne) as Hd.
  assert (Hm2 : forall b, m2 b = if decide (g <= b < g + PGSIZE) then u8 (k_mem s1 (pa + (b - g))) else k_mem s1 b).
  { intros b. apply memmove_apart; [done|lia]. }
  destruct (fill_page s1 g l m2 T4 T5 T3 T6) as (F1 & F2 & F3 & F4 & F5 & F6); [intros b Hb; by rewrite Hm2, decide_False|].
  split; [done|]. split; [done|]. split; [done|]. split; [done|]. split; [done|]. split; [done|]. split; [|split; [|split; [|split]]].
  - split; [intros y; by rewrite (ke_old _ _ _ F4), (ke_old _ _ _ T7)|]. intros y r Hy Hr b Hb.
    assert (y <> g). { intros ->. pose proof (ap_one _ _ A g _ Free Hy ltac:(apply pl_free; by left)) as ->. by destruct Hr as [n [|]]. }
    rewrite (ke_page _ _ _ F4 y r) by (done || by apply T10). by apply (ke_page _ _ _ T7 y r).
  - intros y. by rewrite F5, T8.
  - eapply vm_frame_trans; [exact T9|apply vm_frame_mem].
  - intros y r Hy Hr. by apply F6, T10.
  - intros k Hk'. rewrite Hm2, decide_True by lia. f_equal. replace (pa + (g + k - g)) with (pa + k) by lia.
    apply (ke_page _ _ _ T7 pa _ Hpa); [eexists; by left|lia].
Qed.

(** *** Out of memory *)
Lemma undo_run s0 l0 s l i tr : sound s0 l0 s l -> 0 <= i < sz -> i mod PGSIZE = 0 ->
  (forall va, i <= va < sz -> ~ valid (k_mem s) new va) ->
  runs (uvmunmap new 0 (i / PGSIZE) true ;; kret (-1)) s tr (fun r s' => r = -1 /\ exists l', sound s0 l0 s' l' /\
    forall va, 0 <= va < sz -> ~ valid (k_mem s') new va).
Proof.
  intros S Hi Hal Hno. unfold uvmunmap. change (negb (0 mod PGSIZE =? 0)) with false. cbv iota.
  assert (Hp : 0 <= i / PGSIZE) by (apply Z.div_pos; [lia|done]). pose proof (Z_div_mod_eq_full i PGSIZE) as Hd.
  assert (Hm : MAXVA < 2 ^ 64) by done.
  assert (Ei : Z.of_nat (Z.to_nat (i / PGSIZE)) * PGSIZE = i) by (rewrite Z2Nat.id by done; lia).
  replace (u64 (0 + i / PGSIZE * PGSIZE)) with (0 + Z.of_nat (Z.to_nat (i / PGSIZE)) * PGSIZE) by (rewrite Z2Nat.id in * by done; unfold u64; rewrite Z.mod_small; lia).
  rstep (uvmunmap_loop_run (Z.to_nat (i / PGSIZE)) tr 0 s l (so_kmem _ _ _ _ S) (so_apart _ _ _ _ S)) as (l' & S' & Hun & Hsame); [lia|done|lia|].
  apply runs_ret. split; [done|]. exists l'. split; [by eapply sound_trans|]. intros va Hva.
  destruct (decide (va < i)) as [Hlt|Hge]; [apply Hun; lia|]. unfold valid in *. rewrite Hsame by lia. apply Hno. lia.
Qed.

(** *** The loop *)
(** The pages before [i] are copied, the others are not mapped yet. *)
Record copying (s0 : kstate) (l0 : list Z) (i : Z) (s : kstate) (l : list Z) : Prop := {
  cp_sound : sound s0 l0 s l;
  cp_done : forall va, 0 <= va < sz -> va < i -> copy_at (k_mem s0) (k_mem s) va;
  cp_todo : forall va, i <= va < sz -> ~ valid (k_mem s) new va }.

Definition copy_result (s0 : kstate) (l0 : list Z) (r : Z) (s' : kstate) : Prop :=
  exists l', sound s0 l0 s' l' /\
    (r = 0 /\ (forall va, 0 <= va < sz -> copy_at (k_mem s0) (k_mem s') va) \/
     r = -1 /\ (forall va, 0 <= va < sz -> ~ valid (k_mem s') new va)).

Section Loop.
Context (s0 : kstate) (l0 : list Z) (tr : list (kstate -> kstate)).

Lemma copying_old i s l va : copying s0 l0 i s l -> pte_val (k_mem s) old va = pte_val (k_mem s0) old va.
Proof. intros C. apply (ko_pte _ _ (so_old _ _ _ _ (cp_sound _ _ _ _ _ C))). Qed.

(** A page that the old address space does not have. *)
Lemma copying_skip i s l : copying s0 l0 i s l -> 0 <= i < sz -> i mod PGSIZE = 0 -> ~ valid (k_mem s) old i -> copying s0 l0 (i + PGSIZE) s l.
Proof.
  intros C Hi Hal Hno. destruct C as [C1 C2 C3] eqn:EC. split; [done| |intros va Hva; apply C3; unfold PGSIZE in *; lia].
  intros va Hva Hlt. destruct (decide (va < i)) as [|Hge]; [by apply C2|].
  assert (Hp : va / PGSIZE = i / PGSIZE) by (pose proof (Z_div_mod_eq_full i PGSIZE); unfold PGSIZE in *; Z.to_euclidean_division_equations; lia).
  assert (Ho : ~ valid (k_mem s0) old va).
  { unfold valid in *. rewrite <- (copying_old i s l va C). by rewrite (pte_val_page _ _ va i). }
  split; [|done]. split; [intros HF; exfalso; by apply (C3 va ltac:(lia))|done].
Qed.

(** The copied and mapped page. *)
Lemma copying_page i s g l s3 l3 flags : copying s0 l0 i s (g :: l) -> 0 <= i < sz -> i mod PGSIZE = 0 -> valid (k_mem s) old i ->
  flags = PTE_FLAGS (pte_val (k_mem s) old i) -> page_ok g -> sound s (g :: l) s3 l3 -> keeps (k_mem s) (g :: l) (k_mem s3) ->
  (forall k, 0 <= k < PGSIZE -> k_mem s3 (g + k) = u8 (k_mem s (frame (k_mem s) old i + k))) ->
  (forall x, 0 <= x < MAXVA -> pte_val (k_mem s3) new x = if decide (x / PGSIZE = i / PGSIZE) then leaf_pte g flags else pte_val (k_mem s) new x) ->
  copying s0 l0 (i + PGSIZE) s3 l3.
Proof.
  intros C Hi Hal Hv -> Hg S K Hb Hval. pose proof C as [C1 C2 C3]. split; [by eapply sound_trans| |].
  - intros va Hva Hlt. destruct (decide (va < i)) as [Hbef|Hge].
    + eapply copy_keep; [done|by apply C2|exact K|]. rewrite Hval by lia. rewrite decide_False; [done|].
      intros E. pose proof (Z_div_mod_eq_full i PGSIZE). pose proof (Z_div_mod_eq_full va PGSIZE). pose proof (Z.mod_pos_bound va PGSIZE). unfold PGSIZE in *. lia.
    + assert (Hp : va / PGSIZE = i / PGSIZE) by (unfold PGSIZE in *; Z.to_euclidean_division_equations; lia).
      assert (Eo : pte_val (k_mem s0) old va = pte_val (k_mem s) old i) by (rewrite <- (copying_old i s _ va C); by apply pte_val_page).
      destruct (leaf_pte_spec g _ (proj1 Hg) (flags_range (pte_val (k_mem s) old i))) as [Hpa Hlv].
      assert (Hv0 : valid (k_mem s0) old va) by (unfold valid in *; by rewrite Eo).
      unfold copy_at, valid, frame in *. rewrite (Hval va) by lia. rewrite decide_True, Eo, Hpa, Hlv by done.
      split; [by rewrite Hv|]. intros _. split; [by apply flags_leaf|]. pose proof (Z.mod_pos_bound va PGSIZE). rewrite Hb by (unfold PGSIZE in *; lia). f_equal.
      rewrite <- Eo. apply (ko_byte _ _ (so_old _ _ _ _ C1)); [done| |unfold PGSIZE in *; lia]. unfold valid. by rewrite Eo.
  - intros va Hva. unfold valid. rewrite Hval by (unfold PGSIZE in *; lia). rewrite decide_False; [apply C3; unfold PGSIZE in *; lia|].
    unfold PGSIZE in *. Z.to_euclidean_division_equations. lia.
Qed.

(** One page: copied and mapped, or memory has run out and all is undone. *)
Definition copy_page (i : Z) (e : Z) (k : Kern Z) : Kern Z :=
  let pa := PTE2PA e in
  let flags := PTE_FLAGS e in
  let! mem := kalloc in
  if mem =? 0 then
    uvmunmap new 0 (i / PGSIZE) true ;;
    kret (-1)
  else
  modify (fun s => s <| k_mem := memmove (k_mem s) mem pa PGSIZE |>) ;;
  let! r := mappages new i PGSIZE mem flags in
  if negb (r =? 0) then
    kfree mem ;;
    uvmunmap new 0 (i / PGSIZE) true ;;
    kret (-1)
  else k.

Lemma copy_page_run i s l k : copying s0 l0 i s l -> 0 <= i < sz -> i mod PGSIZE = 0 -> valid (k_mem s) old i ->
  (forall s' l', copying s0 l0 (i + PGSIZE) s' l' -> runs k s' tr (copy_result s0 l0)) ->
  runs (copy_page i (pte_val (k_mem s) old i) k) s tr (copy_result s0 l0).
Proof.
  intros C Hi Hal Hv Hk. pose proof C as [S _ Hno]. pose proof (so_kmem _ _ _ _ S) as Hr. pose proof (so_apart _ _ _ _ S) as A.
  assert (Hfail : forall s1 l1, sound s l s1 l1 -> (forall va, i <= va < sz -> ~ valid (k_mem s1) new va) ->
    runs (uvmunmap new 0 (i / PGSIZE) true ;; kret (-1)) s1 tr (copy_result s0 l0)).
  { intros s1 l1 S1 Hn. rlast (undo_run s0 l0 s1 l1 i tr) as (-> & l' & S' & Hun); [by eapply sound_trans|done|done|done|].
    exists l'. split; [done|]. by right. }
  unfold copy_page. destruct l as [|g l].
  - rstep (runs_det _ _ _ _ _ (kalloc_run_empty s tr (kr_hart _ _ Hr) (kr_lock _ _ Hr) (proj1 (kr_list _ _ Hr)))) as [-> ->].
    change (0 =? 0) with true. cbv iota. apply (Hfail (touch s) []); [|done].
    split; try done; [split; [apply hart_ok_touch, Hr|apply Hr..]|exists (k_mem s), (k_freelist s); by right|by eexists].
  - destruct (fresh_copy s g l i tr Hr A Hi Hv) as (E1 & Hg0 & Hg & Hr2 & A2 & Hid & K2 & V2 & F2 & P2 & B2).
    set (s1 := touch (alloc_page g s)) in *. set (m2 := memmove _ _ _ _) in *. set (s2 := s1 <| k_mem := m2 |>) in *.
    rstep (runs_det _ _ _ _ _ E1) as [-> ->]. rewrite (proj2 (Z.eqb_neq _ _) Hg0). rstep (runs_modify _ s1 tr) as ->. 
    change (runs (let! r := mappages new i PGSIZE g (PTE_FLAGS (pte_val (k_mem s) old i)) in
      if negb (r =? 0) then kfree g ;; uvmunmap new 0 (i / PGSIZE) true ;; kret (-1) else k) s2 tr (copy_result s0 l0)).
    destruct (map_page s2 l g i (PTE_FLAGS (pte_val (k_mem s) old i)) tr Hr2 A2 Hg Hid Hi Hal (flags_range _)) as
      (r & s3 & l3 & E3 & Hr3 & A3 & K3 & F3 & U3 & B3 & Hcase).
    { unfold valid. change (k_mem s2) with m2. rewrite V2. apply Hno. lia. }
    assert (Hold : keeps_old (k_mem s) (k_mem s3)).
    { eapply keeps_old_trans; [exact (keeps_keeps_old _ _ _ K2)|exact (keeps_keeps_old _ _ _ K3)]. }
    assert (Hused : forall y r', y <> g -> plays (k_mem s) (g :: l) y r' -> exists r'', plays (k_mem s3) l3 y r'').
    { intros y r' Hy Hp. by apply (U3 y r'), P2. }
    rstep (runs_det _ _ _ _ _ E3) as [-> ->]. destruct Hcase as [[-> Hval]|(-> & Hid3 & Hval)].
    + change (negb (0 =? 0)) with false. cbv iota. apply (Hk s3 l3).
      assert (Hgf : plays (k_mem s3) l3 g (FrNew (i / PGSIZE))).
      { destruct (leaf_pte_spec g _ (proj1 Hg) (flags_range (pte_val (k_mem s) old i))) as [Hpa Hlv].
        apply pl_fnew; [done|..]; unfold valid, frame; rewrite Hval by lia; by rewrite decide_True. }
      eapply (copying_page i s g l s3 l3 _ C Hi Hal Hv eq_refl Hg).
      * split; try done; [by eapply vm_frame_trans|]. intros y r' Hp. destruct (decide (y = g)) as [->|Hy]; [by eexists|by eapply Hused].
      * split; [intros y; by rewrite (ke_old _ _ _ K3), (ke_old _ _ _ K2)|]. intros y r' Hp Hn b Hb.
        assert (Hy : y <> g). { intros ->. pose proof (ap_one _ _ A g _ Free Hp ltac:(apply pl_free; by left)) as ->. by destruct Hn as [n [|]]. }
        rewrite (ke_page _ _ _ K3 y r') by (done || by apply P2). by apply (ke_page _ _ _ K2 y r').
      * intros k' Hk'. rewrite B3 by lia. by apply B2.
      * intros x Hx. rewrite Hval by done. destruct (decide _); [done|]. apply V2.
    + change (negb (-1 =? 0)) with true. cbv iota.
      destruct (give_page s3 g l3 tr Hr3 A3 Hg Hid3) as (E4 & Hr4 & A4 & K4 & V4 & F4 & P4).
      rstep (runs_det _ _ _ _ _ E4) as [-> ->]. apply (Hfail _ (g :: l3)).
      * split; try done; [eapply keeps_old_trans; [exact Hold|exact (keeps_keeps_old _ _ _ K4)]| |].
        { eapply vm_frame_trans; [exact F2|]. by eapply vm_frame_trans. }
        intros y r' Hp. destruct (decide (y = g)) as [->|Hy]; [exists Free; apply pl_free; by left|].
        destruct (Hused y r' Hy Hp) as [r'' Hr'']. exists r''. by apply P4.
      * intros va Hva. unfold valid. rewrite V4, Hval by lia. change (k_mem s2) with m2. rewrite V2. apply Hno. lia.
Qed.

Lemma uvmcopy_loop_run fuel : forall i s l, copying s0 l0 i s l -> 0 <= i < sz + PGSIZE -> i mod PGSIZE = 0 ->
  (sz - i + PGSIZE - 1) / PGSIZE < Z.of_nat fuel ->
  runs (uvmcopy_loop fuel old new i sz) s tr (copy_result s0 l0).
Proof.
  assert (Hm : MAXVA + PGSIZE < 2 ^ 64) by done.
  induction fuel as [|fuel IH]; intros i s l C Hi Hal Hf; cbn [uvmcopy_loop].
  { assert (0 <= (sz - i + PGSIZE - 1) / PGSIZE) by (apply Z.div_pos; [lia|done]). lia. }
  destruct (Z.leb_spec sz i) as [Hd|Hd].
  { apply runs_ret. exists l. split; [apply C|]. left. split; [done|]. intros va Hva. apply C; lia. }
  assert (Hnext : forall s' l', copying s0 l0 (i + PGSIZE) s' l' -> runs (uvmcopy_loop fuel old new (u64 (i + PGSIZE)) sz) s' tr (copy_result s0 l0)).
  { intros s' l' C'. replace (u64 (i + PGSIZE)) with (i + PGSIZE) by (unfold u64; rewrite Z.mod_small; unfold PGSIZE in *; lia).
    eapply IH; [exact C'|unfold PGSIZE in *; lia|by rewrite <- Zplus_mod_idemp_r, Z_mod_same_full, Z.add_0_r|].
    replace (sz - (i + PGSIZE) + PGSIZE - 1) with (sz - i + PGSIZE - 1 + (-1) * PGSIZE) by lia. rewrite Z_div_plus_full by done. lia. }
  rstep (runs_det _ _ _ _ _ (walk_lookup old i s tr ltac:(lia))) as [-> ->].
  pose proof (pte_addr_load Hend old i s l (apart_pt_old _ _ (so_apart _ _ _ _ (cp_sound _ _ _ _ _ C)))) as Hld.
  destruct (Z.eqb_spec (pte_addr (k_mem s) old i) 0) as [E|E].
  { apply (Hnext s l). apply (copying_skip i s l C ltac:(lia) Hal). unfold valid. by rewrite Hld. }
  unfold load_pte. rstep (runs_gets _ s tr) as [-> ->]. rewrite Hld. destruct (has (pte_val (k_mem s) old i) PTE_V) eqn:Ev; cbn [negb].
  - by apply (copy_page_run i s l _ C ltac:(lia) Hal Ev).
  - apply (Hnext s l). apply (copying_skip i s l C ltac:(lia) Hal). unfold valid. by rewrite Ev.
Qed.
End Loop.

End Copy.

(** ** A process of one page and an empty page table *)
#[local] Existing Instance demo_layout.
Definition demo_new : Z := 0x80400000.
#[local] Opaque demo_user.

Section Demo.
Context (l : list Z) (Hstep : vm_step demo_root demo_kmem demo_free demo_user l).

Lemma demo_new_zero b : demo_new <= b < demo_new + PGSIZE -> k_mem demo_user b = 0.
Proof.
  intros Hb. rewrite (vs_mem _ _ _ _ _ Hstep demo_new); [|done| | |done].
  - unfold demo_new, PGSIZE, demo_kmem, demo_mem in *. cbn. rewrite !store64_other by lia. done.
  - apply (bool_decide_unpack _). by vm_compute.
  - intros p t Hp Hl Ht. rewrite tbl_zero in Ht by (done || exact demo_root_zero). destruct p; [|done]. by injection Ht as <-.
Qed.

Lemma demo_tail x : x ∈ l -> x ∈ demo_free.
Proof. destruct (vs_list _ _ _ _ _ Hstep) as [k ->]. intros Hx. apply elem_of_app. by right. Qed.

Lemma demo_free_range x : x ∈ demo_free -> 0x80100000 <= x <= 0x80103000.
Proof. unfold demo_free. rewrite !elem_of_cons. intros [->|[->|[->|[->|Hx]]]]; [lia..|]. by apply elem_of_nil in Hx. Qed.

(** What plays a role, and which. *)
Lemma demo_plays x r : plays demo_root demo_new PGSIZE (k_mem demo_user) l x r ->
  match r with
  | Free => x ∈ l
  | TabOld p => x = demo_root \/ x ∈ demo_free /\ x ∉ l
  | TabNew p => p = [] /\ x = demo_new
  | FrOld n => n = 0 /\ x = 0x80300000
  | FrNew _ => False
  end.
Proof.
  destruct 1 as [x Hx|p x Hp Hle Ht|p x Hp Hle Ht|va x Hva Hv Hf|va x Hva Hv Hf].
  - done.
  - destruct (vs_new _ _ _ _ _ Hstep p x Hp Hle Ht) as [Ht0|Hin]; [left|by right].
    rewrite tbl_zero in Ht0 by (done || exact demo_root_zero). destruct p; [|done]. by injection Ht0 as <-.
  - rewrite tbl_zero in Ht by (exact demo_new_zero || done). destruct p; [|done]. by injection Ht as <-.
  - unfold frame in Hf. destruct demo_user_ok as (? & _ & Hval).
    assert (Hm : 0 <= va < MAXVA) by (unfold PGSIZE in *; change MAXVA with (2 ^ 38); lia). rewrite (Hval va Hm) in Hf.
    destruct (decide (0 <= va < PGSIZE)) as [_|Hn]; [|exact (False_ind _ (Hn Hva))]. rewrite Z.div_small by exact Hva. split; [reflexivity|]. rewrite <- Hf. by vm_compute.
  - unfold valid in Hv. rewrite pte_val_zero in Hv by exact demo_new_zero. discriminate Hv.
Qed.

Lemma demo_apart : apart demo_root demo_new PGSIZE (k_mem demo_user) l.
Proof.
  pose proof (kr_list _ _ demo_ready) as (_ & _ & Hpg). rewrite Forall_forall in Hpg. split.
  - intros x r Hx. destruct r; pose proof (demo_plays _ _ Hx) as Hr; cbn in Hr.
    + by apply Hpg, demo_tail.
    + destruct Hr as [->|[Hin _]]; [done|]. by apply Hpg.
    + by destruct Hr as [_ ->].
    + by destruct Hr as [_ ->].
    + done.
  - intros x r r' Hx Hx'. pose proof (demo_plays _ _ Hx) as Hr. pose proof (demo_plays _ _ Hx') as Hr'.
    pose proof demo_tail as Ht. pose proof demo_free_range as Hf. unfold demo_root, demo_new in *.
    destruct r, r'; cbn in Hr, Hr'; try done;
      try (exfalso; destruct_or?; destruct_and?; subst;
        repeat match goal with H : _ ∈ l |- _ => pose proof (Hf _ (Ht _ H)); clear H
                             | H : _ ∈ demo_free |- _ => pose proof (Hf _ H); clear H end; lia || done).
    + exfalso. destruct Hr' as [->|[_ Hn]]; [apply Ht, Hf in Hr; lia|by apply Hn].
    + exfalso. destruct Hr as [->|[_ Hn]]; [apply Ht, Hf in Hr'; lia|by apply Hn].
    + inversion Hx; inversion Hx'; subst. f_equal. by eapply (pt_inj _ _ _ (vs_pt _ _ _ _ _ Hstep)).
    + destruct Hr as [-> _], Hr' as [-> _]. done.
    + destruct Hr as [-> _], Hr' as [-> _]. done.
Qed.
End Demo.

