(* ===== verification/Uaccess.v ===== *)
(** * Between the kernel and user memory

    The copies of proc.c that take a user or a kernel address
    ([either_copyout], [either_copyin]) and the access of system calls to their
    arguments in the trapframe (syscall.c).  A trapframe is the page at
    [p_trapframe]; a register is the 64-bit word at its offset.  The destination
    of a copy is user memory, a physical page, or a variable of the kernel; what
    goes to a variable is the value the caller continues with. *)

From stdpp Require Import prelude list strings gmap.
From Stdlib Require Import ZArith Lia ZifyBool.
From S2P Require Import Prelude State Spinlock CString Kalloc Proc Vm.
Local Open Scope Z_scope.

(** ** Ends of a copy *)
Inductive dest := D_user (va : Z) | D_kern (pa : Z) | D_var.
Inductive source := S_user (va : Z) | S_var (bytes : list Z).
Definition dst_add (dst : dest) (m : Z) : dest :=
  match dst with D_user va => D_user (u64 (va + m)) | D_kern pa => D_kern (pa + m) | D_var => D_var end.
Definition src_add (src : source) (m : Z) : source :=
  match src with S_user va => S_user (u64 (va + m)) | S_var l => S_var (drop (Z.to_nat m) l) end.


(** ** The trapframe (proc.h, [struct trapframe]) *)
Definition TF_kernel_satp : Z := 0.
Definition TF_kernel_sp : Z := 8.
Definition TF_kernel_trap : Z := 16.
Definition TF_epc : Z := 24.
Definition TF_kernel_hartid : Z := 32.
Definition TF_sp : Z := 48.
Definition TF_a0 : Z := 112.
Definition TF_a1 : Z := 120.
Definition TF_a7 : Z := 168.
Definition TF_size : Z := 288.

Definition tf_load (p : nat) (reg : Z) : Kern Z :=
  let! pp := get_proc p in
  gets (fun s => load64 (k_mem s) (p_trapframe pp + reg)).
Definition tf_store (p : nat) (reg v : Z) : Kern unit :=
  let! pp := get_proc p in
  modify (fun s => s <| k_mem := store64 (k_mem s) (p_trapframe pp + reg) v |>).

(** The bytes of a string before its terminator. *)
Fixpoint cstr (l : list Z) : list Z :=
  match l with
  | [] => []
  | c :: l' => if c =? 0 then [] else c :: cstr l'
  end.

Section Uaccess.
Context `{KernelLayout}.

(** ** Copies *)
Definition either_copyout (dst : dest) (src : list Z) : Kern Z :=
  let! p := myproc in
  match dst with
  | D_user va =>
      let! p := deref p in
      let! pp := get_proc p in
      copyout (p_pagetable pp) (p_sz pp) va src
  | D_kern pa =>
      modify (fun s => s <| k_mem := write_bytes (k_mem s) pa src |>) ;;
      kret 0
  | D_var => kret 0
  end.

Definition either_copyin (src : source) (len : Z) : Kern (Z * list Z) :=
  let! p := myproc in
  match src with
  | S_user va =>
      let! p := deref p in
      let! pp := get_proc p in
      copyin (p_pagetable pp) (p_sz pp) va len
  | S_var l => kret (0, take (Z.to_nat len) l)
  end.


(** ** System call arguments *)
(** The word fetched, with the result code. *)
Definition fetchaddr (addr : Z) : Kern (Z * Z) :=
  let! p := curproc in
  let! pp := get_proc p in
  if (p_sz pp <=? addr) || (p_sz pp <? u64 (addr + 8)) then kret (-1, 0) else
  let! '(r, bytes) := copyin (p_pagetable pp) (p_sz pp) addr 8 in
  if negb (r =? 0) then kret (-1, 0) else
  kret (0, load64 (fun a => nth (Z.to_nat a) bytes 0) 0).

(** The length of the string, or -1, and the string. *)
Definition fetchstr (addr max : Z) : Kern (Z * list Z) :=
  let! p := curproc in
  let! pp := get_proc p in
  let! '(r, buf) := copyinstr (p_pagetable pp) (p_sz pp) addr max in
  if r <? 0 then kret (-1, []) else
  kret (Z.of_nat (length (cstr buf)), cstr buf).

Definition argraw (n : Z) : Kern Z :=
  let! p := curproc in
  if (0 <=? n) && (n <=? 5) then tf_load p (TF_a0 + 8 * n)
  else panic "argraw".

Definition argint (n : Z) : Kern Z := let! v := argraw n in kret (i32 v).
Definition argaddr (n : Z) : Kern Z := argraw n.
Definition argstr (n max : Z) : Kern (Z * list Z) :=
  let! addr := argaddr n in
  fetchstr addr max.
End Uaccess.
