(* ===== verification/Sleeplock.v ===== *)
(** * Sleep locks (kernel/sleeplock.c)

    A sleep lock is held by a process, across context switches; its own
    spinlock protects the [locked] and [pid] fields.  [k_sleep] maps the locks
    that are held to the pid of the holder.

    [solo i s] describes a process [i] that runs alone, between critical
    sections: the states in which the file-system components run below.  There
    the operations are updates of [k_sleep]. *)

From stdpp Require Import prelude list strings gmap.
From Stdlib Require Import ZArith Lia ZifyBool.
From S2P Require Import Prelude State Spinlock Proc.
Local Open Scope Z_scope.

(** ** The code *)
Definition initsleeplock (sl : sleepid) : Kern unit :=
  initlock (L_sleep sl) ;;
  modify (fun s => s <| k_sleep ::= delete sl |>).

Definition acquiresleep (sl : sleepid) : Kern unit :=
  acquire (L_sleep sl) ;;
  loop (
    let! s := kget in
    match k_sleep s !! sl with
    | None => kret (Some tt)
    | Some _ =>
        sleep_prepare (Some (Ch_sleep sl)) ;;
        release (L_sleep sl) ;;
        sleep ;;
        acquire (L_sleep sl) ;;
        kret None
    end) ;;
  let! p := curproc in
  let! pp := get_proc p in
  modify (fun s => s <| k_sleep ::= <[sl := p_pid pp]> |>) ;;
  release (L_sleep sl).

Definition releasesleep (sl : sleepid) : Kern unit :=
  acquire (L_sleep sl) ;;
  modify (fun s => s <| k_sleep ::= delete sl |>) ;;
  wakeup (Some (Ch_sleep sl)) ;;
  release (L_sleep sl).

Definition holdingsleep (sl : sleepid) : Kern bool :=
  acquire (L_sleep sl) ;;
  let! s := kget in
  let! r := match k_sleep s !! sl with
            | None => kret false
            | Some pid =>
                let! p := curproc in
                let! pp := get_proc p in
                kret (pid =? p_pid pp)
            end in
  release (L_sleep sl) ;;
  kret r.

(** ** A process that runs alone *)
Record solo (i : nat) (s : kstate) : Prop := {
  solo_quiet : quiescent s;
  solo_locks : k_locks s = ∅;
  solo_cpu : exists c, k_cpus s !! k_tp s = Some c /\ c_noff c = 0 /\ c_proc c = Some i /\ c_intena c = c_sie c;
  solo_proc : exists p, k_procs s !! i = Some p /\ p_state p = RUNNING;
  solo_calm : Forall (fun p => p_chan p = None) (k_procs s) }.

Definition pid_of (i : nat) (s : kstate) : Z :=
  match k_procs s !! i with Some p => p_pid p | None => 0 end.

(** The states [solo] does not tell apart: harts, locks and processes agree. *)
Definition same_threads (s s' : kstate) : Prop :=
  k_tp s' = k_tp s /\ k_cpus s' = k_cpus s /\ k_locks s' = k_locks s /\ k_procs s' = k_procs s.

Lemma solo_same i s s' : same_threads s s' -> solo i s -> solo i s'.
Proof.
  intros (E1 & E2 & E3 & E4) [[Q1 Q2 Q3] H2 H3 H4 H5].
  split; rewrite ?E1, ?E2, ?E3, ?E4; try done.
  split; rewrite ?E3, ?E4; try done. destruct Q1 as (c & Hc & Hok). exists c. by rewrite E1, E2.
Qed.

Lemma touch_cpus s c :
  k_cpus s !! k_tp s = Some c -> touch_cpu c = c -> touch s = s.
Proof. intros Hc Ht. unfold touch. by rewrite (alter_at_id _ _ _ c Hc Ht). Qed.

Lemma quiescent_enter lk s : quiescent s -> (forall j, lk <> L_proc j) -> quiescent (enter lk s).
Proof.
  intros [H1 H2 H3] Hlk. split; [by apply hart_ok_enter| |done]. intros j. cbn. by rewrite lookup_insert_ne.
Qed.

Section Solo.
Context (i : nat) (s : kstate) (Hs : solo i s).

Lemma solo_touch : touch s = s.
Proof.
  destruct (solo_cpu i s Hs) as (c & Hc & Hn & _ & Hi). apply (touch_cpus s c Hc).
  unfold touch_cpu. rewrite Hn. destruct c; cbn in *. by rewrite Hi.
Qed.

Lemma solo_hart : hart_ok s.
Proof. apply (solo_quiet i s Hs). Qed.

Lemma solo_acquire lk tr : acquire lk s tr = Done tt (enter lk s) tr.
Proof. apply acquire_run; [apply solo_hart|]. by rewrite (solo_locks i s Hs). Qed.

Lemma solo_release lk tr : release lk (enter lk s) tr = Done tt s tr.
Proof.
  rewrite release_run; [by rewrite solo_touch|apply solo_hart|]. by rewrite (solo_locks i s Hs).
Qed.

(** Inside a critical section of a lock other than a process lock. *)
Lemma enter_quiescent lk : (forall j, lk <> L_proc j) -> quiescent (enter lk s).
Proof. apply quiescent_enter, (solo_quiet i s Hs). Qed.

Lemma enter_curproc lk tr : curproc (enter lk s) tr = Done i (enter lk s) tr.
Proof.
  destruct (solo_cpu i s Hs) as (c & Hc & Hn & Hp & _).
  rewrite <- (touch_enter lk s solo_hart) at 2. apply (curproc_run (enter lk s) tr (push_cpu c)).
  - cbn. by rewrite list_lookup_alter_eq, Hc.
  - split; cbn; [lia|done].
  - done.
Qed.

Lemma solo_curproc tr : curproc s tr = Done i s tr.
Proof.
  destruct (solo_cpu i s Hs) as (c & Hc & Hn & Hp & Hi). rewrite <- solo_touch at 2.
  apply (curproc_run s tr c); [done| |done]. split; [lia|lia].
Qed.

Lemma solo_myproc tr : myproc s tr = Done (Some i) s tr.
Proof.
  destruct (solo_cpu i s Hs) as (c & Hc & Hn & Hp & Hi). rewrite <- Hp.
  etransitivity; [apply (myproc_run s tr c); [done|]|by rewrite solo_touch]. split; lia.
Qed.

Lemma solo_get_proc : exists p, k_procs s !! i = Some p /\ p_pid p = pid_of i s.
Proof.
  destruct (solo_proc i s Hs) as (p & Hp & _). exists p. split; [done|]. unfold pid_of. by rewrite Hp.
Qed.

Lemma calm_wake chan : wake (Some chan) <$> k_procs s = k_procs s.
Proof.
  pose proof (solo_calm i s Hs) as Hc. induction Hc as [|p l Hp Hl IH]; [done|]. cbn.
  rewrite IH. unfold wake. by rewrite Hp, decide_False.
Qed.

Lemma enter_wakeup lk chan tr : (forall j, lk <> L_proc j) ->
  wakeup (Some chan) (enter lk s) tr = Done tt (enter lk s) tr.
Proof.
  intros Hlk. rewrite wakeup_run by (by apply enter_quiescent).
  change (k_procs (enter lk s)) with (k_procs s). rewrite calm_wake.
  change (touch _) with (touch (enter lk s)). by rewrite touch_enter by apply solo_hart.
Qed.
End Solo.

(** ** The operations of a process that runs alone *)
Lemma acquiresleep_run i sl s tr :
  solo i s -> k_sleep s !! sl = None ->
  acquiresleep sl s tr = Done tt (s <| k_sleep := <[sl := pid_of i s]> (k_sleep s) |>) tr.
Proof.
  intros Hs Hf. unfold acquiresleep. kstep (solo_acquire i s Hs).
  kstep (loop_first _ (enter (L_sleep sl) s) tr tt (enter (L_sleep sl) s) tr).
  { kstep (eq_refl : kget _ _ = Done _ _ _).
    change (k_sleep (enter (L_sleep sl) s)) with (k_sleep s). by rewrite Hf. }
  kstep (enter_curproc i s Hs). destruct (solo_get_proc i s Hs) as (p & Hp & Hpid).
  kstep get_proc_run; [done|]. rewrite Hpid. kstep modify_run.
  assert (Hs1 : solo i (s <| k_sleep := <[sl := pid_of i s]> (k_sleep s) |>)) by (by apply (solo_same i s)).
  exact (solo_release i _ Hs1 (L_sleep sl) tr).
Qed.

Lemma releasesleep_run i sl s tr :
  solo i s -> releasesleep sl s tr = Done tt (s <| k_sleep := delete sl (k_sleep s) |>) tr.
Proof.
  intros Hs. unfold releasesleep. kstep (solo_acquire i s Hs). kstep modify_run.
  set (s1 := s <| k_sleep := delete sl (k_sleep s) |>).
  assert (Hs1 : solo i s1) by (by apply (solo_same i s)).
  kstep (enter_wakeup i s1 Hs1 (L_sleep sl)); [done|]. by apply (solo_release i s1).
Qed.

Lemma holdingsleep_run i sl s tr :
  solo i s ->
  holdingsleep sl s tr = Done (bool_decide (k_sleep s !! sl = Some (pid_of i s))) s tr.
Proof.
  intros Hs. unfold holdingsleep. kstep (solo_acquire i s Hs). kstep (eq_refl : kget _ _ = Done _ _ _).
  change (k_sleep (enter (L_sleep sl) s)) with (k_sleep s).
  destruct (k_sleep s !! sl) as [pid|] eqn:E.
  - kstep (enter_curproc i s Hs). destruct (solo_get_proc i s Hs) as (p & Hp & Hpid).
    kstep get_proc_run; [done|]. kstep kret_run. kstep (solo_release i s Hs). unfold kret. f_equal.
    rewrite Hpid. destruct (Z.eqb_spec pid (pid_of i s)) as [->|]; [by rewrite bool_decide_eq_true_2|].
    rewrite bool_decide_eq_false_2; congruence.
  - kstep kret_run. kstep (solo_release i s Hs). by rewrite bool_decide_eq_false_2.
Qed.
