(* ===== verification/Console.v ===== *)
(** * Console, UART and kernel printing (kernel/console.c, uart.c, printk.c)

    The 16550 UART is a device: its registers are read and written with
    [mmio_load] and [mmio_store].  [consoleintr] edits the input line in the
    circular buffer of [cons], [consoleread] hands out whole lines.  [printk]
    interprets its format string; an argument is a 64-bit word or a string.  In a
    state the kernel reaches without a panic the flags [panicking] and [panicked]
    are zero. *)

From stdpp Require Import prelude list strings gmap.
From Stdlib Require Import ZArith Lia ZifyBool Ascii.
From S2P Require Import Prelude State Spinlock CString Kalloc Proc Vm Uaccess Sleeplock.
Local Open Scope Z_scope.

(** ** Constants *)
Inductive uart_reg := RHR | THR | IER | FCR | ISR | LCR | LSR.
Definition uart_offset (r : uart_reg) : Z :=
  match r with RHR => 0 | THR => 0 | IER => 1 | FCR => 2 | ISR => 2 | LCR => 3 | LSR => 5 end.
Coercion uart_offset : uart_reg >-> Z.
Inductive uart_bit :=
| IER_RX_ENABLE | IER_TX_ENABLE | FCR_FIFO_ENABLE | FCR_FIFO_CLEAR
| LCR_EIGHT_BITS | LCR_BAUD_LATCH | LSR_RX_READY | LSR_TX_IDLE.
Definition uart_mask (b : uart_bit) : Z :=
  match b with
  | IER_RX_ENABLE => Z.shiftl 1 0 | IER_TX_ENABLE => Z.shiftl 1 1
  | FCR_FIFO_ENABLE => Z.shiftl 1 0 | FCR_FIFO_CLEAR => Z.shiftl 3 1
  | LCR_EIGHT_BITS => Z.shiftl 3 0 | LCR_BAUD_LATCH => Z.shiftl 1 7
  | LSR_RX_READY => Z.shiftl 1 0 | LSR_TX_IDLE => Z.shiftl 1 5
  end.
Coercion uart_mask : uart_bit >-> Z.
Definition BACKSPACE : Z := 0x100.
Definition NEWLINE : Z := 10.
Definition CARRIAGE_RETURN : Z := 13.
Definition DELETE : Z := 0x7f.
(** [C(x)], control-x. *)
Definition Ctrl (x : ascii) : Z := Z.of_N (N_of_ascii x) - 64.
Definition CONSOLE : Z := 1.

(** A string literal. *)
Definition lit (s : string) : list Z := (fun c => Z.of_N (N_of_ascii c)) <$> String.list_ascii_of_string s.

Section Console.
Context `{KernelLayout} `{Devices}.

(** ** The UART *)
Definition ReadReg (reg : Z) : Kern Z := mmio_load (UART0 + reg).
Definition WriteReg (reg v : Z) : Kern unit := mmio_store (UART0 + reg) (u8 v).

Definition uartinit : Kern unit :=
  WriteReg IER 0 ;;
  WriteReg LCR LCR_BAUD_LATCH ;;
  WriteReg 0 0x03 ;;
  WriteReg 1 0 ;;
  WriteReg LCR LCR_EIGHT_BITS ;;
  WriteReg FCR (Z.lor FCR_FIFO_ENABLE FCR_FIFO_CLEAR) ;;
  WriteReg IER (Z.lor IER_TX_ENABLE IER_RX_ENABLE) ;;
  initsleeplock SL_tx.

(** The iterations of [uartwrite] for one character: it is sent when the UART
    is idle, and the thread sleeps for its interrupt otherwise. *)
Definition uartwrite_char (c : Z) : Kern unit :=
  loop (
    sleep_prepare (Some Ch_tx) ;;
    let! lsr := ReadReg LSR in
    if negb (Z.land lsr LSR_TX_IDLE =? 0) then
      WriteReg THR c ;;
      kret (Some tt)
    else
      sleep ;;
      kret None).

Fixpoint uartwrite_loop (buf : list Z) : Kern unit :=
  match buf with
  | [] => kret tt
  | c :: buf' => uartwrite_char c ;; uartwrite_loop buf'
  end.

Definition uartwrite (buf : list Z) : Kern unit :=
  acquiresleep SL_tx ;;
  uartwrite_loop buf ;;
  releasesleep SL_tx.

(** The spin until the transmit register is empty: the UART takes a turn per
    iteration. *)
Definition uartputc_sync (c : Z) : Kern unit :=
  push_off ;;
  loop (
    let! lsr := ReadReg LSR in
    if Z.land lsr LSR_TX_IDLE =? 0 then environment ;; kret None
    else kret (Some tt)) ;;
  WriteReg THR c ;;
  pop_off.

Definition uartgetc : Kern Z :=
  let! lsr := ReadReg LSR in
  if negb (Z.land lsr LSR_RX_READY =? 0) then ReadReg RHR
  else kret (-1).

Definition consputc (c : Z) : Kern unit :=
  if c =? BACKSPACE then
    uartputc_sync 8 ;;
    uartputc_sync 32 ;;
    uartputc_sync 8
  else uartputc_sync c.

Fixpoint consputs (l : list Z) : Kern unit :=
  match l with
  | [] => kret tt
  | c :: l' => consputc c ;; consputs l'
  end.
End Console.

(** ** Numbers (printk.c, [printint] and [printptr]) *)
Definition digits : list Z := lit "0123456789abcdef".

(** The [do]-[while] loop: the digits of [x], least significant first; a 64-bit
    number has at most 64 of them. *)
Fixpoint int_digits (fuel : nat) (x base : Z) : list Z :=
  match fuel with
  | O => []
  | S fuel' =>
      nth (Z.to_nat (x mod base)) digits 0 ::
      (if x / base =? 0 then [] else int_digits fuel' (x / base) base)
  end.

(** The characters in the order in which they are printed; [buf] is their
    reverse. *)
Definition printint_buf (xx base : Z) (sign : bool) : list Z :=
  let sign := sign && (xx <? 0) in
  let x := if sign then u64 (- xx) else u64 xx in
  let buf := int_digits 64 x base in
  if sign then buf ++ [45] else buf.

Definition printptr_digits (x : Z) : list Z :=
  (fun i => nth (Z.to_nat (Z.shiftr (u64 (Z.shiftl x (4 * Z.of_nat i))) 60)) digits 0) <$> seq 0 16.

(** [va_arg] yields the next argument: a word or a string. *)
Inductive arg := A_word (v : Z) | A_str (s : option (list Z)).

Section Print.
Context `{KernelLayout} `{Devices}.

Definition printint (xx base : Z) (sign : bool) : Kern unit := consputs (rev (printint_buf xx base sign)).
Definition printptr (x : Z) : Kern unit :=
  consputc 48 ;;
  consputc 120 ;;
  consputs (printptr_digits x).

Definition va_word (ap : list arg) : Kern (Z * list arg) :=
  match ap with A_word v :: ap' => kret (v, ap') | _ => undefined end.
Definition va_str (ap : list arg) : Kern (option (list Z) * list arg) :=
  match ap with A_str s :: ap' => kret (s, ap') | _ => undefined end.

(** The loop of [printk] over the rest of the format string. *)
Fixpoint printk_loop (fmt : list Z) (ap : list arg) : Kern unit :=
  match fmt with
  | [] => kret tt
  | cx :: f0 =>
      if negb (cx =? 37) then consputc cx ;; printk_loop f0 ap else
      match f0 with
      | [] => kret tt
      | c0 :: f1 =>
          let c1 := nth 0 f1 0 in
          let c2 := nth 1 f1 0 in
          if c0 =? 100 then
            let! '(v, ap) := va_word ap in printint (i32 v) 10 true ;; printk_loop f1 ap
          else if (c0 =? 108) && (c1 =? 100) then
            let! '(v, ap) := va_word ap in printint (i64 v) 10 true ;;
            match f1 with _ :: f2 => printk_loop f2 ap | [] => kret tt end
          else if (c0 =? 108) && (c1 =? 108) && (c2 =? 100) then
            let! '(v, ap) := va_word ap in printint (i64 v) 10 true ;;
            match f1 with _ :: _ :: f3 => printk_loop f3 ap | _ => kret tt end
          else if c0 =? 117 then
            let! '(v, ap) := va_word ap in printint (u32 v) 10 false ;; printk_loop f1 ap
          else if (c0 =? 108) && (c1 =? 117) then
            let! '(v, ap) := va_word ap in printint (u64 v) 10 false ;;
            match f1 with _ :: f2 => printk_loop f2 ap | [] => kret tt end
          else if (c0 =? 108) && (c1 =? 108) && (c2 =? 117) then
            let! '(v, ap) := va_word ap in printint (u64 v) 10 false ;;
            match f1 with _ :: _ :: f3 => printk_loop f3 ap | _ => kret tt end
          else if c0 =? 120 then
            let! '(v, ap) := va_word ap in printint (u32 v) 16 false ;; printk_loop f1 ap
          else if (c0 =? 108) && (c1 =? 120) then
            let! '(v, ap) := va_word ap in printint (u64 v) 16 false ;;
            match f1 with _ :: f2 => printk_loop f2 ap | [] => kret tt end
          else if (c0 =? 108) && (c1 =? 108) && (c2 =? 120) then
            let! '(v, ap) := va_word ap in printint (u64 v) 16 false ;;
            match f1 with _ :: _ :: f3 => printk_loop f3 ap | _ => kret tt end
          else if c0 =? 112 then
            let! '(v, ap) := va_word ap in printptr (u64 v) ;; printk_loop f1 ap
          else if c0 =? 99 then
            let! '(v, ap) := va_word ap in consputc (u32 v) ;; printk_loop f1 ap
          else if c0 =? 115 then
            let! '(s, ap) := va_str ap in consputs (default (lit "(null)") s) ;; printk_loop f1 ap
          else if c0 =? 37 then consputc 37 ;; printk_loop f1 ap
          else consputc 37 ;; consputc c0 ;; printk_loop f1 ap
      end
  end.

Definition printk (fmt : list Z) (ap : list arg) : Kern Z :=
  acquire L_pr ;;
  printk_loop fmt ap ;;
  release L_pr ;;
  kret 0.

Definition printkinit : Kern unit := initlock L_pr.

(** proc.c, [procdump]. *)
Definition state_name (st : procstate) : list Z :=
  lit match st with
  | UNUSED => "unused" | USED => "used" | SLEEPING => "sleep " | RUNNABLE => "runble"
  | RUNNING => "run   " | ZOMBIE => "zombie"
  end.

Definition procdump : Kern unit :=
  let! _ := printk [NEWLINE] [] in
  for_each NPROC 0 (fun i =>
    let! p := get_proc i in
    if bool_decide (p_state p = UNUSED) then kret tt else
    let! _ := printk (lit "%d %s %s") [A_word (p_pid p); A_str (Some (state_name (p_state p))); A_str (Some (cstr (p_name p)))] in
    let! _ := printk [NEWLINE] [] in
    kret tt).
End Print.

Section Console2.
Context `{KernelLayout} `{Devices}.

(** ** The console *)
Definition upd_cons (f : consst -> consst) : Kern unit := modify (fun s => s <| k_cons ::= f |>).
(** [cons.buf[i % INPUT_BUF_SIZE]] *)
Definition cons_at (c : consst) (i : Z) : Z := nth (Z.to_nat (i mod INPUT_BUF_SIZE)) (co_buf c) 0.
Definition cons_put (i v : Z) (c : consst) : consst :=
  c <| co_buf ::= <[Z.to_nat (i mod INPUT_BUF_SIZE) := u8 v]> |>.

(** [n] counts the bytes left to write; a batch moves up to 32. *)
Fixpoint consolewrite_loop (fuel : nat) (src : source) (i n : Z) : Kern Z :=
  match fuel with
  | O => hang
  | S fuel' =>
      if n <=? i then kret i else
      let nn := Z.min 32 (n - i) in
      let! '(r, buf) := either_copyin (src_add src i) nn in
      if r =? -1 then kret i else
      uartwrite buf ;;
      consolewrite_loop fuel' src (i + nn) n
  end.
Definition consolewrite (src : source) (n : Z) : Kern Z :=
  consolewrite_loop (Z.to_nat (n / 32 + 2)) src 0 n.

(** The wait until a line has arrived; [false] when the process was killed. *)
Definition cons_wait : Kern bool :=
  loop (
    let! c := gets k_cons in
    if negb (co_r c =? co_w c) then kret (Some true) else
    let! p := curproc in
    let! k := killed p in
    if negb (k =? 0) then
      release L_cons ;;
      kret (Some false)
    else
      sleep_prepare (Some Ch_cons) ;;
      release L_cons ;;
      sleep ;;
      acquire L_cons ;;
      kret None).

(** [n] is the number of bytes still wanted; [None] is the early return of a
    killed process, which has released the lock. *)
Fixpoint consoleread_loop (fuel : nat) (dst : dest) (target n : Z) : Kern (option Z) :=
  match fuel with
  | O => hang
  | S fuel' =>
      if n <=? 0 then kret (Some n) else
      let! ready := cons_wait in
      if negb ready then kret None else
      let! cs := gets k_cons in
      let c := cons_at cs (co_r cs) in
      upd_cons (fun x => x <| co_r := u32 (co_r x + 1) |>) ;;
      if c =? Ctrl "D" then
        when (n <? target) (upd_cons (fun x => x <| co_r := u32 (co_r x - 1) |>)) ;;
        kret (Some n)
      else
        let! r := either_copyout dst [c] in
        if r =? -1 then kret (Some n) else
        if c =? NEWLINE then kret (Some (n - 1))
        else consoleread_loop fuel' (dst_add dst 1) target (n - 1)
  end.

Definition consoleread (dst : dest) (n : Z) : Kern Z :=
  let target := n in
  acquire L_cons ;;
  let! r := consoleread_loop (S (Z.to_nat n)) dst target n in
  match r with
  | None => kret (-1)
  | Some n => release L_cons ;; kret (target - n)
  end.

(** The loop of kill-line: [cons.e] moves back at most to [cons.w]. *)
Fixpoint kill_line (fuel : nat) : Kern unit :=
  match fuel with
  | O => hang
  | S fuel' =>
      let! c := gets k_cons in
      if negb (co_e c =? co_w c) && negb (cons_at c (u32 (co_e c - 1)) =? NEWLINE) then
        upd_cons (fun x => x <| co_e := u32 (co_e x - 1) |>) ;;
        consputc BACKSPACE ;;
        kill_line fuel'
      else kret tt
  end.

Definition consoleintr (c : Z) : Kern unit :=
  acquire L_cons ;;
  (if c =? Ctrl "P" then procdump
   else if c =? Ctrl "U" then
     let! x := gets k_cons in
     kill_line (S (Z.to_nat (u32 (co_e x - co_w x))))
   else if (c =? Ctrl "H") || (c =? DELETE) then
     let! x := gets k_cons in
     when (negb (co_e x =? co_w x))
       (upd_cons (fun x => x <| co_e := u32 (co_e x - 1) |>) ;;
        consputc BACKSPACE)
   else
     let! x := gets k_cons in
     when (negb (c =? 0) && (u32 (co_e x - co_r x) <? INPUT_BUF_SIZE))
       (let c := if c =? CARRIAGE_RETURN then NEWLINE else c in
        consputc c ;;
        upd_cons (fun x => (cons_put (co_e x) c x) <| co_e := u32 (co_e x + 1) |>) ;;
        let! x := gets k_cons in
        when ((c =? NEWLINE) || (c =? Ctrl "D") || (u32 (co_e x - co_r x) =? INPUT_BUF_SIZE))
          (upd_cons (fun x => x <| co_w := co_e x |>) ;;
           wakeup (Some Ch_cons)))) ;;
  release L_cons.

(** The input loop of [uartintr]; [fuel] bounds the bytes waiting. *)
Fixpoint uartintr_loop (fuel : nat) : Kern unit :=
  match fuel with
  | O => hang
  | S fuel' =>
      let! c := uartgetc in
      if c =? -1 then kret tt else
      consoleintr c ;;
      uartintr_loop fuel'
  end.

Definition uartintr : Kern unit :=
  let! _ := ReadReg ISR in
  let! lsr := ReadReg LSR in
  when (negb (Z.land lsr LSR_TX_IDLE =? 0)) (wakeup (Some Ch_tx)) ;;
  let! s := kget in
  uartintr_loop (S (length (k_uart_in s))).

Definition consoleinit : Kern unit :=
  initlock L_cons ;;
  uartinit ;;
  modify (fun s => s <| k_devsw ::= <[CONSOLE := Dev_console]> |>).
End Console2.
