(* ===== verification/Bio.v ===== *)
(** * The buffer cache (kernel/bio.c)

    The cache is a doubly linked list of buffers in order of use, threaded
    through their [prev] and [next] fields with [bcache.head] (index [NBUF]) as
    sentinel.  [bc_ok order s] is its invariant: the links spell out [order], a
    block has at most one buffer, and a buffer nobody uses holds what the disk
    holds.  The theorems show that the cache is transparent: [bread] returns
    the current contents of the block, whatever is cached or evicted, and that
    [brelse] makes the buffer the most recently used one.

    The disk driver is a parameter of this file, as it is of the file system
    above: [disk_rw] with the effect [disk_effect].  *)

From stdpp Require Import prelude list strings gmap sorting.
From Stdlib Require Import ZArith Lia ZifyBool.
From S2P Require Import Prelude State Spinlock Proc Sleeplock.
Local Open Scope Z_scope.

(** ** The disk driver's interface *)
Class DiskDriver := disk_rw : nat -> bool -> Kern unit.

(** No request is on its way: every descriptor is free and the driver has seen
    every completion. *)
Record vdisk_idle (v : vdisk) : Prop := {
  vi_free : v_free v = replicate NUM true;
  vi_seen : v_used_idx v = v_used_idx_dev v;
  vi_range : 0 <= v_used_idx v < 2 ^ 16;
  vi_desc : length (v_desc v) = NUM;
  vi_avail : length (v_avail_ring v) = NUM;
  vi_ring : length (v_used_ring v) = NUM;
  vi_info : length (v_info v) = NUM;
  vi_ops : length (v_ops v) = NUM }.

(** The driver's queues after one request for block [n]. *)
Definition ring_slot (idx : Z) : nat := Z.to_nat (idx mod Z.of_nat NUM).
Definition vdisk_after (v : vdisk) (write : bool) (n : Z) : vdisk :=
  v <| v_ops ::= <[0%nat := mkreq (if write then 1 else 0) 0 (u32 (n * (BSIZE / 512)))]> |>
    <| v_desc ::= (fun l => <[0%nat := mkdesc VA_null 0 0 0]> (<[1%nat := mkdesc VA_null 0 0 0]> (<[2%nat := mkdesc VA_null 0 0 0]> l))) |>
    <| v_info ::= <[0%nat := mkinfo None 0]> |>
    <| v_avail_ring ::= <[ring_slot (v_avail_idx v) := 0]> |>
    <| v_avail_idx := u16 (v_avail_idx v + 1) |>
    <| v_used_ring ::= <[ring_slot (v_used_idx_dev v) := 0]> |>
    <| v_used_idx_dev := u16 (v_used_idx_dev v + 1) |>
    <| v_used_idx := u16 (v_used_idx v + 1) |>.

Lemma vdisk_after_idle v write n : vdisk_idle v -> vdisk_idle (vdisk_after v write n).
Proof.
  intros [H1 H2 H3 H4 H5 H6 H7 H8]. split; cbn; rewrite ?length_insert; try done; [by rewrite H2|].
  apply Z.mod_pos_bound. done.
Qed.

(** What a completed request has done: block [b_blockno] is written to the disk,
    or read into the buffer. *)
Definition disk_effect (b : nat) (write : bool) (s : kstate) : kstate :=
  match k_bufs s !! b with
  | None => s
  | Some bb =>
      (if write then
        s <| k_disk := fun n => if n =? b_blockno bb then b_data bb else k_disk s n |>
          <| k_dhist := (b_blockno bb, b_data bb) :: k_dhist s |>
      else
        s <| k_bufs := alter (fun x => x <| b_data := k_disk s (b_blockno bb) |>) b (k_bufs s) |>)
      <| k_vdisk ::= fun v => vdisk_after v write (b_blockno bb) |>
  end.

(** The block numbers a request can carry: the number of a block's first sector is
    a 32-bit word. *)
Definition blockno_ok (n : Z) : Prop := 0 <= n < 2 ^ 31.

(** The promise of the driver to a process that runs alone. *)
Class DiskOk `{DiskDriver} := disk_rw_run : forall i b write s tr bb,
  solo i s -> vdisk_idle (k_vdisk s) -> (b < NBUF)%nat -> k_bufs s !! b = Some bb -> b_disk bb = 0 -> blockno_ok (b_blockno bb) ->
  disk_rw b write s tr = Done tt (disk_effect b write s) tr.

(** ** The code *)
Definition get_buf (b : nat) : Kern buf := let! s := kget in deref (k_bufs s !! b).
Definition upd_buf (b : nat) (f : buf -> buf) : Kern unit := modify (fun s => s <| k_bufs ::= alter f b |>).

(** [b->next = v] and [b->prev = v]. *)
Definition set_next (b v : nat) : Kern unit := upd_buf b (fun x => x <| b_next := v |>).
Definition set_prev (b v : nat) : Kern unit := upd_buf b (fun x => x <| b_prev := v |>).
Definition head : nat := NBUF.

Definition binit : Kern unit :=
  initlock L_bcache ;;
  set_prev head head ;;
  set_next head head ;;
  for_each NBUF 0 (fun b =>
    let! h := get_buf head in
    set_next b (b_next h) ;;
    set_prev b head ;;
    initsleeplock (SL_buf b) ;;
    let! h := get_buf head in
    set_prev (b_next h) b ;;
    set_next head b).

Section Bio.
Context `{DiskDriver}.

(** The two loops of [bget]: along [next] for the block, along [prev] for an
    unused buffer.  The list has [NBUF] buffers. *)
Fixpoint bget_cached (fuel : nat) (b : nat) (dev blockno : Z) : Kern (option nat) :=
  match fuel with
  | O => hang
  | S fuel' =>
      if decide (b = head) then kret None else
      let! bb := get_buf b in
      if (b_dev bb =? dev) && (b_blockno bb =? blockno) then kret (Some b)
      else bget_cached fuel' (b_next bb) dev blockno
  end.

Fixpoint bget_unused (fuel : nat) (b : nat) : Kern (option nat) :=
  match fuel with
  | O => hang
  | S fuel' =>
      if decide (b = head) then kret None else
      let! bb := get_buf b in
      if b_refcnt bb =? 0 then kret (Some b)
      else bget_unused fuel' (b_prev bb)
  end.

Definition bget (dev blockno : Z) : Kern nat :=
  acquire L_bcache ;;
  let! h := get_buf head in
  let! cached := bget_cached (S NBUF) (b_next h) dev blockno in
  match cached with
  | Some b =>
      upd_buf b (fun x => x <| b_refcnt := u32 (b_refcnt x + 1) |>) ;;
      release L_bcache ;;
      acquiresleep (SL_buf b) ;;
      kret b
  | None =>
      let! h := get_buf head in
      let! unused := bget_unused (S NBUF) (b_prev h) in
      match unused with
      | Some b =>
          upd_buf b (fun x => x <| b_dev := dev |> <| b_blockno := blockno |>
                                <| b_valid := 0 |> <| b_refcnt := 1 |>) ;;
          release L_bcache ;;
          acquiresleep (SL_buf b) ;;
          kret b
      | None => panic "bget: no buffers"
      end
  end.

Definition bread (dev blockno : Z) : Kern nat :=
  let! b := bget dev blockno in
  let! bb := get_buf b in
  when (b_valid bb =? 0)
    (disk_rw b false ;;
     upd_buf b (fun x => x <| b_valid := 1 |>)) ;;
  kret b.

Definition bwrite (b : nat) : Kern unit :=
  let! h := holdingsleep (SL_buf b) in
  if negb h then panic "bwrite" else
  disk_rw b true.

Definition brelse (b : nat) : Kern unit :=
  let! h := holdingsleep (SL_buf b) in
  if negb h then panic "brelse" else
  releasesleep (SL_buf b) ;;
  acquire L_bcache ;;
  upd_buf b (fun x => x <| b_refcnt := u32 (b_refcnt x - 1) |>) ;;
  let! bb := get_buf b in
  when (b_refcnt bb =? 0)
    (set_prev (b_next bb) (b_prev bb) ;;
     let! bb := get_buf b in
     set_next (b_prev bb) (b_next bb) ;;
     let! h := get_buf head in
     set_next b (b_next h) ;;
     set_prev b head ;;
     let! h := get_buf head in
     set_prev (b_next h) b ;;
     set_next head b) ;;
  release L_bcache.

Definition bpin (b : nat) : Kern unit :=
  acquire L_bcache ;;
  upd_buf b (fun x => x <| b_refcnt := u32 (b_refcnt x + 1) |>) ;;
  release L_bcache.

Definition bunpin (b : nat) : Kern unit :=
  acquire L_bcache ;;
  upd_buf b (fun x => x <| b_refcnt := u32 (b_refcnt x - 1) |>) ;;
  release L_bcache.
End Bio.

(** ** The links *)
Definition bnext (l : list buf) (b : nat) : nat := match l !! b with Some x => b_next x | None => 0%nat end.
Definition bprev (l : list buf) (b : nat) : nat := match l !! b with Some x => b_prev x | None => 0%nat end.

Section Links.
Context (nx pv : nat -> nat).

(** From [a] the links lead through [l] to [z]. *)
Fixpoint seg (a : nat) (l : list nat) (z : nat) : Prop :=
  match l with
  | [] => nx a = z /\ pv z = a
  | x :: l' => nx a = x /\ pv x = a /\ seg x l' z
  end.

Lemma seg_app l1 : forall a x l2 z, seg a (l1 ++ x :: l2) z <-> seg a l1 x /\ seg x l2 z.
Proof. induction l1 as [|y l1 IH]; intros a x l2 z; cbn; [tauto|]. rewrite IH. tauto. Qed.

Lemma seg_first a l z : seg a l z -> nx a = default z (hd_error l).
Proof. destruct l; cbn; tauto. Qed.

Lemma seg_last l : forall a z, seg a l z -> pv z = default a (last l).
Proof.
  induction l as [|x l IH]; intros a z; cbn [seg]; [cbn; tauto|]. intros (_ & _ & Hs).
  rewrite (IH x z Hs), last_cons. by destruct (last l).
Qed.
End Links.

Lemma seg_ext nx pv nx' pv' l : forall a z,
  (forall y, y ∈ a :: l -> nx' y = nx y) -> (forall y, y ∈ l ++ [z] -> pv' y = pv y) ->
  seg nx pv a l z -> seg nx' pv' a l z.
Proof.
  induction l as [|x l IH]; intros a z Hn Hp; cbn [seg].
  - intros [E1 E2]. split; [rewrite Hn; [done|by left]|rewrite Hp; [done|by left]].
  - intros (E1 & E2 & Hs). split; [rewrite Hn; [done|by left]|]. split; [rewrite Hp; [done|by left]|].
    apply IH; [intros y Hy; apply Hn; by right|intros y Hy; apply Hp; by right|done].
Qed.

(** Taking [b] out of the list: its neighbours are linked to each other. *)
Lemma seg_unlink nx pv nx' pv' b l2 z l1 : forall a,
  seg nx pv a (l1 ++ b :: l2) z ->
  NoDup (l1 ++ b :: l2) -> a ∉ l1 ++ b :: l2 -> z ∉ l1 ++ b :: l2 ->
  (forall y, nx' y = if decide (y = pv b) then nx b else nx y) ->
  (forall y, pv' y = if decide (y = nx b) then pv b else pv y) ->
  seg nx' pv' a (l1 ++ l2) z.
Proof.
  induction l1 as [|x l1 IH]; intros a Hs Hnd Ha Hz Hn Hp.
  - cbn [app] in *. destruct Hs as (Hab & Hpb & Hs). apply NoDup_cons in Hnd as [Hb Hnd].
    destruct l2 as [|y l2]; cbn [seg] in *.
    + destruct Hs as [Hbz Hpz]. rewrite Hn, Hp, Hpb, Hbz. by rewrite !decide_True.
    + destruct Hs as (Hby & Hpy & Hs). apply NoDup_cons in Hnd as [Hy Hnd].
      rewrite Hn, Hp, Hpb, Hby, !decide_True by done. split; [done|]. split; [done|].
      eapply seg_ext; [| |exact Hs].
      * intros w Hw. rewrite Hn, Hpb. rewrite decide_False; [done|]. intros ->. apply Ha. by right.
      * intros w Hw. rewrite Hp, Hby. rewrite decide_False; [done|]. intros ->.
        apply elem_of_app in Hw as [Hw|Hw]; [done|]. apply list_elem_of_singleton in Hw. subst.
        apply Hz. right. by left.
  - cbn [app seg] in *. destruct Hs as (Hax & Hpx & Hs). apply NoDup_cons in Hnd as [Hx Hnd].
    assert (Hb : pv b <> a).
    { apply seg_app in Hs as [Hs _]. apply seg_last in Hs. rewrite Hs. intros E. apply Ha.
      destruct (last l1) as [w|] eqn:El; cbn in E; rewrite <- E; [|by left].
      right. apply elem_of_app. left. by apply last_Some_elem_of. }
    assert (Hnb : nx b <> x).
    { apply seg_app in Hs as [_ Hs]. apply seg_first in Hs. rewrite Hs. intros E.
      destruct l2 as [|w l2]; cbn in E; [apply Hz; rewrite E; by left|].
      apply Hx. rewrite <- E. apply elem_of_app. right. right. by left. }
    split; [rewrite Hn, decide_False by (by intros ->); done|].
    split; [rewrite Hp, decide_False by (by intros ->); done|].
    apply IH; try done. intros Hin. apply Hz. by right.
Qed.

(** Putting [b] at the front. *)
Lemma seg_insert nx pv nx' pv' b l h :
  seg nx pv h l h -> NoDup l -> b ∉ l -> b <> h -> h ∉ l ->
  (forall y, nx' y = if decide (y = h) then b else if decide (y = b) then nx h else nx y) ->
  (forall y, pv' y = if decide (y = nx h) then b else if decide (y = b) then h else pv y) ->
  seg nx' pv' h (b :: l) h.
Proof.
  intros Hs Hnd Hb Hbh Hh Hn Hp.
  assert (Hbn : b <> nx h).
  { apply seg_first in Hs. rewrite Hs. destruct l; cbn; [done|]. intros ->. apply Hb. by left. }
  cbn [seg]. split; [by rewrite Hn, decide_True|].
  split; [by rewrite Hp, decide_False, decide_True|].
  assert (Hnb : nx' b = nx h) by (by rewrite Hn, decide_False, decide_True).
  assert (Hpn : pv' (nx h) = b) by (by rewrite Hp, decide_True).
  destruct l as [|x l]; cbn [seg] in *.
  - destruct Hs as [Hx _]. rewrite Hx in *. done.
  - destruct Hs as (Hx & Hpx & Hs). rewrite Hx in *. split; [done|]. split; [done|].
    eapply seg_ext; [| |exact Hs].
    + intros y Hy. rewrite Hn, !decide_False; [done|..]; intros ->; [apply Hb|apply Hh]; done.
    + intros y Hy. apply NoDup_cons in Hnd as [Hxl _]. apply elem_of_app in Hy.
      rewrite list_elem_of_singleton in Hy. rewrite Hp, !decide_False; [done|..]; intros ->; destruct Hy as [Hy|Hy].
      * apply Hb. by right.
      * done.
      * done.
      * apply Hh. rewrite <- Hy. by left.
Qed.

(** ** The invariant *)
Definition bmatch (l : list buf) (dev blockno : Z) (b : nat) : bool :=
  match l !! b with Some x => (b_dev x =? dev) && (b_blockno x =? blockno) | None => false end.
Definition bunused (l : list buf) (b : nat) : bool :=
  match l !! b with Some x => b_refcnt x =? 0 | None => false end.

Record bc_ok (order : list nat) (s : kstate) : Prop := {
  bo_len : length (k_bufs s) = S NBUF;
  bo_order : order ≡ₚ seq 0 NBUF;
  bo_seg : seg (bnext (k_bufs s)) (bprev (k_bufs s)) head order head;
  bo_uniq : forall x y n, (x < NBUF)%nat -> (y < NBUF)%nat ->
    bmatch (k_bufs s) ROOTDEV n x = true -> bmatch (k_bufs s) ROOTDEV n y = true -> x = y;
  bo_dev : forall x bx, (x < NBUF)%nat -> k_bufs s !! x = Some bx -> b_valid bx <> 0 -> b_dev bx = ROOTDEV;
  bo_ref : forall x bx, (x < NBUF)%nat -> k_bufs s !! x = Some bx -> 0 <= b_refcnt bx < 2 ^ 32;
  bo_lock : forall x bx, (x < NBUF)%nat -> k_bufs s !! x = Some bx -> b_refcnt bx = 0 ->
    k_sleep s !! SL_buf x = None;
  bo_clean : forall x bx, (x < NBUF)%nat -> k_bufs s !! x = Some bx -> b_refcnt bx = 0 ->
    b_valid bx <> 0 -> b_data bx = k_disk s (b_blockno bx);
  bo_idle : forall x bx, (x < NBUF)%nat -> k_bufs s !! x = Some bx -> b_disk bx = 0 }.

(** The current contents of a block of the disk: in the cache or on the disk. *)
Definition view (s : kstate) (n : Z) : list Z :=
  match List.find (bmatch (k_bufs s) ROOTDEV n) (seq 0 NBUF) with
  | Some b =>
      match k_bufs s !! b with
      | Some x => if b_valid x =? 0 then k_disk s n else b_data x
      | None => k_disk s n
      end
  | None => k_disk s n
  end.

(** The buffer [bget] settles on. *)
Definition target (order : list nat) (s : kstate) (dev n : Z) : option nat :=
  match List.find (bmatch (k_bufs s) dev n) order with
  | Some b => Some b
  | None => List.find (bunused (k_bufs s)) (rev order)
  end.

Lemma get_buf_run s tr b bb : k_bufs s !! b = Some bb -> get_buf b s tr = Done bb s tr.
Proof. intros H. unfold get_buf. kred. by rewrite H. Qed.

Section Order.
Context (order : list nat) (s : kstate) (Hok : bc_ok order s).

Lemma order_lt x : x ∈ order -> (x < NBUF)%nat.
Proof. rewrite (bo_order _ _ Hok), elem_of_seq. lia. Qed.

Lemma order_all x : (x < NBUF)%nat -> x ∈ order.
Proof. intros Hx. rewrite (bo_order _ _ Hok), elem_of_seq. lia. Qed.

Lemma order_nodup : NoDup order.
Proof. rewrite (bo_order _ _ Hok). apply NoDup_seq. Qed.

Lemma order_length : length order = NBUF.
Proof. rewrite (bo_order _ _ Hok). apply length_seq. Qed.

Lemma buf_at x : (x <= NBUF)%nat -> exists bx, k_bufs s !! x = Some bx.
Proof. intros Hx. apply lookup_lt_is_Some_2. rewrite (bo_len _ _ Hok). lia. Qed.
End Order.

Lemma bget_cached_run dev n l : forall fuel a s tr,
  (length l < fuel)%nat ->
  (forall x, x ∈ l -> (x < NBUF)%nat /\ is_Some (k_bufs s !! x)) ->
  seg (bnext (k_bufs s)) (bprev (k_bufs s)) a l head ->
  bget_cached fuel (bnext (k_bufs s) a) dev n s tr = Done (List.find (bmatch (k_bufs s) dev n) l) s tr.
Proof.
  induction l as [|x l IH]; intros fuel a s tr Hf Hl Hseg; (destruct fuel as [|fuel]; [cbn in Hf; lia|]);
    cbn [seg length] in *.
  - destruct Hseg as [-> _]. cbn [bget_cached List.find]. by rewrite decide_True.
  - destruct Hseg as (-> & _ & Hseg). cbn [bget_cached List.find].
    destruct (Hl x) as [Hx [bx Hbx]]; [by left|].
    rewrite decide_False by (unfold head; lia). kstep get_buf_run; [done|].
    unfold bmatch at 1. rewrite Hbx. destruct (_ && _); [done|].
    assert (Hnx : b_next bx = bnext (k_bufs s) x) by (unfold bnext; by rewrite Hbx).
    rewrite Hnx. apply IH; [lia| |done]. intros y Hy. apply Hl. by right.
Qed.

Lemma bget_unused_run l : forall fuel z s tr,
  (length l < fuel)%nat ->
  (forall x, x ∈ l -> (x < NBUF)%nat /\ is_Some (k_bufs s !! x)) ->
  seg (bnext (k_bufs s)) (bprev (k_bufs s)) head l z ->
  bget_unused fuel (bprev (k_bufs s) z) s tr = Done (List.find (bunused (k_bufs s)) (rev l)) s tr.
Proof.
  induction l as [|x l IH] using rev_ind; intros fuel z s tr Hf Hl Hseg;
    (destruct fuel as [|fuel]; [lia|]).
  - destruct Hseg as [_ ->]. cbn [bget_unused rev List.find]. by rewrite decide_True.
  - apply seg_app in Hseg as [Hseg [_ Hz]]. rewrite Hz. rewrite rev_app_distr. cbn [rev app List.find bget_unused].
    destruct (Hl x) as [Hx [bx Hbx]]; [apply elem_of_app; right; by left|].
    rewrite decide_False by (unfold head; lia). kstep get_buf_run; [done|].
    unfold bunused at 1. rewrite Hbx. destruct (_ =? 0); [done|].
    assert (Hpv : b_prev bx = bprev (k_bufs s) x) by (unfold bprev; by rewrite Hbx).
    rewrite Hpv. rewrite length_app in Hf. cbn in Hf. apply IH; [lia| |done].
    intros y Hy. apply Hl. apply elem_of_app. by left.
Qed.

(** ** [bget], [bread] and [bwrite] *)
(** The buffer [x] as [bget] hands it out. *)
Definition claim (dev n : Z) (x : buf) : buf :=
  if (b_dev x =? dev) && (b_blockno x =? n) then x <| b_refcnt := u32 (b_refcnt x + 1) |>
  else x <| b_dev := dev |> <| b_blockno := n |> <| b_valid := 0 |> <| b_refcnt := 1 |>.

Definition got (i b : nat) (dev n : Z) (s : kstate) : kstate :=
  s <| k_bufs := alter (claim dev n) b (k_bufs s) |>
    <| k_sleep := <[SL_buf b := pid_of i s]> (k_sleep s) |>.

Section Get.
Context (i : nat) (order : list nat) (s : kstate) (dev n : Z) (b : nat).
Context (Hok : bc_ok order s) (Ht : target order s dev n = Some b).

Lemma target_lt : (b < NBUF)%nat.
Proof.
  unfold target in Ht. apply (order_lt order s Hok).
  destruct (List.find _ order) as [x|] eqn:E.
  - apply List.find_some in E as [E _]. injection Ht as <-. by apply list_elem_of_In.
  - apply List.find_some in Ht as [Hin _]. apply list_elem_of_In. by apply List.in_rev.
Qed.

Lemma target_buf : exists bb, k_bufs s !! b = Some bb.
Proof. apply (buf_at order s Hok). pose proof target_lt. lia. Qed.

Context (Hs : solo i s) (Hl : k_sleep s !! SL_buf b = None).

(** The critical section's state after an update of the buffers. *)
Lemma bget_finish f tr :
  (upd_buf b f ;; release L_bcache ;; acquiresleep (SL_buf b) ;; kret b) (enter L_bcache s) tr =
    Done b (s <| k_bufs := alter f b (k_bufs s) |> <| k_sleep := <[SL_buf b := pid_of i s]> (k_sleep s) |>) tr.
Proof.
  unfold upd_buf. kstep modify_run. set (s1 := s <| k_bufs := alter f b (k_bufs s) |>).
  assert (Hs1 : solo i s1) by (by apply (solo_same i s)).
  kexact (solo_release i s1 Hs1 L_bcache tr). by kstep (acquiresleep_run i (SL_buf b) s1 tr).
Qed.

Lemma bget_run tr : bget dev n s tr = Done b (got i b dev n s) tr.
Proof.
  unfold bget. kstep (solo_acquire i s Hs).
  destruct (buf_at order s Hok head) as [h Hh]; [done|]. kstep get_buf_run; [done|].
  assert (Hnx : b_next h = bnext (k_bufs (enter L_bcache s)) head) by (unfold bnext; cbn; by rewrite Hh).
  assert (Hpv : b_prev h = bprev (k_bufs (enter L_bcache s)) head) by (unfold bprev; cbn; by rewrite Hh).
  assert (Hall : forall x, x ∈ order -> (x < NBUF)%nat /\ is_Some (k_bufs (enter L_bcache s) !! x)).
  { intros x Hx%(order_lt order s Hok). split; [done|]. destruct (buf_at order s Hok x) as [bx Hbx]; [lia|]. by exists bx. }
  pose proof (order_length order s Hok) as Hlen. pose proof (bo_seg _ _ Hok) as Hseg.
  rewrite Hnx. kstep (bget_cached_run dev n order (S NBUF) head); [lia|done|done|].
  change (k_bufs (enter L_bcache s)) with (k_bufs s). pose proof Ht as Ht'. unfold target in Ht'.
  destruct target_buf as [bb Hbb].
  destruct (List.find (bmatch (k_bufs s) dev n) order) as [x|] eqn:E.
  - injection Ht' as ->. rewrite bget_finish. unfold got. do 2 f_equal.
    apply List.find_some in E as [_ Hm]. unfold bmatch in Hm. rewrite Hbb in Hm.
    cbn. f_equal. eapply alter_at; [done|]. unfold claim. by rewrite Hm.
  - kstep get_buf_run; [done|]. rewrite Hpv.
    kstep (bget_unused_run order (S NBUF) head); [lia|done|done|].
    change (k_bufs (enter L_bcache s)) with (k_bufs s). rewrite Ht', bget_finish. unfold got. do 2 f_equal.
    cbn. f_equal. eapply alter_at; [done|]. unfold claim.
    assert (Hm : bmatch (k_bufs s) dev n b = false).
    { eapply List.find_none in E; [done|]. apply list_elem_of_In, (order_all order s Hok), target_lt. }
    unfold bmatch in Hm. rewrite Hbb in Hm. by rewrite Hm.
Qed.
End Get.

Section View.
Context (order : list nat) (s : kstate) (Hok : bc_ok order s) (n : Z).

Lemma view_cached b x :
  (b < NBUF)%nat -> bmatch (k_bufs s) ROOTDEV n b = true -> k_bufs s !! b = Some x ->
  view s n = if b_valid x =? 0 then k_disk s n else b_data x.
Proof.
  intros Hb Hm Hx. unfold view. destruct (List.find _ _) as [y|] eqn:E.
  - apply List.find_some in E as [Hy Hmy]. apply list_elem_of_In, elem_of_seq in Hy.
    assert (y = b) as -> by (apply (bo_uniq _ _ Hok y b n); (done || lia)). by rewrite Hx.
  - eapply List.find_none in E; [by rewrite E in Hm|]. apply list_elem_of_In, elem_of_seq. lia.
Qed.

Lemma view_uncached : (forall b, (b < NBUF)%nat -> bmatch (k_bufs s) ROOTDEV n b = false) -> view s n = k_disk s n.
Proof.
  intros Hno. unfold view. destruct (List.find _ _) as [y|] eqn:E; [|done].
  apply List.find_some in E as [Hy Hmy]. apply list_elem_of_In, elem_of_seq in Hy.
  rewrite Hno in Hmy by lia. done.
Qed.

(** The target is the buffer of the block, or an unused one if it has none. *)
Lemma target_cases dev b : target order s dev n = Some b ->
  bmatch (k_bufs s) dev n b = true \/
  bunused (k_bufs s) b = true /\ forall x, (x < NBUF)%nat -> bmatch (k_bufs s) dev n x = false.
Proof.
  unfold target. destruct (List.find _ order) as [y|] eqn:E.
  - intros [= <-]. left. by apply List.find_some in E as [_ ?].
  - intros Hf. right. apply List.find_some in Hf as [_ Hu]. split; [done|]. intros x Hx.
    eapply List.find_none in E; [exact E|]. by apply list_elem_of_In, (order_all order s Hok).
Qed.
End View.

(** The buffer as [bread] hands it out, holding [d]. *)
Definition load (n : Z) (d : list Z) (x : buf) : buf :=
  (claim ROOTDEV n x) <| b_valid := if b_valid (claim ROOTDEV n x) =? 0 then 1 else b_valid x |> <| b_data := d |>.

Definition loaded (i b : nat) (n : Z) (s : kstate) : kstate :=
  s <| k_bufs := alter (load n (view s n)) b (k_bufs s) |>
    <| k_sleep := <[SL_buf b := pid_of i s]> (k_sleep s) |>
    <| k_vdisk ::= fun v => if b_valid (default buf_bss (claim ROOTDEV n <$> k_bufs s !! b)) =? 0 then vdisk_after v false n else v |>.

Lemma loaded_idle i b n s : vdisk_idle (k_vdisk s) -> vdisk_idle (k_vdisk (loaded i b n s)).
Proof. intros Hv. cbn. destruct (_ =? 0); [by apply vdisk_after_idle|done]. Qed.

Section Read.
Context `{DiskOk}.
Context (i : nat) (order : list nat) (s : kstate) (n : Z) (b : nat).
Context (Hidle : vdisk_idle (k_vdisk s)) (Hblk : blockno_ok n).
Context (Hs : solo i s) (Hok : bc_ok order s) (Ht : target order s ROOTDEV n = Some b).
Context (Hl : k_sleep s !! SL_buf b = None).

Lemma claim_disk x : b_disk (claim ROOTDEV n x) = b_disk x.
Proof. unfold claim. by destruct (_ && _). Qed.

Lemma claim_data x : b_data (claim ROOTDEV n x) = b_data x.
Proof. unfold claim. by destruct (_ && _). Qed.

Lemma claim_block x : b_blockno (claim ROOTDEV n x) = n /\ b_dev (claim ROOTDEV n x) = ROOTDEV.
Proof.
  unfold claim. destruct (_ && _) eqn:E; [|done]. apply andb_true_iff in E. cbn. lia.
Qed.

(** What a claimed buffer must hold. *)
Lemma view_claim x : k_bufs s !! b = Some x ->
  view s n = if b_valid (claim ROOTDEV n x) =? 0 then k_disk s n else b_data x.
Proof.
  intros Hx. pose proof (target_lt order s ROOTDEV n b Hok Ht) as Hb.
  destruct (target_cases order s Hok n ROOTDEV b Ht) as [Hm|[Hu Hno]].
  - rewrite (view_cached order s Hok n b x Hb Hm Hx). unfold bmatch in Hm. rewrite Hx in Hm.
    unfold claim. by rewrite Hm.
  - rewrite (view_uncached s n Hno). specialize (Hno b Hb). unfold bmatch in Hno. rewrite Hx in Hno.
    unfold claim. by rewrite Hno.
Qed.

Lemma bread_run tr : bread ROOTDEV n s tr = Done b (loaded i b n s) tr.
Proof.
  pose proof (target_lt order s ROOTDEV n b Hok Ht) as Hb.
  destruct (target_buf order s ROOTDEV n b Hok Ht) as [x Hx].
  unfold bread. kstep (bget_run i order s ROOTDEV n b Hok Ht Hs Hl).
  assert (Hgx : k_bufs (got i b ROOTDEV n s) !! b = Some (claim ROOTDEV n x))
    by (cbn; by rewrite list_lookup_alter_eq, Hx).
  kstep get_buf_run; [done|]. pose proof (view_claim x Hx) as Hv.
  destruct (b_valid (claim ROOTDEV n x) =? 0) eqn:Ev; cbn [when].
  - assert (Hgs : solo i (got i b ROOTDEV n s)) by (by apply (solo_same i s)).
    kstep (disk_rw_run i b false (got i b ROOTDEV n s) tr (claim ROOTDEV n x)); [done|done|done|done| | |].
    { rewrite claim_disk. by apply (bo_idle _ _ Hok b). }
    { by rewrite (proj1 (claim_block x)). }
    unfold disk_effect, upd_buf. rewrite Hgx. kstep modify_run. cbn. unfold kret, loaded. f_equal. cbn.
    rewrite !list_alter_alter_eq, Hx. cbn. rewrite Ev. f_equal; [|by rewrite (proj1 (claim_block x))].
    eapply alter_at; [done|]. unfold load. cbn. rewrite Ev, Hv, (proj1 (claim_block x)). done.
  - kstep kret_run. unfold kret, loaded, got. f_equal. cbn. rewrite Hx. cbn. rewrite Ev. f_equal.
    eapply alter_at; [done|]. unfold load. rewrite Ev, Hv. rewrite <- (claim_data x).
    assert (Hvx : b_valid (claim ROOTDEV n x) = b_valid x).
    { unfold claim in *. destruct (_ && _); [done|]. cbn in Ev. lia. }
    rewrite <- Hvx. by destruct (claim ROOTDEV n x).
Qed.
End Read.

Lemma bwrite_run `{DiskOk} i order s b bb tr :
  solo i s -> bc_ok order s -> vdisk_idle (k_vdisk s) -> (b < NBUF)%nat -> k_bufs s !! b = Some bb ->
  blockno_ok (b_blockno bb) -> k_sleep s !! SL_buf b = Some (pid_of i s) ->
  bwrite b s tr = Done tt (disk_effect b true s) tr.
Proof.
  intros Hs Hok Hidle Hb Hbb Hblk Hl. unfold bwrite. kstep (holdingsleep_run i); [done|].
  rewrite bool_decide_eq_true_2 by done. cbn [negb].
  apply (disk_rw_run i b true s tr bb); try done. by apply (bo_idle _ _ Hok b).
Qed.

(** ** [brelse] *)
Definition put_next (v b : nat) (l : list buf) : list buf := alter (fun x => x <| b_next := v |>) b l.
Definition put_prev (v b : nat) (l : list buf) : list buf := alter (fun x => x <| b_prev := v |>) b l.

(** The pointer assignments of [binit] and [brelse], on the table of buffers. *)
Definition push_front (b : nat) (l : list buf) : list buf :=
  let l := put_next (bnext l head) b l in
  let l := put_prev head b l in
  let l := put_prev b (bnext l head) l in
  put_next b head l.

Definition to_front (b : nat) (l : list buf) : list buf :=
  let l := put_prev (bprev l b) (bnext l b) l in
  let l := put_next (bnext l b) (bprev l b) l in
  push_front b l.

Definition unref (b : nat) (l : list buf) : list buf :=
  alter (fun x => x <| b_refcnt := u32 (b_refcnt x - 1) |>) b l.

Definition relse (b : nat) (l : list buf) : list buf :=
  if bunused (unref b l) b then to_front b (unref b l) else unref b l.

Lemma bnext_put_next v b l y : (b < length l)%nat ->
  bnext (put_next v b l) y = if decide (y = b) then v else bnext l y.
Proof.
  intros Hb. unfold bnext, put_next. destruct (decide (y = b)) as [->|Hne].
  - rewrite list_lookup_alter_eq. by destruct (lookup_lt_is_Some_2 l b Hb) as [x ->].
  - by rewrite list_lookup_alter_ne.
Qed.

Lemma bprev_put_prev v b l y : (b < length l)%nat ->
  bprev (put_prev v b l) y = if decide (y = b) then v else bprev l y.
Proof.
  intros Hb. unfold bprev, put_prev. destruct (decide (y = b)) as [->|Hne].
  - rewrite list_lookup_alter_eq. by destruct (lookup_lt_is_Some_2 l b Hb) as [x ->].
  - by rewrite list_lookup_alter_ne.
Qed.

Lemma bnext_put_prev v b l y : bnext (put_prev v b l) y = bnext l y.
Proof.
  unfold bnext, put_prev. destruct (decide (y = b)) as [->|Hne]; [|by rewrite list_lookup_alter_ne].
  rewrite list_lookup_alter_eq. by destruct (l !! b).
Qed.

Lemma bprev_put_next v b l y : bprev (put_next v b l) y = bprev l y.
Proof.
  unfold bprev, put_next. destruct (decide (y = b)) as [->|Hne]; [|by rewrite list_lookup_alter_ne].
  rewrite list_lookup_alter_eq. by destruct (l !! b).
Qed.

Lemma length_put_next v b l : length (put_next v b l) = length l.
Proof. apply length_alter. Qed.
Lemma length_put_prev v b l : length (put_prev v b l) = length l.
Proof. apply length_alter. Qed.
Ltac links := repeat first
  [rewrite bnext_put_prev|rewrite bprev_put_next|rewrite length_put_next|rewrite length_put_prev].

Lemma push_front_seg l b order :
  length l = S NBUF -> (b < NBUF)%nat -> seg (bnext l) (bprev l) head order head ->
  NoDup order -> (forall x, x ∈ order -> (x < NBUF)%nat) -> b ∉ order ->
  seg (bnext (push_front b l)) (bprev (push_front b l)) head (b :: order) head.
Proof.
  intros Hlen Hb Hseg Hnd Hlt Hbo.
  assert (Hhead : bnext l head <> b /\ (bnext l head <= NBUF)%nat).
  { rewrite (seg_first _ _ _ _ _ Hseg). destruct order as [|x o]; cbn; [unfold head; lia|].
    split; [intros ->; apply Hbo; by left|]. apply Nat.lt_le_incl, Hlt. by left. }
  unfold push_front. apply (seg_insert (bnext l) (bprev l)); [done|done|done|unfold head; lia|..].
  - intros Hin%Hlt. unfold head in Hin. lia.
  - intros y. rewrite bnext_put_next by (links; unfold head; lia). destruct (decide (y = head)); [done|].
    links. by rewrite bnext_put_next by lia.
  - intros y. links. rewrite bnext_put_next, decide_False by (unfold head; lia).
    rewrite !bprev_put_prev by (links; lia). by links.
Qed.

Section ToFront.
Context (l : list buf) (b : nat) (o1 o2 : list nat).
Context (Hlen : length l = S NBUF) (Hb : (b < NBUF)%nat).
Context (Hseg : seg (bnext l) (bprev l) head (o1 ++ b :: o2) head).
Context (Hnd : NoDup (o1 ++ b :: o2)) (Hlt : forall x, x ∈ o1 ++ b :: o2 -> (x < NBUF)%nat).

Lemma neighbours : (bnext l b <= NBUF)%nat /\ (bprev l b <= NBUF)%nat /\ bnext l b <> b /\ bprev l b <> b.
Proof.
  apply seg_app in Hseg as [S1 S2]. apply seg_last in S1. apply seg_first in S2. rewrite S1, S2.
  apply NoDup_app in Hnd as (N1 & N2 & N3). apply NoDup_cons in N3 as [N3 _].
  split; [|split; [|split]].
  - destruct o2 as [|x o]; cbn; [done|]. apply Nat.lt_le_incl, Hlt. apply elem_of_app. right. right. by left.
  - destruct (last o1) as [x|] eqn:E; cbn; [|done]. apply Nat.lt_le_incl, Hlt, elem_of_app. left. by apply last_Some_elem_of.
  - destruct o2 as [|x o]; cbn; [unfold head; lia|]. intros ->. apply N3. by left.
  - destruct (last o1) as [x|] eqn:E; cbn; [|unfold head; lia]. intros ->. apply (N2 b); [by apply last_Some_elem_of|by left].
Qed.

Lemma to_front_seg : seg (bnext (to_front b l)) (bprev (to_front b l)) head (b :: o1 ++ o2) head.
Proof.
  destruct neighbours as (Hn & Hp & Hnb & Hpb). unfold to_front.
  set (l1 := put_prev (bprev l b) (bnext l b) l). set (l2 := put_next (bnext l1 b) (bprev l1 b) l1).
  assert (Hl1 : length l1 = S NBUF) by (unfold l1; by links).
  assert (Hl2 : length l2 = S NBUF) by (unfold l2; by links).
  assert (Hb1 : bnext l1 b = bnext l b /\ bprev l1 b = bprev l b).
  { unfold l1. links. rewrite bprev_put_prev by lia. by rewrite decide_False. }
  assert (Hseg2 : seg (bnext l2) (bprev l2) head (o1 ++ o2) head).
  { apply (seg_unlink (bnext l) (bprev l) _ _ b o2 head o1 head Hseg Hnd).
    - intros Hin%Hlt. unfold head in Hin. lia.
    - intros Hin%Hlt. unfold head in Hin. lia.
    - intros y. unfold l2. destruct Hb1 as [-> ->]. rewrite bnext_put_next by lia. unfold l1. by links.
    - intros y. unfold l2. links. unfold l1. by rewrite bprev_put_prev by lia. }
  apply NoDup_app in Hnd as (N1 & N2 & N3). apply NoDup_cons in N3 as [N3 N4].
  apply (push_front_seg l2 b (o1 ++ o2)); [done|done|done|..].
  - apply NoDup_app. split; [done|]. split; [|done]. intros x Hx Hx2. apply (N2 x Hx). by right.
  - intros x Hx. apply Hlt. rewrite elem_of_app in *. destruct Hx; [by left|right; by right].
  - intros Hx. apply elem_of_app in Hx as [Hx|Hx]; [|done]. apply (N2 b Hx). by left.
Qed.
End ToFront.

Lemma lookup_next l b x : l !! b = Some x -> b_next x = bnext l b.
Proof. unfold bnext. by intros ->. Qed.
Lemma lookup_prev l b x : l !! b = Some x -> b_prev x = bprev l b.
Proof. unfold bprev. by intros ->. Qed.

(** A read of a buffer that the assignments before it have kept in place. *)
Lemma get_buf_len s tr b : (b < length (k_bufs s))%nat ->
  exists x, get_buf b s tr = Done x s tr /\ b_next x = bnext (k_bufs s) b /\ b_prev x = bprev (k_bufs s) b /\
    k_bufs s !! b = Some x.
Proof.
  intros Hb. destruct (lookup_lt_is_Some_2 _ _ Hb) as [x Hx]. exists x.
  split; [by apply get_buf_run|]. split; [by apply lookup_next|]. split; [by apply lookup_prev|done].
Qed.

Definition with_bufs (l : list buf) (s : kstate) : kstate := s <| k_bufs := l |>.

Lemma brelse_run i s b bb tr :
  solo i s -> length (k_bufs s) = S NBUF -> (b < NBUF)%nat -> k_bufs s !! b = Some bb ->
  k_sleep s !! SL_buf b = Some (pid_of i s) ->
  brelse b s tr = Done tt (s <| k_sleep := delete (SL_buf b) (k_sleep s) |> <| k_bufs := relse b (k_bufs s) |>) tr.
Proof.
  intros Hs Hlen Hb Hbb Hl. unfold brelse. kstep (holdingsleep_run i); [done|].
  rewrite bool_decide_eq_true_2 by done. cbn [negb]. kstep (releasesleep_run i); [done|].
  set (s1 := s <| k_sleep := delete (SL_buf b) (k_sleep s) |>).
  assert (Hs1 : solo i s1) by (by apply (solo_same i s)). kstep (solo_acquire i s1 Hs1).
  unfold upd_buf at 1. kstep modify_run.
  set (l := unref b (k_bufs s)). assert (Hll : length l = S NBUF) by (unfold l, unref; by rewrite length_alter).
  kstate_is (with_bufs l (enter L_bcache s1)).
  assert (Hrel : forall l' tr, release L_bcache (with_bufs l' (enter L_bcache s1)) tr = Done tt (with_bufs l' s1) tr).
  { intros l' tr'. assert (Hs2 : solo i (with_bufs l' s1)) by (by apply (solo_same i s1)).
    exact (solo_release i (with_bufs l' s1) Hs2 L_bcache tr'). }
  destruct (get_buf_len (with_bufs l (enter L_bcache s1)) tr b) as (x & Hx & En & Ep & Hxl); [cbn; lia|].
  kstep Hx. cbn [k_bufs with_bufs upd_field] in En, Ep, Hxl. unfold relse. fold l.
  unfold bunused at 1. rewrite Hxl. destruct (b_refcnt x =? 0); cbn [when]; [|kstep kret_run; apply Hrel].
  unfold set_prev, set_next, upd_buf. rewrite En, Ep. kstep modify_run.
  set (l1 := put_prev (bprev l b) (bnext l b) l). kstate_is (with_bufs l1 (enter L_bcache s1)).
  assert (Hl1 : length l1 = S NBUF) by (unfold l1; by links).
  destruct (get_buf_len (with_bufs l1 (enter L_bcache s1)) tr b) as (x1 & Hx1 & En1 & Ep1 & _); [cbn; lia|].
  kstep Hx1. rewrite En1, Ep1. cbn [k_bufs with_bufs upd_field]. kstep modify_run.
  set (l2 := put_next (bnext l1 b) (bprev l1 b) l1). kstate_is (with_bufs l2 (enter L_bcache s1)).
  assert (Hl2 : length l2 = S NBUF) by (unfold l2; by links).
  destruct (get_buf_len (with_bufs l2 (enter L_bcache s1)) tr head) as (x2 & Hx2 & En2 & _); [cbn; unfold head; lia|].
  kstep Hx2. rewrite En2. cbn [k_bufs with_bufs upd_field]. do 2 kstep modify_run.
  set (l4 := put_prev head b (put_next (bnext l2 head) b l2)).
  kstate_is (with_bufs l4 (enter L_bcache s1)).
  assert (Hl4 : length l4 = S NBUF) by (unfold l4; by links).
  destruct (get_buf_len (with_bufs l4 (enter L_bcache s1)) tr head) as (x4 & Hx4 & En4 & _); [cbn; unfold head; lia|].
  kstep Hx4. rewrite En4. cbn [k_bufs with_bufs upd_field]. do 2 kstep modify_run.
  exact (Hrel (to_front b l) tr).
Qed.

(** ** The operations preserve the invariant and the view *)
Lemma links_alter f b l :
  (forall x, b_next (f x) = b_next x /\ b_prev (f x) = b_prev x) ->
  (forall y, bnext (alter f b l) y = bnext l y) /\ (forall y, bprev (alter f b l) y = bprev l y).
Proof.
  intros Hf. unfold bnext, bprev. split; intros y; (destruct (decide (y = b)) as [->|];
    [rewrite list_lookup_alter_eq; destruct (l !! b); [apply Hf|done]|by rewrite list_lookup_alter_ne]).
Qed.

Lemma seg_links f b l order :
  (forall x, b_next (f x) = b_next x /\ b_prev (f x) = b_prev x) ->
  seg (bnext l) (bprev l) head order head ->
  seg (bnext (alter f b l)) (bprev (alter f b l)) head order head.
Proof. intros Hf. destruct (links_alter f b l Hf) as [Hn Hp]. apply seg_ext; auto. Qed.

Lemma bmatch_alter f b l dev n y x : l !! b = Some x ->
  bmatch (alter f b l) dev n y =
    if decide (y = b) then (b_dev (f x) =? dev) && (b_blockno (f x) =? n) else bmatch l dev n y.
Proof.
  intros Hx. unfold bmatch. destruct (decide (y = b)) as [->|].
  - by rewrite list_lookup_alter_eq, Hx.
  - by rewrite list_lookup_alter_ne.
Qed.

Lemma lookup_alter_cases {A} (f : A -> A) (l : list A) b y x :
  alter f b l !! y = Some x -> y = b /\ (exists x0, l !! b = Some x0 /\ x = f x0) \/ y <> b /\ l !! y = Some x.
Proof.
  destruct (decide (y = b)) as [->|Hne].
  - rewrite list_lookup_alter_eq. destruct (l !! b) as [x0|]; [|done]. intros [= <-]. left. eauto.
  - rewrite list_lookup_alter_ne by done. by right.
Qed.

Lemma bmatch_true l dev n y : bmatch l dev n y = true <->
  exists x, l !! y = Some x /\ b_dev x = dev /\ b_blockno x = n.
Proof.
  unfold bmatch. destruct (l !! y) as [x|]; [|split; [done|by intros (? & ? & _)]].
  rewrite andb_true_iff, !Z.eqb_eq. split; [by intros []; exists x|]. by intros (? & [= <-] & ? & ?).
Qed.

Section Loaded.
Context (i : nat) (order : list nat) (s : kstate) (n : Z) (b : nat) (x : buf).
Context (Hok : bc_ok order s) (Ht : target order s ROOTDEV n = Some b) (Hx : k_bufs s !! b = Some x).
Context (Hmax : b_refcnt x + 1 < 2 ^ 32).

Lemma load_fields d :
  b_dev (load n d x) = ROOTDEV /\ b_blockno (load n d x) = n /\ 0 < b_refcnt (load n d x) < 2 ^ 32 /\
  b_valid (load n d x) <> 0 /\ b_disk (load n d x) = b_disk x /\ b_data (load n d x) = d.
Proof.
  pose proof (bo_ref _ _ Hok b x (target_lt order s ROOTDEV n b Hok Ht) Hx) as Hr.
  destruct (claim_block n x) as [E1 E2]. unfold load. cbn. rewrite E1, E2, claim_disk.
  split; [done|]. split; [done|]. split; [|split; [|done]].
  - unfold claim, u32. destruct (_ && _); cbn; [|lia]. rewrite Z.mod_small; lia.
  - destruct (Z.eqb_spec (b_valid (claim ROOTDEV n x)) 0) as [|Hv]; [done|].
    unfold claim in Hv. destruct (_ && _); [done|]. done.
Qed.

Lemma load_links d y : b_next (load n d y) = b_next y /\ b_prev (load n d y) = b_prev y.
Proof. unfold load, claim. by destruct (_ && _). Qed.

(** No other buffer holds block [n]. *)
Lemma target_alone y : (y < NBUF)%nat -> y <> b -> bmatch (k_bufs s) ROOTDEV n y = false.
Proof.
  intros Hy Hne. destruct (target_cases order s Hok n ROOTDEV b Ht) as [Hm|[_ Hno]]; [|by apply Hno].
  apply not_true_iff_false. intros Hm'. apply Hne.
  by apply (bo_uniq _ _ Hok y b n Hy (target_lt order s ROOTDEV n b Hok Ht)).
Qed.

Lemma loaded_match m y :
  bmatch (k_bufs (loaded i b n s)) ROOTDEV m y =
    if decide (y = b) then m =? n else bmatch (k_bufs s) ROOTDEV m y.
Proof.
  cbn [loaded k_bufs upd_field]. rewrite (bmatch_alter _ b _ _ _ _ x Hx).
  destruct (load_fields (view s n)) as (-> & -> & _). destruct (decide (y = b)); [|done].
  rewrite Z.eqb_refl. apply Z.eqb_sym.
Qed.

Lemma loaded_ok : bc_ok order (loaded i b n s).
Proof.
  pose proof (target_lt order s ROOTDEV n b Hok Ht) as Hb.
  destruct (load_fields (view s n)) as (F1 & F2 & F3 & F4 & F5 & F6). destruct Hok as [H1 H2 H3 H4 H5 H6 H7 H8 H9].
  assert (Hlk : forall y by_, k_bufs (loaded i b n s) !! y = Some by_ ->
    y = b /\ by_ = load n (view s n) x \/ y <> b /\ k_bufs s !! y = Some by_).
  { intros y by_ Hy. cbn in Hy. apply lookup_alter_cases in Hy as [[-> (x0 & Hx0 & ->)]|Hy]; [|by right].
    left. rewrite Hx in Hx0. by injection Hx0 as <-. }
  split.
  - cbn. by rewrite length_alter.
  - done.
  - cbn [loaded k_bufs upd_field]. apply seg_links; [apply load_links|done].
  - intros y z m Hy Hz. rewrite !loaded_match. repeat destruct (decide _); subst; try done.
    + intros ->%Z.eqb_eq Hm. by rewrite target_alone in Hm.
    + intros Hm ->%Z.eqb_eq. by rewrite target_alone in Hm.
    + by apply H4.
  - intros y by_ Hy Hby. apply Hlk in Hby as [[-> ->]|[_ Hby]]; [done|by apply (H5 y)].
  - intros y by_ Hy Hby. apply Hlk in Hby as [[-> ->]|[_ Hby]]; [lia|by apply (H6 y)].
  - intros y by_ Hy Hby Hr. apply Hlk in Hby as [[-> ->]|[Hne Hby]]; [lia|].
    cbn. rewrite lookup_insert_ne by congruence. by apply (H7 y by_).
  - intros y by_ Hy Hby Hr. apply Hlk in Hby as [[-> ->]|[_ Hby]]; [lia|by apply (H8 y)].
  - intros y by_ Hy Hby. apply Hlk in Hby as [[-> ->]|[_ Hby]]; [|by apply (H9 y)].
    rewrite F5. by apply (H9 b).
Qed.

Lemma loaded_view m : view (loaded i b n s) m = view s m.
Proof.
  pose proof (target_lt order s ROOTDEV n b Hok Ht) as Hb.
  destruct (load_fields (view s n)) as (F1 & F2 & F3 & F4 & F5 & F6).
  destruct (decide (m = n)) as [->|Hne].
  - rewrite (view_cached order _ loaded_ok n b (load n (view s n) x) Hb).
    + by rewrite (proj2 (Z.eqb_neq _ 0)).
    + rewrite loaded_match, decide_True by done. apply Z.eqb_refl.
    + cbn. by rewrite list_lookup_alter_eq, Hx.
  - destruct (List.find (bmatch (k_bufs s) ROOTDEV m) (seq 0 NBUF)) as [y|] eqn:E.
    + apply List.find_some in E as [Hy%list_elem_of_In%elem_of_seq Hm]. assert (Hy' : (y < NBUF)%nat) by lia.
      apply bmatch_true in Hm as Hm'. destruct Hm' as (by_ & Hby & Hd & Hn').
      rewrite (view_cached order s Hok m y by_ Hy' Hm Hby).
      destruct (decide (y = b)) as [->|Hyb].
      * rewrite Hx in Hby. injection Hby as <-. rewrite view_uncached.
        { cbn. destruct (Z.eqb_spec (b_valid x) 0) as [|Hv]; [done|].
          rewrite <- Hn'. symmetry. apply (bo_clean _ _ Hok b x); try done.
          destruct (target_cases order s Hok n ROOTDEV b Ht) as [Hm2|[Hu _]].
          - apply bmatch_true in Hm2 as (x2 & Hx2 & _ & Hn2). congruence.
          - unfold bunused in Hu. rewrite Hx in Hu. lia. }
        intros z Hz. rewrite loaded_match. destruct (decide (z = b)); [by apply Z.eqb_neq|].
        apply not_true_iff_false. intros Hmz. by apply (bo_uniq _ _ Hok z b m) in Hmz.
      * rewrite (view_cached order _ loaded_ok m y by_ Hy'); [done| |].
        { by rewrite loaded_match, decide_False. }
        { cbn. by rewrite list_lookup_alter_ne by done. }
    + assert (Hno : forall z, (z < NBUF)%nat -> bmatch (k_bufs s) ROOTDEV m z = false).
      { intros z Hz. eapply List.find_none in E; [exact E|]. apply list_elem_of_In, elem_of_seq. lia. }
      rewrite (view_uncached s m Hno), view_uncached; [done|]. intros z Hz. rewrite loaded_match.
      destruct (decide (z = b)); [by apply Z.eqb_neq|by apply Hno].
Qed.
End Loaded.

(** Buffers without their links. *)
Definition strip (x : buf) : buf := x <| b_next := 0%nat |> <| b_prev := 0%nat |>.

Lemma strip_lookup (l l' : list buf) y x' : strip <$> l' = strip <$> l -> l' !! y = Some x' ->
  exists x, l !! y = Some x /\ strip x' = strip x.
Proof.
  intros E Hx. assert (Hs : (strip <$> l) !! y = Some (strip x')) by (by rewrite <- E, list_lookup_fmap, Hx).
  rewrite list_lookup_fmap in Hs. destruct (l !! y) as [x|]; [|done]. apply (inj Some) in Hs. by exists x.
Qed.

Lemma strip_fields x y : strip x = strip y ->
  b_valid x = b_valid y /\ b_disk x = b_disk y /\ b_dev x = b_dev y /\ b_blockno x = b_blockno y /\
  b_refcnt x = b_refcnt y /\ b_data x = b_data y.
Proof. destruct x, y. unfold strip. cbn. by intros [= <- <- <- <- <- <-]. Qed.

Lemma strip_bmatch (l l' : list buf) dev n y : strip <$> l' = strip <$> l -> bmatch l' dev n y = bmatch l dev n y.
Proof.
  intros E. unfold bmatch. assert (Hy : strip <$> l' !! y = strip <$> l !! y) by (by rewrite <- !list_lookup_fmap, E).
  destruct (l' !! y) as [x'|], (l !! y) as [x|]; try done. apply (inj Some), strip_fields in Hy.
  by destruct Hy as (_ & _ & -> & -> & _).
Qed.

Lemma bc_ok_strip order order' s (l : list buf) :
  strip <$> l = strip <$> k_bufs s -> order' ≡ₚ order ->
  seg (bnext l) (bprev l) head order' head -> bc_ok order s -> bc_ok order' (s <| k_bufs := l |>).
Proof.
  intros E Hp Hseg [H1 H2 H3 H4 H5 H6 H7 H8 H9]. split; cbn.
  - rewrite <- H1, <- (length_fmap strip l), E. by rewrite length_fmap.
  - by rewrite Hp.
  - done.
  - intros x y n Hx Hy. rewrite !(strip_bmatch _ _ _ _ _ E). by apply H4.
  - intros y x Hy Hx. destruct (strip_lookup _ _ _ _ E Hx) as (x0 & Hx0 & F). apply strip_fields in F as (-> & _ & -> & _).
    by apply (H5 y).
  - intros y x Hy Hx. destruct (strip_lookup _ _ _ _ E Hx) as (x0 & Hx0 & F). apply strip_fields in F as (_ & _ & _ & _ & -> & _).
    by apply (H6 y).
  - intros y x Hy Hx. destruct (strip_lookup _ _ _ _ E Hx) as (x0 & Hx0 & F). apply strip_fields in F as (_ & _ & _ & _ & -> & _).
    by apply (H7 y).
  - intros y x Hy Hx. destruct (strip_lookup _ _ _ _ E Hx) as (x0 & Hx0 & F).
    apply strip_fields in F as (-> & _ & _ & -> & -> & ->). by apply (H8 y).
  - intros y x Hy Hx. destruct (strip_lookup _ _ _ _ E Hx) as (x0 & Hx0 & F). apply strip_fields in F as (_ & -> & _).
    by apply (H9 y).
Qed.

Lemma view_strip s (l : list buf) n : strip <$> l = strip <$> k_bufs s -> view (s <| k_bufs := l |>) n = view s n.
Proof.
  intros E. unfold view. cbn [k_bufs k_disk upd_field]. assert (Hf : List.find (bmatch l ROOTDEV n) (seq 0 NBUF) =
    List.find (bmatch (k_bufs s) ROOTDEV n) (seq 0 NBUF)).
  { induction (seq 0 NBUF) as [|y o IH]; cbn; [done|]. by rewrite (strip_bmatch _ _ _ _ _ E), IH. }
  rewrite Hf. destruct (List.find (bmatch (k_bufs s) ROOTDEV n) (seq 0 NBUF)) as [y|]; [|done].
  assert (Hy : strip <$> l !! y = strip <$> k_bufs s !! y) by (by rewrite <- !list_lookup_fmap, E).
  destruct (l !! y) as [x'|], (k_bufs s !! y) as [x|]; try done. apply (inj Some), strip_fields in Hy.
  by destruct Hy as (-> & _ & _ & _ & _ & ->).
Qed.

Lemma strip_alter (f : buf -> buf) y (l : list buf) :
  (forall x, strip (f x) = strip x) -> strip <$> alter f y l = strip <$> l.
Proof.
  intros Hf. apply list_eq. intros z. rewrite !list_lookup_fmap.
  destruct (decide (z = y)) as [->|]; [|by rewrite list_lookup_alter_ne].
  rewrite list_lookup_alter_eq. destruct (l !! y); cbn; [by rewrite Hf|done].
Qed.

Lemma strip_put_next v y (l : list buf) : strip <$> put_next v y l = strip <$> l.
Proof. by apply strip_alter. Qed.
Lemma strip_put_prev v y (l : list buf) : strip <$> put_prev v y l = strip <$> l.
Proof. by apply strip_alter. Qed.

Lemma strip_push_front b (l : list buf) : strip <$> push_front b l = strip <$> l.
Proof. unfold push_front. by rewrite strip_put_next, !strip_put_prev, strip_put_next. Qed.

Lemma strip_to_front b (l : list buf) : strip <$> to_front b l = strip <$> l.
Proof. unfold to_front. by rewrite strip_push_front, strip_put_next, strip_put_prev. Qed.

(** A change of one buffer that keeps its block and links. *)
Section Update.
Context (order : list nat) (s : kstate) (b : nat) (x : buf) (f : buf -> buf).
Context (Hok : bc_ok order s) (Hb : (b < NBUF)%nat) (Hx : k_bufs s !! b = Some x).
Context (Hlinks : forall y, b_next (f y) = b_next y /\ b_prev (f y) = b_prev y).
Context (Hkey : b_dev (f x) = b_dev x /\ b_blockno (f x) = b_blockno x /\ b_valid (f x) = b_valid x /\ b_disk (f x) = b_disk x).
Context (Href : 0 <= b_refcnt (f x) < 2 ^ 32).
Context (Hlock : b_refcnt (f x) = 0 -> k_sleep s !! SL_buf b = None).
Context (Hclean : b_refcnt (f x) = 0 -> b_valid x <> 0 -> b_data (f x) = k_disk s (b_blockno x)).

Abbreviation s' := (s <| k_bufs := alter f b (k_bufs s) |>).

Lemma update_match m y : bmatch (k_bufs s') ROOTDEV m y = bmatch (k_bufs s) ROOTDEV m y.
Proof.
  cbn [k_bufs upd_field]. rewrite (bmatch_alter _ b _ _ _ _ x Hx). destruct Hkey as (-> & -> & _).
  destruct (decide (y = b)) as [->|]; [|done]. unfold bmatch. by rewrite Hx.
Qed.

Lemma update_ok : bc_ok order s'.
Proof.
  destruct Hok as [H1 H2 H3 H4 H5 H6 H7 H8 H9]. destruct Hkey as (K1 & K2 & K3 & K4).
  assert (Hlk : forall y by_, k_bufs s' !! y = Some by_ ->
    y = b /\ by_ = f x \/ y <> b /\ k_bufs s !! y = Some by_).
  { intros y by_ Hy. cbn in Hy. apply lookup_alter_cases in Hy as [[-> (x0 & Hx0 & ->)]|Hy]; [|by right].
    left. rewrite Hx in Hx0. by injection Hx0 as <-. }
  split.
  - cbn. by rewrite length_alter.
  - done.
  - by apply seg_links.
  - intros y z m Hy Hz. rewrite !update_match. by apply H4.
  - intros y by_ Hy Hby. apply Hlk in Hby as [[-> ->]|[_ Hby]]; [|by apply (H5 y)]. rewrite K1, K3. by apply (H5 b).
  - intros y by_ Hy Hby. apply Hlk in Hby as [[-> ->]|[_ Hby]]; [done|by apply (H6 y)].
  - intros y by_ Hy Hby. apply Hlk in Hby as [[-> ->]|[_ Hby]]; [done|by apply (H7 y)].
  - intros y by_ Hy Hby. apply Hlk in Hby as [[-> ->]|[_ Hby]]; [|by apply (H8 y)]. rewrite K2, K3. done.
  - intros y by_ Hy Hby. apply Hlk in Hby as [[-> ->]|[_ Hby]]; [|by apply (H9 y)]. rewrite K4. by apply (H9 b).
Qed.

Lemma update_view m : b_valid x <> 0 ->
  view s' m = if decide (m = b_blockno x) then b_data (f x) else view s m.
Proof.
  intros Hv. pose proof (bo_dev _ _ Hok b x Hb Hx Hv) as Hd. destruct Hkey as (K1 & K2 & K3 & K4).
  assert (Hbm : bmatch (k_bufs s) ROOTDEV (b_blockno x) b = true) by (apply bmatch_true; by exists x).
  destruct (decide (m = b_blockno x)) as [->|Hne].
  - rewrite (view_cached order _ update_ok _ b (f x) Hb).
    + rewrite K3. by rewrite (proj2 (Z.eqb_neq _ 0)).
    + by rewrite update_match.
    + cbn. by rewrite list_lookup_alter_eq, Hx.
  - unfold view. cbn [k_bufs k_disk upd_field].
    assert (Hf : List.find (bmatch (alter f b (k_bufs s)) ROOTDEV m) (seq 0 NBUF) =
      List.find (bmatch (k_bufs s) ROOTDEV m) (seq 0 NBUF)).
    { induction (seq 0 NBUF) as [|y o IH]; cbn [List.find]; [done|]. 
      change (alter f b (k_bufs s)) with (k_bufs s') at 1. by rewrite update_match, IH. }
    rewrite Hf. destruct (List.find (bmatch (k_bufs s) ROOTDEV m) (seq 0 NBUF)) as [y|] eqn:E; [|done].
    apply List.find_some in E as [_ Hm]. destruct (decide (y = b)) as [->|]; [|by rewrite list_lookup_alter_ne].
    apply bmatch_true in Hm as (x0 & Hx0 & _ & Hn0). congruence.
Qed.
End Update.

(** Writing a buffer to the disk. *)
Section WriteBack.
Context (order : list nat) (s : kstate) (b : nat) (x : buf).
Context (Hok : bc_ok order s) (Hb : (b < NBUF)%nat) (Hx : k_bufs s !! b = Some x) (Hv : b_valid x <> 0).

Lemma write_disk m :
  k_disk (disk_effect b true s) m = if decide (m = b_blockno x) then b_data x else k_disk s m.
Proof.
  unfold disk_effect. rewrite Hx. cbn. destruct (Z.eqb_spec m (b_blockno x)), (decide _); done.
Qed.

Lemma write_same : k_bufs (disk_effect b true s) = k_bufs s /\ k_sleep (disk_effect b true s) = k_sleep s /\
  k_dhist (disk_effect b true s) = (b_blockno x, b_data x) :: k_dhist s.
Proof. unfold disk_effect. by rewrite Hx. Qed.

Lemma write_ok : bc_ok order (disk_effect b true s).
Proof.
  destruct write_same as (E1 & E2 & _). pose proof (bo_dev _ _ Hok b x Hb Hx Hv) as Hd.
  destruct Hok as [H1 H2 H3 H4 H5 H6 H7 H8 H9]. split; rewrite ?E1, ?E2; try done.
  intros y by_ Hy Hby Hr Hvy. rewrite write_disk. destruct (decide _) as [E|]; [|by apply (H8 y)].
  assert (y = b) as ->; [|congruence]. apply (H4 y b (b_blockno x)); try done; apply bmatch_true.
  - exists by_. split; [done|]. split; [by apply (H5 y)|done].
  - by exists x.
Qed.

Lemma write_view m : view (disk_effect b true s) m = view s m.
Proof.
  pose proof (bo_dev _ _ Hok b x Hb Hx Hv) as Hd. destruct write_same as (E1 & _ & _).
  assert (Hbm : bmatch (k_bufs s) ROOTDEV (b_blockno x) b = true) by (apply bmatch_true; by exists x).
  destruct (decide (m = b_blockno x)) as [->|Hne].
  - rewrite (view_cached order _ write_ok _ b x Hb), (view_cached order _ Hok _ b x Hb); rewrite ?E1; try done.
    by rewrite (proj2 (Z.eqb_neq _ 0)).
  - unfold view. rewrite E1, write_disk, decide_False by done. done.
Qed.
End WriteBack.

(** Releasing a buffer. *)
Definition relse_order (b : nat) (l : list buf) (order : list nat) : list nat :=
  if bunused (unref b l) b then b :: filter (fun y => y <> b) order else order.

Definition relsed (b : nat) (s : kstate) : kstate :=
  s <| k_sleep := delete (SL_buf b) (k_sleep s) |> <| k_bufs := relse b (k_bufs s) |>.

Lemma filter_split (b : nat) o1 o2 :
  NoDup (o1 ++ b :: o2) -> filter (fun y => y <> b) (o1 ++ b :: o2) = o1 ++ o2.
Proof.
  intros (N1 & N2 & N3)%NoDup_app. apply NoDup_cons in N3 as [N3 N4].
  assert (Hid : forall o : list nat, b ∉ o -> filter (fun y => y <> b) o = o).
  { induction o as [|y o IH]; intros Hn; [done|]. rewrite filter_cons, decide_True by (intros ->; apply Hn; by left).
    f_equal. apply IH. intros Hin. apply Hn. by right. }
  rewrite filter_app, filter_cons, decide_False by (by intros H). rewrite !Hid; [done|done|].
  intros Hin. apply (N2 b Hin). by left.
Qed.

Section Release.
Context (order : list nat) (s : kstate) (b : nat) (x : buf).
Context (Hok : bc_ok order s) (Hb : (b < NBUF)%nat) (Hx : k_bufs s !! b = Some x).
Context (Hpos : 0 < b_refcnt x) (Hv : b_valid x <> 0).
Context (Hclean : b_refcnt x = 1 -> b_data x = k_disk s (b_blockno x)).

Abbreviation f := (fun y : buf => y <| b_refcnt := u32 (b_refcnt y - 1) |>).

Lemma unref_refcnt : b_refcnt (f x) = b_refcnt x - 1.
Proof.
  pose proof (bo_ref _ _ Hok b x Hb Hx). cbn. unfold u32. rewrite Z.mod_small; lia.
Qed.

Lemma unref_ok : bc_ok order (s <| k_sleep := delete (SL_buf b) (k_sleep s) |> <| k_bufs := unref b (k_bufs s) |>).
Proof.
  pose proof (bo_ref _ _ Hok b x Hb Hx) as Hr. pose proof unref_refcnt as Hu.
  set (s1 := s <| k_sleep := delete (SL_buf b) (k_sleep s) |>).
  assert (Hok1 : bc_ok order s1).
  { destruct Hok as [H1 H2 H3 H4 H5 H6 H7 H8 H9]. split; try done. intros y by_ Hy Hby Hz. cbn.
    destruct (decide (y = b)) as [->|]; [apply lookup_delete_eq|].
    rewrite lookup_delete_ne by congruence. by apply (H7 y by_). }
  assert (Hres : bc_ok order (s1 <| k_bufs := alter f b (k_bufs s1) |>)); [|exact Hres].
  apply (update_ok order s1 b x f); try done.
  - rewrite Hu. lia.
  - intros _. cbn. apply lookup_delete_eq.
  - rewrite Hu. intros Hz _. cbn. apply Hclean. lia.
Qed.

Lemma unref_view m : view (s <| k_sleep := delete (SL_buf b) (k_sleep s) |> <| k_bufs := unref b (k_bufs s) |>) m = view s m.
Proof.
  pose proof (bo_dev _ _ Hok b x Hb Hx Hv) as Hd.
  unfold view. cbn [k_bufs k_disk upd_field].
  assert (Hm : forall y, bmatch (unref b (k_bufs s)) ROOTDEV m y = bmatch (k_bufs s) ROOTDEV m y).
  { intros y. unfold unref. rewrite (bmatch_alter _ b _ _ _ _ x Hx). destruct (decide (y = b)) as [->|]; [|done].
    unfold bmatch. by rewrite Hx. }
  assert (Hf : List.find (bmatch (unref b (k_bufs s)) ROOTDEV m) (seq 0 NBUF) =
      List.find (bmatch (k_bufs s) ROOTDEV m) (seq 0 NBUF)).
  { induction (seq 0 NBUF) as [|y o IH]; cbn [List.find]; [done|]. by rewrite Hm, IH. }
  rewrite Hf. destruct (List.find (bmatch (k_bufs s) ROOTDEV m) (seq 0 NBUF)) as [y|]; [|done].
  unfold unref. destruct (decide (y = b)) as [->|]; [|by rewrite list_lookup_alter_ne].
  by rewrite list_lookup_alter_eq, Hx.
Qed.

Lemma relsed_ok : bc_ok (relse_order b (k_bufs s) order) (relsed b s).
Proof.
  pose proof unref_ok as Hu. unfold relse_order, relsed, relse.
  destruct (bunused (unref b (k_bufs s)) b); [|done].
  destruct (list_elem_of_split order b) as (o1 & o2 & ->); [by apply (order_all _ s Hok)|].
  pose proof (order_nodup _ s Hok) as Hnd. rewrite filter_split by done.
  set (s1 := s <| k_sleep := delete (SL_buf b) (k_sleep s) |> <| k_bufs := unref b (k_bufs s) |>) in *.
  assert (Hres : bc_ok (b :: o1 ++ o2) (s1 <| k_bufs := to_front b (k_bufs s1) |>)); [|exact Hres].
  apply (bc_ok_strip (o1 ++ b :: o2) (b :: o1 ++ o2) s1); [apply strip_to_front| | |done].
  - apply Permutation_middle.
  - apply to_front_seg; [|done|apply (bo_seg _ _ Hu)|done|apply (order_lt _ s Hok)].
    cbn. unfold unref. rewrite length_alter. apply (bo_len _ _ Hok).
Qed.

Lemma relsed_view m : view (relsed b s) m = view s m.
Proof.
  rewrite <- unref_view. unfold relsed, relse. destruct (bunused (unref b (k_bufs s)) b); [|done].
  set (s1 := s <| k_sleep := delete (SL_buf b) (k_sleep s) |> <| k_bufs := unref b (k_bufs s) |>).
  change (view (s1 <| k_bufs := to_front b (k_bufs s1) |>) m = view s1 m). apply view_strip, strip_to_front.
Qed.
End Release.

(** ** The cache is transparent *)
Section Transparent.
Context `{DiskOk}.

(** C14. [bread] returns the current contents of the block.  When the block is
    cached or some buffer is unused, it returns a buffer that holds block [n]
    with the contents the cache and the disk give it, locked by the caller; the
    contents of every block, and the disk, are as before, also when a buffer had
    to be recycled. *)
Theorem bread_spec i order s n b x tr :
  solo i s -> bc_ok order s -> vdisk_idle (k_vdisk s) -> blockno_ok n -> target order s ROOTDEV n = Some b ->
  k_sleep s !! SL_buf b = None -> k_bufs s !! b = Some x -> b_refcnt x + 1 < 2 ^ 32 ->
  exists s' x',
    bread ROOTDEV n s tr = Done b s' tr /\ solo i s' /\ bc_ok order s' /\ vdisk_idle (k_vdisk s') /\
    k_sleep s' = <[SL_buf b := pid_of i s]> (k_sleep s) /\
    k_bufs s' !! b = Some x' /\ b_blockno x' = n /\ b_valid x' <> 0 /\ b_data x' = view s n /\
    (forall m, view s' m = view s m) /\ k_disk s' = k_disk s /\ k_dhist s' = k_dhist s.
Proof.
  intros Hs Hok Hidle Hblk Ht Hl Hx Hmax. exists (loaded i b n s), (load n (view s n) x).
  split; [by apply (bread_run i order)|]. split; [by apply (solo_same i s)|].
  split; [by apply (loaded_ok i order s n b x)|]. split; [by apply loaded_idle|]. split; [done|].
  destruct (load_fields order s n b x Hok Ht Hx Hmax (view s n)) as (F1 & F2 & F3 & F4 & F5 & F6).
  split; [cbn; by rewrite list_lookup_alter_eq, Hx|]. split; [done|]. split; [done|]. split; [done|].
  split; [|done]. intros m. by apply (loaded_view i order s n b x).
Qed.

(** A cache whose buffers are all in use cannot serve a block it does not
    hold: [bread] panics, and only then. *)
Theorem bread_no_buffers i order s n tr :
  solo i s -> bc_ok order s -> target order s ROOTDEV n = None ->
  bread ROOTDEV n s tr = Panicked "bget: no buffers".
Proof.
  intros Hs Hok Ht. unfold bread. apply kbind_Panicked. unfold bget. kstep (solo_acquire i s Hs).
  destruct (buf_at order s Hok head) as [h Hh]; [done|]. kstep get_buf_run; [done|].
  assert (Hall : forall x, x ∈ order -> (x < NBUF)%nat /\ is_Some (k_bufs (enter L_bcache s) !! x)).
  { intros x Hx%(order_lt order s Hok). split; [done|]. destruct (buf_at order s Hok x) as [bx Hbx]; [lia|]. by exists bx. }
  pose proof (order_length order s Hok) as Hlen. pose proof (bo_seg _ _ Hok) as Hseg.
  rewrite (lookup_next (k_bufs (enter L_bcache s)) head h Hh).
  kstep (bget_cached_run ROOTDEV n order (S NBUF) head); [lia|done|done|].
  change (k_bufs (enter L_bcache s)) with (k_bufs s). unfold target in Ht.
  destruct (List.find (bmatch (k_bufs s) ROOTDEV n) order); [done|]. kstep get_buf_run; [done|].
  rewrite (lookup_prev (k_bufs (enter L_bcache s)) head h Hh).
  kstep (bget_unused_run order (S NBUF) head); [lia|done|done|].
  change (k_bufs (enter L_bcache s)) with (k_bufs s). by rewrite Ht.
Qed.

(** [brelse] gives the buffer back without changing any block's contents;
    when nobody else uses it, it becomes the most recently used buffer and the
    others keep their order. *)
Theorem brelse_spec i order s b x tr :
  solo i s -> bc_ok order s -> (b < NBUF)%nat -> k_bufs s !! b = Some x ->
  k_sleep s !! SL_buf b = Some (pid_of i s) -> 0 < b_refcnt x -> b_valid x <> 0 ->
  (b_refcnt x = 1 -> b_data x = k_disk s (b_blockno x)) ->
  exists s', brelse b s tr = Done tt s' tr /\ solo i s' /\
    bc_ok (if decide (b_refcnt x = 1) then b :: filter (fun y => y <> b) order else order) s' /\
    k_sleep s' = delete (SL_buf b) (k_sleep s) /\
    (forall m, view s' m = view s m) /\ k_disk s' = k_disk s.
Proof.
  intros Hs Hok Hb Hx Hl Hpos Hv Hclean. exists (relsed b s).
  split; [by apply (brelse_run i s b x); [| apply (bo_len _ _ Hok)|..]|].
  split; [by apply (solo_same i s)|]. split.
  - pose proof (relsed_ok order s b x Hok Hb Hx Hpos Hclean) as Hr. unfold relse_order in Hr.
    assert (E : bunused (unref b (k_bufs s)) b = bool_decide (b_refcnt x = 1)).
    { unfold bunused, unref. rewrite list_lookup_alter_eq, Hx. cbn.
      pose proof (unref_refcnt order s b x Hok Hb Hx Hpos) as Hu. cbn in Hu. rewrite Hu.
      apply eq_true_iff_eq. rewrite bool_decide_eq_true. lia. }
    rewrite E in Hr. destruct (decide (b_refcnt x = 1)) as [E1|E1].
    + by rewrite bool_decide_eq_true_2 in Hr.
    + by rewrite bool_decide_eq_false_2 in Hr.
  - split; [done|]. split; [|done]. intros m. by apply (relsed_view order s b x).
Qed.
End Transparent.

(** ** Initialization *)
Definition fresh (l : list buf) : Prop :=
  length l = S NBUF /\ forall x bx, (x < NBUF)%nat -> l !! x = Some bx ->
    b_dev bx = 0 /\ b_refcnt bx = 0 /\ b_valid bx = 0 /\ b_disk bx = 0.

Lemma fresh_strip (l l' : list buf) : strip <$> l' = strip <$> l -> fresh l -> fresh l'.
Proof.
  intros E [Hlen Hf]. split; [by rewrite <- (length_fmap strip), E, length_fmap|].
  intros x bx Hx Hbx. destruct (strip_lookup _ _ _ _ E Hbx) as (y & Hy & F).
  apply strip_fields in F as (-> & -> & -> & _ & -> & _). destruct (Hf x y Hx Hy) as (? & ? & ? & ?). done.
Qed.

(** After [k] iterations the first [k] buffers are linked, the last in front. *)
Definition binit_inv (k : nat) (s : kstate) : Prop :=
  fresh (k_bufs s) /\ seg (bnext (k_bufs s)) (bprev (k_bufs s)) head (rev (seq 0 k)) head /\
  (forall x, (x < k)%nat -> k_sleep s !! SL_buf x = None).

Lemma seq_rev_S k : rev (seq 0 (S k)) = k :: rev (seq 0 k).
Proof. rewrite seq_S, rev_app_distr. done. Qed.

Lemma elem_rev_seq x k : x ∈ rev (seq 0 k) <-> (x < k)%nat.
Proof. rewrite list_elem_of_In, <- List.in_rev, <- list_elem_of_In, elem_of_seq. lia. Qed.

Lemma fresh_match l n b : fresh l -> (b < NBUF)%nat -> bmatch l ROOTDEV n b = false.
Proof.
  intros [_ Hf] Hb. apply not_true_iff_false. intros (x & Hx & Hd & _)%bmatch_true.
  destruct (Hf b x Hb Hx) as [H0 _]. by rewrite H0 in Hd.
Qed.

Lemma fresh_ok s : fresh (k_bufs s) ->
  seg (bnext (k_bufs s)) (bprev (k_bufs s)) head (rev (seq 0 NBUF)) head ->
  (forall x, (x < NBUF)%nat -> k_sleep s !! SL_buf x = None) -> bc_ok (rev (seq 0 NBUF)) s.
Proof.
  intros Hf Hseg Hsl. pose proof Hf as [Hlen Hall]. split; try done.
  - symmetry. apply Permutation_rev.
  - intros x y n Hx Hy. by rewrite fresh_match.
  - intros x bx Hx Hbx. by destruct (Hall x bx Hx Hbx) as (_ & _ & -> & _).
  - intros x bx Hx Hbx. destruct (Hall x bx Hx Hbx) as (_ & -> & _). lia.
  - intros x bx Hx Hbx _. by apply Hsl.
  - intros x bx Hx Hbx _. by destruct (Hall x bx Hx Hbx) as (_ & _ & -> & _).
  - intros x bx Hx Hbx. by destruct (Hall x bx Hx Hbx) as (_ & _ & _ & ->).
Qed.

(** What [binit] does not touch. *)
Definition binit_frame (s s' : kstate) : Prop :=
  k_disk s' = k_disk s /\ k_tp s' = k_tp s /\ k_cpus s' = k_cpus s /\ k_procs s' = k_procs s /\
  k_dhist s' = k_dhist s /\ k_log s' = k_log s /\ (k_locks s = ∅ -> k_locks s' = ∅).

(** One iteration. *)
Lemma binit_step s0 tr k s : (k < NBUF)%nat -> binit_inv k s /\ binit_frame s0 s ->
  exists s',
    (let! h := get_buf head in
     set_next k (b_next h) ;;
     set_prev k head ;;
     initsleeplock (SL_buf k) ;;
     let! h := get_buf head in
     set_prev (b_next h) k ;;
     set_next head k) s tr = Done tt s' tr /\ binit_inv (S k) s' /\ binit_frame s0 s'.
Proof.
  intros Hk ((Hf & Hseg & Hsl) & Hd).
  assert (Hlen : length (k_bufs s) = S NBUF) by apply Hf.
  destruct (get_buf_len s tr head) as (h & Hh & En & _); [unfold head; lia|].
  exists (s <| k_bufs := push_front k (k_bufs s) |> <| k_locks ::= delete (L_sleep (SL_buf k)) |>
            <| k_sleep ::= delete (SL_buf k) |>).
  split; [|split; [split; [|split]|]].
  - kstep Hh. unfold set_next, set_prev, upd_buf, initsleeplock, initlock. rewrite En. do 4 kstep modify_run.
    match goal with |- kbind (get_buf head) _ ?st _ = _ =>
      destruct (get_buf_len st tr head) as (h1 & Hh1 & En1 & _) end.
    { cbn. rewrite !length_alter, Hlen. unfold head. lia. }
    kstep Hh1. rewrite En1. kstep modify_run. reflexivity.
  - eapply fresh_strip; [|exact Hf]. apply strip_push_front.
  - rewrite seq_rev_S. cbn [k_bufs upd_field]. apply push_front_seg; [done|done|done|..].
    + apply NoDup_ListNoDup, List.NoDup_rev, NoDup_ListNoDup, NoDup_seq.
    + intros x. rewrite elem_rev_seq. lia.
    + rewrite elem_rev_seq. lia.
  - intros x Hx. cbn. destruct (decide (x = k)) as [->|]; [apply lookup_delete_eq|].
    rewrite lookup_delete_ne by congruence. apply Hsl. lia.
  - destruct Hd as (? & ? & ? & ? & ? & ? & Hl). repeat (split; [done|]). intros E. cbn.
    by rewrite (Hl E), delete_empty.
Qed.

Lemma binit_run s tr :
  fresh (k_bufs s) ->
  exists s', binit s tr = Done tt s' tr /\ bc_ok (rev (seq 0 NBUF)) s' /\ binit_frame s s' /\ fresh (k_bufs s').
Proof.
  intros Hf. set (s1 := s <| k_locks ::= delete L_bcache |> <| k_bufs := put_next head head (put_prev head head (k_bufs s)) |>).
  destruct (for_each_inv (fun k s' => binit_inv k s' /\ binit_frame s s') (fun b =>
    let! h := get_buf head in
    set_next b (b_next h) ;;
    set_prev b head ;;
    initsleeplock (SL_buf b) ;;
    let! h := get_buf head in
    set_prev (b_next h) b ;;
    set_next head b) tr NBUF 0 s1) as (s' & Hrun & (Hf' & Hseg & Hsl) & Hd).
  - split; [split; [|split; [|lia]]|].
    + eapply fresh_strip; [|exact Hf]. cbn [k_bufs s1 upd_field]. by rewrite strip_put_next, strip_put_prev.
    + destruct Hf as [Hlen _]. cbn [seg rev seq k_bufs s1 upd_field]. links.
      rewrite bnext_put_next, bprev_put_prev by (links; unfold head; lia). by rewrite !decide_True.
    + repeat (split; [done|]). intros E. cbn. by rewrite E, delete_empty.
  - intros k s2 Hk Hinv. apply binit_step; [lia|done].
  - exists s'. split; [|split; [|done]].
    + unfold binit, initlock, set_next at 1, set_prev at 1, upd_buf. do 3 kstep modify_run. exact Hrun.
    + apply fresh_ok; [done|done|]. intros x Hx. apply Hsl. lia.
Qed.

(** [binit] sets up the cache: from the bss image of the buffers it builds
    the list of all buffers, and the cache's invariant holds with nothing cached,
    so that every block's contents are the disk's. *)
Theorem binit_spec s tr :
  fresh (k_bufs s) ->
  exists s', binit s tr = Done tt s' tr /\ bc_ok (rev (seq 0 NBUF)) s' /\
    k_disk s' = k_disk s /\ forall n, view s' n = k_disk s n.
Proof.
  intros Hf. destruct (binit_run s tr Hf) as (s' & Hrun & Hok & Hd & Hf').
  exists s'. split; [done|]. split; [done|]. split; [apply Hd|]. intros n. rewrite <- (proj1 Hd).
  apply view_uncached. intros b Hb. by apply fresh_match.
Qed.

(** ** A disk, and a process that uses the cache *)
Definition demo_driver : DiskDriver :=
  fun b write s tr => Done tt (disk_effect b write s) tr.

Lemma demo_driver_ok : @DiskOk demo_driver.
Proof. by intros i b write s tr bb Hs Hv Hb Hbb Hd Hn. Qed.

Definition demo_disk (n : Z) : list Z := replicate 1024 (n mod 256).

(** One process, running on hart 0, after [binit]. *)
Definition demo_alone : kstate :=
  boot_state <| k_procs := <[1%nat := demo_running]> (replicate NPROC proc_bss) |>
    <| k_cpus := <[0%nat := boot_cpu <| c_proc := Some 1%nat |>]> (replicate NCPU boot_cpu) |>
    <| k_disk := demo_disk |> <| k_vdisk := vdisk_bss <| v_free := replicate NUM true |> |>.

Definition done_state {A} (o : outcome kstate A) : kstate :=
  match o with Done _ s _ => s | _ => boot_state end.
Definition demo_cache : kstate := done_state (binit demo_alone []).

Lemma demo_fresh : fresh (k_bufs demo_alone).
Proof.
  split; [done|]. intros x bx Hx Hbx. change (replicate (S NBUF) buf_bss !! x = Some bx) in Hbx.
  by apply lookup_replicate in Hbx as [-> _].
Qed.

Lemma demo_alone_solo : solo 1 demo_alone.
Proof.
  split.
  - split; [|done|done]. exists (boot_cpu <| c_proc := Some 1%nat |>). split; [done|]. split; cbn; [lia|done].
  - done.
  - by exists (boot_cpu <| c_proc := Some 1%nat |>).
  - by exists demo_running.
  - apply Forall_insert; [|done]. by apply Forall_replicate.
Qed.

Lemma demo_cache_ok :
  bc_ok (rev (seq 0 NBUF)) demo_cache /\ fresh (k_bufs demo_cache) /\ solo 1 demo_cache /\ k_disk demo_cache = demo_disk.
Proof.
  destruct (binit_run demo_alone [] demo_fresh) as (s' & Hrun & Hok & (D1 & D2 & D3 & D4 & D5 & D6 & D7) & Hf).
  unfold demo_cache. rewrite Hrun. cbn [done_state]. split; [done|]. split; [done|]. split; [|done].
  apply (solo_same 1 demo_alone); [|apply demo_alone_solo]. split; [done|]. split; [done|]. split; [|done].
  by rewrite D7.
Qed.

Lemma demo_alone_idle : vdisk_idle (k_vdisk demo_alone).
Proof. by split. Qed.

Lemma demo_cache_idle : vdisk_idle (k_vdisk demo_cache).
Proof. replace (k_vdisk demo_cache) with (k_vdisk demo_alone) by (vm_compute; reflexivity). exact demo_alone_idle. Qed.

Lemma demo_cache_blk x bx : (x < NBUF)%nat -> k_bufs demo_cache !! x = Some bx -> blockno_ok (b_blockno bx).
Proof.
  intros _ Hx. assert (E : forallb (fun b => b_blockno b =? 0) (k_bufs demo_cache) = true) by (vm_compute; reflexivity).
  rewrite forallb_forall in E. apply list_elem_of_lookup_2, list_elem_of_In, E in Hx. unfold blockno_ok. lia.
Qed.

Lemma demo_cache_sleep : k_sleep demo_cache = ∅.
Proof. vm_compute. reflexivity. Qed.
#[global] Opaque demo_cache.

Lemma binit_spec_witness :
  exists s', binit demo_alone [] = Done tt s' [] /\ bc_ok (rev (seq 0 NBUF)) s' /\
    k_disk s' = k_disk demo_alone /\ forall n, view s' n = k_disk demo_alone n.
Proof. apply (binit_spec demo_alone []). exact demo_fresh. Defined.

Lemma demo_target : target (rev (seq 0 NBUF)) demo_cache ROOTDEV 5 = Some 0%nat.
Proof. by vm_compute. Qed.

Lemma demo_buf0 : exists x, k_bufs demo_cache !! 0%nat = Some x /\ b_refcnt x = 0.
Proof.
  destruct demo_cache_ok as (Hok & [_ Hf] & _). destruct (buf_at _ _ Hok 0) as [x Hx]; [lia|].
  exists x. split; [done|]. by destruct (Hf 0%nat x) as (_ & ? & _); [unfold NBUF; lia|done|].
Qed.

Lemma demo_unlocked b : (b < NBUF)%nat -> k_sleep demo_cache !! SL_buf b = None.
Proof.
  destruct demo_cache_ok as (Hok & [_ Hf] & _). intros Hb. destruct (buf_at _ _ Hok b) as [x Hx]; [lia|].
  apply (bo_lock _ _ Hok b x Hb Hx). by destruct (Hf b x Hb Hx) as (_ & ? & _).
Qed.

Lemma bread_spec_witness :
  exists s' x', @bread demo_driver ROOTDEV 5 demo_cache [] = Done 0%nat s' [] /\
    solo 1 s' /\ bc_ok (rev (seq 0 NBUF)) s' /\ vdisk_idle (k_vdisk s') /\
    k_sleep s' = <[SL_buf 0 := pid_of 1 demo_cache]> (k_sleep demo_cache) /\
    k_bufs s' !! 0%nat = Some x' /\ b_blockno x' = 5 /\ b_valid x' <> 0 /\ b_data x' = view demo_cache 5 /\
    (forall m, view s' m = view demo_cache m) /\ k_disk s' = k_disk demo_cache /\ k_dhist s' = k_dhist demo_cache.
Proof.
  destruct demo_buf0 as (x & Hx & Hr). destruct demo_cache_ok as (Hok & _ & Hs & _).
  apply (@bread_spec demo_driver demo_driver_ok 1 (rev (seq 0 NBUF)) demo_cache 5 0 x []);
    [exact Hs|exact Hok|exact demo_cache_idle|unfold blockno_ok; lia|exact demo_target| |exact Hx|].
  - apply demo_unlocked. unfold NBUF. lia.
  - rewrite Hr. lia.
Defined.

Lemma brelse_spec_witness : exists x,
  k_bufs (loaded 1 0 5 demo_cache) !! 0%nat = Some x /\
  exists s', brelse 0 (loaded 1 0 5 demo_cache) [] = Done tt s' [] /\ solo 1 s' /\
    bc_ok (if decide (b_refcnt x = 1) then 0%nat :: filter (fun y => y <> 0%nat) (rev (seq 0 NBUF)) else rev (seq 0 NBUF)) s' /\
    k_sleep s' = delete (SL_buf 0) (k_sleep (loaded 1 0 5 demo_cache)) /\
    (forall m, view s' m = view (loaded 1 0 5 demo_cache) m) /\ k_disk s' = k_disk (loaded 1 0 5 demo_cache).
Proof.
  destruct demo_buf0 as (x & Hx & Hr). destruct demo_cache_ok as (Hok & Hf & Hs & Hd).
  assert (Hmax : b_refcnt x + 1 < 2 ^ 32) by (rewrite Hr; lia).
  destruct (load_fields _ demo_cache 5 0 x Hok demo_target Hx Hmax (view demo_cache 5)) as (F1 & F2 & F3 & F4 & F5 & F6).
  exists (load 5 (view demo_cache 5) x). assert (Hx' : k_bufs (loaded 1 0 5 demo_cache) !! 0%nat = Some (load 5 (view demo_cache 5) x))
    by (cbn [loaded k_bufs upd_field]; by rewrite list_lookup_alter_eq, Hx).
  split; [done|].
  apply (brelse_spec 1 (rev (seq 0 NBUF)) (loaded 1 0 5 demo_cache) 0 (load 5 (view demo_cache 5) x) []).
  - apply (solo_same 1 demo_cache); [|exact Hs]. repeat split.
  - exact (loaded_ok 1 _ demo_cache 5 0 x Hok demo_target Hx Hmax).
  - unfold NBUF. lia.
  - exact Hx'.
  - cbn [loaded k_sleep upd_field]. apply lookup_insert_eq.
  - lia.
  - exact F4.
  - intros _. rewrite F6, F2. cbn [loaded k_disk upd_field]. apply view_uncached. intros b Hb. by apply fresh_match.
Defined.

(** Every buffer in use. *)
Definition all_used (s : kstate) : kstate := s <| k_bufs ::= fmap (fun x => x <| b_refcnt := 1 |>) |>.
Definition demo_full : kstate := all_used demo_cache.

Lemma all_used_ok order s : bc_ok order s -> fresh (k_bufs s) -> bc_ok order (all_used s).
Proof.
  intros Hok Hf. pose proof Hf as [Hlen Hall]. pose proof Hok as [H1 H2 H3 H4 H5 H6 H7 H8 H9].
  assert (Hlk : forall x bx, k_bufs (all_used s) !! x = Some bx ->
    exists bx0, k_bufs s !! x = Some bx0 /\ bx = bx0 <| b_refcnt := 1 |>).
  { intros x bx. cbn [all_used k_bufs upd_field]. rewrite list_lookup_fmap.
    destruct (k_bufs s !! x) as [y|]; [|done]. intros [= <-]. by exists y. }
  assert (Hm : forall n x, (x < NBUF)%nat -> bmatch (k_bufs (all_used s)) ROOTDEV n x = false).
  { intros n x Hx. apply not_true_iff_false. intros (bx & Hbx & Hd & _)%bmatch_true.
    destruct (Hlk x bx Hbx) as (y & Hy & ->). destruct (Hall x y Hx Hy) as [E _]. cbn in Hd. by rewrite E in Hd. }
  split.
  - cbn [all_used k_bufs upd_field]. by rewrite length_fmap.
  - done.
  - eapply seg_ext; [| |exact H3]; intros y _; unfold bnext, bprev; cbn [all_used k_bufs upd_field];
      rewrite list_lookup_fmap; by destruct (k_bufs s !! y).
  - intros x y n Hx Hy. by rewrite Hm.
  - intros x bx Hx Hbx. destruct (Hlk x bx Hbx) as (y & Hy & ->). by apply (H5 x y).
  - intros x bx Hx Hbx. destruct (Hlk x bx Hbx) as (y & Hy & ->). cbn. lia.
  - intros x bx Hx Hbx. destruct (Hlk x bx Hbx) as (y & Hy & ->). cbn. lia.
  - intros x bx Hx Hbx. destruct (Hlk x bx Hbx) as (y & Hy & ->). cbn. lia.
  - intros x bx Hx Hbx. destruct (Hlk x bx Hbx) as (y & Hy & ->). by apply (H9 x y).
Qed.

Lemma demo_full_ok : bc_ok (rev (seq 0 NBUF)) demo_full.
Proof. destruct demo_cache_ok as (Hok & Hf & _). exact (all_used_ok _ _ Hok Hf). Qed.

Lemma bread_no_buffers_witness : @bread demo_driver ROOTDEV 5 demo_full [] = Panicked "bget: no buffers".
Proof.
  destruct demo_cache_ok as (_ & _ & Hs & _).
  apply (@bread_no_buffers demo_driver 1 (rev (seq 0 NBUF)) demo_full 5 []).
  - apply (solo_same 1 demo_cache); [|exact Hs]. repeat split.
  - exact demo_full_ok.
  - by vm_compute.
Defined.
