(* ===== verification/Cache.v ===== *)
(** * Using the buffer cache from one process

    [busy i pins outs s] describes the cache while process [i] runs alone: it
    has checked out the buffers [outs] (it holds their sleep locks), and the log
    has pinned the blocks [pins].  The lemmas give each operation of the cache
    as a transition between such states, in terms of the contents of blocks
    ([view]), the disk and the order of its writes.  This is the interface the
    log and the file system use. *)

From stdpp Require Import prelude list strings gmap.
From Stdlib Require Import ZArith Lia ZifyBool.
From S2P Require Import Prelude State Spinlock Proc Sleeplock Bio.
Local Open Scope Z_scope.

(** How often buffer [x] is referenced. *)
Definition pin_count (pins : gset Z) (bx : buf) : Z :=
  if decide (b_dev bx = ROOTDEV /\ b_valid bx <> 0 /\ b_blockno bx ∈ pins) then 1 else 0.
Definition out_count (outs : gset nat) (x : nat) : Z := if decide (x ∈ outs) then 1 else 0.

Record busy (i : nat) (pins : gset Z) (outs : gset nat) (s : kstate) : Prop := {
  by_solo : solo i s;
  by_disk : vdisk_idle (k_vdisk s);
  by_blk : forall x bx, (x < NBUF)%nat -> k_bufs s !! x = Some bx -> blockno_ok (b_blockno bx);
  by_cache : exists order, bc_ok order s;
  by_lock : forall x, k_sleep s !! SL_buf x = if decide (x ∈ outs) then Some (pid_of i s) else None;
  by_ref : forall x bx, (x < NBUF)%nat -> k_bufs s !! x = Some bx ->
    b_refcnt bx = pin_count pins bx + out_count outs x;
  by_pins : forall n, n ∈ pins -> exists x bx, (x < NBUF)%nat /\ k_bufs s !! x = Some bx /\
    b_dev bx = ROOTDEV /\ b_blockno bx = n /\ b_valid bx <> 0;
  by_outs : forall x, x ∈ outs -> (x < NBUF)%nat /\ exists bx, k_bufs s !! x = Some bx /\ b_valid bx <> 0 }.

(** Memory, the sleep locks of inodes and the globals no file-system code touches. *)
Definition same_others (s s' : kstate) : Prop :=
  k_mem s' = k_mem s /\ (forall x, k_sleep s' !! SL_inode x = k_sleep s !! SL_inode x) /\
  k_freelist s' = k_freelist s /\ k_initproc s' = k_initproc s /\ k_pipes s' = k_pipes s /\
  k_devsw s' = k_devsw s /\ k_cons s' = k_cons s.

Lemma same_others_trans s1 s2 s3 : same_others s1 s2 -> same_others s2 s3 -> same_others s1 s3.
Proof. intros (? & ? & ? & ? & ? & ? & ?) (? & ? & ? & ? & ? & ? & ?). repeat split; congruence. Qed.

(** Everything but the cache's buffers, their locks and the disk. *)
Definition same_rest (s s' : kstate) : Prop :=
  same_threads s s' /\ k_log s' = k_log s /\ k_sb s' = k_sb s /\ k_inodes s' = k_inodes s /\
  k_files s' = k_files s /\ same_others s s'.

Ltac same_rest :=
  repeat split; try done; intros; cbn; by rewrite ?lookup_insert_ne, ?lookup_delete_ne by done.

Lemma same_rest_refl s : same_rest s s.
Proof. by repeat split. Qed.

Lemma same_rest_trans s1 s2 s3 : same_rest s1 s2 -> same_rest s2 s3 -> same_rest s1 s3.
Proof.
  intros ((A1 & A2 & A3 & A4) & A5 & A6 & A7 & A8 & A9) ((B1 & B2 & B3 & B4) & B5 & B6 & B7 & B8 & B9).
  repeat (split; [repeat split; congruence|]). by apply (same_others_trans _ s2).
Qed.

(** ** An unused buffer is left as long as fewer than [NBUF] are pinned or out *)
Section Free.
Context (i : nat) (pins : gset Z) (outs : gset nat) (s : kstate) (Hs : busy i pins outs s).
Context (order : list nat) (Hok : bc_ok order s).

Definition used (x : nat) : bool := negb (bunused (k_bufs s) x).
Definition block_of (x : nat) : Z := match k_bufs s !! x with Some bx => b_blockno bx | None => 0 end.

Lemma used_cases x : (x < NBUF)%nat -> used x = true ->
  x ∈ outs \/ block_of x ∈ pins /\ bmatch (k_bufs s) ROOTDEV (block_of x) x = true.
Proof.
  intros Hx Hu. destruct (buf_at order s Hok x) as [bx Hbx]; [lia|].
  unfold used, bunused in Hu. rewrite Hbx in Hu. pose proof (by_ref _ _ _ _ Hs x bx Hx Hbx) as Hr.
  unfold out_count, pin_count in Hr. destruct (decide (x ∈ outs)); [by left|]. right.
  unfold block_of. rewrite Hbx. destruct (decide _) as [(Hd & _ & Hp)|]; [|lia].
  split; [done|]. apply bmatch_true. by exists bx.
Qed.

Definition key (x : nat) : nat + Z := if decide (x ∈ outs) then inl x else inr (block_of x).

Lemma used_bound (U : list nat) :
  List.NoDup U -> (forall x, List.In x U -> (x < NBUF)%nat /\ used x = true) ->
  (length U <= size outs + size pins)%nat.
Proof.
  intros HU Hin.
  assert (Hmap : List.NoDup (List.map key U)).
  { apply NoDup_ListNoDup, NoDup_fmap_2_strong; [|by apply NoDup_ListNoDup].
    intros x y Hx Hy E. apply list_elem_of_In, Hin in Hx as [Hx Hux]. apply list_elem_of_In, Hin in Hy as [Hy Huy].
    unfold key in E. destruct (used_cases x Hx Hux) as [Ho|[_ Hm]], (used_cases y Hy Huy) as [Ho'|[_ Hm']];
      repeat destruct (decide _); simplify_eq; try done.
    rewrite E in Hm. by apply (bo_uniq _ _ Hok x y (block_of y)). }
  pose proof (List.NoDup_incl_length Hmap (l' := (inl <$> elements outs) ++ (inr <$> elements pins))) as Hle.
  rewrite List.length_map in Hle. rewrite length_app, !length_fmap in Hle. apply Hle.
  intros k Hk. apply list_elem_of_In. apply List.in_map_iff in Hk as (x & <- & Hx). apply Hin in Hx as [Hx Hu].
  unfold key. apply elem_of_app. destruct (decide (x ∈ outs)) as [Ho|Ho].
  - left. apply list_elem_of_fmap_2. by apply elem_of_elements.
  - right. apply list_elem_of_fmap_2. destruct (used_cases x Hx Hu) as [|[Hp _]]; [done|]. by apply elem_of_elements.
Qed.

Lemma target_some n : (size outs + size pins < NBUF)%nat -> exists b, target order s ROOTDEV n = Some b.
Proof.
  intros Hlt. unfold target. destruct (List.find _ order) as [b|]; [by exists b|].
  destruct (List.find (bunused (k_bufs s)) (rev order)) as [b|] eqn:E; [by exists b|]. exfalso.
  assert (Hall : forall x, (x < NBUF)%nat -> used x = true).
  { intros x Hx. eapply List.find_none in E; [unfold used; by rewrite E|].
    apply (proj1 (List.in_rev _ _)), list_elem_of_In, (order_all order s Hok), Hx. }
  pose proof (used_bound order) as Hb. rewrite (order_length order s Hok) in Hb.
  apply Nat.lt_nge in Hlt. apply Hlt, Hb; [apply NoDup_ListNoDup, (order_nodup order s Hok)|].
  intros x Hx%list_elem_of_In%(order_lt order s Hok). auto.
Qed.

Lemma target_pinned n : n ∈ pins -> exists b, target order s ROOTDEV n = Some b.
Proof.
  intros Hn. destruct (by_pins _ _ _ _ Hs n Hn) as (x & bx & Hx & Hbx & Hd & Hbn & _). unfold target.
  destruct (List.find _ order) as [b|] eqn:E; [by exists b|].
  eapply List.find_none in E; [|by apply list_elem_of_In, (order_all order s Hok)].
  by rewrite (proj2 (bmatch_true _ _ _ _)) in E by (by exists bx).
Qed.
End Free.

Lemma in_add (b y : nat) (outs : gset nat) : y <> b -> y ∈ {[b]} ∪ outs <-> y ∈ outs.
Proof. intros Hne. rewrite elem_of_union, elem_of_singleton. tauto. Qed.

Lemma in_add_self (b : nat) (outs : gset nat) : b ∈ {[b]} ∪ outs.
Proof. rewrite elem_of_union, elem_of_singleton. tauto. Qed.

Lemma out_add b y outs : y <> b -> out_count ({[b]} ∪ outs) y = out_count outs y.
Proof. intros Hne. unfold out_count. by rewrite (decide_ext _ _ _ _ (in_add b y outs Hne)). Qed.

Lemma out_self b outs : out_count ({[b]} ∪ outs) b = 1.
Proof. unfold out_count. by rewrite (decide_True _ _ (in_add_self b outs)). Qed.

(** ** The operations *)
Section Ops.
Context `{DiskOk} (i : nat).

(** Two checked-out buffers hold different blocks, and a block has one buffer. *)
Lemma busy_unique pins outs s x y bx by_ : busy i pins outs s ->
  (x < NBUF)%nat -> (y < NBUF)%nat -> k_bufs s !! x = Some bx -> k_bufs s !! y = Some by_ ->
  b_valid bx <> 0 -> b_valid by_ <> 0 -> b_blockno bx = b_blockno by_ -> x = y.
Proof.
  intros Hs Hx Hy Hbx Hby Hvx Hvy E. destruct (by_cache _ _ _ _ Hs) as [order Hok].
  apply (bo_uniq _ _ Hok x y (b_blockno by_) Hx Hy); apply bmatch_true.
  - exists bx. split; [done|]. split; [by apply (bo_dev _ _ Hok x)|done].
  - exists by_. split; [done|]. split; [by apply (bo_dev _ _ Hok y)|done].
Qed.

(** [n] is not the block of a checked-out buffer. *)
Definition not_out (outs : gset nat) (n : Z) (s : kstate) : Prop :=
  forall x bx, x ∈ outs -> k_bufs s !! x = Some bx -> b_blockno bx <> n.

Lemma load_refcnt pins outs s order n b x d :
  busy i pins outs s -> bc_ok order s -> target order s ROOTDEV n = Some b -> b ∉ outs ->
  k_bufs s !! b = Some x -> b_refcnt (load n d x) = pin_count pins (load n d x) + 1.
Proof.
  intros Hs Hok Ht Hout Hx. pose proof (target_lt order s ROOTDEV n b Hok Ht) as Hb.
  pose proof (by_ref _ _ _ _ Hs b x Hb Hx) as Hr. unfold out_count in Hr. rewrite decide_False in Hr by done.
  assert (Hmax : b_refcnt x + 1 < 2 ^ 32) by (unfold pin_count in Hr; destruct (decide _); lia).
  destruct (load_fields order s n b x Hok Ht Hx Hmax d) as (F1 & F2 & F3 & F4 & _).
  assert (Hp : pin_count pins (load n d x) = if decide (n ∈ pins) then 1 else 0).
  { unfold pin_count. rewrite F1, F2. destruct (decide (n ∈ pins)); [by rewrite decide_True|].
    rewrite decide_False; [done|]. tauto. }
  rewrite Hp. unfold load, claim. destruct (_ && _) eqn:E; cbn.
  - apply andb_true_iff in E as [E1 E2]. unfold u32. rewrite Z.mod_small by (unfold pin_count in Hr; destruct (decide _); lia).
    rewrite Hr. unfold pin_count. destruct (decide (n ∈ pins)) as [Hn|Hn].
    + destruct (by_pins _ _ _ _ Hs n Hn) as (y & by_ & Hy & Hby & Hd & Hby2 & Hv).
      assert (y = b) as ->.
      { apply (bo_uniq _ _ Hok y b n Hy Hb); apply bmatch_true; [by exists by_|]. exists x. split; [done|]. lia. }
      rewrite Hx in Hby. injection Hby as <-. rewrite decide_True; [done|]. by rewrite Hby2.
    + rewrite decide_False; [done|]. intros (_ & _ & Hin). replace (b_blockno x) with n in Hin by lia. done.
  - rewrite decide_False; [done|]. intros Hn.
    destruct (by_pins _ _ _ _ Hs n Hn) as (y & by_ & Hy & Hby & Hd & Hby2 & Hv).
    assert (Hym : bmatch (k_bufs s) ROOTDEV n y = true) by (apply bmatch_true; by exists by_).
    destruct (target_cases order s Hok n ROOTDEV b Ht) as [Hm|[_ Hno]]; [|by rewrite Hno in Hym].
    unfold bmatch in Hm. rewrite Hx, E in Hm. done.
Qed.

Lemma busy_bread pins outs n s tr :
  busy i pins outs s -> not_out outs n s -> n ∈ pins \/ ((size outs + size pins < NBUF)%nat /\ blockno_ok n) ->
  exists b s' x',
    bread ROOTDEV n s tr = Done b s' tr /\ (b ∉ outs) /\ busy i pins ({[b]} ∪ outs) s' /\
    k_bufs s' !! b = Some x' /\ b_blockno x' = n /\ b_data x' = view s n /\ b_valid x' <> 0 /\
    (forall m, view s' m = view s m) /\ k_disk s' = k_disk s /\ k_dhist s' = k_dhist s /\
    same_rest s s' /\ (forall y, y <> b -> k_bufs s' !! y = k_bufs s !! y).
Proof.
  intros Hs Hno Hsz. destruct (by_cache _ _ _ _ Hs) as [order Hok].
  assert (Hblk : blockno_ok n).
  { destruct Hsz as [Hp|[_ ?]]; [|done]. destruct (by_pins _ _ _ _ Hs n Hp) as (x & bx & Hx & Hbx & _ & <- & _).
    by apply (by_blk _ _ _ _ Hs x bx). }
  assert (exists b, target order s ROOTDEV n = Some b) as [b Ht].
  { destruct Hsz as [Hp|[Hsz _]]; [by apply (target_pinned i pins outs)|by apply (target_some i pins outs)]. }
  pose proof (target_lt order s ROOTDEV n b Hok Ht) as Hb.
  destruct (target_buf order s ROOTDEV n b Hok Ht) as [x Hx].
  pose proof (by_ref _ _ _ _ Hs b x Hb Hx) as Hr.
  assert (Hout : b ∉ outs).
  { intros Hin. destruct (target_cases order s Hok n ROOTDEV b Ht) as [Hm|[Hu _]].
    - apply bmatch_true in Hm as (x0 & Hx0 & _ & E). by apply (Hno b x0).
    - unfold bunused in Hu. rewrite Hx in Hu. unfold out_count in Hr. rewrite (decide_True _ _ Hin) in Hr.
      unfold pin_count in Hr. destruct (decide _); lia. }
  assert (Hl : k_sleep s !! SL_buf b = None) by (rewrite (by_lock _ _ _ _ Hs); by rewrite decide_False).
  assert (Hmax : b_refcnt x + 1 < 2 ^ 32) by (unfold out_count, pin_count in Hr; repeat destruct (decide _); lia).
  destruct (load_fields order s n b x Hok Ht Hx Hmax (view s n)) as (F1 & F2 & F3 & F4 & F5 & F6).
  assert (Hx' : k_bufs (loaded i b n s) !! b = Some (load n (view s n) x))
    by (cbn; by rewrite list_lookup_alter_eq, Hx).
  assert (Hothers : forall y, y <> b -> k_bufs (loaded i b n s) !! y = k_bufs s !! y)
    by (intros y Hy; cbn; by rewrite list_lookup_alter_ne).
  assert (Hsolo : solo i s) by apply Hs. assert (Hidle : vdisk_idle (k_vdisk s)) by apply Hs.
  exists b, (loaded i b n s), (load n (view s n) x).
  split; [by apply (bread_run i order)|]. split; [done|]. split.
  2: { repeat (split; [done|]). split; [intros m; by apply (loaded_view i order s n b x)|]. repeat (split; [done|]). split; [same_rest|done]. }
  split.
  - by apply (solo_same i s).
  - by apply loaded_idle.
  - intros y by_ Hy Hby. destruct (decide (y = b)) as [->|Hne].
    + rewrite Hx' in Hby. injection Hby as <-. by rewrite F2.
    + rewrite Hothers in Hby by done. by apply (by_blk _ _ _ _ Hs y by_).
  - exists order. by apply (loaded_ok i order s n b x).
  - intros y. change (pid_of i (loaded i b n s)) with (pid_of i s). cbn [loaded k_sleep upd_field].
    destruct (decide (y = b)) as [->|Hne].
    + by rewrite lookup_insert_eq, (decide_True _ _ (in_add_self b outs)).
    + rewrite lookup_insert_ne by congruence. rewrite (by_lock _ _ _ _ Hs).
      by rewrite (decide_ext _ _ _ _ (in_add b y outs Hne)).
  - intros y by_ Hy Hby. destruct (decide (y = b)) as [->|Hne].
    + rewrite Hx' in Hby. injection Hby as <-. rewrite out_self. by apply (load_refcnt pins outs s order n b x).
    + rewrite Hothers in Hby by done. rewrite (by_ref _ _ _ _ Hs y by_ Hy Hby). by rewrite out_add.
  - intros m Hm. destruct (by_pins _ _ _ _ Hs m Hm) as (y & by_ & Hy & Hby & Hd & Hn & Hv).
    destruct (decide (y = b)) as [->|Hne]; [|exists y, by_; by rewrite Hothers].
    rewrite Hx in Hby. injection Hby as <-. exists b, (load n (view s n) x). rewrite F1, F2.
    repeat (split; [done|]). split; [|done].
    destruct (target_cases order s Hok n ROOTDEV b Ht) as [Hm2|[Hu _]].
    + apply bmatch_true in Hm2 as (x0 & Hx0 & _ & E). congruence.
    + unfold bunused in Hu. rewrite Hx in Hu. unfold pin_count, out_count in Hr.
      rewrite decide_True in Hr by (by rewrite Hn). destruct (decide _); lia.
  - intros y Hy. apply elem_of_union in Hy as [->%elem_of_singleton|Hy]; [by eauto|].
    destruct (by_outs _ _ _ _ Hs y Hy) as [Hy' Hex]. split; [done|].
    rewrite Hothers; [done|]. by intros ->.
Qed.

(** A change of a checked-out buffer's data or reference count. *)
Section Change.
Context (pins pins' : gset Z) (outs : gset nat) (s : kstate) (b : nat) (x : buf) (f : buf -> buf).
Context (Hs : busy i pins outs s) (Hb : b ∈ outs) (Hx : k_bufs s !! b = Some x).
Context (Hlinks : forall y, b_next (f y) = b_next y /\ b_prev (f y) = b_prev y).
Context (Hkey : b_dev (f x) = b_dev x /\ b_blockno (f x) = b_blockno x /\ b_valid (f x) = b_valid x /\ b_disk (f x) = b_disk x).
Context (Href : b_refcnt (f x) = pin_count pins' (f x) + 1).
Context (Hpins : forall n, n <> b_blockno x -> n ∈ pins' <-> n ∈ pins).

Definition changed : kstate := s <| k_bufs := alter f b (k_bufs s) |>.

Lemma out_buf : (b < NBUF)%nat /\ b_valid x <> 0.
Proof.
  destruct (by_outs _ _ _ _ Hs b Hb) as (Hlt & x0 & Hx0 & Hv). rewrite Hx in Hx0. by injection Hx0 as <-.
Qed.

Lemma changed_at : k_bufs changed !! b = Some (f x).
Proof. cbn. by rewrite list_lookup_alter_eq, Hx. Qed.

Lemma changed_other y : y <> b -> k_bufs changed !! y = k_bufs s !! y.
Proof. intros Hy. cbn. by rewrite list_lookup_alter_ne. Qed.

Lemma changed_pos : 0 < b_refcnt (f x) < 2 ^ 32.
Proof. rewrite Href. unfold pin_count. destruct (decide _); lia. Qed.

Lemma changed_busy : busy i pins' outs changed.
Proof.
  destruct out_buf as [Hlt Hv]. destruct (by_cache _ _ _ _ Hs) as [order Hok]. pose proof changed_pos as Hpos.
  assert (Hsolo : solo i s) by apply Hs. destruct Hkey as (K1 & K2 & K3 & K4).
  split.
  - by apply (solo_same i s).
  - apply (by_disk _ _ _ _ Hs).
  - intros y by_ Hy Hby. destruct (decide (y = b)) as [->|Hne].
    + rewrite changed_at in Hby. injection Hby as <-. rewrite K2. by apply (by_blk _ _ _ _ Hs b x).
    + rewrite changed_other in Hby by done. by apply (by_blk _ _ _ _ Hs y by_).
  - exists order. apply (update_ok order s b x f); try done; lia.
  - intros y. apply Hs.
  - intros y by_ Hy Hby. destruct (decide (y = b)) as [->|Hne].
    + rewrite changed_at in Hby. injection Hby as <-. rewrite Href. unfold out_count. by rewrite decide_True.
    + rewrite changed_other in Hby by done. rewrite (by_ref _ _ _ _ Hs y by_ Hy Hby). f_equal.
      unfold pin_count. destruct (decide (b_valid by_ = 0)) as [E0|E0].
      { rewrite !decide_False by tauto. done. }
      assert (Hbn : b_blockno by_ <> b_blockno x).
      { intros E. apply Hne. by apply (busy_unique pins outs s y b by_ x). }
      apply decide_ext. by rewrite (Hpins _ Hbn).
  - intros n Hn. destruct (decide (n = b_blockno x)) as [->|Hne].
    + exists b, (f x). rewrite K1, K2, K3. split; [done|]. split; [apply changed_at|].
      split; [by apply (bo_dev _ _ Hok b)|done].
    + apply (Hpins n Hne) in Hn. destruct (by_pins _ _ _ _ Hs n Hn) as (y & by_ & Hy & Hby & Hd & Hbn & Hvy).
      exists y, by_. rewrite changed_other; [done|]. intros ->. rewrite Hx in Hby. injection Hby as <-. done.
  - intros y Hy. destruct (decide (y = b)) as [->|Hne].
    + split; [done|]. exists (f x). rewrite K3. split; [apply changed_at|done].
    + rewrite changed_other by done. apply (by_outs _ _ _ _ Hs y Hy).
Qed.

Lemma changed_view m : view changed m = if decide (m = b_blockno x) then b_data (f x) else view s m.
Proof.
  destruct out_buf as [Hlt Hv]. destruct (by_cache _ _ _ _ Hs) as [order Hok]. pose proof changed_pos.
  apply (update_view order s b x f); try done; lia.
Qed.
End Change.

(** The facts about a held buffer that the other operations need. *)
Lemma busy_out pins outs s b x : busy i pins outs s -> b ∈ outs -> k_bufs s !! b = Some x ->
  (b < NBUF)%nat /\ b_valid x <> 0 /\ k_sleep s !! SL_buf b = Some (pid_of i s) /\
  b_refcnt x = pin_count pins x + 1.
Proof.
  intros Hs Hb Hx. destruct (out_buf pins outs s b x Hs Hb Hx) as [Hlt Hv].
  split; [done|]. split; [done|]. split; [rewrite (by_lock _ _ _ _ Hs); by rewrite decide_True|].
  rewrite (by_ref _ _ _ _ Hs b x Hlt Hx). unfold out_count. by rewrite decide_True.
Qed.

Lemma busy_set pins outs s b x (f : list Z -> list Z) tr :
  busy i pins outs s -> b ∈ outs -> k_bufs s !! b = Some x ->
  let g := fun y : buf => y <| b_data := f (b_data y) |> in
  upd_buf b g s tr = Done tt (changed s b g) tr /\ busy i pins outs (changed s b g) /\
  k_bufs (changed s b g) !! b = Some (g x) /\
  (forall m, view (changed s b g) m = if decide (m = b_blockno x) then f (b_data x) else view s m).
Proof.
  intros Hs Hb Hx g. destruct (busy_out pins outs s b x Hs Hb Hx) as (_ & _ & _ & Hr).
  split; [done|]. split; [by apply (changed_busy pins pins outs s b x g)|].
  split; [by apply changed_at|]. intros m. by apply (changed_view pins pins outs s b x g).
Qed.

Lemma busy_bwrite pins outs s b x tr :
  busy i pins outs s -> b ∈ outs -> k_bufs s !! b = Some x ->
  exists s', bwrite b s tr = Done tt s' tr /\ busy i pins outs s' /\ k_bufs s' = k_bufs s /\
    (forall m, view s' m = view s m) /\
    (forall m, k_disk s' m = if decide (m = b_blockno x) then b_data x else k_disk s m) /\
    k_dhist s' = (b_blockno x, b_data x) :: k_dhist s /\ same_rest s s'.
Proof.
  intros Hs Hb Hx. destruct (by_cache _ _ _ _ Hs) as [order Hok].
  destruct (busy_out pins outs s b x Hs Hb Hx) as (Hlt & Hv & Hl & _).
  destruct (write_same s b x Hx) as (E1 & E2 & E3).
  assert (Hsame : same_rest s (disk_effect b true s)) by (unfold disk_effect; rewrite Hx; by repeat split).
  assert (Hsolo : solo i s) by apply Hs. assert (Hidle : vdisk_idle (k_vdisk s)) by apply Hs.
  exists (disk_effect b true s). split; [apply (bwrite_run i order s b x); try done; by apply (by_blk _ _ _ _ Hs b)|]. split.
  - split.
    + apply (solo_same i s); [apply Hsame|done].
    + unfold disk_effect. rewrite Hx. by apply vdisk_after_idle.
    + rewrite E1. apply Hs.
    + exists order. by apply (write_ok order s b x).
    + intros y. rewrite E2. unfold pid_of. rewrite (proj2 (proj2 (proj2 (proj1 Hsame)))). apply Hs.
    + intros y by_. rewrite E1. apply Hs.
    + intros n. rewrite E1. apply Hs.
    + intros y. rewrite E1. apply Hs.
  - split; [done|]. split; [intros m; by apply (write_view order s b x)|].
    split; [intros m; by apply write_disk|]. by split.
Qed.

Definition bref (d : Z) (y : buf) : buf := y <| b_refcnt := u32 (b_refcnt y + d) |>.

Lemma bpin_run b s tr : solo i s -> bpin b s tr = Done tt (changed s b (bref 1)) tr.
Proof.
  intros Hs. unfold bpin, upd_buf. kstep (solo_acquire i s Hs). kstep modify_run.
  assert (Hs1 : solo i (changed s b (bref 1))) by (by apply (solo_same i s)).
  exact (solo_release i _ Hs1 L_bcache tr).
Qed.

Lemma bunpin_run b s tr : solo i s -> bunpin b s tr = Done tt (changed s b (bref (-1))) tr.
Proof.
  intros Hs. unfold bunpin, upd_buf. kstep (solo_acquire i s Hs). kstep modify_run.
  assert (Hs1 : solo i (changed s b (bref (-1)))) by (by apply (solo_same i s)).
  exact (solo_release i _ Hs1 L_bcache tr).
Qed.

Lemma pin_count_key pins x y : b_dev y = b_dev x -> b_valid y = b_valid x -> b_blockno y = b_blockno x ->
  pin_count pins y = pin_count pins x.
Proof. intros E1 E2 E3. unfold pin_count. by rewrite E1, E2, E3. Qed.

Lemma busy_pinned pins outs s b x : busy i pins outs s -> b ∈ outs -> k_bufs s !! b = Some x ->
  pin_count pins x = if decide (b_blockno x ∈ pins) then 1 else 0.
Proof.
  intros Hs Hb Hx. destruct (by_cache _ _ _ _ Hs) as [order Hok].
  destruct (busy_out pins outs s b x Hs Hb Hx) as (Hlt & Hv & _). unfold pin_count.
  pose proof (bo_dev _ _ Hok b x Hlt Hx Hv). destruct (decide (b_blockno x ∈ pins)).
  - by rewrite decide_True.
  - rewrite decide_False; [done|]. tauto.
Qed.

(** A held buffer holds the current contents of its block. *)
Lemma busy_view pins outs s b x : busy i pins outs s -> b ∈ outs -> k_bufs s !! b = Some x ->
  view s (b_blockno x) = b_data x.
Proof.
  intros Hs Hb Hx. destruct (by_cache _ _ _ _ Hs) as [order Hok].
  destruct (busy_out pins outs s b x Hs Hb Hx) as (Hlt & Hv & _). pose proof (bo_dev _ _ Hok b x Hlt Hx Hv).
  rewrite (view_cached order s Hok _ b x Hlt); [by rewrite (proj2 (Z.eqb_neq _ 0))| |done].
  apply bmatch_true. by exists x.
Qed.

(** Changing the reference count of a held buffer to match new pins. *)
Lemma busy_repin pins pins' outs s b x d :
  busy i pins outs s -> b ∈ outs -> k_bufs s !! b = Some x ->
  (forall n, n <> b_blockno x -> n ∈ pins' <-> n ∈ pins) ->
  pin_count pins x + d = pin_count pins' x ->
  busy i pins' outs (changed s b (bref d)) /\ (forall m, view (changed s b (bref d)) m = view s m).
Proof.
  intros Hs Hb Hx Hpins Hd. destruct (busy_out pins outs s b x Hs Hb Hx) as (Hlt & Hv & _ & Hr).
  assert (Href : b_refcnt (bref d x) = pin_count pins' (bref d x) + 1).
  { rewrite (pin_count_key pins' x (bref d x)) by done. cbn. unfold u32.
    rewrite Z.mod_small by (unfold pin_count in *; repeat destruct (decide _); lia). lia. }
  split; [by apply (changed_busy pins pins' outs s b x (bref d))|]. intros m.
  rewrite (changed_view pins pins' outs s b x (bref d)) by done.
  destruct (decide (m = b_blockno x)) as [->|]; [|done]. cbn. symmetry. by apply (busy_view pins outs s b x).
Qed.

Lemma busy_pin pins outs s b x tr :
  busy i pins outs s -> b ∈ outs -> k_bufs s !! b = Some x -> b_blockno x ∉ pins ->
  bpin b s tr = Done tt (changed s b (bref 1)) tr /\
  busy i ({[b_blockno x]} ∪ pins) outs (changed s b (bref 1)) /\
  (forall m, view (changed s b (bref 1)) m = view s m).
Proof.
  intros Hs Hb Hx Hn. split; [apply bpin_run, Hs|]. apply (busy_repin pins _ outs s b x); try done.
  - intros n Hne. rewrite elem_of_union, elem_of_singleton. tauto.
  - destruct (by_cache _ _ _ _ Hs) as [order Hok]. destruct (busy_out pins outs s b x Hs Hb Hx) as (Hlt & Hv & _).
    rewrite (busy_pinned pins outs s b x Hs Hb Hx), decide_False by done. unfold pin_count.
    rewrite decide_True; [done|]. split; [by apply (bo_dev _ _ Hok b)|]. split; [done|].
    apply elem_of_union. left. by apply elem_of_singleton.
Qed.

Lemma busy_unpin pins outs s b x tr :
  busy i pins outs s -> b ∈ outs -> k_bufs s !! b = Some x -> b_blockno x ∈ pins ->
  bunpin b s tr = Done tt (changed s b (bref (-1))) tr /\
  busy i (pins ∖ {[b_blockno x]}) outs (changed s b (bref (-1))) /\
  (forall m, view (changed s b (bref (-1))) m = view s m).
Proof.
  intros Hs Hb Hx Hn. split; [apply bunpin_run, Hs|]. apply (busy_repin pins _ outs s b x); try done.
  - intros n Hne. rewrite elem_of_difference, elem_of_singleton. tauto.
  - rewrite (busy_pinned pins outs s b x Hs Hb Hx), decide_True by done. unfold pin_count.
    rewrite decide_False; [done|]. intros (_ & _ & Hin). apply elem_of_difference in Hin as [_ Hin].
    apply Hin. by apply elem_of_singleton.
Qed.

(** Releasing a held buffer: unless its block is pinned, the disk must hold its
    contents. *)
Lemma busy_brelse pins outs s b x tr :
  busy i pins outs s -> b ∈ outs -> k_bufs s !! b = Some x ->
  (b_blockno x ∉ pins -> b_data x = k_disk s (b_blockno x)) ->
  brelse b s tr = Done tt (relsed b s) tr /\ busy i pins (outs ∖ {[b]}) (relsed b s) /\
  (forall m, view (relsed b s) m = view s m) /\
  (forall y by_, y <> b -> k_bufs s !! y = Some by_ ->
    exists by', k_bufs (relsed b s) !! y = Some by' /\ strip by' = strip by_).
Proof.
  intros Hs Hb Hx Hclean. destruct (by_cache _ _ _ _ Hs) as [order Hok].
  destruct (busy_out pins outs s b x Hs Hb Hx) as (Hlt & Hv & Hl & Hr).
  pose proof (busy_pinned pins outs s b x Hs Hb Hx) as Hp.
  assert (Hsolo : solo i s) by apply Hs.
  assert (Hpos : 0 < b_refcnt x) by (rewrite Hr, Hp; destruct (decide _); lia).
  assert (Hcl : b_refcnt x = 1 -> b_data x = k_disk s (b_blockno x)).
  { intros E. apply Hclean. intros Hin. rewrite Hr, Hp, decide_True in E by done. lia. }
  pose proof (unref_refcnt order s b x Hok Hlt Hx Hpos) as Hu.
  assert (Hst : strip <$> relse b (k_bufs s) = strip <$> unref b (k_bufs s)).
  { unfold relse. destruct (bunused _ _); [apply strip_to_front|done]. }
  assert (Hlook : forall y by_, k_bufs s !! y = Some by_ -> exists by', relse b (k_bufs s) !! y = Some by' /\
    strip by' = strip (if decide (y = b) then bref (-1) by_ else by_)).
  { intros y by_ Hy.
    destruct (strip_lookup (relse b (k_bufs s)) (unref b (k_bufs s)) y
      (if decide (y = b) then bref (-1) by_ else by_)) as (by' & Hby' & E); [done| |by exists by'].
    unfold unref. destruct (decide (y = b)) as [->|]; [by rewrite list_lookup_alter_eq, Hy|by rewrite list_lookup_alter_ne]. }
  split; [by apply (brelse_run i s b x); [|apply (bo_len _ _ Hok)|..]|].
  split; [|split; [intros m; by apply (relsed_view order s b x)|]].
  2: { intros y by_ Hy Hby. destruct (Hlook y by_ Hby) as (by' & Hby' & E). rewrite decide_False in E by done. eauto. }
  assert (Hback : forall y by', k_bufs (relsed b s) !! y = Some by' -> exists by_, k_bufs s !! y = Some by_ /\
    strip by' = strip (if decide (y = b) then bref (-1) by_ else by_)).
  { intros y by' Hy. destruct (lookup_lt_is_Some_2 (k_bufs s) y) as [by_ Hby].
    - apply lookup_lt_Some in Hy. cbn in Hy. rewrite <- (length_fmap strip), Hst, length_fmap in Hy.
      unfold unref in Hy. by rewrite length_alter in Hy.
    - exists by_. split; [done|]. destruct (Hlook y by_ Hby) as (by2 & Hby2 & E). cbn in Hy. congruence. }
  assert (Hin : forall y, y <> b -> y ∈ outs ∖ {[b]} <-> y ∈ outs).
  { intros y Hy. rewrite elem_of_difference, elem_of_singleton. tauto. }
  assert (Hnb : b ∉ outs ∖ {[b]}) by (rewrite elem_of_difference, elem_of_singleton; tauto).
  assert (Hkeep : forall y by_ by', strip by' = strip (if decide (y = b) then bref (-1) by_ else by_) ->
    b_dev by' = b_dev by_ /\ b_blockno by' = b_blockno by_ /\ b_valid by' = b_valid by_).
  { intros y by_ by' E%strip_fields. by destruct E as (-> & _ & -> & -> & _), (decide (y = b)). }
  split.
  - by apply (solo_same i s).
  - apply (by_disk _ _ _ _ Hs).
  - intros y by' Hy Hby'. destruct (Hback y by' Hby') as (by_ & Hby & E). destruct (Hkeep y by_ by' E) as (_ & -> & _).
    by apply (by_blk _ _ _ _ Hs y by_).
  - exists (relse_order b (k_bufs s) order). by apply (relsed_ok order s b x).
  - intros y. change (pid_of i (relsed b s)) with (pid_of i s). cbn [relsed k_sleep upd_field].
    destruct (decide (y = b)) as [->|Hne].
    + by rewrite lookup_delete_eq, decide_False.
    + rewrite lookup_delete_ne by congruence. rewrite (by_lock _ _ _ _ Hs). by rewrite (decide_ext _ _ _ _ (Hin y Hne)).
  - intros y by' Hy Hby'. destruct (Hback y by' Hby') as (by_ & Hby & E).
    destruct (Hkeep y by_ by' E) as (K1 & K2 & K3). rewrite (pin_count_key pins by_ by') by done.
    apply strip_fields in E as (_ & _ & _ & _ & -> & _). destruct (decide (y = b)) as [->|Hne].
    + rewrite Hx in Hby. injection Hby as <-. unfold out_count. rewrite decide_False by done.
      change (b_refcnt (bref (-1) x)) with (u32 (b_refcnt x - 1)). cbn in Hu. rewrite Hu. lia.
    + rewrite (by_ref _ _ _ _ Hs y by_ Hy Hby). unfold out_count. by rewrite (decide_ext _ _ _ _ (Hin y Hne)).
  - intros n Hn. destruct (by_pins _ _ _ _ Hs n Hn) as (y & by_ & Hy & Hby & Hd & Hbn & Hvy).
    destruct (Hlook y by_ Hby) as (by' & Hby' & E). destruct (Hkeep y by_ by' E) as (K1 & K2 & K3).
    exists y, by'. rewrite K1, K2, K3. done.
  - intros y Hy. apply elem_of_difference in Hy as [Hy _]. destruct (by_outs _ _ _ _ Hs y Hy) as (Hy' & by_ & Hby & Hvy).
    split; [done|]. destruct (Hlook y by_ Hby) as (by' & Hby' & E). destruct (Hkeep y by_ by' E) as (_ & _ & K3).
    exists by'. by rewrite K3.
Qed.
End Ops.
