(* ===== verification/Blocks.v ===== *)
(** * Blocks checked out of the cache

    [hold i pins hs s]: process [i] runs alone and holds the buffers [hs], each
    given with its block number and contents; the log has pinned the blocks
    [pins].  Every cache operation is a transition between such states, and
    [moves U W s s'] records what it does to the contents of blocks (the updates
    [U]) and to the disk (the writes [W], in order).  The log and the file system
    are verified against these lemmas, without looking into the cache. *)

From stdpp Require Import prelude list strings gmap.
From Stdlib Require Import ZArith Lia ZifyBool.
From S2P Require Import Prelude State Spinlock Proc Sleeplock Bio Cache.
Local Open Scope Z_scope.

(** ** Disk writes *)
(** [W] performed on the disk [d], first write first. *)
Fixpoint apply_writes (W : list (Z * list Z)) (d : Z -> list Z) : Z -> list Z :=
  match W with
  | [] => d
  | (n, c) :: W' => apply_writes W' (fun m => if decide (m = n) then c else d m)
  end.

Lemma apply_writes_app W1 : forall W2 d, apply_writes (W1 ++ W2) d = apply_writes W2 (apply_writes W1 d).
Proof. induction W1 as [|[n c] W1 IH]; intros W2 d; [done|]. apply IH. Qed.

Lemma apply_writes_other W : forall d m, m ∉ W.*1 -> apply_writes W d m = d m.
Proof.
  induction W as [|[n c] W IH]; intros d m Hm; [done|]. cbn in *. rewrite IH by (intros Hin; apply Hm; by right).
  rewrite decide_False; [done|]. intros ->. apply Hm. by left.
Qed.

Lemma apply_writes_at W : forall d j n c,
  NoDup W.*1 -> W !! j = Some (n, c) -> apply_writes W d n = c.
Proof.
  induction W as [|[m c'] W IH]; intros d [|j] n c Hnd Hj; cbn in *; try done; apply NoDup_cons in Hnd as [Hn Hnd].
  - injection Hj as -> ->. rewrite apply_writes_other by done. by rewrite decide_True.
  - by apply (IH _ j).
Qed.

Lemma apply_writes_ext W : forall d d' m, (forall m, d m = d' m) -> apply_writes W d m = apply_writes W d' m.
Proof.
  induction W as [|[n c] W IH]; intros d d' m Hd; [apply Hd|]. cbn. apply IH. intros m'.
  destruct (decide (m' = n)); [done|apply Hd].
Qed.

(** [s'] is reached from [s] by writing [W] to the disk. *)
Definition wrote (W : list (Z * list Z)) (s s' : kstate) : Prop :=
  k_dhist s' = rev W ++ k_dhist s /\ forall m, k_disk s' m = apply_writes W (k_disk s) m.

Lemma wrote_nil s s' : k_dhist s' = k_dhist s -> k_disk s' = k_disk s -> wrote [] s s'.
Proof. intros E1 E2. split; [done|]. intros m. by rewrite E2. Qed.

Lemma wrote_trans W1 W2 s1 s2 s3 : wrote W1 s1 s2 -> wrote W2 s2 s3 -> wrote (W1 ++ W2) s1 s3.
Proof.
  intros [A1 A2] [B1 B2]. split.
  - by rewrite B1, A1, rev_app_distr, app_assoc.
  - intros m. rewrite B2, apply_writes_app. by apply apply_writes_ext.
Qed.

(** Everything but the cache, the disk and the log. *)
Definition same_base (s s' : kstate) : Prop :=
  same_threads s s' /\ k_sb s' = k_sb s /\ k_inodes s' = k_inodes s /\
  k_files s' = k_files s /\ same_others s s'.

Record moves (U W : list (Z * list Z)) (s s' : kstate) : Prop := {
  mv_view : forall m, view s' m = apply_writes U (view s) m;
  mv_disk : wrote W s s';
  mv_base : same_base s s' }.

Lemma moves_trans U1 U2 W1 W2 s1 s2 s3 :
  moves U1 W1 s1 s2 -> moves U2 W2 s2 s3 -> moves (U1 ++ U2) (W1 ++ W2) s1 s3.
Proof.
  intros [A1 A2 A3] [B1 B2 B3]. split.
  - intros m. rewrite B1, apply_writes_app. by apply apply_writes_ext.
  - by apply (wrote_trans _ _ _ s2).
  - destruct A3 as ((? & ? & ? & ?) & ? & ? & ? & ?), B3 as ((? & ? & ? & ?) & ? & ? & ? & ?).
    repeat (split; [repeat split; congruence|]). by apply (same_others_trans _ s2).
Qed.

Lemma moves_refl s : moves [] [] s s.
Proof. split; [done|by apply wrote_nil|same_rest]. Qed.

(** ... and leaving the log's header in memory alone. *)
Definition quiet U W s s' := moves U W s s' /\ k_log s' = k_log s.

Lemma quiet_trans U1 U2 W1 W2 s1 s2 s3 :
  quiet U1 W1 s1 s2 -> quiet U2 W2 s2 s3 -> quiet (U1 ++ U2) (W1 ++ W2) s1 s3.
Proof. intros [A1 A2] [B1 B2]. split; [by apply (moves_trans _ _ _ _ _ s2)|congruence]. Qed.

Lemma quiet_intro U W s s' :
  (forall m, view s' m = apply_writes U (view s) m) -> wrote W s s' -> same_rest s s' -> quiet U W s s'.
Proof. intros A1 A2 (A3 & A4 & A5). by split. Qed.

(** ** Held blocks *)
Record held := Held { h_buf : nat; h_blk : Z; h_dat : list Z }.

Definition holds_at (s : kstate) (h : held) : Prop :=
  exists x, k_bufs s !! h_buf h = Some x /\ b_blockno x = h_blk h /\ b_data x = h_dat h.

Record hold (i : nat) (pins : gset Z) (hs : list held) (s : kstate) : Prop := {
  ho_busy : busy i pins (list_to_set (h_buf <$> hs)) s;
  ho_nodup : NoDup (h_buf <$> hs);
  ho_at : Forall (holds_at s) hs }.

Lemma hold_perm i pins hs hs' s : hs ≡ₚ hs' -> hold i pins hs s -> hold i pins hs' s.
Proof.
  intros P [A B C]. split; [|by rewrite <- P|by rewrite <- P].
  replace (list_to_set (h_buf <$> hs') : gset nat) with (list_to_set (h_buf <$> hs) : gset nat); [done|].
  apply leibniz_equiv. by rewrite P.
Qed.

Section Ops.
Context `{DiskOk} (i : nat).

Lemma hold_size pins hs s : hold i pins hs s -> size (list_to_set (h_buf <$> hs) : gset nat) = length hs.
Proof. intros Hs. rewrite size_list_to_set by apply Hs. by rewrite length_fmap. Qed.

(** A block that no one holds and the log has not pinned is the same on disk. *)
Lemma hold_clean pins hs s n :
  hold i pins hs s -> Forall (fun h => h_blk h <> n) hs -> n ∉ pins -> view s n = k_disk s n.
Proof.
  intros [Hs _ Hat] Hno Hn. destruct (by_cache _ _ _ _ Hs) as [order Hok].
  destruct (List.find (bmatch (k_bufs s) ROOTDEV n) (seq 0 NBUF)) as [b|] eqn:E.
  - apply List.find_some in E as [Hb%list_elem_of_In%elem_of_seq Hm]. assert (Hlt : (b < NBUF)%nat) by lia.
    pose proof Hm as Hm'. apply bmatch_true in Hm' as (x & Hx & Hd & Hbn).
    rewrite (view_cached order s Hok n b x Hlt Hm Hx). destruct (Z.eqb_spec (b_valid x) 0) as [|Hv]; [done|].
    rewrite <- Hbn. apply (bo_clean _ _ Hok b x Hlt Hx); [|done].
    rewrite (by_ref _ _ _ _ Hs b x Hlt Hx). unfold pin_count, out_count. rewrite !decide_False; [done| |].
    + intros Hin. apply elem_of_list_to_set, list_elem_of_fmap in Hin as (h & -> & Hh).
      pose proof (proj1 (Forall_forall _ _) Hat h Hh) as (x' & Hx' & E & _).
      apply (proj1 (Forall_forall _ _) Hno h Hh). congruence.
    + intros (_ & _ & Hp). congruence.
  - apply view_uncached. intros b Hb. eapply List.find_none in E; [exact E|]. apply list_elem_of_In, elem_of_seq. lia.
Qed.

Lemma hold_bread pins hs s n tr :
  hold i pins hs s -> Forall (fun h => h_blk h <> n) hs -> n ∈ pins \/ ((length hs + size pins < NBUF)%nat /\ blockno_ok n) ->
  runs (bread ROOTDEV n) s tr (fun b s' => hold i pins (Held b n (view s n) :: hs) s' /\ quiet [] [] s s').
Proof.
  intros Hs Hno Hsz. pose proof (hold_size _ _ _ Hs) as Hlen. destruct Hs as [Hs Hnd Hat].
  destruct (busy_bread i pins _ n s tr Hs) as (b & s' & x' & H1 & H2 & H3 & H4 & H5 & H6 & H7 & H8 & H9 & H10 & H11 & H12).
  { intros x bx Hx Hbx E. apply elem_of_list_to_set, list_elem_of_fmap in Hx as (h & -> & Hh).
    pose proof (proj1 (Forall_forall _ _) Hat h Hh) as (x' & Hx' & E' & _).
    apply (proj1 (Forall_forall _ _) Hno h Hh). congruence. }
  { rewrite Hlen. done. }
  rewrite elem_of_list_to_set in H2. exists b, s'. split; [done|]. split.
  - split; [done|by constructor|]. constructor; [by exists x'|].
    eapply Forall_impl; [|intros h Hh; exact Hh]. apply Forall_forall. intros h Hh.
    pose proof (proj1 (Forall_forall _ _) Hat h Hh) as (xh & Hxh & E). exists xh. split; [|done].
    rewrite H12; [done|]. intros <-. apply H2. by apply list_elem_of_fmap_2.
  - apply quiet_intro; [done|by apply wrote_nil|done].
Qed.

(** The buffer of the first held block. *)
Lemma hold_first pins b n d hs s :
  hold i pins (Held b n d :: hs) s ->
  exists x, k_bufs s !! b = Some x /\ b_blockno x = n /\ b_data x = d /\ b ∈ (list_to_set (h_buf <$> Held b n d :: hs) : gset nat).
Proof.
  intros [_ _ Hat]. apply Forall_cons in Hat as [(x & Hx & E1 & E2) _]. exists x. repeat (split; [done|]).
  apply elem_of_list_to_set. by left.
Qed.

Lemma hold_view pins b n d hs s : hold i pins (Held b n d :: hs) s -> view s n = d.
Proof.
  intros Hs. destruct (hold_first _ _ _ _ _ _ Hs) as (x & Hx & <- & <- & Hin).
  by apply (busy_view i pins _ s b x (ho_busy _ _ _ _ Hs)).
Qed.

Lemma hold_get pins b n d hs s tr :
  hold i pins (Held b n d :: hs) s ->
  runs (get_buf b) s tr (fun x s' => s' = s /\ b_blockno x = n /\ b_data x = d).
Proof.
  intros Hs. destruct (hold_first _ _ _ _ _ _ Hs) as (x & Hx & E1 & E2 & _). exists x, s. split; [|done].
  unfold get_buf, deref. kred. by rewrite Hx.
Qed.

(** Changes of the first held buffer leave the others held. *)
Lemma hold_others b hs s s' n d :
  NoDup (h_buf <$> Held b n d :: hs) -> (forall y, y <> b -> k_bufs s' !! y = k_bufs s !! y) ->
  Forall (holds_at s) hs -> Forall (holds_at s') hs.
Proof.
  intros Hnd Heq Hat. apply Forall_forall. intros h Hh.
  pose proof (proj1 (Forall_forall _ _) Hat h Hh) as (x & Hx & E). exists x. split; [|done].
  rewrite Heq; [done|]. intros E'. cbn in Hnd. apply NoDup_cons in Hnd as [Hnd _]. apply Hnd. rewrite <- E'.
  by apply list_elem_of_fmap_2.
Qed.

Lemma hold_set pins b n d hs s (f : list Z -> list Z) tr :
  hold i pins (Held b n d :: hs) s ->
  runs (upd_buf b (fun x => x <| b_data := f (b_data x) |>)) s tr (fun _ s' =>
    hold i pins (Held b n (f d) :: hs) s' /\ quiet [(n, f d)] [] s s').
Proof.
  intros Hs. destruct (hold_first _ _ _ _ _ _ Hs) as (x & Hx & E1 & E2 & Hin).
  destruct (busy_set i pins _ s b x f tr (ho_busy _ _ _ _ Hs) Hin Hx) as (H1 & H2 & H3 & H4).
  eexists tt, _. split; [exact H1|]. split.
  - split; [exact H2|apply (ho_nodup _ _ _ _ Hs)|]. constructor.
    + eexists. split; [exact H3|]. cbn. by rewrite E1, E2.
    + apply (hold_others b hs s _ n d); [apply (ho_nodup _ _ _ _ Hs)| |apply (Forall_inv_tail (ho_at _ _ _ _ Hs))].
      intros y Hy. by apply changed_other.
  - apply quiet_intro; [|by apply wrote_nil|same_rest]. intros m. rewrite H4, E1, E2. done.
Qed.

Lemma hold_bwrite pins b n d hs s tr :
  hold i pins (Held b n d :: hs) s ->
  runs (bwrite b) s tr (fun _ s' => hold i pins (Held b n d :: hs) s' /\ quiet [] [(n, d)] s s').
Proof.
  intros Hs. destruct (hold_first _ _ _ _ _ _ Hs) as (x & Hx & E1 & E2 & Hin).
  destruct (busy_bwrite i pins _ s b x tr (ho_busy _ _ _ _ Hs) Hin Hx) as (s' & H1 & H2 & H3 & H4 & H5 & H6 & H7).
  exists tt, s'. split; [done|]. split.
  - split; [done|apply (ho_nodup _ _ _ _ Hs)|]. eapply Forall_impl; [apply (ho_at _ _ _ _ Hs)|].
    intros h (y & Hy). exists y. by rewrite H3.
  - apply quiet_intro; [done| |done]. split; [by rewrite H6, E1, E2|]. intros m. cbn. by rewrite H5, E1, E2.
Qed.

(** Pinning and unpinning change the reference count only. *)
Lemma hold_bref pins pins' b n d hs s v :
  hold i pins (Held b n d :: hs) s ->
  busy i pins' (list_to_set (h_buf <$> Held b n d :: hs)) (changed s b (bref v)) ->
  (forall m, view (changed s b (bref v)) m = view s m) ->
  hold i pins' (Held b n d :: hs) (changed s b (bref v)) /\ quiet [] [] s (changed s b (bref v)).
Proof.
  intros Hs Hb Hv. destruct (hold_first _ _ _ _ _ _ Hs) as (x & Hx & E1 & E2 & Hin). split.
  - split; [done|apply (ho_nodup _ _ _ _ Hs)|]. constructor.
    + exists (bref v x). cbn [h_buf]. by rewrite (changed_at s b x (bref v) Hx).
    + apply (hold_others b hs s _ n d); [apply (ho_nodup _ _ _ _ Hs)| |apply (Forall_inv_tail (ho_at _ _ _ _ Hs))].
      intros y Hy. by apply changed_other.
  - apply quiet_intro; [done|by apply wrote_nil|same_rest].
Qed.

Lemma hold_pin pins b n d hs s tr :
  hold i pins (Held b n d :: hs) s -> n ∉ pins ->
  runs (bpin b) s tr (fun _ s' => hold i ({[n]} ∪ pins) (Held b n d :: hs) s' /\ quiet [] [] s s').
Proof.
  intros Hs Hn. destruct (hold_first _ _ _ _ _ _ Hs) as (x & Hx & E1 & E2 & Hin). rewrite <- E1 in Hn.
  destruct (busy_pin i pins _ s b x tr (ho_busy _ _ _ _ Hs) Hin Hx Hn) as (H1 & H2 & H3). rewrite E1 in H2.
  eexists tt, _. split; [exact H1|]. by apply (hold_bref pins).
Qed.

Lemma hold_unpin pins b n d hs s tr :
  hold i pins (Held b n d :: hs) s -> n ∈ pins ->
  runs (bunpin b) s tr (fun _ s' => hold i (pins ∖ {[n]}) (Held b n d :: hs) s' /\ quiet [] [] s s').
Proof.
  intros Hs Hn. destruct (hold_first _ _ _ _ _ _ Hs) as (x & Hx & E1 & E2 & Hin). rewrite <- E1 in Hn.
  destruct (busy_unpin i pins _ s b x tr (ho_busy _ _ _ _ Hs) Hin Hx Hn) as (H1 & H2 & H3). rewrite E1 in H2.
  eexists tt, _. split; [exact H1|]. by apply (hold_bref pins).
Qed.

Lemma hold_brelse pins b n d hs s tr :
  hold i pins (Held b n d :: hs) s -> (n ∉ pins -> d = k_disk s n) ->
  runs (brelse b) s tr (fun _ s' => hold i pins hs s' /\ quiet [] [] s s').
Proof.
  intros Hs Hcl. destruct (hold_first _ _ _ _ _ _ Hs) as (x & Hx & E1 & E2 & Hin).
  pose proof (ho_nodup _ _ _ _ Hs) as Hnd. cbn in Hnd. apply NoDup_cons in Hnd as [Hb Hnd].
  destruct (busy_brelse i pins _ s b x tr (ho_busy _ _ _ _ Hs) Hin Hx) as (H1 & H2 & H3 & H4).
  { rewrite E1, E2. done. }
  assert (Hset : (list_to_set (h_buf <$> Held b n d :: hs) ∖ {[b]} : gset nat) = list_to_set (h_buf <$> hs)).
  { apply leibniz_equiv. intros y. cbn [fmap list_fmap h_buf list_to_set].
    rewrite elem_of_difference, elem_of_union, elem_of_singleton, elem_of_list_to_set.
    split; [tauto|]. intros Hy. split; [by right|]. by intros ->. }
  rewrite Hset in H2. eexists tt, _. split; [exact H1|]. split.
  - split; [done|done|]. apply Forall_forall. intros h Hh.
    pose proof (ho_at _ _ _ _ Hs) as Hat. apply Forall_cons in Hat as [_ Hat].
    pose proof (proj1 (Forall_forall _ _) Hat h Hh) as (y & Hy & F1 & F2).
    destruct (H4 (h_buf h) y) as (y' & Hy' & E); [|done|].
    { intros E. apply Hb. rewrite <- E. by apply list_elem_of_fmap_2. }
    exists y'. split; [done|]. apply strip_fields in E. intuition congruence.
  - apply quiet_intro; [done|by apply wrote_nil|same_rest].
Qed.
End Ops.

(** [chain]: composes the steps known so far into one. *)
Ltac chain :=
  repeat match goal with
  | H1 : quiet _ _ ?a ?b, H2 : quiet _ _ ?b ?c |- _ =>
      let Q := fresh "Q" in pose proof (quiet_trans _ _ _ _ _ _ _ H1 H2) as Q; cbn [app] in Q; clear H1 H2
  end.

Lemma quiet_view U W s s' m : quiet U W s s' -> view s' m = apply_writes U (view s) m.
Proof. intros [Q _]. apply Q. Qed.

Lemma quiet_disk U W s s' m : quiet U W s s' -> k_disk s' m = apply_writes W (k_disk s) m.
Proof. intros [[_ [_ Q] _] _]. apply Q. Qed.

Lemma apply_one n c d : apply_writes [(n, c)] d n = c.
Proof. cbn. by rewrite decide_True. Qed.

(** A second write to the same block hides the first. *)
Lemma quiet_over n c c' W s s' : quiet [(n, c); (n, c')] W s s' -> quiet [(n, c')] W s s'.
Proof.
  intros [[Hv Hw Hb] Hl]. split; [|done]. split; [|done|done]. intros m. rewrite Hv. cbn. by destruct (decide _).
Qed.

(** Writes that do not change the contents of [m]. *)
Lemma apply_writes_same W : forall d m c0, d m = c0 -> (forall n c, (n, c) ∈ W -> n = m -> c = c0) -> apply_writes W d m = c0.
Proof.
  induction W as [|[n c] W IH]; intros d m c0 Hd HW; cbn; [done|]. apply IH.
  - destruct (decide (m = n)) as [->|]; [|done]. apply (HW n); [by left|done].
  - intros n' c' Hin. apply HW. by right.
Qed.
