(* ===== verification/Log.v ===== *)
(** * The write-ahead log (kernel/log.c)

    File-system calls bracket their updates with [begin_op] and [end_op] and
    hand modified buffers to [log_write], which only records the block number
    and pins the buffer.  The last [end_op] commits: the blocks are copied to
    the log area, the header block is written (the commit point), the blocks
    are installed at home, and the header is cleared.

    [k_dhist] records the writes in the order in which the disk performs them,
    so that a crash is a prefix of it.  The theorems: the header's encoding
    round-trips; recovery run on the disk left by a crash at any point of
    [commit] gives either all of the transaction or none of it; and the log
    never holds more than [LOGBLOCKS] distinct blocks. *)

From stdpp Require Import prelude list strings gmap.
From Stdlib Require Import ZArith Lia ZifyBool.
From S2P Require Import Prelude State Spinlock CString Proc Sleeplock Bio Cache Blocks.
Local Open Scope Z_scope.

(** ** Words in a block *)
(** The [uint] and the [int] at byte [off] of a block, and the store of one. *)
Definition byte_at (d : list Z) (i : nat) : Z := nth i d 0.
Definition get32 (d : list Z) (off : nat) : Z :=
  byte_at d off + byte_at d (off + 1) * 2 ^ 8 + byte_at d (off + 2) * 2 ^ 16 + byte_at d (off + 3) * 2 ^ 24.
Definition put32 (d : list Z) (off : nat) (v : Z) : list Z :=
  <[off := u8 v]> (<[(off + 1)%nat := u8 (v / 2 ^ 8)]>
    (<[(off + 2)%nat := u8 (v / 2 ^ 16)]> (<[(off + 3)%nat := u8 (v / 2 ^ 24)]> d))).

Section Log.
Context `{DiskDriver}.

(** ** The code *)
Definition upd_log (f : logst -> logst) : Kern unit := modify (fun s => s <| k_log ::= f |>).
Definition upd_data (b : nat) (f : list Z -> list Z) : Kern unit :=
  upd_buf b (fun x => x <| b_data := f (b_data x) |>).

(** [memmove(to->data, from->data, BSIZE)]. *)
Definition copy_data (to from : nat) : Kern unit :=
  let! fb := get_buf from in
  upd_data to (fun _ => b_data fb).

(** [log.lh.block[i]]; an index outside the array is undefined. *)
Definition get_block (i : nat) : Kern Z :=
  let! s := kget in deref (lh_block (k_log s) !! i).
Definition set_block (i : nat) (v : Z) : Kern unit :=
  let! s := kget in
  if decide (i < length (lh_block (k_log s)))%nat
  then upd_log (fun l => l <| lh_block ::= <[i := v]> |>) else undefined.

Definition install_trans (recovering : bool) : Kern unit :=
  let! l := gets k_log in
  for_each (Z.to_nat (lh_n l)) 0 (fun tail =>
    let! l := gets k_log in
    let! lbuf := bread (log_dev l) (log_start l + Z.of_nat tail + 1) in
    let! dst := get_block tail in
    let! dbuf := bread (log_dev l) dst in
    copy_data dbuf lbuf ;;
    bwrite dbuf ;;
    when (negb recovering) (bunpin dbuf) ;;
    brelse lbuf ;;
    brelse dbuf).

Definition read_head : Kern unit :=
  let! l := gets k_log in
  let! b := bread (log_dev l) (log_start l) in
  let! lh := get_buf b in
  upd_log (fun l => l <| lh_n := i32 (get32 (b_data lh) 0) |>) ;;
  let! l := gets k_log in
  for_each (Z.to_nat (lh_n l)) 0 (fun i =>
    set_block i (i32 (get32 (b_data lh) (4 + 4 * i)))) ;;
  brelse b.

Definition write_head : Kern unit :=
  let! l := gets k_log in
  let! b := bread (log_dev l) (log_start l) in
  let! l := gets k_log in
  upd_data b (fun d => put32 d 0 (lh_n l)) ;;
  for_each (Z.to_nat (lh_n l)) 0 (fun i =>
    let! v := get_block i in
    upd_data b (fun d => put32 d (4 + 4 * i) v)) ;;
  bwrite b ;;
  brelse b.

Definition recover_from_log : Kern unit :=
  read_head ;;
  install_trans true ;;
  upd_log (fun l => l <| lh_n := 0 |>) ;;
  write_head.

(** The size check of [initlog] is on constants: the header's 4 + 4 * LOGBLOCKS
    bytes are less than a block. *)
Definition initlog (dev : Z) (sb : superblock) : Kern unit :=
  if BSIZE <=? 4 + 4 * LOGBLOCKS then panic "initlog: too big logheader" else
  initlock L_log ;;
  upd_log (fun l => l <| log_start := i32 (sb_logstart sb) |>) ;;
  upd_log (fun l => l <| log_dev := dev |>) ;;
  recover_from_log.

(** Waiting on the log, with the log's lock released. *)
Definition log_wait : Kern unit :=
  sleep_prepare (Some Ch_log) ;;
  release L_log ;;
  sleep ;;
  acquire L_log.

Definition begin_op : Kern unit :=
  acquire L_log ;;
  loop (
    let! l := gets k_log in
    if log_committing l then log_wait ;; kret None
    else if LOGBLOCKS <? lh_n l + (log_outstanding l + 1) * MAXOPBLOCKS then log_wait ;; kret None
    else
      upd_log (fun l => l <| log_outstanding := log_outstanding l + 1 |>) ;;
      release L_log ;;
      kret (Some tt)).

Definition write_log : Kern unit :=
  let! l := gets k_log in
  for_each (Z.to_nat (lh_n l)) 0 (fun tail =>
    let! l := gets k_log in
    let! to := bread (log_dev l) (log_start l + Z.of_nat tail + 1) in
    let! src := get_block tail in
    let! from := bread (log_dev l) src in
    copy_data to from ;;
    bwrite to ;;
    brelse from ;;
    brelse to).

Definition commit : Kern unit :=
  let! l := gets k_log in
  when (0 <? lh_n l)
    (write_log ;;
     write_head ;;
     install_trans false ;;
     upd_log (fun l => l <| lh_n := 0 |>) ;;
     write_head).

Definition end_op : Kern unit :=
  acquire L_log ;;
  upd_log (fun l => l <| log_outstanding := log_outstanding l - 1 |>) ;;
  let! l := gets k_log in
  if log_committing l then panic "log.committing" else
  let! do_commit :=
    if log_outstanding l =? 0 then
      upd_log (fun l => l <| log_committing := true |>) ;;
      kret true
    else
      wakeup (Some Ch_log) ;;
      kret false in
  release L_log ;;
  when do_commit
    (commit ;;
     acquire L_log ;;
     upd_log (fun l => l <| log_committing := false |>) ;;
     upd_log (fun l => l <| log_ncommit := log_ncommit l + 1 |>) ;;
     wakeup (Some Ch_log) ;;
     release L_log).

(** The index at which [log_write] records the block: where it already is, or
    the end of the list. *)
Fixpoint find_block (blocks : list Z) (n : nat) (i : nat) (blockno : Z) : nat :=
  match n with
  | O => i
  | S n' =>
      if decide (blocks !! i = Some blockno) then i
      else find_block blocks n' (S i) blockno
  end.

Definition log_write (b : nat) : Kern unit :=
  acquire L_log ;;
  let! l := gets k_log in
  if LOGBLOCKS <=? lh_n l then panic "too big a transaction" else
  if log_outstanding l <? 1 then panic "log_write outside of trans" else
  let! bb := get_buf b in
  let i := find_block (lh_block l) (Z.to_nat (lh_n l)) 0 (b_blockno bb) in
  set_block i (b_blockno bb) ;;
  when (Z.of_nat i =? lh_n l)
    (bpin b ;;
     upd_log (fun l => l <| lh_n := lh_n l + 1 |>)) ;;
  release L_log.

Definition sys_sync : Kern Z :=
  acquire L_log ;;
  let! l := gets k_log in
  when (log_committing l || (0 <? log_outstanding l))
    (let n := log_ncommit l + 1 in
     loop (
       let! l := gets k_log in
       if log_ncommit l <? n then log_wait ;; kret None
       else kret (Some tt))) ;;
  release L_log ;;
  kret 0.
End Log.

(** ** Words in a block *)
Lemma byte_at_insert d i j v : (j < length d)%nat ->
  byte_at (<[j := v]> d) i = if decide (j = i) then v else byte_at d i.
Proof. intros Hj. apply (reads_insert d j i v Hj). Qed.

Lemma length_put32 d off v : length (put32 d off v) = length d.
Proof. unfold put32. by rewrite !length_insert. Qed.

Lemma get32_put32 d off v : (off + 3 < length d)%nat -> get32 (put32 d off v) off = u32 v.
Proof.
  intros Hd. unfold get32, put32.
  rewrite !byte_at_insert by (rewrite ?length_insert; lia).
  repeat match goal with |- context [decide ?P] => destruct (decide P); try lia end.
  unfold u8, u32. Z.to_euclidean_division_equations. lia.
Qed.

Lemma get32_put32_other d off off' v :
  (off + 3 < length d)%nat -> (off' + 4 <= off \/ off + 4 <= off')%nat ->
  get32 (put32 d off v) off' = get32 d off'.
Proof.
  intros Hd Hoff. unfold get32, put32. rewrite !byte_at_insert by (rewrite ?length_insert; lia).
  repeat match goal with |- context [decide ?P] => destruct (decide P); try lia end.
Qed.

Lemma i32_small v : 0 <= v < 2 ^ 31 -> i32 (u32 v) = v.
Proof. intros Hv. unfold i32, u32. rewrite (Z.mod_small v) by lia. rewrite Z.mod_small; lia. Qed.

(** The header block for the block numbers [bl], over the old contents [d]. *)
Fixpoint put_blocks (d : list Z) (k : nat) (bl : list Z) : list Z :=
  match bl with [] => d | v :: bl' => put_blocks (put32 d (4 + 4 * k) v) (S k) bl' end.
Definition header (d : list Z) (bl : list Z) : list Z :=
  put_blocks (put32 d 0 (Z.of_nat (length bl))) 0 bl.

Lemma length_put_blocks bl : forall d k, length (put_blocks d k bl) = length d.
Proof. induction bl as [|v bl IH]; intros d k; cbn [put_blocks]; [done|]. by rewrite IH, length_put32. Qed.

Lemma length_header d bl : length (header d bl) = length d.
Proof. unfold header. by rewrite length_put_blocks, length_put32. Qed.

Lemma put_blocks_before bl : forall d k off,
  (4 + 4 * (k + length bl) <= length d)%nat -> (off + 4 <= 4 + 4 * k)%nat ->
  get32 (put_blocks d k bl) off = get32 d off.
Proof.
  induction bl as [|v bl IH]; intros d k off Hd Ho; cbn [put_blocks length] in *; [done|].
  rewrite IH by (rewrite ?length_put32; lia). apply get32_put32_other; lia.
Qed.

Lemma put_blocks_at bl : forall d k j v,
  (4 + 4 * (k + length bl) <= length d)%nat -> bl !! j = Some v ->
  get32 (put_blocks d k bl) (4 + 4 * (k + j)) = u32 v.
Proof.
  induction bl as [|w bl IH]; intros d k [|j] v Hd Hj; cbn [put_blocks length lookup list_lookup] in *; try done.
  - injection Hj as ->. rewrite Nat.add_0_r, put_blocks_before by (rewrite ?length_put32; lia).
    apply get32_put32. lia.
  - replace (k + S j)%nat with (S k + j)%nat by lia. apply IH; [|done]. rewrite length_put32. lia.
Qed.

Lemma put_blocks_snoc bl : forall d k v,
  put_blocks d k (bl ++ [v]) = put32 (put_blocks d k bl) (4 + 4 * (k + length bl)) v.
Proof.
  induction bl as [|w bl IH]; intros d k v; cbn [put_blocks app length].
  - by rewrite Nat.add_0_r.
  - rewrite IH. do 2 f_equal. lia.
Qed.


(** The header block round-trips: what [read_head] decodes from a header
    that [write_head] has encoded is the list of block numbers, whatever the
    block held before. *)
Lemma header_roundtrip d bl :
  length d = 1024%nat -> Z.of_nat (length bl) <= LOGBLOCKS -> Forall blockno_ok bl ->
  i32 (get32 (header d bl) 0) = Z.of_nat (length bl) /\
  forall j v, bl !! j = Some v -> i32 (get32 (header d bl) (4 + 4 * j)) = v.
Proof.
  intros Hd Hlen Hbl. unfold LOGBLOCKS, MAXOPBLOCKS in Hlen. split.
  - unfold header. rewrite put_blocks_before by (rewrite ?length_put32; lia).
    rewrite get32_put32 by lia. apply i32_small. lia.
  - intros j v Hj. unfold header. rewrite (put_blocks_at bl _ 0 j v) by (rewrite ?length_put32; (lia || done)).
    apply i32_small. by apply (Forall_lookup_1 _ _ _ _ Hbl Hj).
Qed.


(** ** Running the log *)
(** The header in memory lists the blocks [bl]; the log area starts at [st]. *)
Definition log_area (st : Z) : Prop := 0 <= st /\ st + LOGBLOCKS < 2 ^ 31.

Definition log_has (st : Z) (bl : list Z) (l : logst) : Prop :=
  log_dev l = ROOTDEV /\ log_start l = st /\ lh_n l = Z.of_nat (length bl) /\
  length (lh_block l) = Z.to_nat LOGBLOCKS /\
  (forall k v, bl !! k = Some v -> lh_block l !! k = Some v) /\ log_area st.

Definition in_log (st m : Z) : Prop := st <= m <= st + LOGBLOCKS.

(** The block of the log area that holds entry [k]. *)
Definition log_slot (st : Z) (k : nat) : Z := st + Z.of_nat k + 1.

Section Run.
Context `{DiskOk} (i : nat) (st : Z).

Lemma gets_log s tr : runs (gets k_log) s tr (fun l s' => l = k_log s /\ s' = s).
Proof. by exists (k_log s), s. Qed.

Lemma get_block_run bl s k v tr : log_has st bl (k_log s) -> bl !! k = Some v ->
  runs (get_block k) s tr (fun x s' => x = v /\ s' = s).
Proof.
  intros (_ & _ & _ & _ & Hb & _) Hv. exists v, s. split; [|done]. unfold get_block. kred. by rewrite (Hb k v Hv).
Qed.

Lemma copy_data_run pins to from n m d e s tr :
  hold i pins [Held from m d; Held to n e] s ->
  runs (copy_data to from) s tr (fun _ s' => hold i pins [Held to n d; Held from m d] s' /\ quiet [(n, d)] [] s s').
Proof.
  intros Hs. unfold copy_data, upd_data.
  rstep (hold_get i pins from m d [Held to n e] s tr Hs) as (-> & _ & Ed). rewrite Ed.
  apply (hold_perm _ _ _ [Held to n e; Held from m d]) in Hs; [|constructor].
  exact (hold_set i pins to n e _ s (fun _ => d) tr Hs).
Qed.

Lemma st_blockno : log_area st -> blockno_ok st.
Proof. unfold log_area, blockno_ok, LOGBLOCKS, MAXOPBLOCKS. lia. Qed.

Lemma slot_blockno bl k v l : log_has st bl l -> bl !! k = Some v -> blockno_ok (log_slot st k).
Proof.
  intros (_ & _ & _ & Hlen & Hb & Har) Hv. apply Hb, lookup_lt_Some in Hv.
  unfold log_area, blockno_ok, log_slot, LOGBLOCKS, MAXOPBLOCKS in *. lia.
Qed.

Section Body.
Context (pins : gset Z) (bl : list Z) (k : nat) (v : Z) (s : kstate) (tr : list (kstate -> kstate)).
Context (Hs : hold i pins [] s) (Hlog : log_has st bl (k_log s)) (Hv : bl !! k = Some v).
Context (Hsize : (size pins < NBUF)%nat).
Context (Hslot : log_slot st k ∉ pins) (Hne : log_slot st k <> v).

(** One iteration of [write_log] copies a pinned block to its slot. *)
Lemma write_log_body : v ∈ pins ->
  runs (let! l := gets k_log in
    let! to := bread (log_dev l) (log_start l + Z.of_nat k + 1) in
    let! src := get_block k in
    let! from := bread (log_dev l) src in
    copy_data to from ;; bwrite to ;; brelse from ;; brelse to) s tr
    (fun _ s' => hold i pins [] s' /\
      quiet [(log_slot st k, view s v)] [(log_slot st k, view s v)] s s').
Proof.
  intros Hp. pose proof Hlog as (Hdev & Hst & _). pose proof (slot_blockno bl k v _ Hlog Hv) as Hblk.
  rstep gets_log as [-> ->]. rewrite Hdev, Hst. fold (log_slot st k).
  rstep (hold_bread i pins [] s (log_slot st k) tr Hs) as [H1 Q1]; [constructor|by right|].
  rstep (get_block_run bl) as [-> ->]; [by rewrite (proj2 Q1)|exact Hv|].
  rstep (hold_bread i pins _ _ v tr H1) as [H2 Q2]; [by constructor|by left|].
  rewrite (quiet_view _ _ _ _ _ Q1) in H2. cbn in H2.
  rstep (copy_data_run _ _ _ _ _ _ _ _ tr H2) as [H3 Q3].
  rstep (hold_bwrite i _ _ _ _ _ _ tr H3) as [H4 Q4].
  apply (hold_perm _ _ _ [Held a0 v (view s v); Held a (log_slot st k) (view s v)]) in H4; [|constructor].
  rstep (hold_brelse i _ _ _ _ _ _ tr H4) as [H5 Q5]; [done|].
  rlast (hold_brelse i _ _ _ _ _ _ tr H5) as [H6 Q6].
  - intros _. rewrite (quiet_disk _ _ _ _ _ Q5). cbn. rewrite (quiet_disk _ _ _ _ _ Q4). by rewrite apply_one.
  - split; [done|]. by chain.
Qed.

(** One iteration of [install_trans] copies a slot to the block's home. *)
Lemma install_body recovering :
  v ∈ pins \/ (recovering = true /\ (size pins + 1 < NBUF)%nat /\ blockno_ok v) ->
  runs (let! l := gets k_log in
    let! lbuf := bread (log_dev l) (log_start l + Z.of_nat k + 1) in
    let! dst := get_block k in
    let! dbuf := bread (log_dev l) dst in
    copy_data dbuf lbuf ;; bwrite dbuf ;; when (negb recovering) (bunpin dbuf) ;;
    brelse lbuf ;; brelse dbuf) s tr
    (fun _ s' => hold i (if recovering then pins else pins ∖ {[v]}) [] s' /\
      quiet [(v, view s (log_slot st k))] [(v, view s (log_slot st k))] s s').
Proof.
  intros Hp. pose proof Hlog as (Hdev & Hst & _). pose proof (slot_blockno bl k v _ Hlog Hv) as Hblk.
  pose proof (hold_clean i pins [] s (log_slot st k) Hs (Forall_nil_2 _) Hslot) as Hcl.
  rstep gets_log as [-> ->]. rewrite Hdev, Hst. fold (log_slot st k). set (d := view s (log_slot st k)) in *.
  rstep (hold_bread i pins [] s (log_slot st k) tr Hs) as [H1 Q1]; [constructor|by right|].
  rstep (get_block_run bl) as [-> ->]; [by rewrite (proj2 Q1)|exact Hv|].
  rstep (hold_bread i pins _ _ v tr H1) as [H2 Q2]; [by constructor|cbn [length]; destruct Hp as [|(_ & ? & ?)]; [by left|right; split; [lia|done]]|].
  apply (hold_perm _ _ _ [Held a (log_slot st k) d; Held a0 v (view s' v)]) in H2; [|constructor].
  rstep (copy_data_run _ _ _ _ _ _ _ _ tr H2) as [H3 Q3].
  rstep (hold_bwrite i _ _ _ _ _ _ tr H3) as [H4 Q4].
  set (pins' := if recovering then pins else pins ∖ {[v]}).
  assert (Hpins' : log_slot st k ∉ pins').
  { unfold pins'. destruct recovering; [done|]. intros [? _]%elem_of_difference. done. }
  assert (Hun : runs (when (negb recovering) (bunpin a0)) s'2 tr (fun _ s5 =>
    hold i pins' [Held a0 v d; Held a (log_slot st k) d] s5 /\ quiet [] [] s'2 s5)).
  { unfold pins'. destruct recovering.
    - apply runs_ret. split; [done|]. split; [apply moves_refl|done].
    - apply (hold_unpin i); [done|]. destruct Hp as [|[? _]]; [done|discriminate]. }
  rstep Hun as [H5 Q5].
  pose proof (quiet_disk _ _ _ _ v Q4) as D4. rewrite apply_one in D4.
  apply (hold_perm _ _ _ [Held a (log_slot st k) d; Held a0 v d]) in H5; [|constructor].
  rstep (hold_brelse i _ _ _ _ _ _ tr H5) as [H6 Q6].
  { intros _. rewrite (quiet_disk _ _ _ _ _ Q5), (quiet_disk _ _ _ _ _ Q4). cbn. rewrite decide_False by done.
    rewrite (quiet_disk _ _ _ _ _ Q3), (quiet_disk _ _ _ _ _ Q2), (quiet_disk _ _ _ _ _ Q1). done. }
  rlast (hold_brelse i _ _ _ _ _ _ tr H6) as [H7 Q7].
  - intros _. rewrite (quiet_disk _ _ _ _ _ Q6), (quiet_disk _ _ _ _ _ Q5). by cbn.
  - split; [done|]. by chain.
Qed.
End Body.

(** ** The loops of a commit *)
Definition log_copy (bl : list Z) (d : Z -> list Z) : list (Z * list Z) :=
  imap (fun k v => (log_slot st k, d v)) bl.
Definition home_copy (bl : list Z) (d : Z -> list Z) : list (Z * list Z) :=
  imap (fun k v => (v, d (log_slot st k))) bl.

Section Loops.
Context (bl : list Z) (Hnd : NoDup bl) (Hlen : (length bl < NBUF)%nat).
Context (Hhome : Forall (fun v => ~ in_log st v) bl).

Lemma bl_lt k v : bl !! k = Some v -> (k < 30)%nat.
Proof. intros Hk. apply lookup_lt_Some in Hk. unfold NBUF in Hlen. lia. Qed.

Lemma slot_in_log k v : bl !! k = Some v -> in_log st (log_slot st k).
Proof. intros Hk. pose proof (bl_lt k v Hk). unfold in_log, log_slot, LOGBLOCKS, MAXOPBLOCKS. lia. Qed.

Lemma home_not_log v : v ∈ bl -> ~ in_log st v.
Proof. intros Hv. by apply (proj1 (Forall_forall _ _) Hhome). Qed.

Lemma slot_not_home k v : bl !! k = Some v -> log_slot st k ∉ bl.
Proof. intros Hk Hin. by apply (home_not_log _ Hin), (slot_in_log k v). Qed.

Lemma log_copy_keys d m : m ∈ (log_copy bl d).*1 -> in_log st m.
Proof.
  intros ([? c] & -> & Hin)%list_elem_of_fmap. apply list_elem_of_lookup in Hin as [k Hk].
  unfold log_copy in Hk. rewrite list_lookup_imap in Hk. destruct (bl !! k) as [v|] eqn:E; [|done].
  injection Hk as <- <-. by apply (slot_in_log k v).
Qed.

Lemma home_copy_keys d : (home_copy bl d).*1 = bl.
Proof.
  apply list_eq. intros k. unfold home_copy. rewrite list_lookup_fmap, list_lookup_imap. by destruct (bl !! k).
Qed.

Lemma take_keys (W : list (Z * list Z)) k m : m ∈ (take k W).*1 -> m ∈ W.*1.
Proof. rewrite fmap_take, elem_of_take. intros (j & Hj & _). by apply list_elem_of_lookup_2 in Hj. Qed.

Lemma in_pins v : v ∈ bl -> v ∈ (list_to_set bl : gset Z).
Proof. apply elem_of_list_to_set. Qed.

Lemma size_drop k : (size (list_to_set (drop k bl) : gset Z) < NBUF)%nat.
Proof. rewrite size_list_to_set; [rewrite length_drop; lia|]. by apply (sublist_NoDup _ bl), sublist_drop. Qed.

Lemma write_log_run s tr :
  hold i (list_to_set bl) [] s -> log_has st bl (k_log s) ->
  runs write_log s tr (fun _ s' => hold i (list_to_set bl) [] s' /\
    quiet (log_copy bl (view s)) (log_copy bl (view s)) s s').
Proof.
  intros Hs Hlog. set (C := log_copy bl (view s)).
  set (P := fun k s' => hold i (list_to_set bl) [] s' /\ quiet (take k C) (take k C) s s').
  assert (Hn : lh_n (k_log s) = Z.of_nat (length bl)) by apply Hlog.
  unfold write_log. rstep gets_log as [-> ->]. rewrite Hn, Nat2Z.id.
  eapply runs_impl; [apply (runs_for_each P)|].
  - split; [done|]. split; [apply moves_refl|done].
  - intros k s1 Hk [H1 Q1]. destruct (lookup_lt_is_Some_2 bl k) as [v Hv]; [lia|].
    assert (Hin : v ∈ bl) by (by apply list_elem_of_lookup_2 in Hv).
    assert (Hview : view s1 v = view s v).
    { rewrite (quiet_view _ _ _ _ _ Q1). apply apply_writes_other. intros Hc%take_keys%log_copy_keys.
      by apply (home_not_log v Hin). }
    assert (HC : C !! k = Some (log_slot st k, view s v)).
    { unfold C, log_copy. rewrite list_lookup_imap, Hv. done. }
    rlast (write_log_body (list_to_set bl) bl k v s1 tr H1) as [H2 Q2].
    + by rewrite (proj2 Q1).
    + exact Hv.
    + exact (size_drop 0).
    + intros <-. by apply (slot_not_home k (log_slot st k)).
    + by apply in_pins.
    + split; [done|]. rewrite Hview in Q2. rewrite (take_S_r C k _ HC). by apply (quiet_trans _ _ _ _ _ s1).
  - intros _ s' [H1 Q1]. split; [done|]. replace (0 + length bl)%nat with (length C) in Q1 by (unfold C, log_copy; rewrite length_imap; lia).
    by rewrite take_ge in Q1.
Qed.

(** The blocks still pinned when [install_trans] reaches entry [k]. *)
Definition left_pins (recovering : bool) (k : nat) : gset Z :=
  if recovering then ∅ else list_to_set (drop k bl).

Lemma left_pins_S (recovering : bool) k v : bl !! k = Some v ->
  (if recovering then left_pins recovering k else left_pins recovering k ∖ {[v]}) = left_pins recovering (S k).
Proof.
  intros Hv. unfold left_pins. destruct recovering; [done|]. apply leibniz_equiv. intros m.
  rewrite (drop_S _ _ _ Hv). cbn [list_to_set]. rewrite elem_of_difference, elem_of_union, elem_of_singleton.
  split; [tauto|]. intros Hm. split; [by right|]. intros ->. apply elem_of_list_to_set in Hm.
  pose proof (sublist_NoDup (drop k bl) bl Hnd (sublist_drop bl k)) as Hd. rewrite (drop_S _ _ _ Hv) in Hd.
  by apply NoDup_cons in Hd as [Hd _].
Qed.

Lemma left_pins_in recovering k m : m ∈ left_pins recovering k -> m ∈ bl.
Proof.
  unfold left_pins. destruct recovering; [done|]. rewrite elem_of_list_to_set.
  intros Hm. by apply (subseteq_drop k bl).
Qed.

Lemma install_trans_run (recovering : bool) s tr :
  (recovering = true -> Forall blockno_ok bl) -> hold i (left_pins recovering 0) [] s -> log_has st bl (k_log s) ->
  runs (install_trans recovering) s tr (fun _ s' => hold i ∅ [] s' /\
    quiet (home_copy bl (view s)) (home_copy bl (view s)) s s').
Proof.
  intros Hblk Hs Hlog. set (C := home_copy bl (view s)).
  set (P := fun k s' => hold i (left_pins recovering k) [] s' /\ quiet (take k C) (take k C) s s').
  assert (Hn : lh_n (k_log s) = Z.of_nat (length bl)) by apply Hlog.
  unfold install_trans. rstep gets_log as [-> ->]. rewrite Hn, Nat2Z.id.
  eapply runs_impl; [apply (runs_for_each P)|].
  - split; [done|]. split; [apply moves_refl|done].
  - intros k s1 Hk [H1 Q1]. destruct (lookup_lt_is_Some_2 bl k) as [v Hv]; [lia|].
    pose proof (slot_not_home k v Hv) as Hslot.
    assert (Hview : view s1 (log_slot st k) = view s (log_slot st k)).
    { rewrite (quiet_view _ _ _ _ _ Q1). apply apply_writes_other. intros Hc%take_keys.
      unfold C in Hc. by rewrite home_copy_keys in Hc. }
    assert (HC : C !! k = Some (v, view s (log_slot st k))).
    { unfold C, home_copy. rewrite list_lookup_imap, Hv. done. }
    rlast (install_body (left_pins recovering k) bl k v s1 tr H1) as [H2 Q2].
    + by rewrite (proj2 Q1).
    + exact Hv.
    + unfold left_pins. destruct recovering; [by rewrite size_empty; unfold NBUF; lia|apply size_drop].
    + by intros Hm%left_pins_in.
    + intros E. apply Hslot. rewrite E. by apply list_elem_of_lookup_2 in Hv.
    + unfold left_pins. destruct recovering; [right; split; [done|]|left].
      { split; [rewrite size_empty; unfold NBUF; lia|]. by apply (Forall_lookup_1 _ bl k); [apply Hblk|]. }
      rewrite (drop_S _ _ _ Hv), elem_of_list_to_set. by left.
    + rewrite (left_pins_S recovering k v Hv) in H2. split; [done|]. rewrite Hview in Q2.
      rewrite (take_S_r C k _ HC). by apply (quiet_trans _ _ _ _ _ s1).
  - intros _ s' [H1 Q1]. replace (0 + length bl)%nat with (length bl) in * by lia. split.
    + unfold left_pins in H1. rewrite drop_ge in H1 by done. by destruct recovering.
    + rewrite take_ge in Q1; [done|]. unfold C, home_copy. by rewrite length_imap.
Qed.
End Loops.

(** ** The header block *)
(** The log's own variables are apart from the cache. *)
Lemma hold_with_log pins hs s f : hold i pins hs s -> hold i pins hs (s <| k_log ::= f |>).
Proof.
  intros [[A1 A0 A00 [order A2] A3 A4 A5 A6] Hnd Hat]. split; [|done|done]. split; try done.
  - by apply (solo_same i s).
  - exists order. by destruct A2; split.
Qed.

Lemma moves_with_log U W s s' f : moves U W s s' -> moves U W s (s' <| k_log ::= f |>).
Proof. by intros [A1 A2 A3]; split. Qed.

Lemma upd_log_run f s tr : runs (upd_log f) s tr (fun _ s' => s' = s <| k_log ::= f |>).
Proof. apply runs_modify. Qed.

Lemma write_head_run pins bl s tr :
  hold i pins [] s -> log_has st bl (k_log s) -> (size pins < NBUF)%nat ->
  runs write_head s tr (fun _ s' => hold i pins [] s' /\
    quiet [(st, header (view s st) bl)] [(st, header (view s st) bl)] s s').
Proof.
  intros Hs Hlog Hsize. pose proof Hlog as (Hdev & Hst & Hn & Hlh & Hbl & Har). unfold write_head, upd_data.
  rstep gets_log as [-> ->]. rewrite Hdev, Hst.
  rstep (hold_bread i pins [] s st tr Hs) as [H1 Q1]; [constructor|right; split; [done|by apply st_blockno]|]. rename a into b.
  rstep gets_log as [-> ->]. rewrite (proj2 Q1), Hn, Nat2Z.id.
  rstep (hold_set i _ _ _ _ _ _ (fun d => put32 d 0 (Z.of_nat (length bl))) tr H1) as [H2 Q2]. rename s'0 into s2.
  set (d0 := put32 (view s st) 0 (Z.of_nat (length bl))) in *.
  set (P := fun k s3 => hold i pins [Held b st (put_blocks d0 0 (take k bl))] s3 /\
    quiet [(st, put_blocks d0 0 (take k bl))] [] s s3).
  assert (HP : P 0%nat s2) by (split; [done|]; exact (quiet_trans _ _ _ _ _ _ _ Q1 Q2)). clear Q1 Q2 H1 H2.
  rstep (runs_for_each P _ tr (length bl) 0%nat s2 HP) as [H3 Q3].
  - intros k s3 Hk [H3 Q3]. destruct (lookup_lt_is_Some_2 bl k) as [v Hv]; [lia|].
    rstep (get_block_run bl) as [-> ->]; [by rewrite (proj2 Q3)|exact Hv|].
    rlast (hold_set i _ _ _ _ _ _ (fun d => put32 d (4 + 4 * k) v) tr H3) as [H4 Q4].
    assert (E : put32 (put_blocks d0 0 (take k bl)) (4 + 4 * k) v = put_blocks d0 0 (take (S k) bl)).
    { rewrite (take_S_r _ _ _ Hv), put_blocks_snoc. rewrite length_take_le by lia. done. }
    rewrite E in *. split; [done|]. exact (quiet_over _ _ _ _ _ _ (quiet_trans _ _ _ _ _ _ _ Q3 Q4)).
  - replace (0 + length bl)%nat with (length bl) in * by lia. rewrite take_ge in H3, Q3 by done.
    fold d0 in H3, Q3. change (put_blocks d0 0 bl) with (header (view s st) bl) in *.
    rstep (hold_bwrite i _ _ _ _ _ _ tr H3) as [H4 Q4].
    rlast (hold_brelse i _ _ _ _ _ _ tr H4) as [H5 Q5].
    + intros _. rewrite (quiet_disk _ _ _ _ _ Q4). by rewrite apply_one.
    + split; [done|]. chain. done.
Qed.

(** The list of blocks that a header block records. *)
Definition log_list (d : list Z) : list Z :=
  (fun k => i32 (get32 d (4 + 4 * k))) <$> seq 0 (Z.to_nat (i32 (get32 d 0))).

Lemma log_list_header d bl :
  length d = 1024%nat -> Z.of_nat (length bl) <= LOGBLOCKS -> Forall blockno_ok bl -> log_list (header d bl) = bl.
Proof.
  intros Hd Hlen Hok. destruct (header_roundtrip d bl Hd Hlen Hok) as [Hn Hk]. unfold log_list.
  rewrite Hn, Nat2Z.id. apply list_eq. intros k. rewrite list_lookup_fmap.
  destruct (bl !! k) as [v|] eqn:E.
  - apply lookup_lt_Some in E as Hlt. rewrite lookup_seq_lt by done. cbn [fmap option_fmap option_map].
    by rewrite Nat.add_0_l, (Hk k v E).
  - apply lookup_ge_None in E. by rewrite lookup_seq_ge.
Qed.

(** What does not change in the log while its header is read. *)
Definition log_at (l : logst) : Prop :=
  log_dev l = ROOTDEV /\ log_start l = st /\ length (lh_block l) = Z.to_nat LOGBLOCKS /\ log_area st.

Lemma set_block_run k v s tr : (k < length (lh_block (k_log s)))%nat ->
  runs (set_block k v) s tr (fun _ s' => s' = s <| k_log ::= (fun l => l <| lh_block ::= <[k := v]> |>) |>).
Proof.
  intros Hk. eexists tt, _. split; [|reflexivity]. unfold set_block. kred. by rewrite decide_True.
Qed.

Lemma read_head_run pins s tr d :
  hold i pins [] s -> log_at (k_log s) -> view s st = d -> st ∉ pins -> (size pins < NBUF)%nat ->
  0 <= i32 (get32 d 0) <= LOGBLOCKS ->
  runs read_head s tr (fun _ s' => hold i pins [] s' /\ moves [] [] s s' /\ log_has st (log_list d) (k_log s')).
Proof.
  intros Hs (Hdev & Hst & Hlh & Har) Hd Hpin Hsize Hn. pose proof (hold_clean i pins [] s st Hs (Forall_nil_2 _) Hpin) as Hcl.
  unfold read_head. set (n := i32 (get32 d 0)) in *.
  rstep gets_log as [-> ->]. rewrite Hdev, Hst.
  rstep (hold_bread i pins [] s st tr Hs) as [H1 [Q1 L1]]; [constructor|right; split; [done|by apply st_blockno]|]. rename a into b, s' into s1.
  rewrite Hd in H1.
  rstep (hold_get i _ _ _ _ _ _ tr H1) as (-> & _ & ->). fold n.
  rstep upd_log_run as E2. rename s' into s2. rstep gets_log as [-> ->].
  assert (N2 : lh_n (k_log s2) = n) by (by rewrite E2). rewrite N2.
  set (P := fun k s3 => hold i pins [Held b st d] s3 /\ moves [] [] s s3 /\ log_at (k_log s3) /\ lh_n (k_log s3) = n /\
    forall j, (j < k)%nat -> lh_block (k_log s3) !! j = Some (i32 (get32 d (4 + 4 * j)))).
  assert (HP : P 0%nat s2).
  { unfold P. rewrite E2. split; [by apply hold_with_log|]. split; [by apply moves_with_log|].
    split; [unfold log_at; cbn; rewrite L1; done|]. split; [done|]. intros j Hj. lia. }
  clear E2.
  rstep (runs_for_each P _ tr (Z.to_nat n) 0%nat s2 HP) as (H3 & Q3 & L3 & N3 & B3).
  - intros k s3 Hk (H3 & Q3 & (D3 & S3 & L3 & _) & N3 & B3).
    assert (Hlt : (k < length (lh_block (k_log s3)))%nat) by (rewrite L3; lia).
    rlast (set_block_run k _ s3 tr Hlt) as ->.
    split; [by apply hold_with_log|]. split; [by apply moves_with_log|]. cbn [k_log lh_n lh_block log_dev log_start upd_field].
    split; [by unfold log_at; cbn; rewrite length_insert|]. split; [done|].
    intros j Hj. destruct (decide (j = k)) as [->|].
    + by apply list_lookup_insert_eq.
    + rewrite list_lookup_insert_ne by done. apply B3. lia.
  - rlast (hold_brelse i _ _ _ _ _ _ tr H3) as [H4 [Q4 L4]].
    { intros _. rewrite (proj2 (mv_disk _ _ _ _ Q3)). cbn. by rewrite <- Hcl, Hd. }
    split; [done|]. split; [exact (moves_trans _ _ _ _ _ _ _ Q3 Q4)|]. rewrite L4.
    destruct L3 as (D3 & S3 & L3 & _). unfold log_has, log_list. fold n. rewrite length_fmap, length_seq.
    do 4 (split; [(done || lia)|]). split; [|done]. intros k v Hk. rewrite list_lookup_fmap in Hk.
    destruct (seq 0 (Z.to_nat n) !! k) as [j|] eqn:E; [|done]. apply lookup_seq in E as [-> E]. cbn in Hk.
    rewrite B3 by lia. exact Hk.
Qed.

(** ** Commit *)
(** The disk writes of a commit of the blocks [bl] with contents [d]. *)
Definition home_writes (bl : list Z) (d : Z -> list Z) : list (Z * list Z) := (fun v => (v, d v)) <$> bl.
Definition commit_writes (bl : list Z) (d : Z -> list Z) : list (Z * list Z) :=
  log_copy bl d ++ [(st, header (d st) bl)] ++ home_writes bl d ++ [(st, header (header (d st) bl) [])].

Lemma slot_gt k : st < log_slot st k.
Proof. unfold log_slot. lia. Qed.

Lemma log_copy_key bl d m : m ∈ (log_copy bl d).*1 -> exists k, (k < length bl)%nat /\ m = log_slot st k.
Proof.
  intros ([? c] & -> & Hin)%list_elem_of_fmap. apply list_elem_of_lookup in Hin as [k Hk].
  unfold log_copy in Hk. rewrite list_lookup_imap in Hk. destruct (bl !! k) as [v|] eqn:E; [|done].
  injection Hk as <- <-. exists k. split; [by apply lookup_lt_Some in E|done].
Qed.

Lemma log_copy_nodup bl d : NoDup (log_copy bl d).*1.
Proof.
  apply NoDup_alt. intros j k m Hj Hk. unfold log_copy in *. rewrite list_lookup_fmap, list_lookup_imap in Hj, Hk.
  destruct (bl !! j); [|done]. destruct (bl !! k); [|done]. cbn in *. unfold log_slot in *. simplify_eq. lia.
Qed.

(** After the copy, the slots hold the blocks. *)
Lemma log_copy_slot bl d d0 k v : bl !! k = Some v -> apply_writes (log_copy bl d) d0 (log_slot st k) = d v.
Proof.
  intros Hv. apply (apply_writes_at _ _ k); [apply log_copy_nodup|].
  unfold log_copy. by rewrite list_lookup_imap, Hv.
Qed.

Lemma log_copy_head bl d d0 : apply_writes (log_copy bl d) d0 st = d0 st.
Proof.
  apply apply_writes_other. intros (k & _ & E)%log_copy_key. pose proof (slot_gt k). lia.
Qed.

Lemma home_copy_writes bl d d0 : (forall k v, bl !! k = Some v -> d (log_slot st k) = d0 v) ->
  home_copy bl d = home_writes bl d0.
Proof.
  intros Hd. apply list_eq. intros k. unfold home_copy, home_writes. rewrite list_lookup_imap, list_lookup_fmap.
  destruct (bl !! k) as [v|] eqn:E; [|done]. cbn. by rewrite (Hd k v E).
Qed.

Lemma home_copy_ext bl d d' : (forall m, d m = d' m) -> home_copy bl d = home_copy bl d'.
Proof. intros Hd. apply imap_ext. intros k v _. by rewrite Hd. Qed.

Lemma log_has_clear bl l : log_has st bl l -> log_has st [] (l <| lh_n := 0 |>).
Proof. intros (D & S & _ & L & _ & R). do 4 (split; [done|]). split; [by intros [|k] v Hk|done]. Qed.

Lemma commit_run bl s tr :
  NoDup bl -> (0 < length bl < NBUF)%nat -> Forall (fun v => ~ in_log st v) bl ->
  hold i (list_to_set bl) [] s -> log_has st bl (k_log s) ->
  runs commit s tr (fun _ s' => hold i ∅ [] s' /\ k_log s' = (k_log s) <| lh_n := 0 |> /\
    moves (commit_writes bl (view s)) (commit_writes bl (view s)) s s').
Proof.
  intros Hnd Hlen Hhome Hs Hlog. assert (Hn : lh_n (k_log s) = Z.of_nat (length bl)) by apply Hlog.
  unfold commit. rstep gets_log as [-> ->]. rewrite Hn. unfold when. destruct (Z.ltb_spec 0 (Z.of_nat (length bl))) as [_|?]; [|lia].
  assert (Hsz : (size (list_to_set bl : gset Z) < NBUF)%nat) by (rewrite size_list_to_set by done; lia).
  rstep (write_log_run bl Hnd ltac:(lia) Hhome s tr Hs Hlog) as [H1 Q1]. rename s' into s1.
  assert (Hlog1 : log_has st bl (k_log s1)) by (by rewrite (proj2 Q1)).
  rstep (write_head_run _ bl s1 tr H1 Hlog1 Hsz) as [H2 Q2]. rename s' into s2.
  assert (Hlog2 : log_has st bl (k_log s2)) by (by rewrite (proj2 Q2)).
  rewrite (quiet_view _ _ _ _ _ Q1), log_copy_head in Q2.
  rstep (install_trans_run bl Hnd ltac:(lia) Hhome false s2 tr ltac:(done) H2 Hlog2) as [H3 Q3]. rename s' into s3.
  assert (Hlog3 : log_has st bl (k_log s3)) by (by rewrite (proj2 Q3)).
  rewrite (home_copy_writes bl (view s2) (view s)) in Q3.
  2: { intros k v Hv. rewrite (quiet_view _ _ _ _ _ Q2). cbn. rewrite decide_False by (pose proof (slot_gt k); lia).
       rewrite (quiet_view _ _ _ _ _ Q1). by apply log_copy_slot. }
  rstep upd_log_run as E4. rename s' into s4.
  assert (H4 : hold i ∅ [] s4) by (rewrite E4; by apply hold_with_log).
  assert (Hlog4 : log_has st [] (k_log s4)) by (rewrite E4; by apply (log_has_clear bl)).
  assert (V4 : view s4 st = header (view s st) bl).
  { rewrite E4. change (view s3 st = header (view s st) bl). rewrite (quiet_view _ _ _ _ _ Q3), apply_writes_other.
    - rewrite (quiet_view _ _ _ _ _ Q2). by rewrite apply_one.
    - unfold home_writes. rewrite <- list_fmap_compose, list_fmap_id. intros Hin%(home_not_log bl Hhome). apply Hin.
      unfold in_log, LOGBLOCKS, MAXOPBLOCKS. lia. }
  rlast (write_head_run _ [] s4 tr H4 Hlog4) as [H5 [M5 L5]]; [rewrite size_empty; unfold NBUF; lia|].
  rewrite V4 in M5. split; [done|].
  split; [rewrite L5, E4; cbn; by rewrite (proj2 Q3), (proj2 Q2), (proj2 Q1)|].
  assert (M4 : moves [] [] s3 s4) by (rewrite E4; apply moves_with_log, moves_refl).
  exact (moves_trans _ _ _ _ _ _ _ (proj1 Q1) (moves_trans _ _ _ _ _ _ _ (proj1 Q2)
    (moves_trans _ _ _ _ _ _ _ (proj1 Q3) (moves_trans _ _ _ _ _ _ _ M4 M5)))).
Qed.

(** ** Recovery *)
Definition recovery_writes (d : Z -> list Z) : list (Z * list Z) :=
  home_copy (log_list (d st)) d ++ [(st, header (d st) [])].

(** A header block that recovery can follow. *)
Record log_valid (d : list Z) : Prop := {
  lv_len : length d = 1024%nat;
  lv_n : 0 <= i32 (get32 d 0) < Z.of_nat NBUF;
  lv_nodup : NoDup (log_list d);
  lv_home : Forall (fun v => ~ in_log st v) (log_list d);
  lv_blk : Forall blockno_ok (log_list d);
  lv_area : log_area st }.

Lemma length_log_list d : length (log_list d) = Z.to_nat (i32 (get32 d 0)).
Proof. unfold log_list. by rewrite length_fmap, length_seq. Qed.

Lemma recover_run s tr :
  hold i ∅ [] s -> log_at (k_log s) -> log_valid (view s st) ->
  runs recover_from_log s tr (fun _ s' => hold i ∅ [] s' /\ log_has st [] (k_log s') /\
    moves (recovery_writes (view s)) (recovery_writes (view s)) s s').
Proof.
  intros Hs Hat [Hl Hn Hnd Hhome Hblk Har]. unfold recover_from_log.
  assert (Hsz : (size (∅ : gset Z) < NBUF)%nat) by (rewrite size_empty; unfold NBUF; lia).
  rstep (read_head_run ∅ s tr (view s st) Hs Hat eq_refl) as (H1 & M1 & L1); [done|done|unfold NBUF, LOGBLOCKS, MAXOPBLOCKS in *; lia|].
  rename s' into s1. set (bl := log_list (view s st)) in *.
  assert (Hlen : (length bl < NBUF)%nat) by (unfold bl; rewrite length_log_list; lia).
  assert (V1 : forall m, view s1 m = view s m) by (intros m; by rewrite (mv_view _ _ _ _ M1)).
  rstep (install_trans_run bl Hnd Hlen Hhome true s1 tr (fun _ => Hblk) H1 L1) as [H2 Q2]. rename s' into s2.
  rewrite (home_copy_ext bl (view s1) (view s)) in Q2 by done.
  rstep upd_log_run as E3. rename s' into s3.
  assert (H3 : hold i ∅ [] s3) by (rewrite E3; by apply hold_with_log).
  assert (Hlog3 : log_has st [] (k_log s3)).
  { rewrite E3. apply (log_has_clear bl). cbn. by rewrite (proj2 Q2). }
  assert (V3 : view s3 st = view s st).
  { rewrite E3. change (view s2 st = view s st). rewrite (quiet_view _ _ _ _ _ Q2), apply_writes_other; [apply V1|].
    rewrite home_copy_keys. intros Hin%(home_not_log bl Hhome). apply Hin. unfold in_log, LOGBLOCKS, MAXOPBLOCKS. lia. }
  rlast (write_head_run _ [] s3 tr H3 Hlog3 Hsz) as [H4 [M4 L4]]. rewrite V3 in M4.
  split; [done|]. split; [by rewrite L4|].
  assert (M3 : moves [] [] s2 s3) by (rewrite E3; apply moves_with_log, moves_refl).
  exact (moves_trans _ _ _ _ _ _ _ M1 (moves_trans _ _ _ _ _ _ _ (proj1 Q2) (moves_trans _ _ _ _ _ _ _ M3 M4))).
Qed.
End Run.

(** ** Transactions *)
Section Ops.
Context `{DiskOk} (i : nat) (st : Z).

(** A critical section on the log's lock that changes the log's variables. *)
Lemma log_section f s tr : solo i s ->
  (acquire L_log ;; upd_log f ;; release L_log) s tr = Done tt (s <| k_log ::= f |>) tr.
Proof.
  intros Hs. kstep (solo_acquire i s Hs). kstep modify_run.
  assert (Hs1 : solo i (s <| k_log ::= f |>)) by (by apply (solo_same i s)).
  exact (solo_release i _ Hs1 L_log tr).
Qed.

(** [begin_op] with room in the log. *)
Lemma begin_op_run s tr :
  solo i s -> log_committing (k_log s) = false ->
  lh_n (k_log s) + (log_outstanding (k_log s) + 1) * MAXOPBLOCKS <= LOGBLOCKS ->
  begin_op s tr = Done tt (s <| k_log ::= (fun l => l <| log_outstanding := log_outstanding l + 1 |>) |>) tr.
Proof.
  intros Hs Hc Hroom. unfold begin_op. kstep (solo_acquire i s Hs). apply loop_first.
  kstep gets_run. change (k_log (enter L_log s)) with (k_log s). rewrite Hc, (proj2 (Z.ltb_ge _ _)) by lia.
  kstep modify_run. set (f := fun l : logst => _).
  assert (Hs1 : solo i (s <| k_log ::= f |>)) by (by apply (solo_same i s)).
  by kexact (solo_release i _ Hs1 L_log tr).
Qed.

Lemma bpin_in_log b s tr : solo i s ->
  bpin b (enter L_log s) tr = Done tt (enter L_log (changed s b (bref 1))) tr.
Proof.
  intros Hs. pose proof (solo_hart i s Hs) as Hh. unfold bpin, upd_buf.
  assert (Hl : forall s', k_locks s' = ∅ -> k_locks (enter L_log s') !! L_bcache = None).
  { intros s' E. cbn. rewrite lookup_insert_ne by done. by rewrite E. }
  assert (Hs1 : solo i (changed s b (bref 1))) by (by apply (solo_same i s)).
  kstep acquire_run; [by apply hart_ok_enter|apply Hl, Hs|]. kstep modify_run.
  rewrite <- (touch_enter L_log (changed s b (bref 1))) by apply (solo_hart i _ Hs1).
  exact (release_run L_bcache (enter L_log (changed s b (bref 1))) tr (hart_ok_enter _ _ (solo_hart i _ Hs1)) (Hl _ (solo_locks i _ Hs1))).
Qed.

Lemma find_block_spec blocks bl n : (length bl <= length blocks)%nat ->
  (forall k v, bl !! k = Some v -> blocks !! k = Some v) ->
  (exists k, bl !! k = Some n /\ find_block blocks (length bl) 0 n = k) \/
  ((n ∉ bl) /\ find_block blocks (length bl) 0 n = length bl).
Proof.
  intros Hlen Hpre.
  assert (G : forall m k, (k + m = length bl)%nat -> (forall j, (j < k)%nat -> bl !! j <> Some n) ->
    (exists j, bl !! j = Some n /\ find_block blocks m k n = j) \/ ((n ∉ bl) /\ find_block blocks m k n = length bl)).
  { induction m as [|m IH]; intros k Hk Hno; cbn [find_block].
    - right. split; [|lia]. intros [j Hj]%list_elem_of_lookup. apply lookup_lt_Some in Hj as Hlt.
      by apply (Hno j); [lia|].
    - destruct (lookup_lt_is_Some_2 bl k) as [v Hv]; [lia|]. rewrite (Hpre k v Hv).
      destruct (decide (Some v = Some n)) as [E|E].
      + left. exists k. split; [congruence|done].
      + apply IH; [lia|]. intros j Hj. destruct (decide (j = k)) as [->|]; [congruence|apply Hno; lia]. }
  apply (G (length bl) 0%nat); [done|]. intros j Hj. lia.
Qed.

(** The blocks of the transaction after block [n] is logged. *)
Definition logged (bl : list Z) (n : Z) : list Z := if decide (n ∈ bl) then bl else bl ++ [n].

Definition note_block (k : nat) (n : Z) (l : logst) : logst := l <| lh_block ::= <[k := n]> |>.
Definition count_block (l : logst) : logst := l <| lh_n := lh_n l + 1 |>.

Lemma note_same bl k n l : log_has st bl l -> bl !! k = Some n -> note_block k n l = l.
Proof.
  intros (_ & _ & _ & _ & Hb & _) Hk. unfold note_block. destruct l. cbn in *. rewrite list_insert_id; [done|]. by apply Hb.
Qed.

Lemma note_new bl n l : log_has st bl l -> (length bl < 30)%nat ->
  log_has st (bl ++ [n]) (count_block (note_block (length bl) n l)).
Proof.
  intros (D & S & N & L & B & R) Hlt. unfold log_has, note_block, count_block. cbn. rewrite length_app, length_insert. cbn.
  do 4 (split; [(done || lia)|]). split; [|done]. intros k v Hk. destruct (decide (k = length bl)) as [->|Hne].
  - rewrite lookup_app_r in Hk by lia. rewrite Nat.sub_diag in Hk. injection Hk as <-.
    apply list_lookup_insert_eq. rewrite L. unfold LOGBLOCKS, MAXOPBLOCKS. lia.
  - rewrite list_lookup_insert_ne by done. apply B. apply lookup_lt_Some in Hk as Hlt'.
    rewrite length_app in Hlt'. cbn in Hlt'. rewrite lookup_app_l in Hk by lia. done.
Qed.

Lemma set_block_in k n s tr : (k < length (lh_block (k_log s)))%nat ->
  set_block k n (enter L_log s) tr = Done tt (enter L_log (s <| k_log ::= note_block k n |>)) tr.
Proof.
  intros Hk. unfold set_block. kstep (eq_refl : kget _ _ = Done _ _ _).
  change (k_log (enter L_log s)) with (k_log s). rewrite (decide_True _ _ Hk). reflexivity.
Qed.

Lemma get_buf_in b x s tr : k_bufs s !! b = Some x -> get_buf b (enter L_log s) tr = Done x (enter L_log s) tr.
Proof. intros Hx. unfold get_buf. kred. cbn. by rewrite Hx. Qed.

(** The state after [log_write] of buffer [b], which holds block [n]. *)
Definition log_wrote (bl : list Z) (b : nat) (n : Z) (s : kstate) : kstate :=
  if decide (n ∈ bl) then s
  else (changed s b (bref 1)) <| k_log ::= (fun l => count_block (note_block (length bl) n l)) |>.

Lemma log_write_run bl b x s tr :
  solo i s -> log_has st bl (k_log s) -> (length bl < 30)%nat -> NoDup bl -> 1 <= log_outstanding (k_log s) ->
  k_bufs s !! b = Some x ->
  log_write b s tr = Done tt (log_wrote bl b (b_blockno x) s) tr.
Proof.
  intros Hs Hlog Hlen Hnd Hout Hx. pose proof Hlog as (_ & _ & Hn & Hlh & Hb & _). unfold log_write.
  kstep (solo_acquire i s Hs). kstep gets_run. change (k_log (enter L_log s)) with (k_log s).
  rewrite Hn, (proj2 (Z.leb_gt _ _)) by (unfold LOGBLOCKS, MAXOPBLOCKS; lia). rewrite (proj2 (Z.ltb_ge _ _)) by lia.
  kstep get_buf_in; [exact Hx|]. rewrite Nat2Z.id. set (n := b_blockno x). unfold log_wrote.
  destruct (find_block_spec (lh_block (k_log s)) bl n) as [(k & Hk & E)|[Hno E]];
    [rewrite Hlh; unfold LOGBLOCKS, MAXOPBLOCKS; lia|done| |]; rewrite E.
  - apply lookup_lt_Some in Hk as Hlt.
    rewrite (decide_True _ _ (list_elem_of_lookup_2 _ _ _ Hk)).
    kstep set_block_in; [rewrite Hlh; unfold LOGBLOCKS, MAXOPBLOCKS; lia|].
    rewrite (proj2 (Z.eqb_neq _ _)) by lia. kstep kret_run.
    replace (s <| k_log ::= note_block k n |>) with s; [apply (solo_release i s Hs)|].
    destruct s. cbn in *. unfold upd_field. by rewrite (note_same bl k n _ Hlog Hk).
  - rewrite (decide_False _ _ Hno).
    kstep set_block_in; [rewrite Hlh; unfold LOGBLOCKS, MAXOPBLOCKS; lia|]. rewrite Z.eqb_refl. unfold when.
    set (s1 := s <| k_log ::= note_block (length bl) n |>).
    assert (Hs1 : solo i s1) by (by apply (solo_same i s)).
    kstep (bpin_in_log b s1 tr Hs1). kstep modify_run.
    set (s2 := (changed s b (bref 1)) <| k_log ::= (fun l => count_block (note_block (length bl) n l)) |>).
    assert (Hs2 : solo i s2) by (by apply (solo_same i s)). exact (solo_release i s2 Hs2 L_log tr).
Qed.

Lemma list_to_set_snoc (bl : list Z) n : (list_to_set (bl ++ [n]) : gset Z) = {[n]} ∪ list_to_set bl.
Proof. apply leibniz_equiv. rewrite list_to_set_app. cbn. by rewrite (right_id ∅ _), (comm (∪)). Qed.

Lemma hold_log_write bl b n d hs s tr :
  hold i (list_to_set bl) (Held b n d :: hs) s -> log_has st bl (k_log s) ->
  (length bl < 30)%nat -> NoDup bl -> 1 <= log_outstanding (k_log s) ->
  runs (log_write b) s tr (fun _ s' => hold i (list_to_set (logged bl n)) (Held b n d :: hs) s' /\
    moves [] [] s s' /\ log_has st (logged bl n) (k_log s') /\
    log_outstanding (k_log s') = log_outstanding (k_log s) /\ log_committing (k_log s') = log_committing (k_log s)).
Proof.
  intros Hs Hlog Hlen Hnd Hout. destruct (hold_first _ _ _ _ _ _ _ Hs) as (x & Hx & E1 & E2 & Hin).
  assert (Hsolo : solo i s) by apply Hs. exists tt, (log_wrote bl b n s).
  split; [rewrite <- E1; by apply log_write_run|]. unfold log_wrote, logged.
  destruct (decide (n ∈ bl)) as [Hi|Hi]; [by split; [|split; [apply moves_refl|]]|].
  destruct (hold_pin i _ _ _ _ _ _ tr Hs) as ([] & s1 & P1 & P2 & P3 & P4).
  { by rewrite elem_of_list_to_set. }
  rewrite (bpin_run i b s tr Hsolo) in P1. injection P1 as <-. rewrite list_to_set_snoc. split; [by apply hold_with_log|].
  split; [by apply moves_with_log|]. cbn [k_log upd_field]. split; [by apply note_new|done].
Qed.

(** The log's variables outside the header, which a commit does not touch. *)
Definition same_ops (l l' : logst) : Prop :=
  log_outstanding l' = log_outstanding l /\ log_committing l' = log_committing l.

(** The disk writes of the [end_op] that closes the transaction [bl]. *)
Definition end_writes (bl : list Z) (d : Z -> list Z) : list (Z * list Z) :=
  if decide (bl = []) then [] else commit_writes st bl d.

(** The bookkeeping of [end_op] before and after the commit. *)
Definition start_commit (l : logst) : logst := l <| log_outstanding := log_outstanding l - 1 |> <| log_committing := true |>.
Definition finish_commit (l : logst) : logst := l <| log_committing := false |> <| log_ncommit := log_ncommit l + 1 |>.
Definition finish : Kern unit :=
  acquire L_log ;; upd_log (fun l => l <| log_committing := false |>) ;;
  upd_log (fun l => l <| log_ncommit := log_ncommit l + 1 |>) ;; wakeup (Some Ch_log) ;; release L_log.

Lemma gets_log_eq s tr : gets k_log s tr = Done (k_log s) s tr.
Proof. done. Qed.

Lemma end_op_start s tr : solo i s -> log_outstanding (k_log s) = 1 -> log_committing (k_log s) = false ->
  end_op s tr = (commit ;; finish) (s <| k_log ::= start_commit |>) tr.
Proof.
  intros Hs Hout Hcom. unfold end_op. kstep (solo_acquire i s Hs). kstep modify_run. kstep gets_log_eq.
  match goal with |- context [log_committing (k_log ?x)] => set (s0 := x) end.
  assert (E1 : log_committing (k_log s0) = false) by exact Hcom.
  assert (E2 : log_outstanding (k_log s0) = 0) by (change (log_outstanding (k_log s) - 1 = 0); by rewrite Hout).
  rewrite E1, E2. cbn [Z.eqb].
  kstep modify_run. kstep kret_run.
  assert (Hs1 : solo i (s <| k_log ::= start_commit |>)) by (by apply (solo_same i s)).
  kexact (solo_release i _ Hs1 L_log tr). reflexivity.
Qed.

Lemma finish_run s tr : solo i s -> finish s tr = Done tt (s <| k_log ::= finish_commit |>) tr.
Proof.
  intros Hs. unfold finish. kstep (solo_acquire i s Hs). kstep modify_run. kstep modify_run.
  assert (Hs1 : solo i (s <| k_log ::= finish_commit |>)) by (by apply (solo_same i s)).
  kexact (enter_wakeup i _ Hs1 L_log Ch_log tr ltac:(done)). exact (solo_release i _ Hs1 L_log tr).
Qed.

Lemma end_op_run bl s tr :
  NoDup bl -> (length bl < NBUF)%nat -> Forall (fun v => ~ in_log st v) bl ->
  hold i (list_to_set bl) [] s -> log_has st bl (k_log s) ->
  log_outstanding (k_log s) = 1 -> log_committing (k_log s) = false ->
  runs end_op s tr (fun _ s' => hold i ∅ [] s' /\ log_has st [] (k_log s') /\
    log_outstanding (k_log s') = 0 /\ log_committing (k_log s') = false /\
    moves (end_writes bl (view s)) (end_writes bl (view s)) s s').
Proof.
  intros Hnd Hlen Hhome Hs Hlog Hout Hcom. assert (Hsolo : solo i s) by apply Hs.
  unfold runs. rewrite (end_op_start s tr Hsolo Hout Hcom). set (s1 := s <| k_log ::= start_commit |>).
  assert (H1 : hold i (list_to_set bl) [] s1) by (by apply hold_with_log).
  assert (Hlog1 : log_has st bl (k_log s1)) by done.
  assert (Hc : runs commit s1 tr (fun _ s2 => hold i ∅ [] s2 /\ k_log s2 = (k_log s1) <| lh_n := 0 |> /\
    moves (end_writes bl (view s)) (end_writes bl (view s)) s1 s2)).
  { unfold end_writes. destruct (decide (bl = [])) as [->|Hne].
    - unfold commit. rstep gets_log as [-> ->]. destruct Hlog1 as (_ & _ & Hn & _). rewrite Hn. apply runs_ret.
      split; [exact H1|]. split; [|apply moves_refl]. cbn in Hn |- *. unfold start_commit in *. cbn in *.
      destruct (k_log s). cbn in *. by rewrite Hn.
    - apply (commit_run i st bl s1 tr); try done. destruct bl; [done|cbn [length] in *; lia]. }
  change (runs (commit ;; finish) s1 tr (fun _ s' => hold i ∅ [] s' /\ log_has st [] (k_log s') /\
    log_outstanding (k_log s') = 0 /\ log_committing (k_log s') = false /\
    moves (end_writes bl (view s)) (end_writes bl (view s)) s s')).
  rstep Hc as (H2 & L2 & M2). rename s' into s2.
  exists tt, (s2 <| k_log ::= finish_commit |>). split; [apply finish_run, H2|].
  split; [by apply hold_with_log|]. cbn [k_log upd_field]. rewrite L2.
  split; [apply (log_has_clear st bl (finish_commit (start_commit (k_log s))) Hlog)|].
  cbn. rewrite Hout. split; [done|]. split; [done|].
  destruct M2 as [A1 A2 A3]. split; [exact A1|exact A2|exact A3].
Qed.
End Ops.

(** ** Crashes *)
(** The writes performed between two states, first one first, and the disk that
    a crash after the first [n] of them leaves. *)
Definition disk_writes (s s' : kstate) : list (Z * list Z) :=
  rev (take (length (k_dhist s') - length (k_dhist s)) (k_dhist s')).
Definition crash_disk (n : nat) (s s' : kstate) : Z -> list Z :=
  apply_writes (take n (disk_writes s s')) (k_disk s).

Lemma disk_writes_wrote W s s' : wrote W s s' -> disk_writes s s' = W.
Proof.
  intros [Hh _]. unfold disk_writes. rewrite Hh, length_app, length_rev.
  replace (length W + length (k_dhist s) - length (k_dhist s))%nat with (length (rev W)) by (rewrite length_rev; lia).
  by rewrite take_app_length, rev_involutive.
Qed.

Section Crash.
Context (st : Z).

(** The disk [D] is one from which recovery restores the contents [F]: the
    header lists blocks whose slots hold their contents in [F], and the other
    blocks are those of [F]. *)
Record recoverable (D F : Z -> list Z) : Prop := {
  rc_valid : log_valid st (D st);
  rc_home : forall m, ~ in_log st m -> m ∉ log_list (D st) -> D m = F m;
  rc_slot : forall k v, log_list (D st) !! k = Some v -> D (log_slot st k) = F v }.

Lemma st_in_log : in_log st st.
Proof. unfold in_log, LOGBLOCKS, MAXOPBLOCKS. lia. Qed.

Lemma slot_log k : (k < NBUF)%nat -> in_log st (log_slot st k).
Proof. unfold NBUF, in_log, log_slot, LOGBLOCKS, MAXOPBLOCKS. lia. Qed.

Lemma log_list_short D : log_valid st D -> (length (log_list D) < NBUF)%nat.
Proof. intros [_ Hn _ _ _ _]. rewrite length_log_list. lia. Qed.

Lemma empty_header_valid d : log_area st -> length d = 1024%nat -> log_list (header d []) = [] /\ log_valid st (header d []).
Proof.
  intros Har Hd. assert (E : log_list (header d []) = []) by (by apply log_list_header).
  destruct (header_roundtrip d [] Hd) as [Hn _]; [done|done|].
  split; [done|]. split; [by rewrite length_header|by rewrite Hn|by rewrite E; constructor|by rewrite E|by rewrite E|done].
Qed.

Lemma full_header_valid d bl : log_area st -> length d = 1024%nat -> Forall blockno_ok bl -> NoDup bl ->
  (length bl < NBUF)%nat -> Forall (fun v => ~ in_log st v) bl ->
  log_list (header d bl) = bl /\ log_valid st (header d bl).
Proof.
  intros Har Hd Hok Hnd Hlen Hhome.
  assert (Hle : Z.of_nat (length bl) <= LOGBLOCKS) by (unfold NBUF, LOGBLOCKS, MAXOPBLOCKS in *; lia).
  assert (E : log_list (header d bl) = bl) by (by apply log_list_header).
  destruct (header_roundtrip d bl Hd Hle Hok) as [Hn _].
  split; [done|]. split; [by rewrite length_header|rewrite Hn; lia|by rewrite E|by rewrite E|by rewrite E|done].
Qed.

Lemma home_copy_at bl d d0 m : NoDup bl -> m ∈ bl ->
  exists k, bl !! k = Some m /\ apply_writes (home_copy st bl d) d0 m = d (log_slot st k).
Proof.
  intros Hnd [k Hk]%list_elem_of_lookup. exists k. split; [done|].
  apply (apply_writes_at _ _ k); [by rewrite home_copy_keys|]. unfold home_copy. by rewrite list_lookup_imap, Hk.
Qed.

(** Recovery restores the contents. *)
Lemma recoverable_restores D F m : recoverable D F -> ~ in_log st m ->
  apply_writes (recovery_writes st D) D m = F m.
Proof.
  intros [Hv Hh Hs] Hm. unfold recovery_writes. rewrite apply_writes_app. cbn.
  rewrite decide_False by (intros ->; apply Hm, st_in_log).
  destruct (decide (m ∈ log_list (D st))) as [Hin|Hin].
  - destruct (home_copy_at _ D D m (lv_nodup _ _ Hv) Hin) as (k & Hk & ->). by apply Hs.
  - rewrite apply_writes_other by (by rewrite home_copy_keys). by apply Hh.
Qed.

(** A crash in the middle of recovery leaves a disk that can be recovered. *)
Lemma recoverable_crash D F n : recoverable D F ->
  recoverable (apply_writes (take n (recovery_writes st D)) D) F.
Proof.
  intros Hr. pose proof Hr as [Hv Hh Hs]. set (bl := log_list (D st)) in *.
  destruct (decide (n <= length bl)%nat) as [Hn|Hn].
  - assert (E : take n (recovery_writes st D) = take n (home_copy st bl D)).
    { unfold recovery_writes. fold bl. rewrite take_app_le; [done|]. unfold home_copy. by rewrite length_imap. }
    rewrite E. set (D' := apply_writes _ D).
    assert (Hother : forall m, m ∉ bl -> D' m = D m).
    { intros m Hm. apply apply_writes_other. intros Hin%take_keys. by rewrite home_copy_keys in Hin. }
    assert (Hst : D' st = D st).
    { apply Hother. intros Hin. apply (home_not_log st bl (lv_home _ _ Hv) st Hin), st_in_log. }
    split; rewrite Hst; fold bl; [done| |].
    + intros m Hm Hin. rewrite (Hother m Hin). by apply Hh.
    + intros k v Hk. rewrite (Hother (log_slot st k)); [by apply Hs|].
      intros Hin. apply (home_not_log st bl (lv_home _ _ Hv) _ Hin), slot_log.
      apply lookup_lt_Some in Hk. pose proof (log_list_short _ Hv : length bl < NBUF)%nat. lia.
  - assert (E : take n (recovery_writes st D) = recovery_writes st D).
    { apply take_ge. unfold recovery_writes, home_copy. rewrite length_app, length_imap. cbn. fold bl. lia. }
    rewrite E.
    assert (Hst : apply_writes (recovery_writes st D) D st = header (D st) []).
    { unfold recovery_writes. rewrite apply_writes_app. cbn. by rewrite decide_True. }
    destruct (empty_header_valid (D st) (lv_area _ _ Hv) (lv_len _ _ Hv)) as [E0 V0].
    split; rewrite Hst; [done| |].
    + intros m Hm _. by apply recoverable_restores.
    + rewrite E0. by intros [|k] v Hk.
Qed.

(** A crash of a commit: before the header is written the old contents are
    recovered, from then on the new ones. *)
Lemma commit_crash bl d D n :
  log_area st -> NoDup bl -> (length bl < NBUF)%nat -> Forall (fun v => ~ in_log st v) bl -> Forall blockno_ok bl ->
  length (D st) = 1024%nat -> i32 (get32 (D st) 0) = 0 -> d st = D st ->
  (forall m, ~ in_log st m -> m ∉ bl -> d m = D m) ->
  recoverable (apply_writes (take n (commit_writes st bl d)) D) (if decide (n <= length bl)%nat then D else d).
Proof.
  intros Har Hnd Hlen Hhome Hok Hd Hn0 Hst Hcl.
  assert (Hl0 : log_list (D st) = []) by (unfold log_list; by rewrite Hn0).
  assert (Hlc : length (log_copy st bl d) = length bl) by (unfold log_copy; by rewrite length_imap).
  destruct (decide (n <= length bl)%nat) as [Hn|Hn].
  - unfold commit_writes. rewrite take_app_le by lia.
    assert (Hst' : apply_writes (take n (log_copy st bl d)) D st = D st).
    { apply apply_writes_other. intros (k & _ & E)%take_keys%log_copy_key. pose proof (slot_gt st k). lia. }
    split; rewrite Hst', ?Hl0.
    + split; [done|rewrite Hn0; unfold NBUF; lia|by rewrite Hl0; constructor|by rewrite Hl0|by rewrite Hl0|done].
    + intros m Hm _. apply apply_writes_other. intros Hin%take_keys%log_copy_keys; [|done]. done.
    + by intros [|k] v Hk.
  - set (hd := (st, header (d st) bl)). set (D1 := apply_writes (log_copy st bl d ++ [hd]) D).
    set (R := home_writes bl d ++ [(st, header (header (d st) bl) [])]).
    assert (HD1 : D1 st = header (d st) bl) by (unfold D1; rewrite apply_writes_app; apply apply_one).
    destruct (full_header_valid (d st) bl) as [El Ev]; [done|by rewrite Hst|done..|].
    assert (Hslot : forall k v, bl !! k = Some v -> D1 (log_slot st k) = d v).
    { intros k v Hk. unfold D1. rewrite apply_writes_app. cbn. rewrite decide_False by (pose proof (slot_gt st k); lia).
      by apply log_copy_slot. }
    assert (HR : R = recovery_writes st D1).
    { unfold R, recovery_writes. rewrite HD1, El. f_equal. symmetry. by apply home_copy_writes. }
    assert (Hr : recoverable D1 d).
    { split; rewrite HD1, ?El; [done| |done]. intros m Hm Hin. unfold D1. rewrite apply_writes_app. cbn.
      rewrite decide_False by (intros ->; apply Hm, st_in_log). rewrite apply_writes_other.
      - symmetry. by apply Hcl.
      - intros Hin'%log_copy_keys; done. }
    unfold commit_writes. fold hd R. change ([hd] ++ R) with ([hd] ++ R). rewrite app_assoc, take_app_ge by (rewrite length_app, Hlc; cbn; lia).
    rewrite apply_writes_app. fold D1. rewrite HR. by apply recoverable_crash.
Qed.
End Crash.

Section Theorems.
Context `{DiskOk} (i : nat) (st : Z).

Lemma initlog_run sb s tr :
  hold i ∅ [] s -> length (lh_block (k_log s)) = Z.to_nat LOGBLOCKS -> i32 (sb_logstart sb) = st ->
  log_valid st (view s st) ->
  runs (initlog ROOTDEV sb) s tr (fun _ s' => hold i ∅ [] s' /\ log_has st [] (k_log s') /\
    moves (recovery_writes st (view s)) (recovery_writes st (view s)) s s').
Proof.
  intros Hs Hlen Hst Hv. assert (Hsolo : solo i s) by apply Hs.
  assert (Hl : s <| k_locks ::= delete L_log |> = s).
  { pose proof (solo_locks i s Hsolo) as E. destruct s. cbn in *. subst. unfold upd_field. by rewrite delete_empty. }
  unfold initlog. change (BSIZE <=? 4 + 4 * LOGBLOCKS) with false. cbv iota.
  rstep (runs_modify (fun s => s <| k_locks ::= delete L_log |>)) as ->. rewrite Hl.
  rstep upd_log_run as ->. rstep upd_log_run as E. rename s' into s1.
  assert (H1 : hold i ∅ [] s1) by (rewrite E; by repeat apply hold_with_log).
  assert (M1 : moves [] [] s s1) by (rewrite E; by repeat apply moves_with_log; apply moves_refl).
  assert (V1 : forall m, view s1 m = view s m) by (intros m; by rewrite (mv_view _ _ _ _ M1)).
  assert (Hat : log_at st (k_log s1)) by (rewrite E; unfold log_at; cbn; rewrite Hst; repeat split; (done || apply Hv)).
  rlast (recover_run i st s1 tr H1 Hat) as (H2 & L2 & M2); [by rewrite V1|].
  split; [done|]. split; [done|]. unfold recovery_writes in *. rewrite V1, (home_copy_ext st _ _ _ V1) in M2.
  exact (moves_trans _ _ _ _ _ _ _ M1 M2).
Qed.

Lemma commit_writes_view bl d m : (length bl < NBUF)%nat -> ~ in_log st m -> apply_writes (commit_writes st bl d) d m = d m.
Proof.
  intros Hlen Hm. apply apply_writes_same; [done|]. intros n c Hin ->. unfold commit_writes in Hin.
  rewrite !elem_of_app, !list_elem_of_singleton in Hin. destruct Hin as [Hin|[Hin|[Hin|Hin]]].
  - destruct Hm. apply (log_copy_keys st bl Hlen d). by apply (list_elem_of_fmap_2 fst) in Hin.
  - injection Hin as -> _. destruct Hm. apply st_in_log.
  - unfold home_writes in Hin. apply list_elem_of_fmap in Hin as (v & [= -> ->] & _). done.
  - injection Hin as -> _. destruct Hm. apply st_in_log.
Qed.

Lemma hold_clean_all s m : hold i ∅ [] s -> view s m = k_disk s m.
Proof. intros Hs. by apply (hold_clean i ∅ [] s m Hs). Qed.

(** [recoverable] only looks at the blocks. *)
Lemma recoverable_ext D D' F : (forall m, D m = D' m) -> recoverable st D F -> recoverable st D' F.
Proof.
  intros E [A1 A2 A3]. split; rewrite <- !E; [done| |].
  - intros m Hm Hin. rewrite <- E. by apply A2.
  - intros k v Hk. rewrite <- E. by apply A3.
Qed.

(** Boot recovery from a disk left by a crash. *)
Lemma recovers sb F s tr :
  hold i ∅ [] s -> length (lh_block (k_log s)) = Z.to_nat LOGBLOCKS -> i32 (sb_logstart sb) = st ->
  recoverable st (k_disk s) F ->
  runs (initlog ROOTDEV sb) s tr (fun _ s' => hold i ∅ [] s' /\ log_has st [] (k_log s') /\
    (forall m, ~ in_log st m -> k_disk s' m = F m) /\
    forall n, recoverable st (crash_disk n s s') F).
Proof.
  intros Hs Hlen Hst Hr. assert (V : forall m, view s m = k_disk s m) by (intros m; by apply hold_clean_all).
  rlast (initlog_run sb s tr Hs Hlen Hst) as (H1 & L1 & M1); [rewrite V; apply Hr|].
  split; [done|]. split; [done|].
  assert (Hrw : recovery_writes st (view s) = recovery_writes st (k_disk s)).
  { unfold recovery_writes. by rewrite V, (home_copy_ext st _ _ _ V). }
  rewrite Hrw in M1. destruct M1 as [_ Hw _]. split.
  - intros m Hm. rewrite (proj2 Hw). by apply recoverable_restores.
  - intros n. unfold crash_disk. rewrite (disk_writes_wrote _ _ _ Hw). by apply recoverable_crash.
Qed.

(** C1. Atomicity of a transaction across crashes.  The [end_op] that closes a
    transaction returns with every block of it at its home on the disk.  If the
    machine stops after any number [n] of the disk writes [end_op] performs, the
    recovery at the next boot returns, and leaves on the disk either none of the
    transaction's updates (when [n] is at most the number of blocks, so that the
    header was not written) or all of them. *)
Theorem end_op_crash_safe bl s tr n :
  NoDup bl -> (length bl < NBUF)%nat -> Forall (fun v => ~ in_log st v) bl -> Forall blockno_ok bl ->
  hold i (list_to_set bl) [] s -> log_has st bl (k_log s) ->
  log_outstanding (k_log s) = 1 -> log_committing (k_log s) = false ->
  length (k_disk s st) = 1024%nat -> i32 (get32 (k_disk s st) 0) = 0 ->
  exists s', end_op s tr = Done tt s' tr /\ hold i ∅ [] s' /\ log_has st [] (k_log s') /\
    (forall m, ~ in_log st m -> k_disk s' m = view s m /\ view s' m = view s m) /\
    forall sb r tr', i32 (sb_logstart sb) = st -> hold i ∅ [] r ->
      length (lh_block (k_log r)) = Z.to_nat LOGBLOCKS -> (forall m, k_disk r m = crash_disk n s s' m) ->
      runs (initlog ROOTDEV sb) r tr' (fun _ r' =>
        forall m, ~ in_log st m -> k_disk r' m = if decide (n <= length bl)%nat then k_disk s m else view s m).
Proof.
  intros Hnd Hlen Hhome Hok Hs Hlog Hout Hcom Hd Hn.
  assert (Hpin : forall m, m ∉ bl -> view s m = k_disk s m).
  { intros m Hm. apply (hold_clean i _ [] s m Hs); [constructor|]. by rewrite elem_of_list_to_set. }
  assert (Hvst : view s st = k_disk s st).
  { apply Hpin. intros Hin. by apply (home_not_log st bl Hhome st Hin), st_in_log. }
  destruct (end_op_run i st bl s tr Hnd Hlen Hhome Hs Hlog Hout Hcom) as ([] & s' & E & H1 & L1 & _ & _ & [Mv Hw _]).
  assert (Hcrash : forall k, recoverable st (crash_disk k s s') (if decide (k <= length bl)%nat then k_disk s else view s)).
  { intros k. unfold crash_disk. rewrite (disk_writes_wrote _ _ _ Hw). unfold end_writes.
    destruct (decide (bl = [])) as [->|Hne]; [|apply commit_crash; [apply Hlog|done..|intros m _ Hm; by apply Hpin]].
    assert (Hl0 : log_list (k_disk s st) = []) by (unfold log_list; by rewrite Hn).
    rewrite take_nil. split; cbn [apply_writes]; rewrite ?Hl0.
    - split; [done|rewrite Hn; unfold NBUF; lia|by rewrite Hl0; constructor|by rewrite Hl0|by rewrite Hl0|apply Hlog].
    - intros m Hm _. destruct (decide _); [done|]. symmetry. apply Hpin, not_elem_of_nil.
    - by intros [|j] v Hj. }
  assert (Hfin : forall m, ~ in_log st m -> k_disk s' m = view s m).
  { intros m Hm. rewrite <- (hold_clean_all s' m H1), Mv. unfold end_writes.
    destruct (decide (bl = [])) as [|Hne]; [done|]. by apply commit_writes_view. }
  exists s'. split; [done|]. split; [done|]. split; [done|]. split.
  - intros m Hm. rewrite (hold_clean_all s' m H1). split; by apply Hfin.
  - intros sb r tr' Hsb Hr Hrl Hrd.
    rlast (recovers sb (if decide (n <= length bl)%nat then k_disk s else view s) r tr' Hr Hrl Hsb) as (_ & _ & Hrec & _).
    + apply (recoverable_ext (crash_disk n s s')); [by intros m; rewrite Hrd|apply Hcrash].
    + intros m Hm. rewrite (Hrec m Hm). by destruct (decide _).
Qed.
End Theorems.

(** C3. Recovery is idempotent: from a disk whose header lists blocks with their
    new contents in the log area, boot recovery returns with the new contents at
    home and an empty log; and wherever a crash interrupts its writes, the disk it
    leaves is again one from which recovery restores the same contents. *)
Theorem recovery_crash_safe `{DiskOk} i st sb F s tr :
  hold i ∅ [] s -> length (lh_block (k_log s)) = Z.to_nat LOGBLOCKS -> i32 (sb_logstart sb) = st ->
  recoverable st (k_disk s) F ->
  runs (initlog ROOTDEV sb) s tr (fun _ s' => log_has st [] (k_log s') /\
    (forall m, ~ in_log st m -> k_disk s' m = F m) /\
    forall n, recoverable st (crash_disk n s s') F).
Proof. intros Hs Hl Hst Hr. rlast (recovers i st sb F s tr Hs Hl Hst Hr) as (_ & A & B & C). done. Qed.

(** [log_write] records each block of the transaction once: a block already
    listed is absorbed, a new one is appended to the header and its buffer is
    pinned in the cache; the contents of blocks and the disk do not change. *)
Theorem log_write_spec `{DiskOk} i st bl b n d hs s tr :
  hold i (list_to_set bl) (Held b n d :: hs) s -> log_has st bl (k_log s) ->
  (length bl < 30)%nat -> NoDup bl -> 1 <= log_outstanding (k_log s) ->
  runs (log_write b) s tr (fun _ s' =>
    hold i (list_to_set (logged bl n)) (Held b n d :: hs) s' /\ log_has st (logged bl n) (k_log s') /\
    NoDup (logged bl n) /\ (forall m, k_disk s' m = k_disk s m) /\ (forall m, view s' m = view s m)).
Proof.
  intros Hs Hlog Hlen Hnd Hout.
  rlast (hold_log_write i st bl b n d hs s tr Hs Hlog Hlen Hnd Hout) as (H1 & [Mv [_ Md] _] & L1 & _).
  repeat (split; [done|]). split; [|split; [apply Md|apply Mv]].
  unfold logged. destruct (decide (n ∈ bl)) as [|Hn]; [done|]. apply NoDup_app. split; [done|].
  split; [intros x Hx ->%list_elem_of_singleton; done|]. by apply NoDup_singleton.
Qed.

(** ** Demonstration states *)
Definition demo_start : kstate :=
  demo_cache <| k_log := mklog 256 0 false ROOTDEV 0 0 (replicate 30 0) |>.

Lemma demo_start_hold : hold 1 ∅ [] demo_start.
Proof.
  destruct demo_cache_ok as (Hok & [Hl Hf] & Hs & _). apply (hold_with_log 1 ∅ [] demo_cache (fun _ => _)).
  split; [|constructor|constructor]. split.
  - exact Hs.
  - exact demo_cache_idle.
  - exact demo_cache_blk.
  - by exists (rev (seq 0 NBUF)).
  - intros x. rewrite demo_cache_sleep, lookup_empty. by rewrite decide_False by apply not_elem_of_empty.
  - intros x bx Hx Hbx. destruct (Hf x bx Hx Hbx) as (_ & -> & Hv & _). unfold pin_count, out_count.
    rewrite !decide_False; [done|apply not_elem_of_empty|]. intros (_ & Hv' & _). done.
  - intros n Hn. by apply not_elem_of_empty in Hn.
  - intros x Hx. by apply not_elem_of_empty in Hx.
Qed.

#[global] Existing Instance demo_driver.
#[global] Existing Instance demo_driver_ok.

(** A system call that overwrites block 5, up to its [end_op]. *)
Definition demo_open : kstate := done_state (begin_op demo_start []).
Definition demo_op : Kern unit :=
  let! b := bread ROOTDEV 5 in
  upd_data b (fun _ => replicate 1024 7) ;; log_write b ;; brelse b.
Definition demo_txn : kstate := done_state (demo_op demo_open []).

Lemma demo_open_ok : hold 1 ∅ [] demo_open /\ log_has 256 [] (k_log demo_open) /\ k_disk demo_open = demo_disk /\
  log_outstanding (k_log demo_open) = 1 /\ log_committing (k_log demo_open) = false.
Proof.
  unfold demo_open. rewrite (begin_op_run 1 demo_start []) by (done || apply demo_start_hold). cbn [done_state].
  split; [apply hold_with_log, demo_start_hold|].
  split; [do 4 (split; [done|]); split; [by intros [|k] v Hk|by vm_compute]|]. split; [apply demo_cache_ok|done].
Qed.

Lemma demo_open_fresh : fresh (k_bufs demo_open).
Proof.
  unfold demo_open. rewrite (begin_op_run 1 demo_start []) by (done || apply demo_start_hold). apply demo_cache_ok.
Qed.

Lemma demo_open_sleep : k_sleep demo_open = ∅.
Proof.
  unfold demo_open. rewrite (begin_op_run 1 demo_start []) by (done || apply demo_start_hold). apply demo_cache_sleep.
Qed.
#[global] Opaque demo_open.

Lemma demo_blk5 : blockno_ok 5.
Proof. unfold blockno_ok. lia. Qed.

Lemma demo_op_run : runs demo_op demo_open [] (fun _ s => hold 1 (list_to_set [5]) [] s /\ log_has 256 [5] (k_log s) /\
  log_outstanding (k_log s) = 1 /\ log_committing (k_log s) = false /\ (forall m, k_disk s m = demo_disk m) /\
  (forall m, view s m = if decide (m = 5) then replicate 1024 7 else demo_disk m)).
Proof.
  destruct demo_open_ok as (H0 & L0 & D0 & O0 & C0). unfold demo_op.
  assert (Hsz : (length (@nil held) + size (∅ : gset Z) < NBUF)%nat) by (rewrite size_empty; cbn; unfold NBUF; lia).
  rstep (hold_bread 1 ∅ [] demo_open 5 [] H0 (Forall_nil_2 _) (or_intror (conj Hsz demo_blk5))) as [H1 [Q1 L1]].
  rstep (hold_set 1 _ _ _ _ _ _ (fun _ => replicate 1024 7) [] H1) as [H2 [Q2 L2]].
  rstep (hold_log_write 1 256 [] a 5 _ [] _ [] H2) as (H3 & Q3 & L3 & O3 & C3).
  { by rewrite L2, L1. } { cbn. lia. } { constructor. } { by rewrite L2, L1, O0. }
  rlast (hold_brelse 1 _ _ _ _ _ _ [] H3) as [H4 [Q4 L4]].
  { intros Hn. destruct Hn. by apply elem_of_list_to_set, list_elem_of_singleton. }
  pose proof (moves_trans _ _ _ _ _ _ _ Q1 (moves_trans _ _ _ _ _ _ _ Q2 (moves_trans _ _ _ _ _ _ _ Q3 Q4))) as [Mv [_ Md] _].
  rewrite L4, O3, C3, L2, L1. split; [exact H4|]. split; [exact L3|]. split; [done|]. split; [done|]. split.
  - intros m. rewrite Md. cbn. by rewrite D0.
  - intros m. rewrite Mv. cbn. destruct (decide (m = 5)); [done|]. by rewrite (hold_clean_all 1 demo_open m H0), D0.
Qed.

Lemma demo_txn_ok : hold 1 (list_to_set [5]) [] demo_txn /\ log_has 256 [5] (k_log demo_txn) /\
  log_outstanding (k_log demo_txn) = 1 /\ log_committing (k_log demo_txn) = false /\
  (forall m, k_disk demo_txn m = demo_disk m) /\
  (forall m, view demo_txn m = if decide (m = 5) then replicate 1024 7 else demo_disk m).
Proof. destruct demo_op_run as ([] & s & E & HQ). unfold demo_txn. rewrite E. exact HQ. Qed.
#[global] Opaque demo_txn.

Lemma demo_header : demo_disk 256 = replicate 1024 0.
Proof. done. Qed.

Lemma end_op_crash_safe_witness :
  exists s', end_op demo_txn [] = Done tt s' [] /\ hold 1 ∅ [] s' /\ log_has 256 [] (k_log s') /\
    (forall m, ~ in_log 256 m -> k_disk s' m = view demo_txn m /\ view s' m = view demo_txn m) /\
    forall sb r tr', i32 (sb_logstart sb) = 256 -> hold 1 ∅ [] r ->
      length (lh_block (k_log r)) = Z.to_nat LOGBLOCKS -> (forall m, k_disk r m = crash_disk 2 demo_txn s' m) ->
      runs (initlog ROOTDEV sb) r tr' (fun _ r' =>
        forall m, ~ in_log 256 m -> k_disk r' m = if decide (2 <= length [5])%nat then k_disk demo_txn m else view demo_txn m).
Proof.
  destruct demo_txn_ok as (H0 & L0 & O0 & C0 & D0 & V0).
  apply (end_op_crash_safe 1 256 [5] demo_txn [] 2).
  - apply NoDup_singleton.
  - unfold NBUF. cbn. lia.
  - constructor; [unfold in_log, LOGBLOCKS, MAXOPBLOCKS; lia|constructor].
  - constructor; [unfold blockno_ok; lia|constructor].
  - exact H0.
  - exact L0.
  - exact O0.
  - exact C0.
  - by rewrite D0, demo_header.
  - by rewrite D0, demo_header.
Defined.

Lemma demo_recoverable : recoverable 256 (k_disk demo_start) demo_disk.
Proof.
  assert (E : k_disk demo_start = demo_disk) by apply demo_cache_ok.
  assert (L : log_list (demo_disk 256) = []) by (vm_compute; reflexivity).
  split; rewrite E, ?L.
  - split; [by rewrite demo_header|rewrite demo_header; vm_compute; split; [discriminate|reflexivity]|rewrite L; constructor|rewrite L; constructor|rewrite L; constructor|by vm_compute].
  - done.
  - by intros [|k] v Hk.
Qed.

Lemma recovery_crash_safe_witness :
  runs (initlog ROOTDEV (mksb 0 0 0 0 30 256 0 0)) demo_start [] (fun _ s' => log_has 256 [] (k_log s') /\
    (forall m, ~ in_log 256 m -> k_disk s' m = demo_disk m) /\
    forall n, recoverable 256 (crash_disk n demo_start s') demo_disk).
Proof.
  apply (recovery_crash_safe 1 256 (mksb 0 0 0 0 30 256 0 0) demo_disk demo_start []).
  - exact demo_start_hold.
  - reflexivity.
  - reflexivity.
  - exact demo_recoverable.
Defined.

(** Block 5 checked out, before it is logged. *)
Definition demo_held : kstate := done_state (bread ROOTDEV 5 demo_open []).
Definition demo_held_buf : nat := match bread ROOTDEV 5 demo_open [] with Done b _ _ => b | _ => 0%nat end.

Lemma demo_held_ok :
  hold 1 (list_to_set []) [Held demo_held_buf 5 (demo_disk 5)] demo_held /\ k_log demo_held = k_log demo_open.
Proof.
  destruct demo_open_ok as (H0 & L0 & D0 & O0 & C0).
  assert (Hsz : (length (@nil held) + size (∅ : gset Z) < NBUF)%nat) by (rewrite size_empty; cbn; unfold NBUF; lia).
  destruct (hold_bread 1 ∅ [] demo_open 5 [] H0 (Forall_nil_2 _) (or_intror (conj Hsz demo_blk5))) as (b & s & E & H1 & _ & L1).
  unfold demo_held, demo_held_buf. rewrite E. cbn [done_state].
  rewrite (hold_clean_all 1 demo_open 5 H0), D0 in H1. by split.
Qed.
#[global] Opaque demo_held demo_held_buf.

Lemma log_write_spec_witness :
  runs (log_write demo_held_buf) demo_held [] (fun _ s' =>
    hold 1 (list_to_set (logged [] 5)) [Held demo_held_buf 5 (demo_disk 5)] s' /\ log_has 256 (logged [] 5) (k_log s') /\
    NoDup (logged [] 5) /\ (forall m, k_disk s' m = k_disk demo_held m) /\ (forall m, view s' m = view demo_held m)).
Proof.
  destruct demo_open_ok as (H0 & L0 & D0 & O0 & C0). destruct demo_held_ok as [H1 L1].
  apply (log_write_spec 1 256 [] demo_held_buf 5 (demo_disk 5) [] demo_held []).
  - exact H1.
  - rewrite L1. exact L0.
  - cbn. lia.
  - constructor.
  - rewrite L1, O0. lia.
Defined.
