(* ===== verification/Fs.v ===== *)
(** * The file system (kernel/fs.c): blocks, inodes, contents, directories, paths

    The layers of fs.c over the buffer cache and the log: the bitmap allocator
    ([balloc], [bfree]), the inode table and the inodes on disk ([iget], [ilock],
    [iput], [iupdate], ...), file contents ([bmap], [readi], [writei], [itrunc]),
    directories ([dirlookup], [dirlink]) and path names ([skipelem], [namex]).

    An inode is named by its index in [itable.inode].  A C string is the list of
    its bytes before the terminator, a [char name[DIRSIZ]] the list of its 14
    bytes.  [readi] and [writei] copy from or to user memory, a physical page or
    a variable of the kernel ([dest], [source]); what is copied into a variable
    is returned with the result.  The diagnostics printed on the console are left
    out. *)

From stdpp Require Import prelude list strings gmap.
From Stdlib Require Import ZArith Lia ZifyBool.
From S2P Require Import Prelude State Spinlock CString Kalloc Proc Vm Uaccess Sleeplock Bio Log.
Local Open Scope Z_scope.

(** ** Constants of fs.h and stat.h *)
Definition FSMAGIC : Z := 0x10203040.
Definition NLINK_MAX : Z := 32767.
Definition DINODE_SIZE : Z := 64.
Definition IPB : Z := BSIZE / DINODE_SIZE.
Definition BPB : Z := BSIZE * 8.
Definition DIRSIZ : nat := 14.
Definition DIRENT_SIZE : Z := 16.
Definition T_DIR : Z := 1.
Definition T_FILE : Z := 2.
Definition T_DEVICE : Z := 3.
Definition IBLOCK (i : Z) (sb : superblock) : Z := u32 (i / IPB + sb_inodestart sb).
Definition BBLOCK (b : Z) (sb : superblock) : Z := u32 (b / BPB + sb_bmapstart sb).

(** ** Words of the on-disk structures *)
Definition get16 (d : list Z) (off : nat) : Z := byte_at d off + byte_at d (off + 1) * 2 ^ 8.
Definition put16 (d : list Z) (off : nat) (v : Z) : list Z :=
  <[off := u8 v]> (<[(off + 1)%nat := u8 (v / 2 ^ 8)]> d).

(** fs.h, [struct dinode], at byte [off] of a block. *)
Record dinode := mkdinode {
  d_type : Z;
  d_major : Z;
  d_minor : Z;
  d_nlink : Z;
  d_size : Z;
  d_addrs : list Z }.

Definition get_addrs (d : list Z) (off : nat) : list Z :=
  (fun k => get32 d (off + 4 * k)) <$> seq 0 13.
Fixpoint put_addrs (d : list Z) (off : nat) (addrs : list Z) : list Z :=
  match addrs with
  | [] => d
  | a :: addrs' => put_addrs (put32 d off a) (off + 4) addrs'
  end.
Definition get_dinode (d : list Z) (off : nat) : dinode :=
  mkdinode (i16 (get16 d off)) (i16 (get16 d (off + 2))) (i16 (get16 d (off + 4))) (i16 (get16 d (off + 6)))
    (get32 d (off + 8)) (get_addrs d (off + 12)).
Definition put_dinode (d : list Z) (off : nat) (di : dinode) : list Z :=
  put_addrs (put32 (put16 (put16 (put16 (put16 d off (d_type di)) (off + 2) (d_major di)) (off + 4) (d_minor di))
    (off + 6) (d_nlink di)) (off + 8) (d_size di)) (off + 12) (d_addrs di).

(** The byte of the inode within its block: [(struct dinode * )bp->data + inum % IPB]. *)
Definition dinode_off (inum : Z) : nat := Z.to_nat (inum mod IPB * DINODE_SIZE).

(** fs.h, [struct dirent]. *)
Definition de_inum (de : list Z) : Z := get16 de 0.
Definition de_name (de : list Z) : list Z := drop 2 de.
Definition mkdirent (inum : Z) (name : list Z) : list Z := put16 (replicate 2 0 ++ name) 0 inum.

(** [memmove(d + k, l, length l)] within a block. *)
Definition splice (d : list Z) (k : nat) (l : list Z) : list Z := take k d ++ l ++ drop (k + length l) d.

(** ** The inode table *)
Definition get_inode (ip : nat) : Kern inode := let! s := kget in deref (k_inodes s !! ip).
Definition upd_inode (ip : nat) (f : inode -> inode) : Kern unit :=
  modify (fun s => s <| k_inodes ::= alter f ip |>).

(** ** Path elements *)
Definition SLASH : Z := 47.
Fixpoint skip_slashes (path : list Z) : list Z :=
  match path with
  | c :: path' => if c =? SLASH then skip_slashes path' else path
  | [] => []
  end.
(** The bytes up to the next slash or the end, and what follows them. *)
Fixpoint split_elem (path : list Z) : list Z * list Z :=
  match path with
  | c :: path' =>
      if c =? SLASH then ([], path)
      else let '(elem, rest) := split_elem path' in (c :: elem, rest)
  | [] => ([], [])
  end.
Definition skipelem (path name : list Z) : option (list Z * list Z) :=
  let path := skip_slashes path in
  if bool_decide (path = []) then None else
  let '(elem, path) := split_elem path in
  let len := length elem in
  let name :=
    if decide (DIRSIZ <= len)%nat then take DIRSIZ elem
    else elem ++ 0 :: drop (S len) name in
  Some (skip_slashes path, name).

Definition namecmp (s t : list Z) : Z := strncmp (reads s) (reads t) DIRSIZ.

Section Fs.
Context `{DiskDriver} `{KernelLayout}.

(** ** Blocks *)
Definition bzero (dev bno : Z) : Kern unit :=
  let! bp := bread dev bno in
  upd_data bp (fun _ => zero_block) ;;
  log_write bp ;;
  brelse bp.

(** The mask of bit [bi] of a bitmap block. *)
Definition bit_mask (bi : Z) : Z := Z.shiftl 1 (bi mod 8).

Definition balloc (dev : Z) : Kern Z :=
  let! sb := gets k_sb in
  let! r := for_upto (Z.to_nat ((sb_size sb + BPB - 1) / BPB)) 0 (fun k =>
    let b := Z.of_nat k * BPB in
    let! bp := bread dev (BBLOCK b sb) in
    let! r := for_upto (Z.to_nat (Z.min BPB (sb_size sb - b))) 0 (fun bi =>
      let m := bit_mask (Z.of_nat bi) in
      let! bb := get_buf bp in
      if Z.land (byte_at (b_data bb) (bi / 8)) m =? 0 then
        upd_data bp (fun d => <[(bi / 8)%nat := Z.lor (byte_at d (bi / 8)) m]> d) ;;
        log_write bp ;;
        brelse bp ;;
        bzero dev (b + Z.of_nat bi) ;;
        kret (Some (b + Z.of_nat bi))
      else kret None) in
    match r with
    | Some a => kret (Some a)
    | None => brelse bp ;; kret None
    end) in
  kret (default 0 r).

Definition bfree (dev b : Z) : Kern unit :=
  let! sb := gets k_sb in
  let! bp := bread dev (BBLOCK b sb) in
  let bi := b mod BPB in
  let m := bit_mask bi in
  let! bb := get_buf bp in
  if Z.land (byte_at (b_data bb) (Z.to_nat (bi / 8))) m =? 0 then panic "freeing free block" else
  upd_data bp (fun d => <[Z.to_nat (bi / 8) := Z.land (byte_at d (Z.to_nat (bi / 8))) (Z.lnot m)]> d) ;;
  log_write bp ;;
  brelse bp.

(** ** Inodes *)
Definition iinit : Kern unit :=
  initlock L_itable ;;
  for_each NINODE 0 (fun i => initsleeplock (SL_inode i)).

(** The scan of [iget]: the entry found, and the empty slot remembered. *)
Fixpoint iget_scan (n i : nat) (empty : option nat) (dev inum : Z) : Kern (option nat * option nat) :=
  match n with
  | O => kret (None, empty)
  | S n' =>
      let! x := get_inode i in
      if (0 <? i_ref x) && (i_dev x =? dev) && (i_inum x =? inum) then kret (Some i, empty)
      else iget_scan n' (S i) (if bool_decide (empty = None) && (i_ref x =? 0) then Some i else empty) dev inum
  end.

Definition iget (dev inum : Z) : Kern nat :=
  acquire L_itable ;;
  let! '(found, empty) := iget_scan NINODE 0 None dev inum in
  match found with
  | Some ip =>
      upd_inode ip (fun x => x <| i_ref := i_ref x + 1 |>) ;;
      release L_itable ;;
      kret ip
  | None =>
      match empty with
      | None => panic "iget: no inodes"
      | Some ip =>
          upd_inode ip (fun x => x <| i_dev := dev |> <| i_inum := inum |> <| i_ref := 1 |> <| i_valid := 0 |>) ;;
          release L_itable ;;
          kret ip
      end
  end.

Definition ialloc (dev type : Z) : Kern (option nat) :=
  let! sb := gets k_sb in
  for_upto (Z.to_nat (sb_ninodes sb - 1)) 1 (fun k =>
    let inum := Z.of_nat k in
    let! bp := bread dev (IBLOCK inum sb) in
    let! bb := get_buf bp in
    if d_type (get_dinode (b_data bb) (dinode_off inum)) =? 0 then
      upd_data bp (fun d => put_dinode d (dinode_off inum) (mkdinode type 0 0 0 0 (replicate 13 0))) ;;
      log_write bp ;;
      brelse bp ;;
      let! ip := iget dev inum in
      kret (Some ip)
    else
      brelse bp ;;
      kret None).

Definition iupdate (ip : nat) : Kern unit :=
  let! sb := gets k_sb in
  let! x := get_inode ip in
  let! bp := bread (i_dev x) (IBLOCK (i_inum x) sb) in
  let! x := get_inode ip in
  upd_data bp (fun d => put_dinode d (dinode_off (i_inum x))
    (mkdinode (i_type x) (i_major x) (i_minor x) (i_nlink x) (i_size x) (i_addrs x))) ;;
  log_write bp ;;
  brelse bp.

Definition idup (ip : nat) : Kern nat :=
  acquire L_itable ;;
  upd_inode ip (fun x => x <| i_ref := i_ref x + 1 |>) ;;
  release L_itable ;;
  kret ip.

(** [ip == 0] cannot be an index of the table; callers pass non-null pointers. *)
Definition ilock (ip : nat) : Kern unit :=
  let! x := get_inode ip in
  if i_ref x <? 1 then panic "ilock" else
  acquiresleep (SL_inode ip) ;;
  let! x := get_inode ip in
  when (i_valid x =? 0)
    (let! sb := gets k_sb in
     let! bp := bread (i_dev x) (IBLOCK (i_inum x) sb) in
     let! bb := get_buf bp in
     let di := get_dinode (b_data bb) (dinode_off (i_inum x)) in
     upd_inode ip (fun x => x <| i_type := d_type di |> <| i_major := d_major di |> <| i_minor := d_minor di |>
       <| i_nlink := d_nlink di |> <| i_size := d_size di |> <| i_addrs := d_addrs di |>) ;;
     brelse bp ;;
     upd_inode ip (fun x => x <| i_valid := 1 |>) ;;
     let! x := get_inode ip in
     if i_type x =? 0 then panic "ilock: no type" else kret tt).

Definition iunlock (ip : nat) : Kern unit :=
  let! h := holdingsleep (SL_inode ip) in
  let! x := get_inode ip in
  if negb h || (i_ref x <? 1) then panic "iunlock" else
  releasesleep (SL_inode ip).

Definition ifree (dev inum : Z) : Kern unit :=
  let! sb := gets k_sb in
  let! bp := bread dev (IBLOCK inum sb) in
  upd_data bp (fun d => put16 d (dinode_off inum) 0) ;;
  log_write bp ;;
  brelse bp.

(** ** Contents of an inode *)
(** [a[bn]] of an indirect block. *)
Definition ind_get (d : list Z) (bn : Z) : Z := get32 d (Z.to_nat (4 * bn)).
Definition ind_put (d : list Z) (bn v : Z) : list Z := put32 d (Z.to_nat (4 * bn)) v.
Definition set_addr (bn v : Z) (x : inode) : inode := x <| i_addrs ::= <[Z.to_nat bn := v]> |>.
Definition addr_at (x : inode) (bn : Z) : Z := nth (Z.to_nat bn) (i_addrs x) 0.

(** The block number stored at [ip->addrs[bn]], allocated if there is none. *)
Definition bmap_slot (ip : nat) (bn : Z) : Kern Z :=
  let! x := get_inode ip in
  let addr := addr_at x bn in
  if addr =? 0 then
    let! addr := balloc (i_dev x) in
    if addr =? 0 then kret 0 else
    upd_inode ip (set_addr bn addr) ;;
    kret addr
  else kret addr.

Definition bmap (ip : nat) (bn : Z) : Kern Z :=
  if bn <? NDIRECT then bmap_slot ip bn else
  let bn := bn - NDIRECT in
  if bn <? NINDIRECT then
    let! addr := bmap_slot ip NDIRECT in
    if addr =? 0 then kret 0 else
    let! x := get_inode ip in
    let! bp := bread (i_dev x) addr in
    let! bb := get_buf bp in
    let addr := ind_get (b_data bb) bn in
    let! addr :=
      if addr =? 0 then
        let! addr := balloc (i_dev x) in
        when (negb (addr =? 0))
          (upd_data bp (fun d => ind_put d bn addr) ;;
           log_write bp) ;;
        kret addr
      else kret addr in
    brelse bp ;;
    kret addr
  else panic "bmap: out of range".

Definition itrunc (ip : nat) : Kern unit :=
  for_each (Z.to_nat NDIRECT) 0 (fun i =>
    let! x := get_inode ip in
    let a := addr_at x (Z.of_nat i) in
    when (negb (a =? 0))
      (bfree (i_dev x) a ;;
       upd_inode ip (set_addr (Z.of_nat i) 0))) ;;
  let! x := get_inode ip in
  let a := addr_at x NDIRECT in
  when (negb (a =? 0))
    (let! bp := bread (i_dev x) a in
     for_each (Z.to_nat NINDIRECT) 0 (fun j =>
       let! bb := get_buf bp in
       let aj := ind_get (b_data bb) (Z.of_nat j) in
       when (negb (aj =? 0)) (bfree (i_dev x) aj)) ;;
     brelse bp ;;
     bfree (i_dev x) a ;;
     upd_inode ip (set_addr NDIRECT 0)) ;;
  upd_inode ip (fun x => x <| i_size := 0 |>) ;;
  iupdate ip.

Definition iput (ip : nat) : Kern unit :=
  acquire L_itable ;;
  let! x := get_inode ip in
  let last := (i_ref x =? 1) && negb (i_valid x =? 0) && (i_nlink x =? 0) in
  let dev := i_dev x in
  let inum := i_inum x in
  when last
    (acquiresleep (SL_inode ip) ;;
     release L_itable ;;
     itrunc ip ;;
     upd_inode ip (fun x => x <| i_valid := 0 |>) ;;
     releasesleep (SL_inode ip) ;;
     acquire L_itable) ;;
  upd_inode ip (fun x => x <| i_ref := i_ref x - 1 |>) ;;
  release L_itable ;;
  when last (ifree dev inum).

Definition iunlockput (ip : nat) : Kern unit :=
  iunlock ip ;;
  iput ip.

Definition ireclaim (dev : Z) : Kern unit :=
  let! sb := gets k_sb in
  for_each (Z.to_nat (sb_ninodes sb - 1)) 1 (fun k =>
    let inum := Z.of_nat k in
    let! bp := bread dev (IBLOCK inum sb) in
    let! bb := get_buf bp in
    let di := get_dinode (b_data bb) (dinode_off inum) in
    let! ip :=
      if negb (d_type di =? 0) && (d_nlink di =? 0) then
        let! ip := iget dev inum in kret (Some ip)
      else kret None in
    brelse bp ;;
    match ip with
    | Some ip =>
        begin_op ;;
        ilock ip ;;
        iunlock ip ;;
        iput ip ;;
        end_op
    | None => kret tt
    end).

(** stat.h, [struct stat]. *)
Record stat := mkstat {
  st_dev : Z;
  st_ino : Z;
  st_type : Z;
  st_nlink : Z;
  st_size : Z }.
Definition stati (ip : nat) : Kern stat :=
  let! x := get_inode ip in
  kret (mkstat (i_dev x) (i_inum x) (i_type x) (i_nlink x) (i_size x)).

(** The loop of [readi]: [data] is what has been copied to [dst] so far. *)
Fixpoint readi_loop (fuel : nat) (ip : nat) (dst : dest) (off n tot : Z) (data : list Z) : Kern (Z * list Z) :=
  match fuel with
  | O => hang
  | S fuel' =>
      if n <=? tot then kret (tot, data) else
      let! addr := bmap ip (off / BSIZE) in
      if addr =? 0 then kret (tot, data) else
      let! x := get_inode ip in
      let! bp := bread (i_dev x) addr in
      let m := Z.min (n - tot) (BSIZE - off mod BSIZE) in
      let! bb := get_buf bp in
      let chunk := take (Z.to_nat m) (drop (Z.to_nat (off mod BSIZE)) (b_data bb)) in
      let! r := either_copyout dst chunk in
      if r =? -1 then
        brelse bp ;;
        kret (-1, data)
      else
        brelse bp ;;
        readi_loop fuel' ip (dst_add dst m) (u32 (off + m)) n (tot + m) (data ++ chunk)
  end.

Definition readi (ip : nat) (dst : dest) (off n : Z) : Kern (Z * list Z) :=
  let! x := get_inode ip in
  if (i_size x <? off) || (u32 (off + n) <? off) then kret (0, []) else
  let n := if i_size x <? u32 (off + n) then i_size x - off else n in
  readi_loop (Z.to_nat (n / BSIZE + 3)) ip dst off n 0 [].

(** The loop of [writei] returns the final [tot] and [off]. *)
Fixpoint writei_loop (fuel : nat) (ip : nat) (src : source) (off n tot : Z) : Kern (Z * Z) :=
  match fuel with
  | O => hang
  | S fuel' =>
      if n <=? tot then kret (tot, off) else
      let! addr := bmap ip (off / BSIZE) in
      if addr =? 0 then kret (tot, off) else
      let! x := get_inode ip in
      let! bp := bread (i_dev x) addr in
      let m := Z.min (n - tot) (BSIZE - off mod BSIZE) in
      let! '(r, bytes) := either_copyin src m in
      upd_data bp (fun d => splice d (Z.to_nat (off mod BSIZE)) bytes) ;;
      if r =? -1 then
        log_write bp ;;
        brelse bp ;;
        kret (tot, off)
      else
        log_write bp ;;
        brelse bp ;;
        writei_loop fuel' ip (src_add src m) (u32 (off + m)) n (tot + m)
  end.

Definition writei (ip : nat) (src : source) (off n : Z) : Kern Z :=
  let! x := get_inode ip in
  if (i_size x <? off) || (u32 (off + n) <? off) then kret (-1) else
  if MAXFILE * BSIZE <? u32 (off + n) then kret (-1) else
  let! '(tot, off) := writei_loop (Z.to_nat (n / BSIZE + 3)) ip src off n 0 in
  let! x := get_inode ip in
  when (i_size x <? off) (upd_inode ip (fun x => x <| i_size := off |>)) ;;
  iupdate ip ;;
  kret tot.

(** ** Directories *)
(** The entries of a directory of [size] bytes. *)
Definition dir_count (size : Z) : nat := Z.to_nat ((size + DIRENT_SIZE - 1) / DIRENT_SIZE).

(** The inode found and the offset of its entry ([*poff]). *)
Definition dirlookup (dp : nat) (name : list Z) : Kern (option (nat * Z)) :=
  let! x := get_inode dp in
  if negb (i_type x =? T_DIR) then panic "dirlookup not DIR" else
  for_upto (dir_count (i_size x)) 0 (fun k =>
    let off := Z.of_nat k * DIRENT_SIZE in
    let! '(r, de) := readi dp D_var off DIRENT_SIZE in
    if negb (r =? DIRENT_SIZE) then panic "dirlookup read" else
    if de_inum de =? 0 then kret None else
    if namecmp name (de_name de) =? 0 then
      let! ip := iget (i_dev x) (de_inum de) in
      kret (Some (ip, off))
    else kret None).

Definition dirlink (dp : nat) (name : list Z) (inum : Z) : Kern Z :=
  let! r := dirlookup dp name in
  match r with
  | Some (ip, _) => iput ip ;; kret (-1)
  | None =>
      let! x := get_inode dp in
      let! r := for_upto (dir_count (i_size x)) 0 (fun k =>
        let off := Z.of_nat k * DIRENT_SIZE in
        let! '(r, de) := readi dp D_var off DIRENT_SIZE in
        if negb (r =? DIRENT_SIZE) then panic "dirlink read" else
        if de_inum de =? 0 then kret (Some off) else kret None) in
      let off := default (Z.of_nat (dir_count (i_size x)) * DIRENT_SIZE) r in
      let de := mkdirent inum (strncpy (replicate DIRSIZ 0) (reads name) DIRSIZ) in
      let! w := writei dp (S_var de) off DIRENT_SIZE in
      if negb (w =? DIRENT_SIZE) then kret (-1) else
      kret 0
  end.

(** ** Paths *)
(** The loop of [namex]; each iteration consumes a byte of the path at least. *)
Fixpoint namex_loop (fuel : nat) (ip : nat) (path : list Z) (nameiparent : bool) (name : list Z) :
    Kern (option nat * list Z) :=
  match fuel with
  | O => hang
  | S fuel' =>
      match skipelem path name with
      | None =>
          if nameiparent then
            iput ip ;;
            kret (None, name)
          else kret (Some ip, name)
      | Some (path, name) =>
          ilock ip ;;
          let! x := get_inode ip in
          if negb (i_type x =? T_DIR) then
            iunlockput ip ;;
            kret (None, name)
          else if i_nlink x =? 0 then
            iunlockput ip ;;
            kret (None, name)
          else if nameiparent && bool_decide (path = []) then
            iunlock ip ;;
            kret (Some ip, name)
          else
            let! next := dirlookup ip name in
            match next with
            | None =>
                iunlockput ip ;;
                kret (None, name)
            | Some (next, _) =>
                iunlockput ip ;;
                namex_loop fuel' next path nameiparent name
            end
      end
  end.

Definition namex (path : list Z) (nameiparent : bool) (name : list Z) : Kern (option nat * list Z) :=
  let! ip :=
    if bool_decide (path !! 0%nat = Some SLASH) then iget ROOTDEV ROOTINO
    else
      let! p := curproc in
      let! pp := get_proc p in
      let! cwd := deref (p_cwd pp) in
      idup cwd in
  namex_loop (S (length path)) ip path nameiparent name.

(** An uninitialized [name[DIRSIZ]] of the caller is zero here. *)
Definition namei (path : list Z) : Kern (option nat) :=
  let! '(ip, _) := namex path false (replicate DIRSIZ 0) in
  kret ip.

Definition nameiparent (path name : list Z) : Kern (option nat * list Z) := namex path true name.

(** ** Initialization *)
Definition get_superblock (d : list Z) : superblock :=
  mksb (get32 d 0) (get32 d 4) (get32 d 8) (get32 d 12) (get32 d 16) (get32 d 20) (get32 d 24) (get32 d 28).

Definition readsb (dev : Z) : Kern unit :=
  let! bp := bread dev 1 in
  let! bb := get_buf bp in
  modify (fun s => s <| k_sb := get_superblock (b_data bb) |>) ;;
  brelse bp.

Definition fsinit (dev : Z) : Kern unit :=
  readsb dev ;;
  let! sb := gets k_sb in
  if negb (sb_magic sb =? FSMAGIC) then panic "invalid file system" else
  initlog dev sb ;;
  ireclaim dev.
End Fs.
