(* ===== verification/FsData.v ===== *)
(** * The formats of the file system: inodes on disk, directory entries, paths

    What [ilock] decodes is what [iupdate] encoded, and the sixteen inodes of a
    block do not disturb each other; a name stored in a directory entry compares
    equal to itself; [skipelem] takes a path apart into its elements. *)

From stdpp Require Import prelude list strings gmap.
From Stdlib Require Import ZArith Lia ZifyBool.
From S2P Require Import Prelude State CString Log Fs.
Local Open Scope Z_scope.

(** [dlia]: linear arithmetic with division by constants. *)
Ltac dlia := Z.to_euclidean_division_equations; lia.

(** ** Words within a block *)
Lemma length_put16 d off v : length (put16 d off v) = length d.
Proof. unfold put16. by rewrite !length_insert. Qed.

Lemma get16_put16 d off v : (off + 1 < length d)%nat -> get16 (put16 d off v) off = u16 v.
Proof.
  intros Hd. unfold get16, put16. rewrite !byte_at_insert by (rewrite ?length_insert; lia).
  repeat match goal with |- context [decide ?P] => destruct (decide P); try lia end.
  unfold u8, u16. dlia.
Qed.

(** [d'] agrees with [d] outside the [n] bytes from [off]. *)
Definition same_outside (off n : nat) (d d' : list Z) : Prop :=
  length d' = length d /\ forall k, (k < off \/ off + n <= k)%nat -> byte_at d' k = byte_at d k.

Lemma same_outside_refl off n d : same_outside off n d d.
Proof. done. Qed.

Lemma same_outside_trans off n d1 d2 d3 :
  same_outside off n d1 d2 -> same_outside off n d2 d3 -> same_outside off n d1 d3.
Proof. intros [A1 A2] [B1 B2]. split; [congruence|]. intros k Hk. rewrite B2, A2; done. Qed.

Lemma same_outside_insert off n d d' j v :
  (off <= j < off + n)%nat -> same_outside off n d d' -> same_outside off n d (<[j := v]> d').
Proof.
  intros Hj [A1 A2]. split; [by rewrite length_insert|]. intros k Hk. unfold byte_at in *.
  rewrite <- A2 by done. rewrite !nth_lookup. by rewrite list_lookup_insert_ne by lia.
Qed.

Lemma put16_outside off n d d' o v :
  (off <= o)%nat -> (o + 2 <= off + n)%nat -> same_outside off n d d' -> same_outside off n d (put16 d' o v).
Proof. intros. unfold put16. by repeat apply same_outside_insert; [lia..|]. Qed.

Lemma put32_outside off n d d' o v :
  (off <= o)%nat -> (o + 4 <= off + n)%nat -> same_outside off n d d' -> same_outside off n d (put32 d' o v).
Proof. intros. unfold put32. by repeat apply same_outside_insert; [lia..|]. Qed.

Lemma put_addrs_outside addrs : forall off n d d' o,
  (off <= o)%nat -> (o + 4 * length addrs <= off + n)%nat -> same_outside off n d d' ->
  same_outside off n d (put_addrs d' o addrs).
Proof.
  induction addrs as [|a addrs IH]; intros off n d d' o Ho Hn Hs; cbn [put_addrs length] in *; [done|].
  apply IH; [lia..|]. by apply put32_outside; [lia..|].
Qed.

Lemma get16_outside off n d d' o : same_outside off n d d' ->
  (o + 2 <= off \/ off + n <= o)%nat -> get16 d' o = get16 d o.
Proof. intros [_ Hs] Ho. unfold get16. by rewrite !Hs by lia. Qed.

Lemma get32_outside off n d d' o : same_outside off n d d' ->
  (o + 4 <= off \/ off + n <= o)%nat -> get32 d' o = get32 d o.
Proof. intros [_ Hs] Ho. unfold get32. by rewrite !Hs by lia. Qed.

Lemma get_addrs_put addrs : forall d off,
  (off + 4 * length addrs <= length d)%nat -> Forall (fun a => 0 <= a < 2 ^ 32) addrs ->
  (fun k => get32 (put_addrs d off addrs) (off + 4 * k)) <$> seq 0 (length addrs) = addrs.
Proof.
  induction addrs as [|a addrs IH]; intros d off Hd Hr; cbn [put_addrs length seq fmap list_fmap] in *; [done|].
  apply Forall_cons in Hr as [Ha Hr]. f_equal.
  - rewrite Nat.mul_0_r, Nat.add_0_r.
    rewrite (get32_outside (off + 4) (4 * length addrs) (put32 d off a)); [|apply put_addrs_outside; [lia..|done]|lia].
    rewrite get32_put32 by lia. unfold u32. by rewrite Z.mod_small.
  - rewrite <- (IH (put32 d off a) (off + 4)%nat) at 2 by (rewrite ?length_put32; (lia || done)).
    rewrite <- fmap_S_seq, <- list_fmap_compose. apply list_fmap_ext. intros k x _. cbn. f_equal. lia.
Qed.

(** ** Inodes on disk *)
Record dinode_ok (di : dinode) : Prop := {
  dk_type : - 2 ^ 15 <= d_type di < 2 ^ 15;
  dk_major : - 2 ^ 15 <= d_major di < 2 ^ 15;
  dk_minor : - 2 ^ 15 <= d_minor di < 2 ^ 15;
  dk_nlink : - 2 ^ 15 <= d_nlink di < 2 ^ 15;
  dk_size : 0 <= d_size di < 2 ^ 32;
  dk_addrs : length (d_addrs di) = 13%nat;
  dk_range : Forall (fun a => 0 <= a < 2 ^ 32) (d_addrs di) }.

Lemma put_dinode_outside d off di : length (d_addrs di) = 13%nat -> same_outside off 64 d (put_dinode d off di).
Proof.
  intros Ha. unfold put_dinode. apply put_addrs_outside; [lia..|].
  apply put32_outside; [lia..|]. by repeat (apply put16_outside; [lia..|]).
Qed.

Lemma length_put_dinode d off di : length (d_addrs di) = 13%nat -> length (put_dinode d off di) = length d.
Proof. intros Ha. apply (put_dinode_outside d off di Ha). Qed.

Lemma i16_u16 v : - 2 ^ 15 <= v < 2 ^ 15 -> i16 (u16 v) = v.
Proof.
  intros Hv. unfold i16, u16. rewrite Zplus_mod_idemp_l. rewrite Z.mod_small; lia.
Qed.

Lemma get_put_dinode d off di :
  dinode_ok di -> (off + 64 <= length d)%nat -> get_dinode (put_dinode d off di) off = di.
Proof.
  intros [H1 H2 H3 H4 H5 H6 H7] Hd. unfold get_dinode, put_dinode.
  set (d1 := put16 d off _). set (d2 := put16 d1 _ _). set (d3 := put16 d2 _ _). set (d4 := put16 d3 _ _).
  set (d5 := put32 d4 _ _). assert (L : length d5 = length d) by (by unfold d5, d4, d3, d2, d1; rewrite length_put32, !length_put16).
  set (d6 := put_addrs d5 _ _).
  assert (S6 : same_outside (off + 12) 52 d5 d6) by (apply put_addrs_outside; [lia..|done]).
  assert (S5 : same_outside (off + 8) 4 d4 d5) by (apply put32_outside; [lia..|done]).
  assert (S4 : same_outside (off + 6) 2 d3 d4) by (apply put16_outside; [lia..|done]).
  assert (S3 : same_outside (off + 4) 2 d2 d3) by (apply put16_outside; [lia..|done]).
  assert (S2 : same_outside (off + 2) 2 d1 d2) by (apply put16_outside; [lia..|done]).
  assert (L5 := proj1 S5). assert (L4 := proj1 S4). assert (L3 := proj1 S3). assert (L2 := proj1 S2).
  assert (L1 : length d1 = length d) by apply length_put16.
  destruct di as [ty mj mn nl sz ad]. cbn [d_type d_major d_minor d_nlink d_size d_addrs] in *. f_equal.
  - rewrite (get16_outside _ _ _ _ _ S6), (get16_outside _ _ _ _ _ S5), (get16_outside _ _ _ _ _ S4),
      (get16_outside _ _ _ _ _ S3), (get16_outside _ _ _ _ _ S2) by lia.
    unfold d1. rewrite get16_put16 by lia. by apply i16_u16.
  - rewrite (get16_outside _ _ _ _ _ S6), (get16_outside _ _ _ _ _ S5), (get16_outside _ _ _ _ _ S4),
      (get16_outside _ _ _ _ _ S3) by lia.
    unfold d2. rewrite get16_put16 by lia. by apply i16_u16.
  - rewrite (get16_outside _ _ _ _ _ S6), (get16_outside _ _ _ _ _ S5), (get16_outside _ _ _ _ _ S4) by lia.
    unfold d3. rewrite get16_put16 by lia. by apply i16_u16.
  - rewrite (get16_outside _ _ _ _ _ S6), (get16_outside _ _ _ _ _ S5) by lia.
    unfold d4. rewrite get16_put16 by lia. by apply i16_u16.
  - rewrite (get32_outside _ _ _ _ _ S6) by lia. unfold d5. rewrite get32_put32 by lia. unfold u32. by rewrite Z.mod_small.
  - unfold get_addrs, d6. rewrite <- H6. apply get_addrs_put; [lia|done].
Qed.

Lemma get_dinode_outside off d d' o : same_outside off 64 d d' ->
  (o + 64 <= off \/ off + 64 <= o)%nat -> get_dinode d' o = get_dinode d o.
Proof.
  intros Hs Ho. unfold get_dinode, get_addrs.
  rewrite !(get16_outside _ _ _ _ _ Hs), (get32_outside _ _ _ _ _ Hs) by lia. f_equal.
  apply list_fmap_ext. intros k x Hk. apply lookup_seq in Hk as [-> Hk]. apply (get32_outside _ _ _ _ _ Hs). lia.
Qed.

Lemma dinode_off_lt inum : (dinode_off inum + 64 <= 1024)%nat.
Proof. unfold dinode_off. change IPB with 16. change DINODE_SIZE with 64. pose proof (Z.mod_pos_bound inum 16). lia. Qed.

(** Inodes of one block have distinct places in it. *)
Lemma dinode_off_ne n m : n mod IPB <> m mod IPB ->
  (dinode_off m + 64 <= dinode_off n \/ dinode_off n + 64 <= dinode_off m)%nat.
Proof.
  unfold dinode_off. change IPB with 16. change DINODE_SIZE with 64.
  pose proof (Z.mod_pos_bound n 16). pose proof (Z.mod_pos_bound m 16). lia.
Qed.

(** An inode written to its place in a block is read back field by field, and
    the other fifteen inodes of the block are untouched: the encoding [iupdate]
    stores is the one [ilock] loads. *)
Theorem dinode_roundtrip (d : list Z) (inum : Z) (di : dinode) :
  length d = 1024%nat -> dinode_ok di ->
  let d' := put_dinode d (dinode_off inum) di in
  length d' = 1024%nat /\ get_dinode d' (dinode_off inum) = di /\
  forall m, m mod IPB <> inum mod IPB -> get_dinode d' (dinode_off m) = get_dinode d (dinode_off m).
Proof.
  intros Hd Hok d'. pose proof (dinode_off_lt inum). split; [|split].
  - rewrite <- Hd. by apply length_put_dinode, Hok.
  - apply get_put_dinode; [done|lia].
  - intros m Hm. eapply get_dinode_outside; [apply put_dinode_outside, Hok|]. by apply dinode_off_ne.
Qed.

Definition demo_dinode : dinode := mkdinode T_FILE 0 0 1 700 (45 :: replicate 12 0).

Lemma demo_dinode_ok : dinode_ok demo_dinode.
Proof. split; cbn; try (by repeat constructor); lia. Qed.

Lemma dinode_roundtrip_witness :
  get_dinode (put_dinode zero_block (dinode_off 19) demo_dinode) (dinode_off 19) = demo_dinode.
Proof. apply (dinode_roundtrip zero_block 19 demo_dinode); [reflexivity|exact demo_dinode_ok]. Defined.

(** ** Paths *)
(** The pieces of a path between slashes, empty ones included. *)
Fixpoint pieces (path : list Z) : list (list Z) :=
  match path with
  | [] => [[]]
  | c :: path' =>
      if c =? SLASH then [] :: pieces path'
      else match pieces path' with e :: es => (c :: e) :: es | [] => [[c]] end
  end.
(** The elements of a path: [a//b/] has the elements [a] and [b]. *)
Definition elements (path : list Z) : list (list Z) := filter (fun e => e <> []) (pieces path).

Lemma elements_slash path : elements (SLASH :: path) = elements path.
Proof. done. Qed.

Lemma elements_skip path : elements (skip_slashes path) = elements path.
Proof.
  induction path as [|c path IH]; [done|]. cbn [skip_slashes]. destruct (Z.eqb_spec c SLASH) as [->|]; [|done].
  by rewrite elements_slash.
Qed.

Lemma length_skip path : (length (skip_slashes path) <= length path)%nat.
Proof. induction path as [|c path IH]; cbn [skip_slashes length]; [lia|]. destruct (c =? SLASH); cbn [length]; lia. Qed.

Lemma skip_head path c : skip_slashes path !! 0%nat = Some c -> c <> SLASH.
Proof.
  induction path as [|a path IH]; cbn [skip_slashes]; [done|]. destruct (Z.eqb_spec a SLASH); [done|]. cbn. congruence.
Qed.

(** The element a path starts with is its first piece; what is left begins with
    the slash that ended it. *)
Lemma split_elem_spec path : forall e rest, split_elem path = (e, rest) ->
  path = e ++ rest /\ (SLASH ∉ e) /\
  pieces path = match rest with [] => [e] | _ :: rest' => e :: pieces rest' end.
Proof.
  induction path as [|c path IH]; intros e rest Hs; cbn [split_elem pieces] in *.
  - injection Hs as <- <-. split; [done|]. split; [apply not_elem_of_nil|done].
  - destruct (Z.eqb_spec c SLASH) as [->|Hc].
    + injection Hs as <- <-. split; [done|]. split; [apply not_elem_of_nil|done].
    + destruct (split_elem path) as [e' rest'] eqn:E. injection Hs as <- <-.
      destruct (IH _ _ eq_refl) as (-> & Hn & Hp). split; [done|]. split.
      * rewrite not_elem_of_cons. done.
      * rewrite Hp. by destruct rest'.
Qed.

Lemma split_elem_stop path : forall e x rest, split_elem path = (e, x :: rest) -> x = SLASH.
Proof.
  induction path as [|c path IH]; intros e x rest E; cbn [split_elem] in E; [done|].
  destruct (Z.eqb_spec c SLASH) as [->|]; [by injection E|].
  destruct (split_elem path) as [e' r'] eqn:E'. injection E as <- ->. by eapply IH.
Qed.

Lemma nonzero_skip path : Forall (fun c => c <> 0) path -> Forall (fun c => c <> 0) (skip_slashes path).
Proof.
  induction path as [|c path IH]; [done|]. intros [Hc Hp]%Forall_cons. cbn [skip_slashes].
  destruct (c =? SLASH); [auto|by constructor].
Qed.

(** The string [e] read from an array that holds it, terminated or cut at [n]. *)
Lemma cstrn_from_take e : forall p i n,
  Forall (fun c => c <> 0) e -> (forall k c, e !! k = Some c -> (k < n)%nat -> p (i + k)%nat = c) ->
  ((length e < n)%nat -> p (i + length e)%nat = 0) -> cstrn_from p i n = take n e.
Proof.
  induction e as [|c e IH]; intros p i [|n] Hnz Hp Hz; cbn [cstrn_from take length] in *; try done.
  - rewrite Nat.add_0_r in Hz. by rewrite Hz, Z.eqb_refl by lia.
  - apply Forall_cons in Hnz as [Hc Hnz]. pose proof (Hp 0%nat c eq_refl ltac:(lia)) as H0.
    rewrite Nat.add_0_r in H0. rewrite H0. destruct (Z.eqb_spec c 0); [done|]. f_equal. apply IH; [done| |].
    + intros k c' Hk Hlt. rewrite <- (Hp (S k) c' Hk) by lia. f_equal. lia.
    + intros Hlt. rewrite <- Hz by lia. f_equal. lia.
Qed.

Lemma skipelem_name e name :
  Forall (fun c => c <> 0) e -> length name = DIRSIZ ->
  let name' := if decide (DIRSIZ <= length e)%nat then take DIRSIZ e else e ++ 0 :: drop (S (length e)) name in
  length name' = DIRSIZ /\ cstrn (reads name') DIRSIZ = take DIRSIZ e.
Proof.
  intros Hnz Hlen name'. unfold name'. destruct (decide _) as [Hl|Hl].
  - split; [rewrite length_take; lia|]. apply cstrn_from_take; [done| |lia].
    intros k c Hk Hlt. unfold reads. rewrite nth_lookup, lookup_take_lt by done. cbn [Nat.add]. by rewrite Hk.
  - split; [rewrite length_app; cbn [length]; rewrite length_drop; lia|]. apply cstrn_from_take; [done| |].
    + intros k c Hk Hlt. unfold reads. rewrite nth_lookup. cbn [Nat.add]. by rewrite lookup_app_l, Hk by (by eapply lookup_lt_Some).
    + intros _. unfold reads. rewrite nth_lookup. cbn [Nat.add]. by rewrite lookup_app_r, Nat.sub_diag by lia.
Qed.

(** [skipelem] agrees with the splitting of the path at its slashes: it fails
    exactly on a path without elements, and otherwise stores the first element in
    [name], cut at [DIRSIZ] bytes, and returns a shorter path that has the
    remaining elements and no leading slash.  So the loop of [namex] visits the
    elements of the path in order and ends. *)
Theorem skipelem_spec (path name : list Z) :
  Forall (fun c => c <> 0) path -> length name = DIRSIZ ->
  match skipelem path name with
  | None => elements path = []
  | Some (rest, name') =>
      exists e, elements path = e :: elements rest /\
        length name' = DIRSIZ /\ cstrn (reads name') DIRSIZ = take DIRSIZ e /\
        (length rest < length path)%nat /\ rest !! 0%nat <> Some SLASH /\ Forall (fun c => c <> 0) rest
  end.
Proof.
  intros Hnz Hlen. unfold skipelem. rewrite <- elements_skip. pose proof (length_skip path) as Hskip.
  pose proof (nonzero_skip path Hnz) as Hnz'.
  pose proof (skip_head path) as Hh. destruct (skip_slashes path) as [|c p1]; [done|].
  rewrite bool_decide_false by done. destruct (split_elem (c :: p1)) as [e rest] eqn:E.
  pose proof (split_elem_spec _ _ _ E) as (Hp & Hs & Hpieces).
  assert (He : e <> []).
  { intros ->. cbn in Hp. subst rest. cbn [split_elem] in E. destruct (Z.eqb_spec c SLASH) as [->|]; [by apply (Hh SLASH)|].
    by destruct (split_elem p1). }
  rewrite Hp in Hnz'. apply Forall_app in Hnz' as [Hnze Hnzr].
  destruct (skipelem_name e name Hnze Hlen) as [Hl Hn]. exists e.
  assert (Hel : elements (c :: p1) = e :: elements (skip_slashes rest)).
  { rewrite elements_skip. unfold elements. rewrite Hpieces. destruct rest as [|x rest].
    - by rewrite filter_cons_True.
    - rewrite filter_cons_True by done. f_equal.
      assert (x = SLASH) as ->; [|done]. eapply (split_elem_stop _ _ _ _ E). }
  split; [done|]. split; [done|]. split; [done|]. split.
  - pose proof (length_skip rest). apply (f_equal length) in Hp. rewrite length_app in Hp. destruct e; [done|].
    cbn [length] in *. lia.
  - split; [intros Hx; by apply (skip_head rest SLASH)|by apply nonzero_skip].
Qed.

Lemma skipelem_spec_witness :
  exists e, elements (SLASH :: 97 :: SLASH :: SLASH :: [98]) = e :: elements [98] /\ e = [97].
Proof.
  pose proof (skipelem_spec [SLASH; 97; SLASH; SLASH; 98] (replicate DIRSIZ 0)) as H.
  destruct H as (e & H1 & _); [by repeat constructor|reflexivity|]. exists e. split; [exact H1|].
  vm_compute in H1. congruence.
Defined.
