(* ===== verification/FsBlocks.v ===== *)
(** * Block allocation inside a transaction (kernel/fs.c: bzero, balloc, bfree)

    [in_txn i st bl hs s]: process [i] is inside a file-system operation whose
    transaction has logged the blocks [bl], and holds the buffers [hs].  Its rules
    are the cache's rules with the log's, and the routines of fs.c are verified
    against them.  The bitmap is seen through [used]. *)

From stdpp Require Import prelude list strings gmap.
From Stdlib Require Import ZArith Lia ZifyBool.
From S2P Require Import Prelude State Spinlock CString Kalloc Proc Vm Sleeplock Bio Cache Blocks Log Fs FsData.
Local Open Scope Z_scope.

Record in_txn (i : nat) (st : Z) (bl : list Z) (hs : list held) (s : kstate) : Prop := {
  tx_hold : hold i (list_to_set bl) hs s;
  tx_log : log_has st bl (k_log s);
  tx_nodup : NoDup bl;
  tx_open : 1 <= log_outstanding (k_log s) }.

Lemma size_pins (bl : list Z) : NoDup bl -> size (list_to_set bl : gset Z) = length bl.
Proof. apply size_list_to_set. Qed.

Lemma nodup_logged bl n : NoDup bl -> NoDup (logged bl n).
Proof.
  intros Hnd. unfold logged. destruct (decide (n ∈ bl)) as [|Hn]; [done|]. apply NoDup_app. split; [done|].
  split; [intros x Hx ->%list_elem_of_singleton; done|]. by apply NoDup_singleton.
Qed.

Lemma length_logged bl n : (length (logged bl n) <= S (length bl))%nat.
Proof. unfold logged. destruct (decide _); [lia|]. rewrite length_app. cbn. lia. Qed.

Lemma in_logged bl n : n ∈ logged bl n.
Proof. unfold logged. destruct (decide _); [done|]. apply elem_of_app. right. by apply list_elem_of_singleton. Qed.

Lemma logged_mono bl n m : m ∈ bl -> m ∈ logged bl n.
Proof. unfold logged. destruct (decide _); [done|]. rewrite elem_of_app. by left. Qed.

Lemma moves_nil_trans U1 U2 s1 s2 s3 : moves U1 [] s1 s2 -> moves U2 [] s2 s3 -> moves (U1 ++ U2) [] s1 s3.
Proof. intros A B. exact (moves_trans _ _ _ _ _ _ _ A B). Qed.

(** [chainm]: the steps known so far composed into one. *)
Ltac chainm :=
  repeat match goal with
  | H1 : moves ?U1 [] ?a ?b, H2 : moves ?U2 [] ?b ?c |- _ =>
      let M := fresh "M" in pose proof (moves_nil_trans _ _ _ _ _ H1 H2) as M; cbn [app] in M; clear H1 H2
  end.

Lemma moves_disk U s s' m : moves U [] s s' -> k_disk s' m = k_disk s m.
Proof. intros [_ [_ Hd] _]. apply Hd. Qed.

Lemma moves_sb U s s' : moves U [] s s' -> k_sb s' = k_sb s.
Proof. intros [_ _ (_ & E & _)]. exact E. Qed.

Lemma moves_inodes U s s' : moves U [] s s' -> k_inodes s' = k_inodes s.
Proof. intros [_ _ (_ & _ & E & _)]. exact E. Qed.

Lemma runs_sb s tr sb : k_sb s = sb -> runs (gets k_sb) s tr (fun a s' => a = sb /\ s' = s).
Proof. intros <-. by exists (k_sb s), s. Qed.

Section Txn.
Context `{DiskOk} (i : nat) (st : Z).

Lemma txn_bread bl hs s n tr :
  in_txn i st bl hs s -> Forall (fun h => h_blk h <> n) hs -> blockno_ok n -> (length hs + length bl < NBUF)%nat ->
  runs (bread ROOTDEV n) s tr (fun b s' =>
    in_txn i st bl (Held b n (view s n) :: hs) s' /\ moves [] [] s s' /\ (n ∉ bl -> view s n = k_disk s' n)).
Proof.
  intros [H1 H2 H3 H4] Hno Hok Hsz. assert (Hcl : n ∉ bl -> view s n = k_disk s n).
  { intros Hn. eapply hold_clean; [done|done|]. by rewrite elem_of_list_to_set. }
  rlast (hold_bread i _ _ _ n tr H1 Hno) as [A [M L]]; [right; by rewrite size_pins|].
  split; [by split; rewrite ?L|]. split; [done|]. intros Hn. rewrite (moves_disk _ _ _ _ M). by apply Hcl.
Qed.

Lemma txn_get bl b n d hs s tr :
  in_txn i st bl (Held b n d :: hs) s -> runs (get_buf b) s tr (fun x s' => s' = s /\ b_data x = d).
Proof. intros [H1 _ _ _]. rlast (hold_get i _ _ _ _ _ _ tr H1) as (-> & _ & E). done. Qed.

Lemma txn_set bl b n d hs s (f : list Z -> list Z) tr :
  in_txn i st bl (Held b n d :: hs) s ->
  runs (upd_data b f) s tr (fun _ s' => in_txn i st bl (Held b n (f d) :: hs) s' /\ moves [(n, f d)] [] s s').
Proof.
  intros [H1 H2 H3 H4]. rlast (hold_set i _ _ _ _ _ _ f tr H1) as [A [M L]]. split; [by split; rewrite ?L|done].
Qed.

Lemma txn_log_write bl b n d hs s tr :
  in_txn i st bl (Held b n d :: hs) s -> (length bl < 30)%nat ->
  runs (log_write b) s tr (fun _ s' => in_txn i st (logged bl n) (Held b n d :: hs) s' /\ moves [] [] s s').
Proof.
  intros [H1 H2 H3 H4] Hlen. rlast (hold_log_write i st _ _ _ _ _ _ tr H1 H2 Hlen H3 H4) as (A & M & L & O & C).
  split; [|done]. split; [done|done|by apply nodup_logged|by rewrite O].
Qed.

Lemma txn_brelse bl b n d hs s tr :
  in_txn i st bl (Held b n d :: hs) s -> (n ∉ bl -> d = k_disk s n) ->
  runs (brelse b) s tr (fun _ s' => in_txn i st bl hs s' /\ moves [] [] s s').
Proof.
  intros [H1 H2 H3 H4] Hcl. rlast (hold_brelse i _ _ _ _ _ _ tr H1) as [A [M L]].
  { intros Hn. apply Hcl. by rewrite elem_of_list_to_set in Hn. }
  split; [by split; rewrite ?L|done].
Qed.

(** Reading a block, changing it, logging it and releasing it: the idiom of every
    update in fs.c. *)
Lemma txn_update bl b n d hs s (f : list Z -> list Z) tr :
  in_txn i st bl (Held b n d :: hs) s -> (length bl < 30)%nat ->
  runs (upd_data b f ;; log_write b ;; brelse b) s tr (fun _ s' =>
    in_txn i st (logged bl n) hs s' /\ moves [(n, f d)] [] s s').
Proof.
  intros Hs Hlen. rstep (txn_set _ _ _ _ _ _ f tr Hs) as [H1 M1]. rstep (txn_log_write _ _ _ _ _ _ tr H1 Hlen) as [H2 M2].
  rlast (txn_brelse _ _ _ _ _ _ tr H2) as [H3 M3]; [intros Hn; exfalso; apply Hn, in_logged|].
  chainm. done.
Qed.

Lemma txn_bzero bl hs s n tr :
  in_txn i st bl hs s -> Forall (fun h => h_blk h <> n) hs -> blockno_ok n -> (length hs + length bl < 30)%nat ->
  runs (bzero ROOTDEV n) s tr (fun _ s' => in_txn i st (logged bl n) hs s' /\ moves [(n, zero_block)] [] s s').
Proof.
  intros Hs Hno Hok Hlen. unfold bzero. rstep (txn_bread _ _ _ n tr Hs Hno Hok) as (H1 & M1 & _); [unfold NBUF; lia|].
  rlast (txn_update _ _ _ _ _ _ (fun _ => zero_block) tr H1) as [H2 M2]; [lia|]. chainm. done.
Qed.
End Txn.

(** ** The bitmap *)
Lemma land_bit_mask x j : 0 <= j -> (Z.land x (bit_mask j) =? 0) = negb (Z.testbit x (j mod 8)).
Proof.
  intros Hj. unfold bit_mask. rewrite Z.shiftl_1_l. pose proof (Z.mod_pos_bound j 8). set (k := j mod 8) in *.
  destruct (Z.testbit x k) eqn:E; cbn [negb].
  - apply Z.eqb_neq. intros Hz. apply (f_equal (fun y => Z.testbit y k)) in Hz.
    rewrite Z.land_spec, E, Z.pow2_bits_true, Z.bits_0 in Hz by lia. done.
  - apply Z.eqb_eq, Z.bits_inj_0. intros n. rewrite Z.land_spec.
    destruct (Z.eq_dec k n) as [<-|]; [by rewrite E|]. rewrite Z.pow2_bits_false by lia. apply andb_false_r.
Qed.

Lemma testbit_set x j k : 0 <= j -> 0 <= k < 8 ->
  Z.testbit (Z.lor x (bit_mask j)) k = Z.testbit x k || (j mod 8 =? k).
Proof.
  intros Hj Hk. unfold bit_mask. rewrite Z.shiftl_1_l, Z.lor_spec, Z.pow2_bits_eqb; [done|].
  apply Z.mod_pos_bound. lia.
Qed.

Lemma testbit_clear x j k : 0 <= j -> 0 <= k < 8 ->
  Z.testbit (Z.land x (Z.lnot (bit_mask j))) k = Z.testbit x k && negb (j mod 8 =? k).
Proof.
  intros Hj Hk. unfold bit_mask. rewrite Z.shiftl_1_l, Z.land_spec, Z.lnot_spec by lia.
  rewrite Z.pow2_bits_eqb; [done|]. apply Z.mod_pos_bound. lia.
Qed.

(** Bit [j] of a bitmap block, and the block with it set or cleared. *)
Definition bit_at (d : list Z) (j : Z) : bool := Z.testbit (byte_at d (Z.to_nat (j / 8))) (j mod 8).
Definition set_bit (j : Z) (d : list Z) : list Z :=
  <[Z.to_nat (j / 8) := Z.lor (byte_at d (Z.to_nat (j / 8))) (bit_mask j)]> d.
Definition clear_bit (j : Z) (d : list Z) : list Z :=
  <[Z.to_nat (j / 8) := Z.land (byte_at d (Z.to_nat (j / 8))) (Z.lnot (bit_mask j))]> d.

(** Two bit numbers are one iff they have the same byte and the same position. *)
Lemma bit_split j k : 0 <= j -> 0 <= k ->
  (k =? j) = bool_decide (Z.to_nat (k / 8) = Z.to_nat (j / 8)) && (k mod 8 =? j mod 8).
Proof.
  intros Hj Hk. destruct (Z.eqb_spec k j) as [->|Hn].
  - by rewrite bool_decide_true, Z.eqb_refl.
  - destruct (bool_decide_reflect (Z.to_nat (k / 8) = Z.to_nat (j / 8))), (Z.eqb_spec (k mod 8) (j mod 8)); try done. dlia.
Qed.

Lemma bit_at_set d j k : 0 <= j < 8 * Z.of_nat (length d) -> 0 <= k -> bit_at (set_bit j d) k = bit_at d k || (k =? j).
Proof.
  intros Hj Hk. unfold bit_at, set_bit. rewrite byte_at_insert by dlia. rewrite (bit_split j k) by lia.
  pose proof (Z.mod_pos_bound k 8). destruct (decide (Z.to_nat (j / 8) = Z.to_nat (k / 8))) as [E|E].
  - rewrite testbit_set by lia. rewrite bool_decide_true by done. rewrite E. by rewrite (Z.eqb_sym (j mod 8)).
  - rewrite bool_decide_false by done. by rewrite orb_false_r.
Qed.

Lemma bit_at_clear d j k : 0 <= j < 8 * Z.of_nat (length d) -> 0 <= k ->
  bit_at (clear_bit j d) k = bit_at d k && negb (k =? j).
Proof.
  intros Hj Hk. unfold bit_at, clear_bit. rewrite byte_at_insert by dlia. rewrite (bit_split j k) by lia.
  pose proof (Z.mod_pos_bound k 8). destruct (decide (Z.to_nat (j / 8) = Z.to_nat (k / 8))) as [E|E].
  - rewrite testbit_clear by lia. rewrite bool_decide_true by done. rewrite E. by rewrite (Z.eqb_sym (j mod 8)).
  - rewrite bool_decide_false by done. by rewrite andb_true_r.
Qed.

Lemma byte_index bi : Z.to_nat (Z.of_nat bi / 8) = (bi / 8)%nat.
Proof. rewrite <- (Nat2Z.id (bi / 8)), Nat2Z.inj_div. done. Qed.

Lemma set_bit_nat bi d :
  <[(bi / 8)%nat := Z.lor (byte_at d (bi / 8)) (bit_mask (Z.of_nat bi))]> d = set_bit (Z.of_nat bi) d.
Proof. unfold set_bit. by rewrite byte_index. Qed.

(** Block [b] is marked as in use. *)
Definition used (sb : superblock) (s : kstate) (b : Z) : bool := bit_at (view s (BBLOCK b sb)) (b mod BPB).

(** The last block of the bitmap. *)
Definition bmap_end (sb : superblock) : Z := sb_bmapstart sb + sb_size sb / BPB.

Record bitmap_ok (sb : superblock) (s : kstate) : Prop := {
  bm_size : 0 < sb_size sb < 2 ^ 31;
  bm_start : 0 <= sb_bmapstart sb;
  bm_end : bmap_end sb < sb_size sb;
  bm_len : forall b, 0 <= b < sb_size sb -> length (view s (BBLOCK b sb)) = 1024%nat;
  bm_meta : forall b, 0 <= b <= bmap_end sb -> used sb s b = true }.

(** Held blocks that the allocator cannot meet: in use, and beyond the bitmap. *)
Definition clear_of_bitmap (sb : superblock) (s : kstate) (hs : list held) : Prop :=
  Forall (fun h => bmap_end sb < h_blk h /\ used sb s (h_blk h) = true) hs.

Lemma BBLOCK_range sb s b : bitmap_ok sb s -> 0 <= b < sb_size sb ->
  BBLOCK b sb = b / BPB + sb_bmapstart sb /\ 0 <= BBLOCK b sb <= bmap_end sb.
Proof.
  intros [H1 H2 H3 _ _] Hb. unfold BBLOCK, u32, bmap_end in *. change BPB with 8192 in *.
  assert (0 <= b / 8192 <= sb_size sb / 8192) by (split; [apply Z.div_pos; lia|apply Z.div_le_mono; lia]).
  rewrite Z.mod_small by lia. lia.
Qed.

Lemma BBLOCK_ok sb s b : bitmap_ok sb s -> 0 <= b < sb_size sb -> blockno_ok (BBLOCK b sb).
Proof. intros Hbm Hb. destruct (BBLOCK_range sb s b Hbm Hb), Hbm. unfold blockno_ok. lia. Qed.

Lemma used_view sb s s' : (forall m, view s' m = view s m) -> forall b, used sb s' b = used sb s b.
Proof. intros Hv b. unfold used. by rewrite Hv. Qed.

Lemma hs_not_bitmap sb s hs b : bitmap_ok sb s -> clear_of_bitmap sb s hs -> 0 <= b < sb_size sb ->
  Forall (fun h => h_blk h <> BBLOCK b sb) hs.
Proof.
  intros Hbm Hhs Hb. eapply Forall_impl; [exact Hhs|]. intros h [Hh _] E. destruct (BBLOCK_range sb s b Hbm Hb). lia.
Qed.

Lemma hs_not_free sb s hs r : clear_of_bitmap sb s hs -> used sb s r = false -> Forall (fun h => h_blk h <> r) hs.
Proof. intros Hhs Hr. eapply Forall_impl; [exact Hhs|]. intros h [_ Hh] E. congruence. Qed.

(** ** Allocation *)
Section Balloc.
Context `{DiskOk} (i : nat) (st : Z) (sb : superblock) (s : kstate) (bl : list Z) (hs : list held) (tr : list (kstate -> kstate)).
Context (Hbm : bitmap_ok sb s) (Hhs : clear_of_bitmap sb s hs) (Hsz : (length hs + length bl + 1 < 30)%nat).

(** [r] is the first free block; its bit is set, it is zeroed, and both are logged. *)
Definition allocated (r : Z) (s' : kstate) : Prop :=
  0 < r < sb_size sb /\ used sb s r = false /\ (forall b, 0 <= b < r -> used sb s b = true) /\
  in_txn i st (logged (logged bl (BBLOCK r sb)) r) hs s' /\
  moves [(BBLOCK r sb, set_bit (r mod BPB) (view s (BBLOCK r sb))); (r, zero_block)] [] s s'.

(** Everything below [r] is in use, and nothing has happened. *)
Definition searched (r : Z) (hs' : list held) (s' : kstate) : Prop :=
  in_txn i st bl hs' s' /\ moves [] [] s s' /\ forall b, 0 <= b < r -> b < sb_size sb -> used sb s b = true.

Lemma balloc_bit bp k bi s1 :
  let b := Z.of_nat k * BPB in let r := b + Z.of_nat bi in let m := bit_mask (Z.of_nat bi) in
  Z.of_nat bi < BPB -> r < sb_size sb ->
  searched r (Held bp (BBLOCK b sb) (view s (BBLOCK b sb)) :: hs) s1 ->
  runs (let! bb := get_buf bp in
      if Z.land (byte_at (b_data bb) (bi / 8)) m =? 0 then
        upd_data bp (fun d => <[(bi / 8)%nat := Z.lor (byte_at d (bi / 8)) m]> d) ;;
        log_write bp ;;
        brelse bp ;;
        bzero ROOTDEV (b + Z.of_nat bi) ;;
        kret (Some (b + Z.of_nat bi))
      else kret None) s1 tr
    (fun o s' => match o with
      | Some a => allocated a s'
      | None => searched (b + Z.of_nat (S bi)) (Held bp (BBLOCK b sb) (view s (BBLOCK b sb)) :: hs) s' end).
Proof.
  intros b r m Hbi Hr (Hs & M1 & Hall). set (n := BBLOCK b sb) in *. set (d := view s n) in *.
  assert (Hdiv : r / BPB = Z.of_nat k /\ r mod BPB = Z.of_nat bi).
  { unfold r, b. change BPB with 8192 in *. split; dlia. }
  assert (Hn : BBLOCK r sb = n).
  { unfold n, BBLOCK. rewrite (proj1 Hdiv). unfold b. by rewrite Z.div_mul by done. }
  assert (Hused : used sb s r = Z.testbit (byte_at d (bi / 8)) (Z.of_nat bi mod 8)).
  { unfold used, bit_at. by rewrite Hn, (proj2 Hdiv), byte_index. }
  rstep (txn_get i st _ _ _ _ _ _ tr Hs) as [-> E]. rewrite E. unfold m. rewrite land_bit_mask by lia. rewrite <- Hused.
  destruct (used sb s r) eqn:Eu; cbn [negb].
  - apply runs_ret. split; [done|]. split; [done|]. intros b' Hb' Hlt. destruct (Z.eq_dec b' r) as [->|]; [done|].
    apply Hall; [|done]. unfold r in *. lia.
  - rstep (txn_set i st _ _ _ _ _ _ _ tr Hs) as [H2 M2].
    rstep (txn_log_write i st _ _ _ _ _ _ tr H2) as [H3 M3]; [lia|].
    rstep (txn_brelse i st _ _ _ _ _ _ tr H3) as [H4 M4]; [intros Hno; exfalso; apply Hno, in_logged|].
    rstep (txn_bzero i st _ _ _ r tr H4 (hs_not_free sb s hs r Hhs Eu)) as [H5 M5]; [destruct Hbm; unfold blockno_ok, r, b in *; change BPB with 8192 in *; lia|pose proof (length_logged bl n); lia|].
    apply runs_ret. chainm. change (b + Z.of_nat bi) with r. unfold allocated. rewrite Hn, (proj2 Hdiv), <- set_bit_nat.
    split; [|split; [done|split; [|done]]].
    + split; [|done]. destruct (Z.leb_spec r (bmap_end sb)) as [Hle|]; [|pose proof (BBLOCK_range sb s r Hbm); unfold r, b in *; change BPB with 8192 in *; lia].
      rewrite (bm_meta _ _ Hbm r) in Eu; [done|]. unfold r, b in *. change BPB with 8192 in *. lia.
    + intros b' Hb'. apply Hall; [done|]. lia.
Qed.

Lemma balloc_block k s1 :
  let b := Z.of_nat k * BPB in b < sb_size sb -> searched b hs s1 ->
  runs (let! bp := bread ROOTDEV (BBLOCK b sb) in
    let! r := for_upto (Z.to_nat (Z.min BPB (sb_size sb - b))) 0 (fun bi =>
      let m := bit_mask (Z.of_nat bi) in
      let! bb := get_buf bp in
      if Z.land (byte_at (b_data bb) (bi / 8)) m =? 0 then
        upd_data bp (fun d => <[(bi / 8)%nat := Z.lor (byte_at d (bi / 8)) m]> d) ;;
        log_write bp ;;
        brelse bp ;;
        bzero ROOTDEV (b + Z.of_nat bi) ;;
        kret (Some (b + Z.of_nat bi))
      else kret None) in
    match r with
    | Some a => kret (Some a)
    | None => brelse bp ;; kret None
    end) s1 tr
    (fun o s' => match o with Some a => allocated a s' | None => searched (Z.of_nat (S k) * BPB) hs s' end).
Proof.
  intros b Hb (Hs & M1 & Hall). assert (Hb0 : 0 <= b < sb_size sb) by (unfold b; change BPB with 8192 in *; lia).
  rstep (txn_bread i st _ _ _ (BBLOCK b sb) tr Hs (hs_not_bitmap sb s hs b Hbm Hhs Hb0) (BBLOCK_ok sb s b Hbm Hb0)) as (H2 & M2 & Hcl); [unfold NBUF; lia|].
  assert (Ev : view s1 (BBLOCK b sb) = view s (BBLOCK b sb)) by apply M1. rewrite Ev in *.
  rename a into bp. set (hs' := Held bp _ _ :: hs) in *.
  rstep (runs_for_upto (fun bi s' => searched (b + Z.of_nat bi) hs' s') allocated) as Hr.
  { split; [done|]. chainm. split; [done|]. intros b' Hb'. apply Hall. lia. }
  { intros bi s2 Hbi Hs2. apply balloc_bit; [change BPB with 8192 in *; lia..|done]. }
  destruct a as [r|]; [by apply runs_ret|]. destruct Hr as (H3 & M3 & Hall3).
  rstep (txn_brelse i st _ _ _ _ _ _ tr H3) as [H4 M4].
  { intros Hno. rewrite (Hcl Hno), (moves_disk _ _ _ _ M2), (moves_disk _ _ _ _ M3). by apply M1. }
  apply runs_ret. split; [done|]. split; [by chainm|]. intros b' Hb' Hlt. apply Hall3; [|done].
  unfold b in *. change BPB with 8192 in *. lia.
Qed.

Lemma balloc_run : in_txn i st bl hs s -> k_sb s = sb ->
  runs (balloc ROOTDEV) s tr (fun r s' => allocated r s' \/ r = 0 /\ searched (sb_size sb) hs s').
Proof.
  intros Hs Hsb. unfold balloc. rstep (runs_sb s tr sb Hsb) as [-> ->].
  rstep (runs_for_upto (fun k s' => searched (Z.of_nat k * BPB) hs s') allocated) as Hr.
  { split; [done|]. split; [apply moves_refl|]. lia. }
  { intros k s1 Hk Hs1. apply balloc_block; [|done]. change BPB with 8192 in *. dlia. }
  destruct a as [r|]; cbn [default]; apply runs_ret; [by left|right]. split; [done|].
  destruct Hr as (H1 & M1 & Hall). split; [done|]. split; [done|]. intros b Hb Hlt. apply Hall; [|done].
  change BPB with 8192 in *. dlia.
Qed.
End Balloc.

(** ** What the bitmap says afterwards *)
Lemma bitmap_block_eq sb s b r : bitmap_ok sb s -> 0 <= b < sb_size sb -> 0 <= r < sb_size sb ->
  (BBLOCK b sb = BBLOCK r sb <-> b / BPB = r / BPB).
Proof.
  intros Hbm Hb Hr. destruct (BBLOCK_range sb s b Hbm Hb) as [-> _], (BBLOCK_range sb s r Hbm Hr) as [-> _]. lia.
Qed.

Lemma same_bit b r : b / BPB = r / BPB -> (b mod BPB =? r mod BPB) = (b =? r).
Proof. change BPB with 8192. intros E. destruct (Z.eqb_spec b r) as [->|]; [by rewrite Z.eqb_refl|]. apply Z.eqb_neq. dlia. Qed.

(** A state whose bitmap differs from [s]'s in the bit of [r] only. *)
Lemma used_change sb s s' r (f : Z -> list Z -> list Z) (op : bool -> bool -> bool) :
  bitmap_ok sb s -> 0 <= r < sb_size sb ->
  (forall d j k, 0 <= j < 8 * Z.of_nat (length d) -> 0 <= k -> bit_at (f j d) k = op (bit_at d k) (k =? j)) ->
  (forall x, op x false = x) ->
  (forall b, 0 <= b < sb_size sb ->
    view s' (BBLOCK b sb) = if decide (BBLOCK b sb = BBLOCK r sb) then f (r mod BPB) (view s (BBLOCK r sb)) else view s (BBLOCK b sb)) ->
  forall b, 0 <= b < sb_size sb -> used sb s' b = op (used sb s b) (b =? r).
Proof.
  intros Hbm Hr Hf Hop Hv b Hb. unfold used. rewrite Hv by done.
  destruct (decide (BBLOCK b sb = BBLOCK r sb)) as [E|E].
  - rewrite Hf; [|rewrite (bm_len _ _ Hbm) by done; change BPB with 8192; dlia|change BPB with 8192; dlia].
    rewrite <- E. f_equal. apply same_bit. by apply (bitmap_block_eq sb s).
  - rewrite (proj2 (Z.eqb_neq b r)); [by rewrite Hop|]. intros ->. done.
Qed.

Section After.
Context (sb : superblock) (s s' : kstate) (r : Z).
Context (Hbm : bitmap_ok sb s) (Hr : bmap_end sb < r < sb_size sb).

Lemma r_pos : 0 <= r < sb_size sb.
Proof.
  destruct Hbm as [? ? ? _ _]. unfold bmap_end in *. pose proof (Z.div_pos (sb_size sb) BPB). change BPB with 8192 in *. lia.
Qed.

Lemma alloc_view b : 0 <= b < sb_size sb ->
  (forall m, view s' m = apply_writes [(BBLOCK r sb, set_bit (r mod BPB) (view s (BBLOCK r sb))); (r, zero_block)] (view s) m) ->
  view s' (BBLOCK b sb) = if decide (BBLOCK b sb = BBLOCK r sb) then set_bit (r mod BPB) (view s (BBLOCK r sb)) else view s (BBLOCK b sb).
Proof.
  intros Hb Hv. rewrite Hv. cbn. destruct (BBLOCK_range sb s b Hbm Hb). by rewrite (decide_False (P := BBLOCK b sb = r)) by lia.
Qed.

Lemma length_view_after f : (forall j d, length (f j d) = length d) ->
  (forall b, 0 <= b < sb_size sb ->
    view s' (BBLOCK b sb) = if decide (BBLOCK b sb = BBLOCK r sb) then f (r mod BPB) (view s (BBLOCK r sb)) else view s (BBLOCK b sb)) ->
  forall b, 0 <= b < sb_size sb -> length (view s' (BBLOCK b sb)) = 1024%nat.
Proof.
  intros Hf Hv b Hb. rewrite Hv by done. destruct (decide _); [rewrite Hf|]; apply (bm_len _ _ Hbm); (done || apply r_pos).
Qed.

Lemma bitmap_after :
  (forall b, 0 <= b < sb_size sb -> length (view s' (BBLOCK b sb)) = 1024%nat) ->
  (forall b, 0 <= b < sb_size sb -> b <> r -> used sb s' b = used sb s b) -> bitmap_ok sb s'.
Proof.
  intros Hl Hu. destruct Hbm as [H1 H2 H3 H4 H5]. split; try done.
  intros b Hb. rewrite Hu by lia. by apply H5.
Qed.
End After.

Lemma allocated_beyond sb s r : bitmap_ok sb s -> 0 < r < sb_size sb -> used sb s r = false -> bmap_end sb < r.
Proof.
  intros Hbm Hr Hu. destruct (Z.lt_ge_cases (bmap_end sb) r) as [|Hle]; [done|].
  rewrite (bm_meta _ _ Hbm) in Hu; [done|lia].
Qed.


(** ** Freeing *)
Section Bfree.
Context `{DiskOk} (i : nat) (st : Z) (sb : superblock) (s : kstate) (bl : list Z) (hs : list held) (tr : list (kstate -> kstate)).
Context (Hbm : bitmap_ok sb s) (Hhs : clear_of_bitmap sb s hs) (Hsz : (length hs + length bl < 30)%nat).
Context (b : Z) (Hb : 0 <= b < sb_size sb) (Hs : in_txn i st bl hs s) (Hsb : k_sb s = sb).

Lemma bfree_open : exists bp s1,
  in_txn i st bl (Held bp (BBLOCK b sb) (view s (BBLOCK b sb)) :: hs) s1 /\ moves [] [] s s1 /\
  bfree ROOTDEV b s tr =
    (if negb (used sb s b) then panic "freeing free block" else
      upd_data bp (clear_bit (b mod BPB)) ;; log_write bp ;; brelse bp) s1 tr.
Proof.
  destruct (txn_bread i st _ _ _ (BBLOCK b sb) tr Hs (hs_not_bitmap sb s hs b Hbm Hhs Hb) (BBLOCK_ok sb s b Hbm Hb)) as (bp & s1 & E1 & H1 & M1 & _).
  { unfold NBUF. lia. }
  destruct (txn_get i st _ _ _ _ _ _ tr H1) as (bb & s1' & E2 & -> & E3).
  exists bp, s1. split; [done|]. split; [done|]. unfold bfree.
  assert (E0 : gets k_sb s tr = Done sb s tr) by exact (f_equal (fun x => Done x s tr) Hsb).
  kexact E0. kexact E1. kexact E2. rewrite E3. assert (0 <= b mod BPB) by (apply Z.mod_pos_bound; done).
  rewrite land_bit_mask by done. reflexivity.
Qed.

Lemma bfree_run : used sb s b = true ->
  runs (bfree ROOTDEV b) s tr (fun _ s' => in_txn i st (logged bl (BBLOCK b sb)) hs s' /\
    moves [(BBLOCK b sb, clear_bit (b mod BPB) (view s (BBLOCK b sb)))] [] s s').
Proof.
  intros Hu. destruct bfree_open as (bp & s1 & H1 & M1 & E). unfold runs. rewrite E, Hu. cbn [negb].
  destruct (txn_update i st _ _ _ _ _ _ (clear_bit (b mod BPB)) tr H1) as ([] & s' & E2 & H2 & M2); [lia|].
  exists tt, s'. split; [done|]. split; [done|]. by chainm.
Qed.
End Bfree.

(** [bfree] of a block in use marks exactly that block as free and logs the
    bitmap block, changing nothing beyond the bitmap; of a block that is already
    free it panics. *)
Theorem bfree_spec `{DiskOk} i st sb s bl hs b tr :
  bitmap_ok sb s -> clear_of_bitmap sb s hs -> (length hs + length bl < 30)%nat ->
  bmap_end sb < b < sb_size sb -> in_txn i st bl hs s -> k_sb s = sb ->
  if used sb s b then
    runs (bfree ROOTDEV b) s tr (fun _ s' => bitmap_ok sb s' /\
      (forall x, 0 <= x < sb_size sb -> used sb s' x = used sb s x && negb (x =? b)) /\
      (forall m, bmap_end sb < m -> view s' m = view s m) /\ in_txn i st (logged bl (BBLOCK b sb)) hs s')
  else bfree ROOTDEV b s tr = Panicked "freeing free block".
Proof.
  intros Hbm Hhs Hsz Hb Hs Hsb. pose proof (r_pos sb s b Hbm Hb) as Hb0. destruct (used sb s b) eqn:Hu.
  - rlast (bfree_run i st sb s bl hs tr Hbm Hhs Hsz b Hb0 Hs Hsb Hu) as [Ht M]. pose proof (mv_view _ _ _ _ M) as Hv.
    assert (Hv' : forall x, 0 <= x < sb_size sb -> view s' (BBLOCK x sb) =
      if decide (BBLOCK x sb = BBLOCK b sb) then clear_bit (b mod BPB) (view s (BBLOCK b sb)) else view s (BBLOCK x sb)).
    { intros x Hx. rewrite Hv. reflexivity. }
    assert (Hused := used_change sb s s' b clear_bit (fun x y => x && negb y) Hbm Hb0 bit_at_clear andb_true_r Hv').
    split; [|split; [done|split; [|done]]].
    + apply (bitmap_after sb s s' b Hbm Hb).
      * apply (length_view_after sb s s' b Hbm Hb clear_bit); [|done]. intros j d. apply length_insert.
      * intros x Hx Hne. rewrite Hused by done. rewrite (proj2 (Z.eqb_neq x b)) by done. apply andb_true_r.
    + intros m Hm. rewrite Hv. cbn. destruct (BBLOCK_range sb s b Hbm Hb0). by rewrite decide_False by lia.
  - destruct (bfree_open i st sb s bl hs tr Hbm Hhs Hsz b Hb0 Hs Hsb) as (bp & s1 & _ & _ & E). by rewrite E, Hu.
Qed.

(** ** A small file system *)
Definition demo_sb : superblock := mksb FSMAGIC 200 150 32 31 256 32 45.
(** The root directory, with the entries [.] and [a], and the file [a]. *)
Definition demo_root : dinode := mkdinode T_DIR 0 0 1 32 (46 :: replicate 12 0).
Definition demo_file : dinode := mkdinode T_FILE 0 0 1 700 (47 :: replicate 12 0).
Definition demo_fs_disk (n : Z) : list Z :=
  if n =? 32 then put_dinode (put_dinode zero_block 64 demo_root) 128 demo_file
  else if n =? 45 then replicate 6 255 ++ replicate 1018 0
  else if n =? 46 then (1 :: 0 :: 46 :: replicate 13 0) ++ (2 :: 0 :: 97 :: replicate 13 0) ++ replicate 992 0
  else if n =? 47 then replicate 700 65 ++ replicate 324 0
  else zero_block.
Definition demo_fs : kstate := demo_open <| k_disk := demo_fs_disk |> <| k_sb := demo_sb |>.

Lemma fresh_hold i s d sb : fresh (k_bufs s) -> hold i ∅ [] s -> hold i ∅ [] (s <| k_disk := d |> <| k_sb := sb |>).
Proof.
  intros [_ Hf] [[H1 H2 H2' (order & [B1 B2 B3 B4 B5 B6 B7 B8 B9]) H3 H4 H5 H6] _ _].
  split; [|constructor|constructor]. split; try done; [by apply (solo_same i s)|]. exists order. split; try done.
  intros x bx Hx Hbx _ Hv. destruct (Hf x bx Hx Hbx) as (_ & _ & Hv0 & _). done.
Qed.

Lemma fresh_view s n : fresh (k_bufs s) -> view s n = k_disk s n.
Proof. intros Hf. apply view_uncached. intros b Hb. by apply fresh_match. Qed.

Lemma demo_fs_ok : in_txn 1 256 [] [] demo_fs /\ k_sb demo_fs = demo_sb /\ (forall m, view demo_fs m = demo_fs_disk m).
Proof.
  destruct demo_open_ok as (H0 & L0 & D0 & O0 & C0). pose proof demo_open_fresh as Hf. split; [|split; [done|]].
  - split; [by apply fresh_hold|done|constructor|]. change (1 <= log_outstanding (k_log demo_open)). lia.
  - intros m. by apply (fresh_view demo_fs).
Qed.

Lemma demo_bits b : 0 <= b < 200 ->
  bit_at (replicate 6 255 ++ replicate 1018 0) b = (b <? 48).
Proof.
  intros Hb. assert (E : forallb (fun k => eqb (bit_at (replicate 6 255 ++ replicate 1018 0) (Z.of_nat k)) (Z.of_nat k <? 48)) (seq 0 200) = true)
    by (vm_compute; reflexivity).
  rewrite forallb_forall in E. specialize (E (Z.to_nat b)). rewrite Z2Nat.id in E by lia.
  apply eqb_prop, E, in_seq. lia.
Qed.

Lemma demo_BBLOCK b : 0 <= b < 200 -> BBLOCK b demo_sb = 45.
Proof. intros Hb. unfold BBLOCK, u32. change BPB with 8192. rewrite Z.div_small by lia. done. Qed.

Lemma demo_used b : 0 <= b < 200 -> used demo_sb demo_fs b = (b <? 48).
Proof.
  intros Hb. unfold used. destruct demo_fs_ok as (_ & _ & Hv). rewrite Hv.
  rewrite demo_BBLOCK by done. change (demo_fs_disk 45) with (replicate 6 255 ++ replicate 1018 0).
  change BPB with 8192. rewrite Z.mod_small by lia. by apply demo_bits.
Qed.

Lemma demo_bitmap : bitmap_ok demo_sb demo_fs.
Proof.
  split; [cbn; lia|cbn; lia|done| |].
  - intros b Hb. destruct demo_fs_ok as (_ & _ & Hv). rewrite Hv.
    rewrite demo_BBLOCK by done. vm_compute. reflexivity.
  - intros b Hb. change (bmap_end demo_sb) with 45 in Hb. rewrite demo_used by lia. lia.
Qed.


Lemma bfree_spec_witness :
  runs (bfree ROOTDEV 47) demo_fs [] (fun _ s' => used demo_sb s' 47 = false /\ used demo_sb s' 46 = true).
Proof.
  destruct demo_fs_ok as (H1 & H2 & H3).
  pose proof (bfree_spec 1 256 demo_sb demo_fs [] [] 47 [] demo_bitmap (Forall_nil_2 _)) as H.
  rewrite (demo_used 47) in H by lia. cbn [Z.ltb Z.compare Pos.compare Pos.compare_cont] in H.
  destruct H as ([] & s' & E & _ & Hu & _); [cbn; lia|by vm_compute|exact H1|exact H2|].
  exists tt, s'. split; [exact E|]. rewrite !Hu by (cbn; lia). rewrite !demo_used by lia. split; reflexivity.
Defined.
