(* ===== verification/FsInode.v ===== *)
(** * The inode table and the inodes on disk (kernel/fs.c: iget, idup, iput, ilock, iupdate)

    The table holds at most one entry per inode in use, [refs] counts its
    references; [ilock] loads the inode from its place on disk and [iupdate]
    writes it back. *)

From stdpp Require Import prelude list strings gmap.
From Stdlib Require Import ZArith Lia ZifyBool.
From S2P Require Import Prelude State Spinlock CString Kalloc Proc Vm Sleeplock Bio Cache Blocks Log Fs FsData FsBlocks.
Local Open Scope Z_scope.

(** ** The table *)
(** The entry in use for inode [inum] of device [dev]. *)
Definition live (dev inum : Z) (x : inode) : Prop := 0 < i_ref x /\ i_dev x = dev /\ i_inum x = inum.
#[export] Instance live_dec dev inum x : Decision (live dev inum x).
Proof. unfold live. apply _. Defined.

Record itable_ok (l : list inode) : Prop := {
  it_len : length l = NINODE;
  it_ref : Forall (fun x => 0 <= i_ref x) l;
  it_uniq : forall j k x y dev inum, l !! j = Some x -> l !! k = Some y ->
    live dev inum x -> live dev inum y -> j = k }.

(** How many references to the inode the table counts. *)
Definition refs (l : list inode) (dev inum : Z) : Z :=
  match list_find (live dev inum) l with Some (_, x) => i_ref x | None => 0 end.

Lemma refs_live l j x dev inum : itable_ok l -> l !! j = Some x -> live dev inum x -> refs l dev inum = i_ref x.
Proof.
  intros Hok Hj Hl. unfold refs. destruct (list_find (live dev inum) l) as [[k y]|] eqn:E.
  - apply list_find_Some in E as (Hk & Hy & _). assert (j = k) as -> by (by eapply it_uniq). congruence.
  - apply list_find_None in E. by apply (Forall_lookup_1 _ _ _ _ E) in Hj.
Qed.

Lemma refs_none l dev inum : (forall j x, l !! j = Some x -> ~ live dev inum x) -> refs l dev inum = 0.
Proof.
  intros Hn. unfold refs. destruct (list_find (live dev inum) l) as [[k y]|] eqn:E; [|done].
  apply list_find_Some in E as (Hk & Hy & _). by destruct (Hn k y).
Qed.

(** An entry rewritten to [y]: the references of the inodes it names change, the
    others do not. *)
Lemma refs_insert_other l j x y dev inum : itable_ok l -> itable_ok (<[j := y]> l) -> l !! j = Some x ->
  ~ live dev inum x -> ~ live dev inum y -> refs (<[j := y]> l) dev inum = refs l dev inum.
Proof.
  intros Hok Hok' Hj Hx Hy. destruct (list_find (live dev inum) l) as [[k z]|] eqn:E.
  - apply list_find_Some in E as (Hk & Hz & _). rewrite (refs_live l k z) by done.
    rewrite (refs_live (<[j := y]> l) k z); [done|done| |done].
    rewrite list_lookup_insert_ne; [done|]. intros ->. congruence.
  - apply list_find_None in E. rewrite (refs_none l), (refs_none (<[j := y]> l)); [done| |].
    + intros k z Hk Hz. destruct (decide (j = k)) as [->|Hne].
      * rewrite list_lookup_insert_eq in Hk by (by eapply lookup_lt_Some). congruence.
      * rewrite list_lookup_insert_ne in Hk by done. by apply (Forall_lookup_1 _ _ _ _ E) in Hk.
    + intros k z Hk. by apply (Forall_lookup_1 _ _ _ _ E) in Hk.
Qed.

(** Rewriting entry [j] keeps the table well formed if no other entry is in use
    for the inode it then names. *)
Lemma itable_insert l j y : itable_ok l -> 0 <= i_ref y ->
  (forall k z dev inum, k <> j -> l !! k = Some z -> live dev inum z -> ~ live dev inum y) ->
  itable_ok (<[j := y]> l).
Proof.
  intros [H1 H2 H3] Hy Hu. split; [by rewrite length_insert|by apply Forall_insert|].
  intros a b x z dev inum Ha Hb Hx Hz. apply list_lookup_insert_Some in Ha, Hb.
  destruct Ha as [(-> & <- & _)|[Hna Ha]], Hb as [(-> & <- & _)|[Hnb Hb]]; [done| | |by eapply H3].
  - exfalso. by eapply (Hu b z).
  - exfalso. by eapply (Hu a x).
Qed.

(** ** The scan of [iget] *)
Section Iget.
Context (dev inum : Z).

Lemma iget_scan_run l2 : forall s tr j e, drop j (k_inodes s) = l2 ->
  exists e', iget_scan (length l2) j e dev inum s tr =
    Done (match list_find (live dev inum) l2 with
          | Some (k, _) => (Some (j + k)%nat, e')
          | None => (None, match e with
                           | Some e => Some e
                           | None => (fun '(k, _) => (j + k)%nat) <$> list_find (fun x => i_ref x = 0) l2
                           end)
          end) s tr.
Proof.
  induction l2 as [|x l2 IH]; intros s tr j e Hd; cbn [length iget_scan list_find].
  - exists None. by destruct e.
  - assert (Hj : k_inodes s !! j = Some x).
    { rewrite <- (Nat.add_0_r j), <- lookup_drop, Hd. done. }
    assert (Hd' : drop (S j) (k_inodes s) = l2).
    { rewrite <- Nat.add_1_r, <- drop_drop, Hd. done. }
    assert (E : get_inode j s tr = Done x s tr) by (unfold get_inode; kred; by rewrite Hj).
    rewrite (kbind_Done _ _ _ _ _ _ _ E).
    replace ((0 <? i_ref x) && (i_dev x =? dev) && (i_inum x =? inum)) with (bool_decide (live dev inum x)).
    2:{ unfold live. destruct (bool_decide_reflect (0 < i_ref x /\ i_dev x = dev /\ i_inum x = inum)); lia. }
    destruct (decide (live dev inum x)) as [Hl|Hl].
    + rewrite bool_decide_true by done. exists e. by rewrite Nat.add_0_r.
    + rewrite bool_decide_false by done.
      destruct (IH s tr (S j) (if bool_decide (e = None) && (i_ref x =? 0) then Some j else e) Hd') as (e' & E').
      exists e'. rewrite E'. destruct (list_find (live dev inum) l2) as [[k y]|]; cbn [fmap option_fmap option_map].
      * cbn. by rewrite Nat.add_succ_r.
      * destruct e as [e0|]; [by rewrite bool_decide_false by done|]. rewrite bool_decide_true by done. cbn [andb].
        destruct (Z.eqb_spec (i_ref x) 0) as [H0|H0], (decide (i_ref x = 0)); try done; [cbn; by rewrite Nat.add_0_r|].
        destruct (list_find (fun x => i_ref x = 0) l2) as [[k y]|]; cbn; [by rewrite Nat.add_succ_r|done].
Qed.

Lemma iget_scan_all s tr : length (k_inodes s) = NINODE ->
  exists e, iget_scan NINODE 0 None dev inum s tr =
    Done (match list_find (live dev inum) (k_inodes s) with
          | Some (k, _) => (Some k, e)
          | None => (None, fst <$> list_find (fun x => i_ref x = 0) (k_inodes s))
          end) s tr.
Proof.
  intros Hl. destruct (iget_scan_run (k_inodes s) s tr 0 None eq_refl) as (e & E). rewrite Hl in E. exists e. rewrite E.
  destruct (list_find (live dev inum) (k_inodes s)) as [[k x]|]; [done|].
  by destruct (list_find (fun x => i_ref x = 0) (k_inodes s)) as [[k x]|].
Qed.
End Iget.

(** ** Critical sections of the table *)
Lemma itable_leave {A} i s ip f (a : A) tr : solo i s ->
  (upd_inode ip f ;; release L_itable ;; kret a) (enter L_itable s) tr = Done a (s <| k_inodes ::= alter f ip |>) tr.
Proof.
  intros Hs. kstep modify_run. assert (Hs1 : solo i (s <| k_inodes ::= alter f ip |>)) by (by apply (solo_same i s)).
  kexact (solo_release i _ Hs1 L_itable tr). done.
Qed.

Definition one_more (x : inode) : inode := x <| i_ref := i_ref x + 1 |>.
Definition claimed (dev inum : Z) (x : inode) : inode := x <| i_dev := dev |> <| i_inum := inum |> <| i_ref := 1 |> <| i_valid := 0 |>.

Lemma iget_run i s dev inum tr : solo i s -> length (k_inodes s) = NINODE ->
  iget dev inum s tr =
    match list_find (live dev inum) (k_inodes s) with
    | Some (k, _) => Done k (s <| k_inodes ::= alter one_more k |>) tr
    | None =>
        match list_find (fun x => i_ref x = 0) (k_inodes s) with
        | Some (k, _) => Done k (s <| k_inodes ::= alter (claimed dev inum) k |>) tr
        | None => Panicked "iget: no inodes"
        end
    end.
Proof.
  intros Hs Hl. unfold iget. kstep (solo_acquire i s Hs).
  destruct (iget_scan_all dev inum (enter L_itable s) tr Hl) as (e & E). kexact E.
  change (k_inodes (enter L_itable s)) with (k_inodes s).
  destruct (list_find (live dev inum) (k_inodes s)) as [[k x]|]; [by apply (itable_leave i)|].
  destruct (list_find (fun x => i_ref x = 0) (k_inodes s)) as [[k x]|]; [by apply (itable_leave i)|done].
Qed.

Lemma alter_insert {A} (f : A -> A) (l : list A) j x : l !! j = Some x -> alter f j l = <[j := f x]> l.
Proof.
  intros Hj. apply list_eq. intros k. destruct (decide (j = k)) as [<-|Hne].
  - rewrite list_lookup_alter_eq, Hj, list_lookup_insert_eq; [done|]. by eapply lookup_lt_Some.
  - by rewrite list_lookup_alter_ne, list_lookup_insert_ne.
Qed.

(** One more reference to an entry in use. *)
Lemma refs_change l j x f dev inum : itable_ok l -> l !! j = Some x -> live dev inum x ->
  (forall y, i_dev (f y) = i_dev y /\ i_inum (f y) = i_inum y) -> 0 < i_ref (f x) ->
  itable_ok (alter f j l) /\
  forall d n, refs (alter f j l) d n = if decide (d = dev /\ n = inum) then i_ref (f x) else refs l d n.
Proof.
  intros Hok Hj (H1 & H2 & H3) Hf Hpos. rewrite (alter_insert f l j x Hj). destruct (Hf x) as [F1 F2].
  assert (Hok' : itable_ok (<[j := f x]> l)).
  { apply itable_insert; [done|lia|]. intros k z d n Hk Hz Hlz (_ & E1 & E2). apply Hk.
    apply (it_uniq l Hok k j z x d n); try done. split; [done|]. split; congruence. }
  split; [done|]. intros d n. destruct (decide (d = dev /\ n = inum)) as [[-> ->]|Hne].
  - apply (refs_live _ j); [done|apply list_lookup_insert_eq; by eapply lookup_lt_Some|]. split; [done|]. split; congruence.
  - apply (refs_insert_other l j x); try done; unfold live; rewrite ?F1, ?F2; intros (_ & E1 & E2); apply Hne; split; congruence.
Qed.

(** A free entry taken for an inode that has none. *)
Lemma refs_claim l j x dev inum : itable_ok l -> l !! j = Some x -> i_ref x = 0 -> refs l dev inum = 0 ->
  itable_ok (alter (claimed dev inum) j l) /\
  forall d n, refs (alter (claimed dev inum) j l) d n = if decide (d = dev /\ n = inum) then 1 else refs l d n.
Proof.
  intros Hok Hj Hx H0. rewrite (alter_insert _ l j x Hj).
  assert (Hno : forall k z, l !! k = Some z -> ~ live dev inum z).
  { intros k z Hk Hz. rewrite (refs_live l k z) in H0 by done. destruct Hz. lia. }
  assert (Hok' : itable_ok (<[j := claimed dev inum x]> l)).
  { apply itable_insert; [done|cbn; lia|]. intros k z d n Hk Hz Hlz (_ & E1 & E2). cbn in E1, E2. subst d n. by apply (Hno k z). }
  split; [done|]. intros d n. destruct (decide (d = dev /\ n = inum)) as [[-> ->]|Hne].
  - by apply (refs_live _ j (claimed dev inum x)); [|apply list_lookup_insert_eq; by eapply lookup_lt_Some|].
  - apply (refs_insert_other l j x); try done; [unfold live; lia|]. intros (_ & E1 & E2). cbn in E1, E2. by apply Hne.
Qed.

(** [iget] returns the table's entry for inode [inum] of device [dev]: the
    one in use if there is one, and otherwise the first free one, marked as not
    yet read from disk.  The table keeps at most one entry per inode, the inode
    has one reference more and no other inode's count changes; with every entry
    in use for other inodes the call panics. *)
Theorem iget_spec i s dev inum tr :
  solo i s -> itable_ok (k_inodes s) ->
  if decide (refs (k_inodes s) dev inum = 0 /\ Forall (fun x => i_ref x <> 0) (k_inodes s)) then
    iget dev inum s tr = Panicked "iget: no inodes"
  else
    runs (iget dev inum) s tr (fun ip s' =>
      itable_ok (k_inodes s') /\ s' = s <| k_inodes := k_inodes s' |> /\
      (exists x, k_inodes s' !! ip = Some x /\ live dev inum x /\ (refs (k_inodes s) dev inum = 0 -> i_valid x = 0)) /\
      (forall k, k <> ip -> k_inodes s' !! k = k_inodes s !! k) /\
      forall d n, refs (k_inodes s') d n = refs (k_inodes s) d n + if decide (d = dev /\ n = inum) then 1 else 0).
Proof.
  intros Hs Hok. unfold runs. rewrite (iget_run i s dev inum tr Hs (it_len _ Hok)).
  destruct (list_find (live dev inum) (k_inodes s)) as [[k x]|] eqn:E.
  - apply list_find_Some in E as (Hk & Hx & _). pose proof (refs_live _ _ _ _ _ Hok Hk Hx) as Hr.
    pose proof (proj1 Hx). rewrite decide_False by lia.
    destruct (refs_change _ k x one_more dev inum Hok Hk Hx) as [Hok' Hrefs]; [done|cbn; lia|].
    eexists k, _. split; [done|]. split; [done|]. split; [done|]. split.
    { exists (one_more x). cbn. rewrite list_lookup_alter_eq, Hk. split; [done|]. split; [|lia].
      destruct Hx. split; [cbn; lia|done]. }
    split; [intros y Hy; cbn; by rewrite list_lookup_alter_ne|]. intros d n. rewrite Hrefs.
    destruct (decide (d = dev /\ n = inum)) as [[-> ->]|]; [cbn|]; lia.
  - assert (H0 : refs (k_inodes s) dev inum = 0) by (unfold refs; by rewrite E).
    destruct (list_find (fun x => i_ref x = 0) (k_inodes s)) as [[k x]|] eqn:E2.
    + apply list_find_Some in E2 as (Hk & Hx & _).
      rewrite decide_False by (intros [_ Hall]; by apply (Forall_lookup_1 _ _ _ _ Hall) in Hk).
      destruct (refs_claim _ k x dev inum Hok Hk Hx H0) as [Hok' Hrefs].
      eexists k, _. split; [done|]. split; [done|]. split; [done|]. split.
      { exists (claimed dev inum x). cbn. by rewrite list_lookup_alter_eq, Hk. }
      split; [intros y Hy; cbn; by rewrite list_lookup_alter_ne|]. intros d n. rewrite Hrefs.
      destruct (decide (d = dev /\ n = inum)) as [[-> ->]|]; lia.
    + apply list_find_None in E2. by rewrite decide_True.
Qed.

(** One reference fewer: the entry may become free. *)
Definition one_less (x : inode) : inode := x <| i_ref := i_ref x - 1 |>.

Lemma refs_drop l j x dev inum : itable_ok l -> l !! j = Some x -> live dev inum x ->
  itable_ok (alter one_less j l) /\
  forall d n, refs (alter one_less j l) d n = refs l d n - if decide (d = dev /\ n = inum) then 1 else 0.
Proof.
  intros Hok Hj Hx. destruct (Z.eq_dec (i_ref x) 1) as [H1|H1].
  - rewrite (alter_insert _ l j x Hj).
    assert (Hok' : itable_ok (<[j := one_less x]> l)).
    { apply itable_insert; [done|cbn; lia|]. intros k z d n _ _ _ (Hp & _). cbn in Hp. lia. }
    split; [done|]. intros d n. destruct (decide (d = dev /\ n = inum)) as [[-> ->]|Hne].
    + rewrite (refs_live l j x) by done. rewrite refs_none; [lia|]. intros k y Hk Hy.
      apply list_lookup_insert_Some in Hk as [(_ & <- & _)|[Hne Hk]]; [destruct Hy as [Hp _]; cbn in Hp; lia|].
      apply Hne. by apply (it_uniq l Hok j k x y dev inum).
    + rewrite Z.sub_0_r. apply (refs_insert_other l j x); try done.
      * intros (_ & E1 & E2). destruct Hx as (_ & X1 & X2). apply Hne. split; congruence.
      * intros (Hp & _). cbn in Hp. lia.
  - pose proof (proj1 Hx). destruct (refs_change l j x one_less dev inum Hok Hj Hx) as [Hok' Hr]; [done|cbn; lia|].
    split; [done|]. intros d n. rewrite Hr. destruct (decide _) as [[-> ->]|]; [|lia].
    rewrite (refs_live l j x) by done. done.
Qed.

Lemma get_inode_run s ip x tr : k_inodes s !! ip = Some x -> get_inode ip s tr = Done x s tr.
Proof. intros Hx. unfold get_inode. kred. by rewrite Hx. Qed.

Lemma iput_run `{DiskDriver} i s ip x tr :
  solo i s -> k_inodes s !! ip = Some x -> ~ (i_ref x = 1 /\ i_valid x <> 0 /\ i_nlink x = 0) ->
  iput ip s tr = Done tt (s <| k_inodes ::= alter one_less ip |>) tr.
Proof.
  intros Hs Hx Hlast. unfold iput. kstep (solo_acquire i s Hs). kexact (get_inode_run (enter L_itable s) ip x tr Hx).
  replace ((i_ref x =? 1) && negb (i_valid x =? 0) && (i_nlink x =? 0)) with false by lia.
  unfold when. kstep kret_run. etransitivity; [apply (itable_leave i s ip one_less tt tr Hs)|done].
Qed.

(** [iput] of an entry that other references keep alive, or whose inode has
    links, gives up one reference and does nothing else: the table stays well
    formed and no other count changes. *)
Theorem iput_spec `{DiskDriver} i s ip x tr :
  solo i s -> itable_ok (k_inodes s) -> k_inodes s !! ip = Some x -> 0 < i_ref x ->
  ~ (i_ref x = 1 /\ i_valid x <> 0 /\ i_nlink x = 0) ->
  runs (iput ip) s tr (fun _ s' =>
    itable_ok (k_inodes s') /\ s' = s <| k_inodes := k_inodes s' |> /\
    k_inodes s' !! ip = Some (one_less x) /\ (forall k, k <> ip -> k_inodes s' !! k = k_inodes s !! k) /\
    forall d n, refs (k_inodes s') d n = refs (k_inodes s) d n - if decide (d = i_dev x /\ n = i_inum x) then 1 else 0).
Proof.
  intros Hs Hok Hx Href Hlast. eexists tt, _. split; [by apply (iput_run i s ip x)|].
  destruct (refs_drop _ ip x (i_dev x) (i_inum x) Hok Hx) as [Hok' Hr]; [done|].
  split; [done|]. split; [done|]. split; [cbn; by rewrite list_lookup_alter_eq, Hx|]. split; [|done].
  intros k Hk. cbn. by rewrite list_lookup_alter_ne.
Qed.

(** ** Inodes on disk *)
Lemma hold_with_inodes i pins hs s f : hold i pins hs s -> hold i pins hs (s <| k_inodes ::= f |>).
Proof.
  intros [[A1 A0 A00 [order A2] A3 A4 A5 A6] Hnd Hat]. split; [|done|done]. split; try done; [by apply (solo_same i s)|].
  exists order. by destruct A2; split.
Qed.

(** The sleep lock of an inode taken or given back. *)
Lemma hold_with_sleep i pins hs s m : hold i pins hs s -> (forall b, m !! SL_buf b = k_sleep s !! SL_buf b) ->
  hold i pins hs (s <| k_sleep := m |>).
Proof.
  intros [[A1 A0 A00 [order A2] A3 A4 A5 A6] Hnd Hat] Hm. split; [|done|done]. split; try done; [by apply (solo_same i s)| |].
  - exists order. destruct A2 as [B1 B2 B3 B4 B5 B6 B7 B8 B9]. split; try done. intros x bx Hx Hbx Hr. cbn. rewrite Hm. by apply (B7 x bx).
  - intros x. cbn. rewrite Hm. by apply A3.
Qed.

Definition dinode_of (x : inode) : dinode :=
  mkdinode (i_type x) (i_major x) (i_minor x) (i_nlink x) (i_size x) (i_addrs x).
Definition with_dinode (di : dinode) (x : inode) : inode :=
  x <| i_type := d_type di |> <| i_major := d_major di |> <| i_minor := d_minor di |>
    <| i_nlink := d_nlink di |> <| i_size := d_size di |> <| i_addrs := d_addrs di |>.

(** The inode on disk as the cache sees it. *)
Definition disk_inode (sb : superblock) (s : kstate) (inum : Z) : dinode :=
  get_dinode (view s (IBLOCK inum sb)) (dinode_off inum).

Section Ilock.
Context `{DiskOk} (i : nat) (pins : gset Z) (hs : list held) (s : kstate) (ip : nat) (x : inode) (sb : superblock).
Context (tr : list (kstate -> kstate)).
Context (Hs : hold i pins hs s) (Hfree : k_sleep s !! SL_inode ip = None) (Hx : k_inodes s !! ip = Some x).
Context (Href : 1 <= i_ref x) (Hsb : k_sb s = sb) (Hdev : i_dev x = ROOTDEV).
Context (Hno : Forall (fun h => h_blk h <> IBLOCK (i_inum x) sb) hs) (Hok : blockno_ok (IBLOCK (i_inum x) sb)) (Hsz : (length hs + size pins < NBUF)%nat).

(** What [ilock] leaves: the lock is taken, the entry holds [y], and the rest of
    the table, the blocks and the disk are as they were. *)
Definition ilocked (y : inode) (s' : kstate) : Prop :=
  hold i pins hs s' /\ k_sleep s' !! SL_inode ip = Some (pid_of i s) /\
  k_inodes s' = <[ip := y]> (k_inodes s) /\ same_threads s s' /\
  (forall m, view s' m = view s m) /\ (forall m, k_disk s' m = k_disk s m) /\ k_log s' = k_log s /\ k_sb s' = k_sb s.

Definition with_lock : kstate := s <| k_sleep := <[SL_inode ip := pid_of i s]> (k_sleep s) |>.

Lemma with_lock_hold : hold i pins hs with_lock.
Proof. apply hold_with_sleep; [done|]. intros b. by rewrite lookup_insert_ne. Qed.

Lemma ilock_valid : i_valid x <> 0 -> ilock ip s tr = Done tt with_lock tr /\ ilocked x with_lock.
Proof.
  intros Hv. split.
  - unfold ilock. kexact (get_inode_run s ip x tr Hx). rewrite (proj2 (Z.ltb_ge _ _)) by lia.
    kexact (acquiresleep_run i (SL_inode ip) s tr (by_solo _ _ _ _ (ho_busy _ _ _ _ Hs)) Hfree).
    kexact (get_inode_run with_lock ip x tr Hx). by rewrite (proj2 (Z.eqb_neq _ _) Hv).
  - split; [apply with_lock_hold|]. split; [by apply lookup_insert_eq|]. split; [|done].
    symmetry. by apply list_insert_id.
Qed.

Definition loaded_inode : inode := (with_dinode (disk_inode sb s (i_inum x)) x) <| i_valid := 1 |>.

Lemma ilock_load : i_valid x = 0 -> exists s', ilocked loaded_inode s' /\
  ilock ip s tr = (if d_type (disk_inode sb s (i_inum x)) =? 0 then panic "ilock: no type" else kret tt) s' tr.
Proof.
  intros Hv. pose proof with_lock_hold as H1. set (n := IBLOCK (i_inum x) sb) in *.
  destruct (hold_bread i pins hs with_lock n tr H1 Hno (or_intror (conj Hsz Hok))) as (b & s2 & E2 & H2 & Q2).
  destruct (hold_get i _ _ _ _ _ _ tr H2) as (bb & s2' & E3 & -> & _ & Eb).
  set (di := disk_inode sb s (i_inum x)). set (s3 := s2 <| k_inodes ::= alter (with_dinode di) ip |>).
  assert (H3 : hold i pins (Held b n (view with_lock n) :: hs) s3) by (by apply hold_with_inodes).
  destruct (hold_brelse i _ _ _ _ _ s3 tr H3) as ([] & s4 & E4 & H4 & Q4).
  { intros Hn. change (k_disk s3) with (k_disk s2). rewrite (quiet_disk _ _ _ _ n Q2). cbn.
    apply (hold_clean i pins hs with_lock n H1 Hno Hn). }
  set (s5 := s4 <| k_inodes ::= alter (fun y => y <| i_valid := 1 |>) ip |>).
  destruct Q2 as [[V2 [_ D2] (T2 & S2 & I2 & _ & O2)] L2], Q4 as [[V4 [_ D4] (T4 & S4 & I4 & _ & O4)] L4].
  assert (Hin : k_inodes s5 = <[ip := loaded_inode]> (k_inodes s)).
  { change (k_inodes s5) with (alter (fun y => y <| i_valid := 1 |>) ip (k_inodes s4)). rewrite I4.
    change (k_inodes s3) with (alter (with_dinode di) ip (k_inodes s2)). rewrite I2.
    change (k_inodes with_lock) with (k_inodes s). rewrite list_alter_alter_eq. exact (alter_insert _ _ ip x Hx). }
  assert (Hlt : (ip < length (k_inodes s))%nat) by (by eapply lookup_lt_Some).
  assert (H5 : k_inodes s5 !! ip = Some loaded_inode) by (by rewrite Hin, list_lookup_insert_eq).
  exists s5. split.
  - split; [by apply hold_with_inodes|]. split.
    { change (k_sleep s5) with (k_sleep s4). rewrite (proj1 (proj2 O4)). change (k_sleep s3) with (k_sleep s2).
      rewrite (proj1 (proj2 O2)). apply lookup_insert_eq. }
    split; [done|]. split; [|split; [|split; [|split]]].
    + destruct T2 as (? & ? & ? & ?), T4 as (? & ? & ? & ?). repeat split; etransitivity; done.
    + intros m. exact (eq_trans (V4 m) (V2 m)).
    + intros m. exact (eq_trans (D4 m) (D2 m)).
    + etransitivity; [exact L4|exact L2].
    + etransitivity; [exact S4|exact S2].
  - unfold ilock. kexact (get_inode_run s ip x tr Hx). rewrite (proj2 (Z.ltb_ge _ _)) by lia.
    kexact (acquiresleep_run i (SL_inode ip) s tr (by_solo _ _ _ _ (ho_busy _ _ _ _ Hs)) Hfree).
    kexact (get_inode_run with_lock ip x tr Hx). rewrite Hv, Z.eqb_refl. unfold when.
    assert (E0 : gets k_sb with_lock tr = Done sb with_lock tr) by exact (f_equal (fun v => Done v with_lock tr) Hsb).
    kexact E0. rewrite Hdev. kexact E2. kexact E3. rewrite Eb.
    change (get_dinode (view with_lock n) (dinode_off (i_inum x))) with di.
    kexact (modify_run (fun s => s <| k_inodes ::= alter (with_dinode di) ip |>) s2 tr). kexact E4.
    kexact (modify_run (fun s => s <| k_inodes ::= alter (fun y => y <| i_valid := 1 |>) ip |>) s4 tr).
    kexact (get_inode_run s5 ip loaded_inode tr H5). done.
Qed.
End Ilock.

(** [ilock] returns with the inode's sleep lock held by the caller and the
    entry holding the inode's contents: unchanged if they had been read already,
    and otherwise decoded from the inode's place in its block.  Nothing else
    changes; an inode that is free on disk makes it panic. *)
Theorem ilock_spec `{DiskOk} i pins hs s ip x sb tr :
  hold i pins hs s -> k_sleep s !! SL_inode ip = None -> k_inodes s !! ip = Some x ->
  1 <= i_ref x -> k_sb s = sb -> i_dev x = ROOTDEV ->
  Forall (fun h => h_blk h <> IBLOCK (i_inum x) sb) hs -> blockno_ok (IBLOCK (i_inum x) sb) -> (length hs + size pins < NBUF)%nat ->
  if (i_valid x =? 0) && (d_type (disk_inode sb s (i_inum x)) =? 0) then ilock ip s tr = Panicked "ilock: no type"
  else runs (ilock ip) s tr (fun _ s' =>
    ilocked i pins hs s ip (if i_valid x =? 0 then loaded_inode s x sb else x) s').
Proof.
  intros Hs Hfree Hx Href Hsb Hdev Hno Hok Hsz. destruct (Z.eqb_spec (i_valid x) 0) as [Hv|Hv]; cbn [andb].
  - destruct (ilock_load i pins hs s ip x sb tr Hs Hfree Hx Href Hsb Hdev Hno Hok Hsz Hv) as (s' & H' & E).
    destruct (d_type (disk_inode sb s (i_inum x)) =? 0); [by rewrite E|]. exists tt, s'. by rewrite E.
  - destruct (ilock_valid i pins hs s ip x tr Hs Hfree Hx Href Hsz Hv) as [E H']. by exists tt, (with_lock i s ip).
Qed.

(** ** Writing an inode back *)
Lemma IBLOCK_eq sb n m : 0 <= n -> 0 <= m -> 0 <= sb_inodestart sb ->
  n / IPB + sb_inodestart sb < 2 ^ 32 -> m / IPB + sb_inodestart sb < 2 ^ 32 ->
  IBLOCK n sb = IBLOCK m sb -> n mod IPB = m mod IPB -> n = m.
Proof. unfold IBLOCK, u32. change IPB with 16. intros. rewrite !Z.mod_small in * by dlia. dlia. Qed.

Lemma iupdate_run `{DiskOk} i st bl hs s ip x sb tr :
  in_txn i st bl hs s -> k_inodes s !! ip = Some x -> i_dev x = ROOTDEV -> k_sb s = sb ->
  Forall (fun h => h_blk h <> IBLOCK (i_inum x) sb) hs -> blockno_ok (IBLOCK (i_inum x) sb) -> (length hs + length bl < 30)%nat ->
  let n := IBLOCK (i_inum x) sb in
  runs (iupdate ip) s tr (fun _ s' => in_txn i st (logged bl n) hs s' /\
    moves [(n, put_dinode (view s n) (dinode_off (i_inum x)) (dinode_of x))] [] s s').
Proof.
  intros Hs Hx Hdev Hsb Hno Hok Hsz n. unfold iupdate. rstep (runs_sb s tr sb Hsb) as [-> ->].
  assert (Hg : forall s', k_inodes s' = k_inodes s -> runs (get_inode ip) s' tr (fun a s1 => a = x /\ s1 = s')).
  { intros s' E. exists x, s'. split; [|done]. apply get_inode_run. by rewrite E. }
  rstep (Hg s eq_refl) as [-> ->]. rewrite Hdev.
  rstep (txn_bread i st _ _ _ n tr Hs Hno Hok) as (H1 & M1 & _); [unfold NBUF; lia|].
  rstep (Hg _ (moves_inodes _ _ _ M1)) as [-> ->].
  rlast (txn_update i st _ _ _ _ _ _ _ tr H1) as [H2 M2]; [lia|]. split; [done|]. by chainm.
Qed.

(** Inside a transaction [iupdate] makes the inode on disk the one in the
    table and logs its block: reading the inode back gives the entry's fields,
    every other inode and every other block keeps its contents. *)
Theorem iupdate_spec `{DiskOk} i st bl hs s ip x sb tr :
  in_txn i st bl hs s -> k_inodes s !! ip = Some x -> i_dev x = ROOTDEV -> k_sb s = sb ->
  Forall (fun h => h_blk h <> IBLOCK (i_inum x) sb) hs -> blockno_ok (IBLOCK (i_inum x) sb) -> (length hs + length bl < 30)%nat ->
  dinode_ok (dinode_of x) -> length (view s (IBLOCK (i_inum x) sb)) = 1024%nat ->
  0 <= i_inum x < sb_ninodes sb -> 0 <= sb_inodestart sb -> sb_ninodes sb / IPB + sb_inodestart sb < 2 ^ 32 ->
  runs (iupdate ip) s tr (fun _ s' =>
    in_txn i st (logged bl (IBLOCK (i_inum x) sb)) hs s' /\ k_inodes s' = k_inodes s /\
    disk_inode sb s' (i_inum x) = dinode_of x /\
    (forall m, 0 <= m < sb_ninodes sb -> m <> i_inum x -> disk_inode sb s' m = disk_inode sb s m) /\
    (forall m, m <> IBLOCK (i_inum x) sb -> view s' m = view s m)).
Proof.
  intros Hs Hx Hdev Hsb Hno Hblk Hsz Hok Hlen Hin Hst Hmax.
  rlast (iupdate_run i st bl hs s ip x sb tr Hs Hx Hdev Hsb Hno Hblk Hsz) as [H1 M1].
  pose proof (mv_view _ _ _ _ M1) as Hv. set (n := IBLOCK (i_inum x) sb) in *.
  split; [done|]. split; [by apply (moves_inodes _ _ _ M1)|]. unfold disk_inode. split; [|split].
  - fold n. rewrite Hv, apply_one. apply get_put_dinode; [done|]. pose proof (dinode_off_lt (i_inum x)). lia.
  - intros m Hm Hne. rewrite Hv. cbn [apply_writes]. destruct (decide (IBLOCK m sb = n)) as [E|]; [|done]. rewrite E.
    eapply get_dinode_outside; [apply put_dinode_outside, Hok|]. apply dinode_off_ne. intros Hmod.
    apply Hne. assert (forall k, 0 <= k < sb_ninodes sb -> k / IPB + sb_inodestart sb < 2 ^ 32).
    { intros k Hk. change IPB with 16 in *. pose proof (Z.div_le_mono k (sb_ninodes sb) 16). lia. }
    apply (IBLOCK_eq sb); (done || lia || auto).
  - intros m Hm. rewrite Hv. cbn. by rewrite decide_False.
Qed.

(** ** The small file system with its file in the table *)
Definition demo_entry : inode := mkinode ROOTDEV 2 1 0 0 0 0 0 0 (replicate 13 0).
Definition demo_table : list inode := <[0%nat := demo_entry]> (replicate NINODE inode_bss).
Definition demo_with (t : list inode) : kstate := demo_fs <| k_inodes := t |>.
Definition demo_ino : kstate := demo_with demo_table.

Lemma demo_with_ok t : in_txn 1 256 [] [] (demo_with t) /\ k_sb (demo_with t) = demo_sb /\
  (forall m, view (demo_with t) m = demo_fs_disk m).
Proof.
  destruct demo_fs_ok as ([H1 H2 H3 H4] & Hsb & Hv). split; [|done].
  split; [|exact H2|exact H3|exact H4]. by apply (hold_with_inodes 1 _ [] demo_fs (fun _ => t)).
Qed.

Lemma demo_table_ok : itable_ok demo_table.
Proof.
  apply itable_insert; [|cbn; lia|].
  - split; [done|by apply Forall_replicate|]. intros j k x y dev inum Hj _ [Hp _].
    apply lookup_replicate in Hj as [-> _]. done.
  - intros k z dev inum _ Hk [Hp _]. apply lookup_replicate in Hk as [-> _]. done.
Qed.

Lemma demo_ino_ok : in_txn 1 256 [] [] demo_ino /\ k_sb demo_ino = demo_sb /\ k_inodes demo_ino = demo_table /\
  (forall m, view demo_ino m = demo_fs_disk m).
Proof. destruct (demo_with_ok demo_table) as (H1 & H2 & H3). done. Qed.

Lemma demo_ino_solo : solo 1 demo_ino.
Proof. apply demo_ino_ok. Qed.

Lemma iget_spec_witness :
  runs (iget ROOTDEV 2) demo_ino [] (fun ip s' => itable_ok (k_inodes s') /\ refs (k_inodes s') ROOTDEV 2 = 2).
Proof.
  pose proof (iget_spec 1 demo_ino ROOTDEV 2 [] demo_ino_solo demo_table_ok) as H.
  change (k_inodes demo_ino) with demo_table in H. assert (E : refs demo_table ROOTDEV 2 = 1) by (vm_compute; reflexivity).
  rewrite E in H. rewrite decide_False in H by (intros [HF _]; discriminate HF).
  destruct H as (ip & s' & E' & Hok & _ & _ & _ & Hr). exists ip, s'. split; [exact E'|]. split; [exact Hok|].
  rewrite Hr, E. reflexivity.
Defined.

Lemma iput_spec_witness :
  runs (iput 0) demo_ino [] (fun _ s' => itable_ok (k_inodes s') /\ refs (k_inodes s') ROOTDEV 2 = 0).
Proof.
  destruct (iput_spec 1 demo_ino 0 demo_entry [] demo_ino_solo demo_table_ok) as ([] & s' & E & Hok & _ & _ & _ & Hr).
  - reflexivity.
  - reflexivity.
  - intros (_ & HF & _). exact (HF eq_refl).
  - exists tt, s'. split; [exact E|]. split; [exact Hok|]. rewrite Hr.
    change (k_inodes demo_ino) with demo_table. vm_compute. reflexivity.
Defined.

Lemma demo_disk_file : disk_inode demo_sb demo_ino 2 = demo_file.
Proof.
  destruct demo_ino_ok as (_ & _ & _ & Hv). unfold disk_inode. rewrite Hv. vm_compute. reflexivity.
Qed.

Lemma demo_iblock : blockno_ok (IBLOCK 2 demo_sb).
Proof. split; [discriminate|reflexivity]. Qed.

Lemma ilock_spec_witness :
  runs (ilock 0) demo_ino [] (fun _ s' => k_inodes s' !! 0%nat = Some (mkinode ROOTDEV 2 1 1 T_FILE 0 0 1 700 (47 :: replicate 12 0))).
Proof.
  destruct demo_ino_ok as ([H1 _ _ _] & Hsb & _ & _).
  pose proof (ilock_spec 1 ∅ [] demo_ino 0 demo_entry demo_sb [] H1) as H.
  assert (Hfree : k_sleep demo_ino !! SL_inode 0 = None).
  { change (k_sleep demo_open !! SL_inode 0 = None). by rewrite demo_open_sleep. }
  specialize (H Hfree eq_refl ltac:(cbn; lia) Hsb eq_refl (Forall_nil_2 _) demo_iblock). change (i_inum demo_entry) with 2 in H.
  unfold loaded_inode in H. change (i_inum demo_entry) with 2 in H. rewrite demo_disk_file in H.
  destruct H as ([] & s' & E & _ & _ & Hin & _); [rewrite size_empty; cbn; unfold NBUF; lia|].
  exists tt, s'. split; [exact E|]. rewrite Hin. reflexivity.
Defined.

(** The entry of the file after it was read, with a new size. *)
Definition demo_changed : inode := mkinode ROOTDEV 2 1 1 T_FILE 0 0 1 900 (47 :: replicate 12 0).
Definition demo_upd : kstate := demo_with (<[0%nat := demo_changed]> demo_table).

Lemma iupdate_spec_witness :
  runs (iupdate 0) demo_upd [] (fun _ s' => disk_inode demo_sb s' 2 = dinode_of demo_changed).
Proof.
  destruct (demo_with_ok (<[0%nat := demo_changed]> demo_table)) as (H1 & _ & Hv).
  destruct (iupdate_spec 1 256 [] [] demo_upd 0 demo_changed demo_sb [] H1) as ([] & s' & E & _ & _ & Hd & _).
  - reflexivity.
  - reflexivity.
  - reflexivity.
  - constructor.
  - exact demo_iblock.
  - cbn. lia.
  - split; cbn; try (by repeat constructor); lia.
  - unfold demo_upd. rewrite Hv. vm_compute. reflexivity.
  - cbn. lia.
  - cbn. lia.
  - reflexivity.
  - exists tt, s'. split; [exact E|exact Hd].
Defined.
