(* ===== verification/FsFile.v ===== *)
(** * Contents of files and directories (kernel/fs.c: bmap, readi, writei, dirlookup)

    A file whose blocks are allocated is a sequence of bytes, [file_byte]: the
    twelve direct blocks, then the blocks the indirect block lists.  [readi]
    returns its slices, [writei] overwrites them and [dirlookup] searches a
    directory's entries in order. *)

From stdpp Require Import prelude list strings gmap.
From Stdlib Require Import ZArith Lia ZifyBool.
From S2P Require Import Prelude State Spinlock CString Kalloc Proc Vm Uaccess Sleeplock Bio Cache Blocks Log Fs FsData FsBlocks FsInode.
Local Open Scope Z_scope.

(** The block that holds block [k] of the file, 0 if there is none. *)
Definition block_of (x : inode) (s : kstate) (k : Z) : Z :=
  if k <? NDIRECT then addr_at x k else ind_get (view s (addr_at x NDIRECT)) (k - NDIRECT).

Definition file_byte (x : inode) (s : kstate) (j : Z) : Z :=
  byte_at (view s (block_of x s (j / BSIZE))) (Z.to_nat (j mod BSIZE)).

(** The [n] bytes of the file from [off]. *)
Definition file_bytes (x : inode) (s : kstate) (off n : Z) : list Z :=
  (fun j => file_byte x s (off + Z.of_nat j)) <$> seq 0 (Z.to_nat n).

(** Block [k] of the file is allocated, whole, and not among the held buffers. *)
Record mapped (x : inode) (s : kstate) (hs : list held) (k : Z) : Prop := {
  mp_some : block_of x s k <> 0;
  mp_len : length (view s (block_of x s k)) = 1024%nat;
  mp_free : Forall (fun h => h_blk h <> block_of x s k) hs;
  mp_ind : NDIRECT <= k -> addr_at x NDIRECT <> 0 /\ Forall (fun h => h_blk h <> addr_at x NDIRECT) hs /\
    blockno_ok (addr_at x NDIRECT);
  mp_ok : blockno_ok (block_of x s k) }.

(** ** The block map *)
Lemma block_of_ext x s s' k : (forall m, view s' m = view s m) -> block_of x s' k = block_of x s k.
Proof. intros Hv. unfold block_of. by rewrite Hv. Qed.

Lemma mapped_ext x s s' hs k : (forall m, view s' m = view s m) -> mapped x s hs k -> mapped x s' hs k.
Proof. intros Hv [H1 H2 H3 H4]. split; rewrite ?(block_of_ext x s s' k Hv), ?Hv; done. Qed.

Lemma file_bytes_ext x s s' off n : (forall m, view s' m = view s m) -> file_bytes x s' off n = file_bytes x s off n.
Proof.
  intros Hv. apply list_fmap_ext. intros j k _. unfold file_byte. by rewrite (block_of_ext x s s' _ Hv), Hv.
Qed.

Lemma length_file_bytes x s off n : length (file_bytes x s off n) = Z.to_nat n.
Proof. unfold file_bytes. by rewrite length_fmap, length_seq. Qed.

Lemma lookup_file_bytes x s off n j : (j < Z.to_nat n)%nat ->
  file_bytes x s off n !! j = Some (file_byte x s (off + Z.of_nat j)).
Proof. intros Hj. unfold file_bytes. by rewrite list_lookup_fmap, lookup_seq_lt. Qed.

Lemma file_bytes_app x s off m n : 0 <= m -> 0 <= n ->
  file_bytes x s off (m + n) = file_bytes x s off m ++ file_bytes x s (off + m) n.
Proof.
  intros Hm Hn. apply list_eq_same_length with (length (file_bytes x s off (m + n))); [|done|].
  { rewrite length_app, !length_file_bytes. lia. }
  intros j a b. rewrite length_file_bytes. intros Hj. rewrite lookup_file_bytes by done. intros [= <-].
  destruct (decide (j < Z.to_nat m)%nat) as [Hlt|Hge].
  - rewrite lookup_app_l by (by rewrite length_file_bytes). rewrite lookup_file_bytes by done. by intros [= <-].
  - rewrite lookup_app_r by (rewrite length_file_bytes; lia). rewrite length_file_bytes, lookup_file_bytes by lia.
    intros [= <-]. f_equal. lia.
Qed.

(** Bytes within one block. *)
Lemma chunk_bytes x s off m : 0 <= off -> 0 <= m -> off mod BSIZE + m <= BSIZE ->
  length (view s (block_of x s (off / BSIZE))) = 1024%nat ->
  take (Z.to_nat m) (drop (Z.to_nat (off mod BSIZE)) (view s (block_of x s (off / BSIZE)))) = file_bytes x s off m.
Proof.
  intros Hoff Hm Hfit Hlen. change BSIZE with 1024 in *. pose proof (Z.mod_pos_bound off 1024).
  apply list_eq_same_length with (Z.to_nat m); [by rewrite length_file_bytes|rewrite length_take, length_drop; lia|].
  intros j a b Hj. rewrite lookup_take_lt, lookup_drop by done. rewrite lookup_file_bytes by done. intros Ha [= <-].
  unfold file_byte, byte_at. rewrite nth_lookup. change BSIZE with 1024.
  replace ((off + Z.of_nat j) / 1024) with (off / 1024) by dlia.
  replace (Z.to_nat ((off + Z.of_nat j) mod 1024)) with (Z.to_nat (off mod 1024) + j)%nat by dlia. by rewrite Ha.
Qed.

Lemma quiet_ext s s' : quiet [] [] s s' -> forall m, view s' m = view s m.
Proof. intros Q m. by rewrite (quiet_view _ _ _ _ m Q). Qed.

Lemma quiet_inodes U W s s' : quiet U W s s' -> k_inodes s' = k_inodes s.
Proof. intros [[_ _ (_ & _ & E & _)] _]. exact E. Qed.

(** The blocks of the file that the [n] bytes from [off] lie in. *)
Definition blocks_spanned (off n : Z) : Z := if n =? 0 then 0 else (off + n - 1) / BSIZE - off / BSIZE + 1.

Lemma blocks_step off n : 0 <= off -> 0 < n ->
  let m := Z.min n (BSIZE - off mod BSIZE) in blocks_spanned (off + m) (n - m) < blocks_spanned off n.
Proof.
  intros Hoff Hn m. unfold blocks_spanned. rewrite (proj2 (Z.eqb_neq n 0)) by lia. change BSIZE with 1024 in *.
  assert (Hm : m = n \/ m < n /\ off + m = (off / 1024 + 1) * 1024) by (unfold m; dlia).
  destruct Hm as [->|[Hlt E]].
  - rewrite Z.sub_diag. cbn [Z.eqb]. pose proof (Z.div_le_mono off (off + n - 1) 1024). lia.
  - rewrite (proj2 (Z.eqb_neq (n - m) 0)) by lia. rewrite E, Z.div_mul by done.
    replace ((off / 1024 + 1) * 1024 + (n - m) - 1) with (off + n - 1) by lia. lia.
Qed.

Section Contents.
Context `{DiskOk} `{KL : KernelLayout} (i : nat) (pins : gset Z) (hs : list held) (ip : nat) (x : inode) (tr : list (kstate -> kstate)).
Context (Hdev : i_dev x = ROOTDEV) (Hsz : (length hs + size pins < NBUF)%nat).

Lemma runs_get_inode s : k_inodes s !! ip = Some x -> runs (get_inode ip) s tr (fun a s' => a = x /\ s' = s).
Proof. intros Hx. exists x, s. split; [by apply get_inode_run|done]. Qed.

(** A block read, to be released with the contents it was read with. *)
Lemma hold_peek s n : hold i pins hs s -> Forall (fun h => h_blk h <> n) hs -> blockno_ok n ->
  runs (bread ROOTDEV n) s tr (fun b s1 => hold i pins (Held b n (view s n) :: hs) s1 /\ quiet [] [] s s1 /\
    forall s2, hold i pins (Held b n (view s n) :: hs) s2 -> k_disk s2 n = k_disk s1 n ->
      runs (brelse b) s2 tr (fun _ s' => hold i pins hs s' /\ quiet [] [] s2 s')).
Proof.
  intros Hs Hno Hok. rlast (hold_bread i pins hs s n tr Hs Hno (or_intror (conj Hsz Hok))) as [H1 Q1].
  repeat (split; [done|]). intros s2 H2 Hd. apply (hold_brelse i _ _ _ _ _ _ tr H2). intros Hn.
  rewrite Hd, (quiet_disk _ _ _ _ n Q1). by apply (hold_clean i pins hs).
Qed.

Lemma bmap_slot_run s k : k_inodes s !! ip = Some x -> addr_at x k <> 0 ->
  runs (bmap_slot ip k) s tr (fun a s' => a = addr_at x k /\ s' = s).
Proof.
  intros Hx Ha. unfold bmap_slot. rstep (runs_get_inode s Hx) as [-> ->]. rewrite (proj2 (Z.eqb_neq _ _) Ha).
  by apply runs_ret.
Qed.

Lemma bmap_run s k : hold i pins hs s -> k_inodes s !! ip = Some x -> 0 <= k < MAXFILE -> mapped x s hs k ->
  runs (bmap ip k) s tr (fun a s' => a = block_of x s k /\ hold i pins hs s' /\ quiet [] [] s s').
Proof.
  intros Hs Hx Hk [M1 M2 M3 M4 M5]. unfold bmap, block_of in *. destruct (k <? NDIRECT) eqn:Ek.
  - rlast (bmap_slot_run s k Hx M1) as [-> ->]. split; [done|]. split; [done|]. split; [apply moves_refl|done].
  - change MAXFILE with (NDIRECT + NINDIRECT) in Hk. destruct M4 as (Ma & Mh & Mo); [lia|].
    rewrite (proj2 (Z.ltb_lt _ _)) by lia. rstep (bmap_slot_run s NDIRECT Hx Ma) as [-> ->].
    rewrite (proj2 (Z.eqb_neq _ _) Ma). rstep (runs_get_inode s Hx) as [-> ->]. rewrite Hdev.
    rstep (hold_peek s (addr_at x NDIRECT) Hs Mh Mo) as (H1 & Q1 & Hrel). rstep (hold_get i _ _ _ _ _ _ tr H1) as (-> & _ & Ed). rewrite Ed.
    rewrite (proj2 (Z.eqb_neq _ _) M1). rstep runs_kret as [-> ->].
    rstep (Hrel _ H1 eq_refl) as [H2 Q2]. apply runs_ret. split; [done|]. split; [done|]. by chain.
Qed.

(** ** Reading *)
(** Copying to a variable of the kernel. *)
Lemma copyout_var s l : solo i s -> runs (either_copyout D_var l) s tr (fun r s' => r = 0 /\ s' = s).
Proof. intros Hs. unfold either_copyout. rstep (runs_det _ _ _ _ _ (solo_myproc i s Hs tr)) as [-> ->]. apply runs_kret. Qed.

Lemma readi_loop_run fuel : forall s off n tot data,
  hold i pins hs s -> k_inodes s !! ip = Some x -> 0 <= off -> 0 <= tot <= n -> off + (n - tot) <= MAXFILE * BSIZE ->
  (forall k, off / BSIZE <= k <= (off + (n - tot) - 1) / BSIZE -> mapped x s hs k) ->
  blocks_spanned off (n - tot) < Z.of_nat fuel ->
  runs (readi_loop fuel ip D_var off n tot data) s tr (fun r s' =>
    r = (n, data ++ file_bytes x s off (n - tot)) /\ hold i pins hs s' /\ quiet [] [] s s').
Proof.
  induction fuel as [|fuel IH]; intros s off n tot data Hs Hx Hoff Htot Hmax Hmap Hfuel; cbn [readi_loop].
  { unfold blocks_spanned in Hfuel. change BSIZE with 1024 in *. destruct (_ =? 0) eqn:E; [lia|]. exfalso. dlia. }
  destruct (Z.leb_spec n tot) as [Hd|Hd].
  { apply runs_ret. assert (tot = n) as -> by lia. rewrite Z.sub_diag, app_nil_r. split; [done|]. split; [done|].
    split; [apply moves_refl|done]. }
  assert (Hk : mapped x s hs (off / BSIZE)) by (apply Hmap; change BSIZE with 1024 in *; dlia).
  rstep (bmap_run s (off / BSIZE) Hs Hx) as (-> & H1 & Q1); [|done|].
  { change MAXFILE with 268 in *. change BSIZE with 1024 in *. dlia. }
  destruct Hk as [M1 M2 M3 M4 M5]. rewrite (proj2 (Z.eqb_neq _ _) M1).
  assert (Hx1 : k_inodes s' !! ip = Some x) by (by rewrite (quiet_inodes _ _ _ _ Q1)).
  rstep (runs_get_inode s' Hx1) as [-> ->]. rewrite Hdev. rename s' into s1.
  rstep (hold_peek s1 (block_of x s (off / BSIZE)) H1 M3 M5) as (H2 & Q2 & Hrel). rename s' into s2, a into b.
  rewrite (quiet_ext _ _ Q1) in H2, Hrel.
  rstep (hold_get i _ _ _ _ _ _ tr H2) as (-> & _ & Ed). rewrite Ed.
  rstep (copyout_var s2) as [-> ->]; [apply H2|]. cbn [Z.eqb].
  set (m := Z.min (n - tot) (BSIZE - off mod BSIZE)).
  assert (Hm : 0 < m <= n - tot /\ off mod BSIZE + m <= BSIZE) by (unfold m; change BSIZE with 1024; dlia).
  rewrite (chunk_bytes x s off m) by (lia || done).
  rstep (Hrel s2 H2 eq_refl) as [H3 Q3]. rename s' into s3. chain.
  pose proof (quiet_ext _ _ Q0) as Hv. cbn [dst_add]. rewrite <- (file_bytes_ext x s s3 off m Hv).
  replace (u32 (off + m)) with (off + m) by (unfold u32; change MAXFILE with 268 in *; change BSIZE with 1024 in *; rewrite Z.mod_small; lia).
  rlast (IH s3 (off + m) n (tot + m) _ H3) as (-> & H4 & Q4); try lia.
  - by rewrite (quiet_inodes _ _ _ _ Q0).
  - intros k Hk. apply (mapped_ext x s s3 hs k Hv), Hmap. change BSIZE with 1024 in *. dlia.
  - pose proof (blocks_step off (n - tot) Hoff ltac:(lia)) as Hst. cbv zeta in Hst. fold m in Hst.
    replace (n - (tot + m)) with (n - tot - m) by lia. lia.
  - split; [|split; [done|by chain]]. f_equal. rewrite <- app_assoc. f_equal.
    rewrite <- file_bytes_app by lia. rewrite (file_bytes_ext x s s3 _ _ Hv). f_equal. lia.
Qed.

(** What [readi] delivers: nothing if the range starts beyond the end of the file
    or its end overflows, and otherwise what the file has of it. *)
Definition read_count (size off n : Z) : Z :=
  if (size <? off) || (2 ^ 32 <=? off + n) then 0 else Z.min n (size - off).

Lemma readi_run s off n :
  hold i pins hs s -> k_inodes s !! ip = Some x -> 0 <= off < 2 ^ 32 -> 0 <= n < 2 ^ 32 ->
  0 <= i_size x <= MAXFILE * BSIZE ->
  let m := read_count (i_size x) off n in
  (forall k, off / BSIZE <= k <= (off + m - 1) / BSIZE -> mapped x s hs k) ->
  runs (readi ip D_var off n) s tr (fun r s' => r = (m, file_bytes x s off m) /\ hold i pins hs s' /\ quiet [] [] s s').
Proof.
  intros Hs Hx Hoff Hn Hsize m Hmap. unfold readi. rstep (runs_get_inode s Hx) as [-> ->].
  assert (Eu : (u32 (off + n) <? off) = (2 ^ 32 <=? off + n)) by (unfold u32; dlia).
  rewrite Eu. unfold m, read_count in *. destruct ((i_size x <? off) || (2 ^ 32 <=? off + n)) eqn:Ec.
  { apply runs_ret. split; [done|]. split; [done|]. split; [apply moves_refl|done]. }
  assert (Em : (if i_size x <? u32 (off + n) then i_size x - off else n) = Z.min n (i_size x - off)).
  { unfold u32. rewrite Z.mod_small by lia. destruct (Z.ltb_spec (i_size x) (off + n)); lia. }
  rewrite Em. set (c := Z.min n (i_size x - off)) in *. assert (Hc : 0 <= c <= n) by lia.
  rlast (readi_loop_run (Z.to_nat (c / BSIZE + 3)) s off c 0 [] Hs Hx) as (-> & H1 & Q1); try lia.
  - by rewrite Z.sub_0_r.
  - rewrite Z.sub_0_r. unfold blocks_spanned. change BSIZE with 1024 in *. destruct (c =? 0); dlia.
  - rewrite Z.sub_0_r. done.
Qed.
End Contents.

(** C13. [readi] of a file whose blocks are allocated returns the bytes of the file
    at that offset: as many as were asked for, cut at the end of the file, and
    none if the offset lies beyond it or the range overflows 32 bits.  The blocks
    may be direct or indirect; no block, and nothing on disk, changes. *)
Theorem readi_spec `{DiskOk} `{KL : KernelLayout} i pins hs ip x tr s off n :
  hold i pins hs s -> (length hs + size pins < NBUF)%nat ->
  k_inodes s !! ip = Some x -> i_dev x = ROOTDEV -> 0 <= i_size x <= MAXFILE * BSIZE ->
  0 <= off < 2 ^ 32 -> 0 <= n < 2 ^ 32 ->
  (forall k, off / BSIZE <= k <= (off + read_count (i_size x) off n - 1) / BSIZE -> mapped x s hs k) ->
  runs (readi ip D_var off n) s tr (fun r s' =>
    r = (read_count (i_size x) off n, file_bytes x s off (read_count (i_size x) off n)) /\
    hold i pins hs s' /\ (forall m, view s' m = view s m) /\ (forall m, k_disk s' m = k_disk s m) /\
    k_inodes s' = k_inodes s).
Proof.
  intros Hs Hsz Hx Hdev Hsize Hoff Hn Hmap.
  rlast (readi_run i pins hs ip x tr Hdev Hsz s off n Hs Hx Hoff Hn Hsize Hmap) as (-> & H1 & Q1).
  split; [done|]. split; [done|]. split; [by apply quiet_ext|].
  split; [intros m; by rewrite (quiet_disk _ _ _ _ m Q1)|by apply (quiet_inodes _ _ _ _ Q1)].
Qed.

(** ** Directories *)
(** Entry [k] of a directory. *)
Definition dir_entry (x : inode) (s : kstate) (k : nat) : list Z := file_bytes x s (Z.of_nat k * DIRENT_SIZE) DIRENT_SIZE.

(** The entry is in use and has the name. *)
Definition entry_matches (x : inode) (s : kstate) (name : list Z) (k : nat) : Prop :=
  de_inum (dir_entry x s k) <> 0 /\ cstrn (reads name) DIRSIZ = cstrn (reads (de_name (dir_entry x s k))) DIRSIZ.
#[export] Instance entry_matches_dec x s name k : Decision (entry_matches x s name k).
Proof. unfold entry_matches. apply _. Defined.

Lemma dir_entry_ext x s s' k : (forall m, view s' m = view s m) -> dir_entry x s' k = dir_entry x s k.
Proof. intros Hv. by apply file_bytes_ext. Qed.

(** The first entry with the name. *)
Definition dir_find (x : inode) (s : kstate) (name : list Z) : option nat :=
  snd <$> list_find (entry_matches x s name) (seq 0 (dir_count (i_size x))).

Lemma list_find_ext' {A} (P Q : A -> Prop) `{forall x, Decision (P x), forall x, Decision (Q x)} l :
  (forall x, x ∈ l -> P x <-> Q x) -> list_find P l = list_find Q l.
Proof.
  induction l as [|a l IH]; intros HPQ; cbn; [done|]. rewrite IH by (intros y Hy; apply HPQ; by right).
  destruct (decide (P a)), (decide (Q a)); try done; specialize (HPQ a ltac:(by left)); tauto.
Qed.

Section Lookup.
Context `{DiskOk} `{KL : KernelLayout} (i : nat) (pins : gset Z) (hs : list held) (dp : nat) (x : inode) (name : list Z).
Context (tr : list (kstate -> kstate)) (Hdev : i_dev x = ROOTDEV) (Hsz : (length hs + size pins < NBUF)%nat).
Context (Hsize : 0 <= i_size x <= MAXFILE * BSIZE) (Hmul : i_size x mod DIRENT_SIZE = 0).

Definition lookup_body (k : nat) : Kern (option (nat * Z)) :=
  let off := Z.of_nat k * DIRENT_SIZE in
  let! '(r, de) := readi dp D_var off DIRENT_SIZE in
  if negb (r =? DIRENT_SIZE) then panic "dirlookup read" else
  if de_inum de =? 0 then kret None else
  if namecmp name (de_name de) =? 0 then
    let! ip := iget (i_dev x) (de_inum de) in
    kret (Some (ip, off))
  else kret None.

Definition lookup_hit (s0 : kstate) (k : nat) : Kern (option (nat * Z)) :=
  let! ip := iget (i_dev x) (de_inum (dir_entry x s0 k)) in
  kret (Some (ip, Z.of_nat k * DIRENT_SIZE)).

Definition whole (s : kstate) : Prop := forall k, 0 <= k <= (i_size x - 1) / BSIZE -> mapped x s hs k.

(** Reading entry [k]. *)
Lemma entry_read s k : hold i pins hs s -> k_inodes s !! dp = Some x -> whole s -> (k < dir_count (i_size x))%nat ->
  runs (readi dp D_var (Z.of_nat k * DIRENT_SIZE) DIRENT_SIZE) s tr (fun r s' =>
    r = (DIRENT_SIZE, dir_entry x s k) /\ hold i pins hs s' /\ quiet [] [] s s').
Proof.
  intros Hs Hx Hw Hk. unfold dir_count in Hk. unfold dir_entry. change DIRENT_SIZE with 16 in *. change MAXFILE with 268 in *.
  change BSIZE with 1024 in *.
  assert (Hc : read_count (i_size x) (Z.of_nat k * 16) 16 = 16).
  { unfold read_count. assert (Z.of_nat k * 16 + 16 <= i_size x) by dlia.
    destruct ((i_size x <? _) || _) eqn:E; [|lia]. exfalso. lia. }
  rlast (readi_run i pins hs dp x tr Hdev Hsz s (Z.of_nat k * 16) 16 Hs Hx) as (-> & H1 & Q1); [dlia|lia|done| |].
  - cbv zeta. rewrite Hc. intros j Hj. apply Hw. change BSIZE with 1024 in *. dlia.
  - by rewrite Hc.
Qed.

Lemma lookup_body_run s k : hold i pins hs s -> k_inodes s !! dp = Some x -> whole s -> (k < dir_count (i_size x))%nat ->
  exists s', hold i pins hs s' /\ quiet [] [] s s' /\
    lookup_body k s tr = (if decide (entry_matches x s name k) then lookup_hit s k else kret None) s' tr.
Proof.
  intros Hs Hx Hw Hk. destruct (entry_read s k Hs Hx Hw Hk) as (r & s' & E & -> & H1 & Q1).
  exists s'. split; [done|]. split; [done|]. unfold lookup_body, lookup_hit. kexact E.
  change (negb (DIRENT_SIZE =? DIRENT_SIZE)) with false. cbv iota.
  destruct (Z.eqb_spec (de_inum (dir_entry x s k)) 0) as [E0|E0].
  { rewrite decide_False by (by intros [? _]). done. }
  unfold namecmp. destruct (Z.eqb_spec (strncmp (reads name) (reads (de_name (dir_entry x s k))) DIRSIZ) 0) as [En|En].
  - rewrite decide_True; [done|]. split; [done|]. by apply strncmp_eq.
  - rewrite decide_False; [done|]. intros [_ Heq]. by apply En, strncmp_eq.
Qed.

Lemma lookup_loop n : forall k s, hold i pins hs s -> k_inodes s !! dp = Some x -> whole s ->
  (k + n <= dir_count (i_size x))%nat ->
  exists s', hold i pins hs s' /\ quiet [] [] s s' /\
    for_upto n k lookup_body s tr =
      match list_find (entry_matches x s name) (seq k n) with
      | Some (_, j) => lookup_hit s j s' tr
      | None => Done None s' tr
      end.
Proof.
  induction n as [|n IH]; intros k s Hs Hx Hw Hk; cbn [for_upto seq list_find].
  { exists s. split; [done|]. split; [split; [apply moves_refl|done]|done]. }
  destruct (lookup_body_run s k Hs Hx Hw ltac:(lia)) as (s1 & H1 & Q1 & E1).
  destruct (decide (entry_matches x s name k)) as [Hm|Hm].
  - exists s1. split; [done|]. split; [done|]. etransitivity; [apply kbind_outcome, E1|].
    unfold lookup_hit, obind. unfold kbind. by destruct (iget _ _ s1 tr).
  - pose proof (quiet_ext _ _ Q1) as Hv.
    destruct (IH (S k) s1 H1) as (s2 & H2 & Q2 & E2); [by rewrite (quiet_inodes _ _ _ _ Q1)| |lia|].
    { intros j Hj. by apply (mapped_ext x s s1 hs j Hv), Hw. }
    exists s2. split; [done|]. split; [by chain|]. kexact E1. etransitivity; [exact E2|].
    rewrite (list_find_ext' (entry_matches x s1 name) (entry_matches x s name)).
    + unfold lookup_hit. destruct (list_find (entry_matches x s name) (seq (S k) n)) as [[j' j]|]; cbn; [|done].
      by rewrite (dir_entry_ext x s s1 j Hv).
    + intros j _. unfold entry_matches. by rewrite (dir_entry_ext x s s1 j Hv).
Qed.

Lemma dirlookup_run s : hold i pins hs s -> k_inodes s !! dp = Some x -> i_type x = T_DIR -> whole s ->
  exists s', hold i pins hs s' /\ quiet [] [] s s' /\
    dirlookup dp name s tr =
      match dir_find x s name with
      | Some k =>
          (let! ip := iget ROOTDEV (de_inum (dir_entry x s k)) in kret (Some (ip, Z.of_nat k * DIRENT_SIZE))) s' tr
      | None => Done None s' tr
      end.
Proof.
  intros Hs Hx Hty Hw. destruct (lookup_loop (dir_count (i_size x)) 0 s Hs Hx Hw) as (s' & H1 & Q1 & E); [lia|].
  exists s'. split; [done|]. split; [done|].
  unfold dirlookup. kexact (get_inode_run s dp x tr Hx). rewrite Hty. cbn [Z.eqb Pos.eqb negb T_DIR].
  etransitivity; [exact E|]. unfold dir_find, lookup_hit. rewrite Hdev.
  by destruct (list_find (entry_matches x s name) (seq 0 (dir_count (i_size x)))) as [[j' j]|].
Qed.
End Lookup.

(** [dirlookup] finds the first entry of the directory that is in use and has
    the name, compared on its first [DIRSIZ] bytes, and returns the inode it
    names, taken with [iget], together with the entry's offset; it returns null
    exactly if there is none.  It changes no block and, short of [iget], no inode. *)
Theorem dirlookup_spec `{DiskOk} `{KL : KernelLayout} i pins hs dp x name s tr :
  hold i pins hs s -> (length hs + size pins < NBUF)%nat ->
  k_inodes s !! dp = Some x -> i_dev x = ROOTDEV -> i_type x = T_DIR ->
  0 <= i_size x <= MAXFILE * BSIZE -> i_size x mod DIRENT_SIZE = 0 -> whole hs x s ->
  exists s', hold i pins hs s' /\ (forall m, view s' m = view s m) /\ k_inodes s' = k_inodes s /\
    dirlookup dp name s tr =
      match dir_find x s name with
      | Some k =>
          (let! ip := iget ROOTDEV (de_inum (dir_entry x s k)) in kret (Some (ip, Z.of_nat k * DIRENT_SIZE))) s' tr
      | None => Done None s' tr
      end.
Proof.
  intros Hs Hsz Hx Hdev Hty Hsize Hmul Hw.
  destruct (dirlookup_run i pins hs dp x name tr Hdev Hsz Hsize Hmul s Hs Hx Hty Hw) as (s' & H1 & Q1 & E).
  exists s'. split; [done|]. split; [by apply quiet_ext|]. split; [by apply (quiet_inodes _ _ _ _ Q1)|done].
Qed.

(** ** The small file system again *)
#[local] Existing Instance demo_layout.
Definition demo_a : inode := mkinode ROOTDEV 2 1 1 T_FILE 0 0 1 700 (47 :: replicate 12 0).
Definition demo_dir : inode := mkinode ROOTDEV 1 1 1 T_DIR 0 0 1 32 (46 :: replicate 12 0).
Definition demo_open_files : kstate := demo_with (demo_dir :: demo_a :: replicate 48 inode_bss).

Lemma demo_open_files_ok : in_txn 1 256 [] [] demo_open_files /\ k_sb demo_open_files = demo_sb /\
  (forall m, view demo_open_files m = demo_fs_disk m).
Proof. apply demo_with_ok. Qed.

Lemma demo_mapped x k : (x = demo_dir \/ x = demo_a) -> k = 0 -> mapped x demo_open_files [] k.
Proof.
  destruct demo_open_files_ok as (_ & _ & Hv). intros [-> | ->] ->;
    (split; [vm_compute; discriminate|rewrite Hv; vm_compute; reflexivity|constructor|done|split; [discriminate|reflexivity]]).
Qed.

Lemma demo_pins : (length (@nil held) + size (∅ : gset Z) < NBUF)%nat.
Proof. rewrite size_empty. unfold NBUF. cbn. lia. Qed.

(** Asked for a hundred bytes at offset 690 of a file of 700, [readi] returns ten. *)
Lemma readi_spec_witness :
  runs (readi 1 D_var 690 100) demo_open_files [] (fun r s' => r = (10, replicate 10 65)).
Proof.
  destruct demo_open_files_ok as ([H1 _ _ _] & Hsb & Hv).
  destruct (readi_spec 1 ∅ [] 1 demo_a [] demo_open_files 690 100 H1 demo_pins) as (r & s' & E & -> & _).
  - reflexivity.
  - reflexivity.
  - by vm_compute.
  - lia.
  - lia.
  - intros k Hk. apply demo_mapped; [by right|]. change (0 <= k <= 0) in Hk. lia.
  - eexists _, s'. split; [exact E|]. change (read_count (i_size demo_a) 690 100) with 10. apply f_equal2; [reflexivity|].
    unfold file_bytes, file_byte. rewrite (list_fmap_ext _ (fun j : nat => byte_at (demo_fs_disk 47) (Z.to_nat ((690 + Z.of_nat j) mod 1024))) (seq 0 (Z.to_nat 10))).
    + vm_compute. reflexivity.
    + intros j y Hj. rewrite Hv. apply lookup_seq in Hj as [-> Hj]. change BSIZE with 1024.
      rewrite Z.div_small by lia. reflexivity.
Defined.

(** The two entries of the root directory, [.] and [a]. *)
Lemma demo_entry k : (k < 2)%nat -> dir_entry demo_dir demo_open_files k = take 16 (drop (16 * k) (demo_fs_disk 46)).
Proof.
  destruct demo_open_files_ok as (_ & _ & Hv). intros Hk. unfold dir_entry.
  rewrite <- (chunk_bytes demo_dir demo_open_files); rewrite ?Hv;
    (destruct k as [|[|k]]; [vm_compute; (reflexivity || discriminate)..|lia]).
Qed.

(** The name [a] is found in entry 1 of the root directory. *)
Lemma dirlookup_spec_witness :
  exists s', hold 1 ∅ [] s' /\
    dirlookup 0 (97 :: replicate 13 0) demo_open_files [] =
      (let! ip := iget ROOTDEV 2 in kret (Some (ip, 16))) s' [].
Proof.
  destruct demo_open_files_ok as ([H1 _ _ _] & Hsb & Hv).
  destruct (dirlookup_spec 1 ∅ [] 0 demo_dir (97 :: replicate 13 0) demo_open_files [] H1 demo_pins) as (s' & H' & _ & _ & E).
  - reflexivity.
  - reflexivity.
  - reflexivity.
  - by vm_compute.
  - reflexivity.
  - intros k Hk. apply demo_mapped; [by left|]. change (0 <= k <= 0) in Hk. lia.
  - exists s'. split; [exact H'|].
    pose proof demo_entry as Hd.
    assert (Hf : dir_find demo_dir demo_open_files (97 :: replicate 13 0) = Some 1%nat).
    { unfold dir_find. change (seq 0 (dir_count (i_size demo_dir))) with [0%nat; 1%nat]. cbn [list_find].
      rewrite decide_False by (intros [_ HF]; rewrite Hd in HF by lia; vm_compute in HF; discriminate HF).
      rewrite decide_True; [reflexivity|]. unfold entry_matches. rewrite Hd by lia. split; [vm_compute; discriminate|vm_compute; reflexivity]. }
    rewrite Hf, Hd in E by lia. exact E.
Defined.
