(* ===== verification/FsWrite.v ===== *)
(** * Writing to a file (kernel/fs.c: writei)

    [writei] inside a transaction, over blocks the file has: the bytes of the
    range become the source's, the rest of the file and every other file keep
    theirs, the size grows if the range passes the end, and all the blocks
    changed are in the log. *)

From stdpp Require Import prelude list strings gmap.
From Stdlib Require Import ZArith Lia ZifyBool.
From S2P Require Import Prelude State Spinlock CString Kalloc Proc Vm Uaccess Sleeplock Bio Cache Blocks Log Fs FsData FsBlocks FsInode FsFile.
Local Open Scope Z_scope.

(** ** Bytes within a block *)
Lemma length_splice d k l : (k + length l <= length d)%nat -> length (splice d k l) = length d.
Proof. intros Hk. unfold splice. rewrite !length_app, length_take, length_drop. lia. Qed.

Lemma byte_at_splice d k l j : (k + length l <= length d)%nat ->
  byte_at (splice d k l) j = if decide (k <= j < k + length l)%nat then nth (j - k) l 0 else byte_at d j.
Proof.
  intros Hk. unfold byte_at, splice. rewrite !nth_lookup.
  destruct (decide (k <= j < k + length l)%nat) as [Hj|Hj].
  - rewrite lookup_app_r by (rewrite length_take; lia). rewrite length_take.
    rewrite lookup_app_l by lia. replace (j - k `min` length d)%nat with (j - k)%nat by lia. done.
  - destruct (decide (j < k)%nat) as [Hlt|Hge].
    + rewrite lookup_app_l by (rewrite length_take; lia). by rewrite lookup_take_lt.
    + rewrite lookup_app_r by (rewrite length_take; lia). rewrite length_take.
      rewrite lookup_app_r by lia. rewrite lookup_drop. f_equal. f_equal. lia.
Qed.

(** ** The blocks of a file *)
(** The first [K] blocks of the file are allocated, distinct, and distinct from
    the indirect block. *)
Record file_map (hs : list held) (x : inode) (s : kstate) (K : Z) : Prop := {
  fm_mapped : forall k, 0 <= k < K -> mapped x s hs k;
  fm_inj : forall j k, 0 <= j < K -> 0 <= k < K -> block_of x s j = block_of x s k -> j = k;
  fm_ind : forall k, 0 <= k < K -> NDIRECT < K -> block_of x s k <> addr_at x NDIRECT }.

(** Changing the contents of one block of the file. *)
Section Change.
Context (hs : list held) (x : inode) (s s' : kstate) (K k : Z) (d : list Z).
Context (Hf : file_map hs x s K) (Hk : 0 <= k < K) (Hd : length d = 1024%nat).
Context (Hv : forall m, view s' m = if decide (m = block_of x s k) then d else view s m).

Lemma change_block j : 0 <= j < K -> block_of x s' j = block_of x s j.
Proof.
  intros Hj. unfold block_of. destruct (Z.ltb_spec j NDIRECT); [done|]. rewrite Hv, decide_False; [done|].
  intros E. apply (fm_ind _ _ _ _ Hf k Hk); [lia|done].
Qed.

Lemma change_map : file_map hs x s' K.
Proof.
  destruct Hf as [F1 F2 F3]. split.
  - intros j Hj. destruct (F1 j Hj) as [M1 M2 M3 M4 M5]. split; rewrite ?change_block by done; try done.
    rewrite Hv. by destruct (decide _).
  - intros a b Ha Hb. rewrite !change_block by done. by apply F2.
  - intros j Hj Hlt. rewrite change_block by done. by apply F3.
Qed.

Lemma change_byte j : 0 <= j < K * BSIZE ->
  file_byte x s' j = if decide (j / BSIZE = k) then byte_at d (Z.to_nat (j mod BSIZE)) else file_byte x s j.
Proof.
  intros Hj. unfold file_byte. assert (Hb : 0 <= j / BSIZE < K) by (change BSIZE with 1024 in *; dlia).
  rewrite change_block, Hv by done. destruct (decide (j / BSIZE = k)) as [->|Hne].
  - by rewrite decide_True.
  - rewrite decide_False; [done|]. intros E. apply Hne. by apply (fm_inj _ _ _ _ Hf).
Qed.
End Change.

(** The file after [l] has been written at [off]. *)
Definition overwritten (x : inode) (s s' : kstate) (K off : Z) (l : list Z) : Prop :=
  forall j, 0 <= j < K * BSIZE ->
    file_byte x s' j = if decide (off <= j < off + Z.of_nat (length l)) then nth (Z.to_nat (j - off)) l 0 else file_byte x s j.

Lemma overwritten_app x s1 s2 s3 K off l1 l2 :
  overwritten x s1 s2 K off l1 -> overwritten x s2 s3 K (off + Z.of_nat (length l1)) l2 ->
  overwritten x s1 s3 K off (l1 ++ l2).
Proof.
  intros H1 H2 j Hj. rewrite H2, H1 by done. rewrite length_app.
  destruct (decide (off + Z.of_nat (length l1) <= j < off + Z.of_nat (length l1) + Z.of_nat (length l2))).
  - rewrite decide_True by lia. rewrite app_nth2 by lia. f_equal. lia.
  - destruct (decide (off <= j < off + Z.of_nat (length l1))).
    + rewrite decide_True by lia. rewrite app_nth1 by lia. done.
    + by rewrite decide_False by lia.
Qed.

(** One chunk. *)
Lemma chunk_overwritten hs x s s' K off c : file_map hs x s K -> 0 <= off -> off / BSIZE < K ->
  off mod BSIZE + Z.of_nat (length c) <= BSIZE ->
  (forall m, view s' m = if decide (m = block_of x s (off / BSIZE))
     then splice (view s (block_of x s (off / BSIZE))) (Z.to_nat (off mod BSIZE)) c else view s m) ->
  overwritten x s s' K off c /\ file_map hs x s' K /\ (forall k, 0 <= k < K -> block_of x s' k = block_of x s k).
Proof.
  intros Hf Hoff Hb Hfit Hv. change BSIZE with 1024 in *. pose proof (Z.mod_pos_bound off 1024).
  assert (Hk : 0 <= off / 1024 < K) by dlia.
  assert (Hl : length (view s (block_of x s (off / 1024))) = 1024%nat) by (by apply (fm_mapped _ _ _ _ Hf)).
  assert (Hs : length (splice (view s (block_of x s (off / 1024))) (Z.to_nat (off mod 1024)) c) = 1024%nat)
    by (rewrite length_splice; lia).
  split; [|split; [by apply (change_map hs x s s' K (off / 1024) _ Hf Hk Hs Hv)|]].
  2: { intros k Hk'. by apply (change_block hs x s s' K (off / 1024) _ Hf Hk Hs Hv). }
  intros j Hj. change BSIZE with 1024 in *. rewrite (change_byte hs x s s' K (off / 1024) _ Hf Hk Hs Hv) by done. change BSIZE with 1024.
  destruct (decide (j / 1024 = off / 1024)) as [E|E].
  - rewrite byte_at_splice by lia.
    destruct (decide (off <= j < off + Z.of_nat (length c))) as [Hin|Hin].
    + rewrite decide_True by dlia. f_equal. dlia.
    + rewrite decide_False by dlia. unfold file_byte. change BSIZE with 1024. by rewrite E.
  - rewrite decide_False; [done|]. intros Hin. apply E. dlia.
Qed.

(** ** The loop *)
Lemma in_txn_quiet i st bl hs s s' : in_txn i st bl hs s -> hold i (list_to_set bl) hs s' -> quiet [] [] s s' -> in_txn i st bl hs s'.
Proof. intros [_ H2 H3 H4] Hs [_ L]. by split; rewrite ?L. Qed.

Section Write.
Context `{DiskOk} `{KL : KernelLayout} (i : nat) (st : Z) (hs : list held) (ip : nat) (x : inode) (K : Z) (tr : list (kstate -> kstate)).
Context (Hdev : i_dev x = ROOTDEV) (HK : K <= MAXFILE).

(** What a write has done: [l] is at [off], the transaction has grown by at most
    [c] blocks, and only blocks of the file have changed. *)
Definition wrote_file (bl : list Z) (s : kstate) (off c : Z) (l : list Z) (s' : kstate) : Prop :=
  (exists bl', in_txn i st bl' hs s' /\ Z.of_nat (length bl') <= Z.of_nat (length bl) + c) /\
  overwritten x s s' K off l /\ file_map hs x s' K /\ (forall k, 0 <= k < K -> block_of x s' k = block_of x s k) /\
  exists U, moves U [] s s' /\ Forall (fun u => exists k, 0 <= k < K /\ u.1 = block_of x s k) U.

Lemma copyin_var s l m : solo i s ->
  runs (either_copyin (S_var l) m) s tr (fun r s' => r = (0, take (Z.to_nat m) l) /\ s' = s).
Proof.
  intros Hs. unfold either_copyin. rstep (runs_det _ _ _ _ _ (solo_myproc i s Hs tr)) as [-> ->]. apply runs_kret.
Qed.

Lemma writei_chunk s bl off l : file_map hs x s K ->
  0 <= off -> off / BSIZE < K -> off mod BSIZE + Z.of_nat (length l) <= BSIZE -> (length hs + length bl < 30)%nat ->
  forall bp s1 {A} (k : Kern A) R,
    in_txn i st bl (Held bp (block_of x s (off / BSIZE)) (view s (block_of x s (off / BSIZE))) :: hs) s1 -> moves [] [] s s1 ->
    (forall s', wrote_file bl s off 1 l s' -> runs k s' tr R) ->
    runs (upd_data bp (fun d => splice d (Z.to_nat (off mod BSIZE)) l) ;; log_write bp ;; brelse bp ;; k) s1 tr R.
Proof.
  intros Hf Hoff Hb Hfit Hsz bp s1 A k R H1 M1 Hk. set (n := block_of x s (off / BSIZE)) in *.
  rstep (txn_set i st _ _ _ _ _ _ _ tr H1) as [H2 M2]. rstep (txn_log_write i st _ _ _ _ _ _ tr H2) as [H3 M3]; [lia|].
  rstep (txn_brelse i st _ _ _ _ _ _ tr H3) as [H4 M4]; [intros Hno; exfalso; apply Hno, in_logged|]. chainm. apply Hk.
  destruct (chunk_overwritten hs x s s'1 K off l Hf Hoff Hb Hfit) as (Ho & Hf' & Hbl).
  { intros m. match goal with HM : moves _ [] s s'1 |- _ => by rewrite (mv_view _ _ _ _ HM m) end. }
  split; [exists (logged bl n); split; [done|]; pose proof (length_logged bl n); lia|].
  split; [done|]. split; [done|]. split; [done|]. eexists. split; [done|]. constructor; [|done]. exists (off / BSIZE). split; [|done].
  change BSIZE with 1024 in *. dlia.
Qed.

Lemma wrote_nothing bl s off : in_txn i st bl hs s -> file_map hs x s K -> wrote_file bl s off 0 [] s.
Proof.
  intros Hs Hf. split; [exists bl; split; [done|lia]|]. split; [|split; [done|split; [done|]]].
  - intros j Hj. rewrite decide_False; [done|]. cbn. lia.
  - exists []. split; [apply moves_refl|done].
Qed.

Lemma wrote_more bl bl1 s1 s2 s3 off c l1 l2 :
  wrote_file bl s1 off 1 l1 s2 -> Z.of_nat (length bl1) <= Z.of_nat (length bl) + 1 ->
  wrote_file bl1 s2 (off + Z.of_nat (length l1)) c l2 s3 -> wrote_file bl s1 off (1 + c) (l1 ++ l2) s3.
Proof.
  intros (_ & O1 & F1 & B1 & U1 & M1 & A1) L1 ((bl2 & T2 & L2) & O2 & F2 & B2 & U2 & M2 & A2).
  split; [exists bl2; split; [done|lia]|]. split; [by apply (overwritten_app x s1 s2)|]. split; [done|].
  split; [intros k Hk; by rewrite B2, B1|].
  exists (U1 ++ U2). split; [by apply (moves_nil_trans _ _ _ s2)|]. apply Forall_app. split; [done|].
  eapply Forall_impl; [exact A2|]. intros u (k & Hk & E). exists k. split; [done|]. by rewrite <- B1.
Qed.

Lemma wrote_le bl s off c c' l s' : c <= c' -> wrote_file bl s off c l s' -> wrote_file bl s off c' l s'.
Proof. intros Hc ((bl' & T & L) & R). split; [|done]. exists bl'. split; [done|lia]. Qed.

Lemma writei_loop_run fuel : forall s bl off n tot l,
  in_txn i st bl hs s -> k_inodes s !! ip = Some x -> file_map hs x s K -> 0 <= off -> 0 <= tot ->
  Z.of_nat (length l) = n - tot -> off + (n - tot) <= K * BSIZE ->
  blocks_spanned off (n - tot) < Z.of_nat fuel ->
  Z.of_nat (length hs) + Z.of_nat (length bl) + blocks_spanned off (n - tot) < 30 ->
  runs (writei_loop fuel ip (S_var l) off n tot) s tr (fun r s' =>
    r = (n, off + (n - tot)) /\ wrote_file bl s off (blocks_spanned off (n - tot)) l s').
Proof.
  induction fuel as [|fuel IH]; intros s bl off n tot l Hs Hx Hf Hoff Htot Hl Hmax Hfuel Hroom; cbn [writei_loop].
  { unfold blocks_spanned in Hfuel. change BSIZE with 1024 in *. destruct (_ =? 0) eqn:E; [lia|]. exfalso. dlia. }
  destruct (Z.leb_spec n tot) as [Hd|Hd].
  { apply runs_ret. assert (tot = n) as -> by lia. rewrite Z.sub_diag, Z.add_0_r in *. split; [done|].
    destruct l; [by apply wrote_nothing|cbn in Hl; lia]. }
  set (k := off / BSIZE). assert (Hk : 0 <= k < K) by (unfold k; change BSIZE with 1024 in *; dlia).
  assert (Hpos : 0 < blocks_spanned off (n - tot)).
  { unfold blocks_spanned. rewrite (proj2 (Z.eqb_neq _ _)) by lia. change BSIZE with 1024.
    pose proof (Z.div_le_mono off (off + (n - tot) - 1) 1024). lia. }
  pose proof (fm_mapped _ _ _ _ Hf k Hk) as Hm. pose proof (tx_hold _ _ _ _ _ Hs) as Hh0.
  assert (Hpins : (length hs + size (list_to_set bl : gset Z) < NBUF)%nat) by (rewrite size_pins by apply Hs; unfold NBUF; lia).
  rstep (bmap_run i (list_to_set bl) hs ip x tr Hdev Hpins s k Hh0 Hx) as (-> & H1 & Q1); [lia|done|].
  rewrite (proj2 (Z.eqb_neq _ _) (mp_some _ _ _ _ Hm)). pose proof (in_txn_quiet i st bl hs s s' Hs H1 Q1) as T1.
  assert (Hx1 : k_inodes s' !! ip = Some x) by (by rewrite (quiet_inodes _ _ _ _ Q1)).
  rstep (runs_get_inode ip x tr s' Hx1) as [-> ->]. rewrite Hdev. rename s' into s1.
  rstep (txn_bread i st bl hs s1 (block_of x s k) tr T1 (mp_free _ _ _ _ Hm) (mp_ok _ _ _ _ Hm)) as (T2 & M2 & _); [unfold NBUF; lia|].
  rewrite (quiet_ext _ _ Q1) in T2. rename s' into s2, a into bp.
  set (m := Z.min (n - tot) (BSIZE - off mod BSIZE)).
  assert (Hm' : 0 < m <= n - tot /\ off mod BSIZE + m <= BSIZE) by (unfold m; change BSIZE with 1024; dlia).
  rstep (copyin_var s2 l m) as [-> ->]; [apply T2|]. cbn [Z.eqb].
  pose proof (moves_nil_trans _ _ _ _ _ (proj1 Q1) M2) as M.
  assert (Hlen : Z.of_nat (length (take (Z.to_nat m) l)) = m) by (rewrite length_take; lia).
  apply (writei_chunk s bl off (take (Z.to_nat m) l)); [done|done|lia|lia|lia|done|done|].
  intros s3 Hw. pose proof Hw as ((bl1 & T3 & L3) & _ & F3 & _ & U & M3 & _).
  replace (u32 (off + m)) with (off + m).
  2: { unfold u32. rewrite Z.mod_small; [done|]. change MAXFILE with 268 in *. change BSIZE with 1024 in *. lia. }
  pose proof (blocks_step off (n - tot) Hoff ltac:(lia)) as Hst. cbv zeta in Hst. fold m in Hst. cbn [src_add].
  rlast (IH s3 bl1 (off + m) n (tot + m) (drop (Z.to_nat m) l) T3) as [-> Hw2]; try lia.
  - by rewrite (moves_inodes _ _ _ M3).
  - done.
  - rewrite length_drop. lia.
  - replace (n - (tot + m)) with (n - tot - m) by lia. lia.
  - replace (n - (tot + m)) with (n - tot - m) by lia. lia.
  - split; [f_equal; lia|]. rewrite <- (take_drop (Z.to_nat m) l). rewrite <- Hlen in Hw2 at 1.
    eapply wrote_le; [|by apply (wrote_more bl bl1 s s3)]. replace (n - (tot + m)) with (n - tot - m) by lia. lia.
Qed.
End Write.

(** ** The whole call *)
Definition resized (size : Z) (x : inode) : inode := x <| i_size := size |>.

Lemma in_txn_inodes i st bl hs s f : in_txn i st bl hs s -> in_txn i st bl hs (s <| k_inodes ::= f |>).
Proof. intros [H1 H2 H3 H4]. split; [by apply hold_with_inodes|done|done|done]. Qed.

(** A change of a block that is none of the file's leaves the file as it is. *)
Lemma file_byte_frame hs x s s' K n : file_map hs x s K ->
  (forall m, m <> n -> view s' m = view s m) ->
  (forall k, 0 <= k < K -> block_of x s k <> n) -> addr_at x NDIRECT <> n ->
  forall j, 0 <= j < K * BSIZE -> file_byte x s' j = file_byte x s j.
Proof.
  intros Hf Hv Hn Hi j Hj. unfold file_byte. assert (Hb : 0 <= j / BSIZE < K) by (change BSIZE with 1024 in *; dlia).
  assert (E : block_of x s' (j / BSIZE) = block_of x s (j / BSIZE)).
  { unfold block_of. destruct (_ <? NDIRECT); [done|]. by rewrite Hv. }
  rewrite E, Hv; [done|]. by apply Hn.
Qed.

Record inode_place (sb : superblock) (hs : list held) (x : inode) (s : kstate) (K : Z) : Prop := {
  ip_held : Forall (fun h => h_blk h <> IBLOCK (i_inum x) sb) hs;
  ip_ok : blockno_ok (IBLOCK (i_inum x) sb);
  ip_len : length (view s (IBLOCK (i_inum x) sb)) = 1024%nat;
  ip_ind : addr_at x NDIRECT <> IBLOCK (i_inum x) sb;
  ip_blocks : forall k, 0 <= k < K -> block_of x s k <> IBLOCK (i_inum x) sb }.

Lemma file_map_frame sb hs x s s' K : file_map hs x s K -> inode_place sb hs x s K ->
  (forall m, m <> IBLOCK (i_inum x) sb -> view s' m = view s m) ->
  file_map hs x s' K /\ (forall k, 0 <= k < K -> block_of x s' k = block_of x s k).
Proof.
  intros Hf [_ _ _ P4 P5] Hv.
  assert (Hb : forall k, block_of x s' k = block_of x s k) by (intros k; unfold block_of; by rewrite Hv).
  split; [|done]. destruct Hf as [F1 F2 F3]. split.
  - intros k Hk. destruct (F1 k Hk) as [M1 M2 M3 M4 M5]. split; rewrite ?Hb; try done. rewrite Hv by (by apply P5). done.
  - intros j k Hj Hk. rewrite !Hb. by apply F2.
  - intros k Hk. rewrite Hb. by apply F3.
Qed.

(** The size of a file has no part in where its blocks are. *)
Lemma file_map_resized n hs x s K : file_map hs x s K -> file_map hs (resized n x) s K.
Proof. intros [F1 F2 F3]. split; [|done..]. intros k Hk. destruct (F1 k Hk). by split. Qed.

Lemma inode_place_resized n sb hs x s K : inode_place sb hs x s K -> inode_place sb hs (resized n x) s K.
Proof. intros [P1 P2 P3 P4 P5]. by split. Qed.

Section Writei.
Context `{DiskOk} `{KL : KernelLayout} (i : nat) (st : Z) (bl : list Z) (hs : list held) (ip : nat) (x : inode) (K : Z).
Context (sb : superblock) (s : kstate) (off : Z) (l : list Z) (tr : list (kstate -> kstate)).
Context (Hs : in_txn i st bl hs s) (Hx : k_inodes s !! ip = Some x) (Hdev : i_dev x = ROOTDEV) (Hsb : k_sb s = sb).
Context (Hf : file_map hs x s K) (HK : K <= MAXFILE) (Hp : inode_place sb hs x s K) (Hok : dinode_ok (dinode_of x)).
Context (Hoff : 0 <= off <= i_size x) (Hend : off + Z.of_nat (length l) <= K * BSIZE).
Context (Hroom : Z.of_nat (length hs) + Z.of_nat (length bl) + blocks_spanned off (Z.of_nat (length l)) + 1 < 30).

Definition new_size : Z := Z.max (i_size x) (off + Z.of_nat (length l)).

Lemma writei_run :
  runs (writei ip (S_var l) off (Z.of_nat (length l))) s tr (fun r s' => r = Z.of_nat (length l) /\
    exists s1 s2, wrote_file i st hs x K bl s off (blocks_spanned off (Z.of_nat (length l))) l s1 /\
      s2 = s1 <| k_inodes := <[ip := resized new_size x]> (k_inodes s) |> /\
      moves [(IBLOCK (i_inum x) sb, put_dinode (view s1 (IBLOCK (i_inum x) sb)) (dinode_off (i_inum x)) (dinode_of (resized new_size x)))] [] s2 s' /\
      exists bl', in_txn i st bl' hs s' /\ Z.of_nat (length bl') <= Z.of_nat (length bl) + blocks_spanned off (Z.of_nat (length l)) + 1).
Proof.
  set (n := Z.of_nat (length l)) in *. unfold writei. rstep (runs_get_inode ip x tr s Hx) as [-> ->].
  change MAXFILE with 268 in *. change BSIZE with 1024 in *. destruct Hok as [_ _ _ _ Hsize _ _]. cbn in Hsize.
  assert (Eu : u32 (off + n) = off + n) by (unfold u32; rewrite Z.mod_small; lia). rewrite Eu.
  rewrite (proj2 (orb_false_iff _ _)) by (split; lia). rewrite (proj2 (Z.ltb_ge _ _)) by lia.
  rstep (writei_loop_run i st hs ip x K tr Hdev HK (Z.to_nat (n / 1024 + 3)) s bl off n 0 l Hs Hx Hf) as [-> Hw]; try lia.
  { change BSIZE with 1024. lia. }
  { rewrite Z.sub_0_r. unfold blocks_spanned. change BSIZE with 1024 in *. destruct (n =? 0); dlia. }
  { rewrite Z.sub_0_r. lia. }
  rewrite Z.sub_0_r in *. pose proof Hw as ((bl1 & T1 & L1) & _ & _ & _ & U & M1 & _). rename s' into s1.
  pose proof (moves_inodes _ _ _ M1) as Hi1. assert (Hx1 : k_inodes s1 !! ip = Some x) by (by rewrite Hi1).
  rstep (runs_get_inode ip x tr s1 Hx1) as [-> ->].
  set (s2 := s1 <| k_inodes := <[ip := resized new_size x]> (k_inodes s) |>).
  assert (Hlt : (ip < length (k_inodes s))%nat) by (by eapply lookup_lt_Some).
  rstep (runs_det _ _ _ tt s2) as [-> ->].
  { unfold when. destruct (Z.ltb_spec (i_size x) (off + n)).
    - unfold upd_inode, modify. f_equal. unfold s2, new_size. rewrite Z.max_r by lia.
      destruct s1. cbn in *. rewrite Hi1. f_equal. exact (alter_insert _ _ ip x Hx).
    - unfold kret. f_equal. unfold s2, new_size. rewrite Z.max_l by lia. replace (resized (i_size x) x) with x by (by destruct x).
      rewrite list_insert_id by done. destruct s1. cbn in *. by rewrite Hi1. }
  assert (T2 : in_txn i st bl1 hs s2) by (by apply (in_txn_inodes i st bl1 hs s1 (fun _ => <[ip := resized new_size x]> (k_inodes s)))).
  assert (Hx2 : k_inodes s2 !! ip = Some (resized new_size x)) by (cbn; by apply list_lookup_insert_eq).
  rstep (iupdate_run i st bl1 hs s2 ip (resized new_size x) sb tr T2 Hx2 Hdev) as [T3 M3].
  { exact (eq_trans (moves_sb _ _ _ M1) Hsb). } { apply Hp. } { apply Hp. } { lia. }
  apply runs_ret. split; [done|]. exists s1, s2. split; [done|]. split; [done|]. split; [done|].
  eexists. split; [done|]. pose proof (length_logged bl1 (IBLOCK (i_inum (resized new_size x)) sb)). fold n. lia.
Qed.

Lemma writei_effect :
  runs (writei ip (S_var l) off (Z.of_nat (length l))) s tr (fun r s' =>
    r = Z.of_nat (length l) /\ (exists bl', in_txn i st bl' hs s' /\ Z.of_nat (length bl') <= Z.of_nat (length bl) + blocks_spanned off (Z.of_nat (length l)) + 1) /\
    let x' := resized (Z.max (i_size x) (off + Z.of_nat (length l))) x in
    k_inodes s' = <[ip := x']> (k_inodes s) /\ disk_inode sb s' (i_inum x) = dinode_of x' /\
    (forall j, 0 <= j < K * BSIZE -> file_byte x' s' j =
      if decide (off <= j < off + Z.of_nat (length l)) then nth (Z.to_nat (j - off)) l 0 else file_byte x s j) /\
    (forall m, m <> IBLOCK (i_inum x) sb -> (forall k, 0 <= k < K -> m <> block_of x s k) -> view s' m = view s m) /\
    file_map hs x' s' K /\ inode_place sb hs x' s' K /\ k_sb s' = sb).
Proof.
  rlast writei_run as (-> & s1 & s2 & Hw & -> & M2 & Hbl).
  destruct Hw as (_ & Ho & Hf1 & Hb1 & U & M1 & HU). set (n := IBLOCK (i_inum x) sb) in *. fold new_size.
  pose proof (mv_view _ _ _ _ M1) as V1. pose proof (mv_view _ _ _ _ M2) as V2.
  assert (Hn1 : view s1 n = view s n).
  { rewrite V1. apply apply_writes_other. intros Hin. apply list_elem_of_fmap in Hin as (u & En & Hu).
    apply (proj1 (Forall_forall _ _) HU) in Hu as (k & Hk & E). apply (ip_blocks _ _ _ _ _ Hp k Hk). exact (eq_trans (eq_sym E) (eq_sym En)). }
  assert (Hp1 : inode_place sb hs x s1 K).
  { destruct Hp as [P1 P2 P3 P4 P5]. split; fold n; rewrite ?Hn1; try done. intros k Hk. rewrite Hb1 by done. by apply P5. }
  assert (Vn : forall m, m <> n -> view s' m = view s1 m) by (intros m Hm; rewrite V2; cbn [apply_writes]; by rewrite decide_False).
  destruct (file_map_frame sb hs x s1 s' K Hf1 Hp1 Vn) as [Hf2 Hb2].
  split; [done|]. split; [done|]. cbv zeta. split; [exact (moves_inodes _ _ _ M2)|]. split; [|split; [|split; [|split; [|split]]]].
  - unfold disk_inode. fold n. rewrite V2, apply_one, Hn1. apply get_put_dinode.
    + destruct Hok as [H1 H2 H3 H4 H5 H6 H7]. split; try done. unfold new_size. change MAXFILE with 268 in *. change BSIZE with 1024 in *. cbn in *. lia.
    + pose proof (ip_len _ _ _ _ _ Hp) as Hlen. fold n in Hlen. rewrite Hlen. apply dinode_off_lt.
  - intros j Hj. change (file_byte (resized new_size x)) with (file_byte x). rewrite <- Ho by done.
    apply (file_byte_frame hs x s1 s' K n Hf1).
    + intros m Hm. rewrite V2. cbn [apply_writes]. by rewrite decide_False.
    + intros k Hk. rewrite Hb1 by done. by apply (ip_blocks _ _ _ _ _ Hp).
    + apply Hp.
    + done.
  - intros m Hm Hfile. rewrite V2. cbn [apply_writes]. rewrite decide_False by done. etransitivity; [exact (V1 m)|].
    apply apply_writes_other. intros Hin. apply list_elem_of_fmap in Hin as (u & -> & Hu).
    apply (proj1 (Forall_forall _ _) HU) in Hu as (k & Hk & E). by apply (Hfile k Hk).
  - by apply file_map_resized.
  - apply inode_place_resized. destruct Hp1 as [P1 P2 P3 P4 P5]. split; try done.
    + fold n. rewrite V2, apply_one. rewrite length_put_dinode by apply Hok. exact P3.
    + intros k Hk. rewrite Hb2 by done. by apply P5.
  - exact (eq_trans (moves_sb _ _ _ M2) (eq_trans (moves_sb _ _ _ M1) Hsb)).
Qed.
End Writei.


(** ** Writing three bytes over the end of the file of the small file system *)
#[local] Existing Instance demo_layout.

Lemma demo_file_map : file_map [] demo_a demo_open_files 1.
Proof.
  split.
  - intros k Hk. apply demo_mapped; [by right|lia].
  - intros j k Hj Hk _. lia.
  - intros k _ HF. by vm_compute in HF.
Qed.

Lemma demo_inode_place : inode_place demo_sb [] demo_a demo_open_files 1.
Proof.
  destruct demo_open_files_ok as (_ & _ & Hv). split; [constructor|exact demo_iblock|rewrite Hv; vm_compute; reflexivity|by vm_compute|].
  intros k Hk. replace k with 0 by lia. by vm_compute.
Qed.

