(* ===== verification/FsDir.v ===== *)
(** * Adding an entry to a directory (kernel/fs.c: dirlink)

    A directory is the sequence of its entries; [dirlink] writes one into the
    first free slot, or past the last entry.  The result is the directory with
    that name added: a lookup of the name finds the new entry and a lookup of
    any other name finds what it found before. *)

From stdpp Require Import prelude list strings gmap.
From Stdlib Require Import ZArith Lia ZifyBool.
From S2P Require Import Prelude State Spinlock CString Kalloc Proc Vm Uaccess Sleeplock Bio Cache Blocks Log Fs FsData FsBlocks FsInode FsFile FsWrite.
Local Open Scope Z_scope.

(** ** The first number below a bound with a property *)
Section First.
Context (P : nat -> Prop) `{forall k, Decision (P k)}.

Definition first_below (n : nat) : option nat := snd <$> list_find P (seq 0 n).

Lemma first_some n k : first_below n = Some k <-> (k < n)%nat /\ P k /\ forall j, (j < k)%nat -> ~ P j.
Proof.
  unfold first_below. split.
  - intros E. apply fmap_Some in E as ([a b] & E & ->). apply list_find_Some in E as (Ha & HP & Hn).
    apply lookup_seq in Ha as [E Ha]. cbn in E |- *. subst b. split; [done|]. split; [done|].
    intros j Hj. apply (Hn j j); [|done]. apply lookup_seq. lia.
  - intros (Hk & HP & Hn). apply fmap_Some. exists (k, k). split; [|done]. apply list_find_Some.
    split; [apply lookup_seq; lia|]. split; [done|]. intros j y Hy Hj. apply lookup_seq in Hy as [-> _]. by apply Hn.
Qed.

Lemma first_none n : first_below n = None <-> forall j, (j < n)%nat -> ~ P j.
Proof.
  unfold first_below. rewrite fmap_None, list_find_None, Forall_forall. split.
  - intros Hn j Hj. apply Hn, elem_of_seq. lia.
  - intros Hn j Hj. apply Hn. apply elem_of_seq in Hj. lia.
Qed.
End First.

(** Looking two properties up that agree except at numbers that have neither. *)
Lemma first_agree (P Q : nat -> Prop) `{forall k, Decision (P k), forall k, Decision (Q k)} n m :
  (forall j, (j < n)%nat -> P j -> (j < m)%nat /\ Q j) -> (forall j, (j < m)%nat -> Q j -> (j < n)%nat /\ P j) ->
  first_below P n = first_below Q m.
Proof.
  intros HPQ HQP. symmetry. destruct (first_below P n) as [k|] eqn:E.
  - apply first_some in E as (Hk & HP & Hn). apply first_some. destruct (HPQ k Hk HP) as [Hm HQ].
    split; [done|]. split; [done|]. intros j Hj Hq. apply (Hn j Hj). apply HQP; [lia|done].
  - apply first_none. intros j Hj Hq. rewrite first_none in E. destruct (HQP j Hj Hq) as [Hn HP]. by apply (E j).
Qed.

(** ** An entry as bytes *)
Section Entry.
Context (inum : Z) (name : list Z).
Definition new_entry : list Z := mkdirent inum (strncpy (replicate DIRSIZ 0) (reads name) DIRSIZ).

Lemma length_new_entry : length new_entry = 16%nat.
Proof.
  unfold new_entry, mkdirent. rewrite length_put16, length_app. unfold strncpy. by rewrite length_strncpy_from, !length_replicate.
Qed.

Lemma new_entry_inum : 0 < inum < 2 ^ 16 -> de_inum new_entry = inum.
Proof.
  intros Hi. unfold de_inum, new_entry, mkdirent. rewrite get16_put16.
  - unfold u16. by rewrite Z.mod_small by lia.
  - rewrite length_app. unfold strncpy. rewrite length_strncpy_from, !length_replicate. unfold DIRSIZ. lia.
Qed.

(** A name stored in an entry is the name, on its first [DIRSIZ] bytes. *)
Lemma new_entry_name : cstrn (reads (de_name new_entry)) DIRSIZ = cstrn (reads name) DIRSIZ.
Proof.
  rewrite <- (strncpy_from_cstrn (replicate DIRSIZ 0) (reads name) DIRSIZ) by (by rewrite length_replicate).
  unfold new_entry, mkdirent, de_name, put16. set (t := strncpy _ _ _). reflexivity.
Qed.
End Entry.

(** The first free entry of a directory, or the one past its end. *)
Definition free_slot (x : inode) (s : kstate) : nat :=
  default (dir_count (i_size x)) (first_below (fun k => de_inum (dir_entry x s k) = 0) (dir_count (i_size x))).

Lemma free_slot_spec x s :
  (free_slot x s <= dir_count (i_size x))%nat /\
  ((free_slot x s < dir_count (i_size x))%nat -> de_inum (dir_entry x s (free_slot x s)) = 0).
Proof.
  unfold free_slot. destruct (first_below _ _) as [k|] eqn:E; cbn; [|lia].
  apply first_some in E as (? & ? & _). split; [lia|done].
Qed.

Lemma dir_find_first x s name : dir_find x s name = first_below (entry_matches x s name) (dir_count (i_size x)).
Proof. reflexivity. Qed.

(** ** The directory with the entry added *)
Section Added.
Context (x x' : inode) (s s' : kstate) (K inum : Z) (name : list Z).
Context (Hsize : 0 <= i_size x <= K * BSIZE) (Hmul : i_size x mod DIRENT_SIZE = 0) (Hinum : 0 < inum < 2 ^ 16).
Let k := free_slot x s.
Context (Hend : Z.of_nat k * DIRENT_SIZE + DIRENT_SIZE <= K * BSIZE).
Context (Hsize' : i_size x' = Z.max (i_size x) (Z.of_nat k * DIRENT_SIZE + DIRENT_SIZE)).
Context (Hbytes : forall j, 0 <= j < K * BSIZE -> file_byte x' s' j =
  if decide (Z.of_nat k * DIRENT_SIZE <= j < Z.of_nat k * DIRENT_SIZE + DIRENT_SIZE)
  then nth (Z.to_nat (j - Z.of_nat k * DIRENT_SIZE)) (new_entry inum name) 0 else file_byte x s j).

Lemma added_entry : dir_entry x' s' k = new_entry inum name.
Proof.
  apply list_eq_same_length with 16%nat; [apply length_new_entry|apply length_file_bytes|].
  intros j a b Hj Ha Hb. unfold dir_entry in Ha. change DIRENT_SIZE with 16 in *.
  rewrite lookup_file_bytes in Ha by lia. injection Ha as <-. rewrite Hbytes, decide_True by lia.
  replace (Z.to_nat _) with j by lia. by apply nth_lookup_Some.
Qed.

Lemma kept_entry j : j <> k -> Z.of_nat j * DIRENT_SIZE + DIRENT_SIZE <= K * BSIZE -> dir_entry x' s' j = dir_entry x s j.
Proof.
  intros Hj Hle. unfold dir_entry, file_bytes. apply list_fmap_ext. intros m y Hy. apply lookup_seq in Hy as [-> Hm].
  change DIRENT_SIZE with 16 in *. rewrite Hbytes, decide_False by lia. done.
Qed.

Lemma added_count : dir_count (i_size x') = Nat.max (dir_count (i_size x)) (S k).
Proof. rewrite Hsize'. unfold dir_count. change DIRENT_SIZE with 16 in *. change BSIZE with 1024 in *. dlia. Qed.

Lemma count_fits j : (j < dir_count (i_size x))%nat -> Z.of_nat j * DIRENT_SIZE + DIRENT_SIZE <= K * BSIZE.
Proof. unfold dir_count. change DIRENT_SIZE with 16 in *. change BSIZE with 1024 in *. dlia. Qed.

Lemma added_matches nm j : j <> k -> (j < dir_count (i_size x))%nat -> entry_matches x' s' nm j <-> entry_matches x s nm j.
Proof. intros Hj Hlt. unfold entry_matches. by rewrite kept_entry by (done || by apply count_fits). Qed.

(** The numbers below the new count: the old ones and [k]. *)
Lemma below_added j : (j < dir_count (i_size x'))%nat <-> (j < dir_count (i_size x))%nat \/ j = k.
Proof. rewrite added_count. destruct (free_slot_spec x s) as [H1 _]. fold k in H1. lia. Qed.

Lemma added_find : dir_find x s name = None -> dir_find x' s' name = Some k.
Proof.
  rewrite !dir_find_first. intros Hno. rewrite first_none in Hno. apply first_some. split; [apply below_added; by right|]. split.
  - split; rewrite added_entry; [rewrite new_entry_inum by done; lia|]. by rewrite new_entry_name.
  - intros j Hj. destruct (free_slot_spec x s) as [Hle _]. fold k in Hle.
    rewrite added_matches by lia. apply Hno. lia.
Qed.

Lemma kept_find nm : cstrn (reads nm) DIRSIZ <> cstrn (reads name) DIRSIZ -> dir_find x' s' nm = dir_find x s nm.
Proof.
  intros Hne. destruct (free_slot_spec x s) as [Hle Hfree]. fold k in Hle, Hfree.
  rewrite !dir_find_first. apply first_agree.
  - intros j Hj Hm. destruct (decide (j = k)) as [->|Hjk].
    + destruct Hm as [_ Hm]. rewrite added_entry, new_entry_name in Hm. done.
    + apply below_added in Hj as [Hj|]; [|done]. split; [done|]. by apply added_matches.
  - intros j Hj Hm. split; [apply below_added; by left|]. destruct (decide (j = k)) as [->|Hjk].
    + destruct Hm as [Hm _]. by destruct Hm; apply Hfree.
    + by apply added_matches.
Qed.
End Added.

(** ** The search for a free entry *)
Section Scan.
Context `{DiskOk} `{KL : KernelLayout} (i : nat) (pins : gset Z) (hs : list held) (dp : nat) (x : inode).
Context (tr : list (kstate -> kstate)) (Hdev : i_dev x = ROOTDEV) (Hsz : (length hs + size pins < NBUF)%nat).
Context (Hsize : 0 <= i_size x <= MAXFILE * BSIZE) (Hmul : i_size x mod DIRENT_SIZE = 0).

(** The body of the loop. *)
Definition scan_body (k : nat) : Kern (option Z) :=
  let off := Z.of_nat k * DIRENT_SIZE in
  let! '(r, de) := readi dp D_var off DIRENT_SIZE in
  if negb (r =? DIRENT_SIZE) then panic "dirlink read" else
  if de_inum de =? 0 then kret (Some off) else kret None.

Lemma scan_loop n : forall k s, hold i pins hs s -> k_inodes s !! dp = Some x -> whole hs x s ->
  (k + n <= dir_count (i_size x))%nat ->
  runs (for_upto n k scan_body) s tr (fun r s' =>
    r = (fun p => Z.of_nat p.2 * DIRENT_SIZE) <$> list_find (fun j => de_inum (dir_entry x s j) = 0) (seq k n) /\
    hold i pins hs s' /\ quiet [] [] s s').
Proof.
  induction n as [|n IH]; intros k s Hs Hx Hw Hk; cbn [for_upto seq list_find].
  { apply runs_ret. split; [done|]. split; [done|]. split; [apply moves_refl|done]. }
  unfold scan_body at 1. rassoc. rstep (entry_read i pins hs dp x tr Hdev Hsz Hsize Hmul s k Hs Hx Hw) as (-> & H1 & Q1); [lia|].
  change (negb (DIRENT_SIZE =? DIRENT_SIZE)) with false. cbv iota. rename s' into s1.
  destruct (Z.eqb_spec (de_inum (dir_entry x s k)) 0) as [E|E].
  - rewrite decide_True by done. rstep (runs_kret (Some (Z.of_nat k * DIRENT_SIZE)) s1 tr) as [-> ->]. apply runs_ret. done.
  - rewrite decide_False by done. rstep (runs_kret (@None Z) s1 tr) as [-> ->].
    pose proof (quiet_ext _ _ Q1) as Hv.
    rlast (IH (S k) s1 H1) as (-> & H2 & Q2); [by rewrite (quiet_inodes _ _ _ _ Q1)| |lia|].
    { intros j Hj. by apply (mapped_ext x s s1 hs j Hv), Hw. }
    split; [|split; [done|by chain]].
    rewrite (list_find_ext' (fun j => de_inum (dir_entry x s1 j) = 0) (fun j => de_inum (dir_entry x s j) = 0)).
    + by destruct (list_find _ (seq (S k) n)) as [[j' j]|].
    + intros j _. by rewrite (dir_entry_ext x s s1 j Hv).
Qed.
End Scan.

(** ** The whole call *)
Lemma file_map_ext hs x s s' K : (forall m, view s' m = view s m) -> file_map hs x s K -> file_map hs x s' K.
Proof.
  intros Hv [F1 F2 F3]. split.
  - intros k Hk. by apply (mapped_ext x s s' hs k Hv), F1.
  - intros j k Hj Hk. rewrite !(block_of_ext x s s') by done. by apply F2.
  - intros k Hk. rewrite (block_of_ext x s s') by done. by apply F3.
Qed.

Lemma inode_place_ext sb hs x s s' K : (forall m, view s' m = view s m) -> inode_place sb hs x s K -> inode_place sb hs x s' K.
Proof. intros Hv [P1 P2 P3 P4 P5]. split; rewrite ?Hv; try done. intros k Hk. rewrite (block_of_ext x s s') by done. by apply P5. Qed.

Lemma file_byte_ext x s s' j : (forall m, view s' m = view s m) -> file_byte x s' j = file_byte x s j.
Proof. intros Hv. unfold file_byte. by rewrite (block_of_ext x s s'), Hv. Qed.

Lemma free_slot_ext x s s' : (forall m, view s' m = view s m) -> free_slot x s' = free_slot x s.
Proof.
  intros Hv. unfold free_slot, first_below. do 2 f_equal. apply list_find_ext'. intros k _. by rewrite (dir_entry_ext x s s' k Hv).
Qed.

(** A directory of whole entries on its first [K] blocks, in a transaction. *)
Record open_dir (i : nat) (st : Z) (bl : list Z) (hs : list held) (dp : nat) (x : inode) (K : Z) (s : kstate) : Prop := {
  od_txn : in_txn i st bl hs s;
  od_inode : k_inodes s !! dp = Some x;
  od_dev : i_dev x = ROOTDEV;
  od_type : i_type x = T_DIR;
  od_ok : dinode_ok (dinode_of x);
  od_map : file_map hs x s K;
  od_max : K <= MAXFILE;
  od_place : inode_place (k_sb s) hs x s K;
  od_size : 0 <= i_size x <= K * BSIZE;
  od_entries : i_size x mod DIRENT_SIZE = 0 }.

Section Link.
Context `{DiskOk} `{KL : KernelLayout} (i : nat) (st : Z) (bl : list Z) (hs : list held) (dp : nat) (x : inode) (K : Z).
Context (tr : list (kstate -> kstate)) (Hroom : (length hs + length bl + 2 < 30)%nat).

Lemma open_dir_whole s : open_dir i st bl hs dp x K s -> whole hs x s.
Proof.
  intros D k Hk. apply (fm_mapped _ _ _ _ (od_map _ _ _ _ _ _ _ _ D)). pose proof (od_size _ _ _ _ _ _ _ _ D).
  change BSIZE with 1024 in *. dlia.
Qed.

Lemma open_dir_quiet s s' : open_dir i st bl hs dp x K s -> hold i (list_to_set bl) hs s' -> quiet [] [] s s' ->
  open_dir i st bl hs dp x K s'.
Proof.
  intros [D1 D2 D3 D4 D5 D6 D7 D8 D9 D10] H1 Q1. pose proof (quiet_ext _ _ Q1) as Hv. split; try done.
  - by apply (in_txn_quiet i st bl hs s s').
  - by rewrite (quiet_inodes _ _ _ _ Q1).
  - by apply (file_map_ext hs x s s').
  - rewrite (moves_sb _ _ _ (proj1 Q1)). by apply (inode_place_ext _ hs x s s').
Qed.

Lemma link_pins s : open_dir i st bl hs dp x K s -> (length hs + size (list_to_set bl : gset Z) < NBUF)%nat.
Proof. intros D. rewrite size_pins by apply (od_txn _ _ _ _ _ _ _ _ D). unfold NBUF. lia. Qed.

(** The two searches: the name is not there, and the slot. *)
Lemma link_search s name inum : open_dir i st bl hs dp x K s -> dir_find x s name = None ->
  exists s1, open_dir i st bl hs dp x K s1 /\ quiet [] [] s s1 /\
    dirlink dp name inum s tr =
      (let! w := writei dp (S_var (new_entry inum name)) (Z.of_nat (free_slot x s) * DIRENT_SIZE) DIRENT_SIZE in
       if negb (w =? DIRENT_SIZE) then kret (-1) else kret 0) s1 tr.
Proof.
  intros D Hno. pose proof (link_pins s D) as Hpins. pose proof D as [D1 D2 D3 D4 D5 D6 D7 D8 D9 D10].
  assert (Hsize : 0 <= i_size x <= MAXFILE * BSIZE) by (change BSIZE with 1024 in *; lia).
  destruct (dirlookup_run i _ hs dp x name tr D3 Hpins Hsize D10 s (tx_hold _ _ _ _ _ D1) D2 D4 (open_dir_whole s D)) as (s1 & H1 & Q1 & E1).
  rewrite Hno in E1. pose proof (open_dir_quiet s s1 D H1 Q1) as Da.
  destruct (scan_loop i _ hs dp x tr D3 Hpins Hsize D10 (dir_count (i_size x)) 0 s1 H1 (od_inode _ _ _ _ _ _ _ _ Da)
    (open_dir_whole s1 Da)) as (r & s2 & E2 & -> & H2 & Q2); [lia|].
  exists s2. split; [by apply (open_dir_quiet s1)|]. split; [by chain|].
  unfold dirlink. kexact E1. kexact (get_inode_run s1 dp x tr (od_inode _ _ _ _ _ _ _ _ Da)). kexact E2.
  rewrite <- (free_slot_ext x s s1) by (by apply quiet_ext). unfold free_slot, first_below, new_entry.
  by destruct (list_find (fun j => de_inum (dir_entry x s1 j) = 0) _) as [[j' j]|].
Qed.

Definition linked (s : kstate) : inode :=
  resized (Z.max (i_size x) (Z.of_nat (free_slot x s) * DIRENT_SIZE + DIRENT_SIZE)) x.

(** The write of the entry. *)
Lemma link_write s1 k inum name : open_dir i st bl hs dp x K s1 -> (k <= dir_count (i_size x))%nat ->
  Z.of_nat k * DIRENT_SIZE + DIRENT_SIZE <= K * BSIZE ->
  let x' := resized (Z.max (i_size x) (Z.of_nat k * DIRENT_SIZE + DIRENT_SIZE)) x in
  runs (writei dp (S_var (new_entry inum name)) (Z.of_nat k * DIRENT_SIZE) DIRENT_SIZE) s1 tr (fun r s' =>
    r = DIRENT_SIZE /\ k_inodes s' = <[dp := x']> (k_inodes s1) /\ disk_inode (k_sb s1) s' (i_inum x) = dinode_of x' /\
    (forall j, 0 <= j < K * BSIZE -> file_byte x' s' j =
      if decide (Z.of_nat k * DIRENT_SIZE <= j < Z.of_nat k * DIRENT_SIZE + DIRENT_SIZE)
      then nth (Z.to_nat (j - Z.of_nat k * DIRENT_SIZE)) (new_entry inum name) 0 else file_byte x s1 j) /\
    k_sb s' = k_sb s1 /\
    exists bl', open_dir i st bl' hs dp x' K s' /\ (length bl' <= length bl + 2)%nat).
Proof.
  intros [D1 D2 D3 D4 D5 D6 D7 D8 D9 D10] Hk Hend. pose proof (length_new_entry inum name) as Hl.
  assert (Hspan : blocks_spanned (Z.of_nat k * 16) 16 = 1).
  { unfold blocks_spanned. change BSIZE with 1024. cbn [Z.eqb]. dlia. }
  assert (Hlen : Z.of_nat (length (new_entry inum name)) = DIRENT_SIZE) by (rewrite Hl; done). cbv zeta.
  assert (Hc : Z.of_nat k * DIRENT_SIZE <= i_size x) by (unfold dir_count in Hk; change DIRENT_SIZE with 16 in *; dlia).
  pose proof (writei_effect i st bl hs dp x K (k_sb s1) s1 (Z.of_nat k * DIRENT_SIZE) (new_entry inum name) tr D1 D2 D3 eq_refl D6 D7 D8 D5) as W.
  rewrite !Hlen in W. change DIRENT_SIZE with 16 in *. rewrite Hspan in W.
  rlast W as (-> & (bl' & T & L) & Hi & Hdk & Hb & _ & Hf & Hp & Hsb); [lia|lia|lia|].
  split; [done|]. split; [done|]. split; [done|]. split; [done|]. split; [done|]. exists bl'. split; [|lia].
  set (x' := resized _ x) in *.
  split; try done.
  - rewrite Hi. apply list_lookup_insert_eq. by eapply lookup_lt_Some.
  - destruct D5 as [A1 A2 A3 A4 A5 A6 A7]. split; try done. cbn in *. change MAXFILE with 268 in *. change BSIZE with 1024 in *. lia.
  - by rewrite Hsb.
  - cbn. lia.
  - cbn [x' resized i_size]. change DIRENT_SIZE with 16 in *. cbn. dlia.
Qed.
End Link.

(** C12. [dirlink] of a name the directory does not have, in a transaction with
    room and with space for the entry on the directory's blocks, returns 0.  The
    directory then has the name, in the first free entry or past the last one,
    with the inode number given; every other name finds the entry it found before,
    every other entry is unchanged, the inode on disk is the one in the table, and
    the state is ready for the next [dirlink]. *)
Theorem dirlink_spec `{DiskOk} `{KL : KernelLayout} i st bl hs dp x K name inum s tr :
  open_dir i st bl hs dp x K s -> (length hs + length bl + 2 < 30)%nat -> 0 < inum < 2 ^ 16 ->
  dir_find x s name = None -> let k := free_slot x s in
  Z.of_nat k * DIRENT_SIZE + DIRENT_SIZE <= K * BSIZE ->
  runs (dirlink dp name inum) s tr (fun r s' => r = 0 /\ let x' := linked x s in
    (exists bl', open_dir i st bl' hs dp x' K s' /\ (length bl' <= length bl + 2)%nat) /\
    k_inodes s' = <[dp := x']> (k_inodes s) /\ disk_inode (k_sb s) s' (i_inum x) = dinode_of x' /\
    dir_find x' s' name = Some k /\ de_inum (dir_entry x' s' k) = inum /\
    (forall nm, cstrn (reads nm) DIRSIZ <> cstrn (reads name) DIRSIZ -> dir_find x' s' nm = dir_find x s nm) /\
    forall j, j <> k -> (j < dir_count (i_size x))%nat -> dir_entry x' s' j = dir_entry x s j).
Proof.
  intros D Hroom Hinum Hno k Hend. pose proof (od_size _ _ _ _ _ _ _ _ D) as Hsz. pose proof (od_entries _ _ _ _ _ _ _ _ D) as Hmul.
  destruct (link_search i st bl hs dp x K tr Hroom s name inum D Hno) as (s1 & D1 & Q1 & E).
  pose proof (quiet_ext _ _ Q1) as Hv.
  destruct (link_write i st bl hs dp x K tr Hroom s1 k inum name D1 (proj1 (free_slot_spec x s)) Hend)
    as (r & s' & Ew & -> & Hi & Hdk & Hb & Hsb & D').
  exists 0, s'. split; [etransitivity; [exact E|]; by kexact Ew|]. split; [done|]. cbv zeta. fold (linked x s) in *.
  assert (Hb' : forall j, 0 <= j < K * BSIZE -> file_byte (linked x s) s' j = 
    if decide (Z.of_nat k * DIRENT_SIZE <= j < Z.of_nat k * DIRENT_SIZE + DIRENT_SIZE)
    then nth (Z.to_nat (j - Z.of_nat k * DIRENT_SIZE)) (new_entry inum name) 0 else file_byte x s j).
  { intros j Hj. rewrite <- (file_byte_ext x s s1 j Hv). by apply Hb. }
  split; [done|]. split; [by rewrite <- (quiet_inodes _ _ _ _ Q1)|].
  split; [by rewrite <- (moves_sb _ _ _ (proj1 Q1))|].
  split; [by apply (added_find x (linked x s) s s' K inum name)|].
  split; [etransitivity; [apply f_equal; by apply (added_entry x (linked x s) s s' K inum name)|by apply new_entry_inum]|].
  split; [intros nm; by apply (kept_find x (linked x s) s s' K inum name)|].
  intros j Hj Hlt. apply (kept_entry x (linked x s) s s' K inum name); try done. by eapply count_fits.
Qed.

(** ** Linking a third name in the root of the small file system *)
#[local] Existing Instance demo_layout.

Lemma demo_open_dir : open_dir 1 256 [] [] 0 demo_dir 1 demo_open_files.
Proof.
  destruct demo_open_files_ok as (H1 & Hsb & Hv). split; try done.
  - split; cbn; try (by repeat constructor); lia.
  - split; [intros k Hk; apply demo_mapped; [by left|lia]|intros; lia|intros k _ HF; by vm_compute in HF].
  - rewrite Hsb. split; [constructor|exact demo_iblock|rewrite Hv; vm_compute; reflexivity|by vm_compute|].
    intros k Hk. replace k with 0 by lia. by vm_compute.
Qed.

(** Both entries are used, and neither is called [b]. *)
Lemma demo_dir_full : free_slot demo_dir demo_open_files = 2%nat /\ dir_find demo_dir demo_open_files [98; 0] = None.
Proof.
  split.
  - unfold free_slot. rewrite (proj2 (first_none _ _)); [reflexivity|].
    intros [|[|j]] Hj; [rewrite demo_entry by lia; by vm_compute..|by vm_compute in Hj; lia].
  - rewrite dir_find_first. apply first_none. intros [|[|j]] Hj; [..|by vm_compute in Hj; lia];
      intros [_ HF]; rewrite demo_entry in HF by lia; vm_compute in HF; discriminate HF.
Qed.

Lemma dirlink_spec_witness :
  runs (dirlink 0 [98; 0] 3) demo_open_files [] (fun r s' => r = 0 /\
    i_size (linked demo_dir demo_open_files) = 48 /\
    dir_find (linked demo_dir demo_open_files) s' [98; 0] = Some 2%nat /\
    dir_find (linked demo_dir demo_open_files) s' [97; 0] = dir_find demo_dir demo_open_files [97; 0]).
Proof.
  destruct demo_dir_full as [Hk Hno].
  rlast (dirlink_spec 1 256 [] [] 0 demo_dir 1 [98; 0] 3 demo_open_files [] demo_open_dir) as (-> & _ & _ & _ & Hf & _ & Ho & _).
  - cbn. lia.
  - lia.
  - exact Hno.
  - rewrite Hk. by vm_compute.
  - split; [reflexivity|]. split; [unfold linked; by rewrite Hk|]. split; [by rewrite <- Hk|]. apply Ho. by vm_compute.
Defined.
