(* ===== verification/Mkfs.v ===== *)
(** * The program that makes the file system image (mkfs/mkfs.c)

    [mkfs_main] runs over the image file, as blocks, and the program's global
    variables.  The host's [lseek] and [write] on the image are taken to succeed;
    a [read] past its end returns short and makes the program die.  What the host
    gives for each argument is an argument of the model: whether [open] succeeds
    and the successive results of [read].  The host is little-endian. *)

From stdpp Require Import prelude list strings.
From Stdlib Require Import ZArith Lia ZifyBool.
From S2P Require Import Prelude State CString Log Fs.
Local Open Scope Z_scope.

(** ** Constants and global variables *)
Definition FSSIZE : Z := 2000.
Definition NINODES : Z := 200.
Definition nbitmap : Z := FSSIZE / BPB + 1.
Definition ninodeblocks : Z := NINODES / IPB + 1.
Definition nlog : Z := LOGBLOCKS + 1.
Definition nmeta : Z := 2 + nlog + ninodeblocks + nbitmap.
Definition nblocks : Z := FSSIZE - nmeta.

Record mkfs := mkmkfs {
  m_img : Z -> list Z;    (* the blocks of the file behind [fsfd] *)
  m_len : Z;              (* its length in blocks *)
  m_sb : superblock;
  m_freeinode : Z;
  m_freeblock : Z }.
#[export] Instance eta_mkfs : Eta mkfs :=
  fun m => mkmkfs (m_img m) (m_len m) (m_sb m) (m_freeinode m) (m_freeblock m).

Definition mkfs_init : mkfs := mkmkfs (fun _ => zero_block) 0 (mksb 0 0 0 0 0 0 0 0) 1 0.

Abbreviation MK := (K mkfs).

Definition die {A} (msg : string) : MK A := panic msg.
Definition assert_ (b : bool) : MK unit := if b then kret tt else panic "assert".

(** The bytes [a[0]], ..., [a[3]] read as a number of the host. *)
Definition xshort (x : Z) : Z := u8 x + u8 (x / 2 ^ 8) * 2 ^ 8.
Definition xint (x : Z) : Z := u8 x + u8 (x / 2 ^ 8) * 2 ^ 8 + u8 (x / 2 ^ 16) * 2 ^ 16 + u8 (x / 2 ^ 24) * 2 ^ 24.

(** ** Sectors *)
Definition upd_block (d : Z -> list Z) (n : Z) (b : list Z) : Z -> list Z := fun m => if decide (m = n) then b else d m.

(** The block [lseek(fsfd, sec * BSIZE, 0)] moves to. *)
Definition sector (sec : Z) : Z := u32 (sec * BSIZE) / BSIZE.

Definition wsect (sec : Z) (buf : list Z) : MK unit :=
  modify (fun m => m <| m_img := upd_block (m_img m) (sector sec) buf |> <| m_len := Z.max (m_len m) (sector sec + 1) |>).

Definition rsect (sec : Z) : MK (list Z) :=
  let! m := kget in
  if sector sec <? m_len m then kret (m_img m (sector sec)) else die "read".

(** ** Inodes *)
Definition winode (inum : Z) (ip : dinode) : MK unit :=
  let! sb := gets m_sb in
  let bn := IBLOCK inum sb in
  let! buf := rsect bn in
  wsect bn (put_dinode buf (dinode_off inum) ip).

Definition rinode (inum : Z) : MK dinode :=
  let! sb := gets m_sb in
  let bn := IBLOCK inum sb in
  let! buf := rsect bn in
  kret (get_dinode buf (dinode_off inum)).

Definition mkfs_ialloc (type : Z) : MK Z :=
  let! inum := gets m_freeinode in
  modify (fun m => m <| m_freeinode := u32 (inum + 1) |>) ;;
  winode inum (mkdinode (xshort type) 0 0 (xshort 1) (xint 0) (replicate 13 0)) ;;
  kret inum.

(** [buf[i / 8] | (0x1 << (i % 8))] for the blocks in use. *)
Definition bitmap_block (used : nat) : list Z :=
  foldl (fun buf i => <[(i / 8)%nat := u8 (Z.lor (byte_at buf (i / 8)) (Z.shiftl 1 (Z.of_nat i mod 8)))]> buf)
    zero_block (seq 0 used).

Definition mkfs_balloc (used : Z) : MK unit :=
  assert_ (used <? BPB) ;;
  let! sb := gets m_sb in
  wsect (sb_bmapstart sb) (bitmap_block (Z.to_nat used)).

(** ** Appending to a file *)
#[export] Instance eta_dinode : Eta dinode :=
  fun d => mkdinode (d_type d) (d_major d) (d_minor d) (d_nlink d) (d_size d) (d_addrs d).
Definition daddr (din : dinode) (k : Z) : Z := nth (Z.to_nat k) (d_addrs din) 0.
Definition set_daddr (k v : Z) (din : dinode) : dinode := din <| d_addrs ::= <[Z.to_nat k := v]> |>.

(** [freeblock++] *)
Definition next_block : MK Z :=
  let! b := gets m_freeblock in
  modify (fun m => m <| m_freeblock := u32 (b + 1) |>) ;;
  kret b.

(** The part of the loop body that finds the block, allocating it if need be. *)
Definition iappend_slot (din : dinode) (k : Z) : MK dinode :=
  if xint (daddr din k) =? 0 then
    let! b := next_block in
    kret (set_daddr k (xint b) din)
  else kret din.

Definition iappend_block (din : dinode) (fbn : Z) : MK (dinode * Z) :=
  if fbn <? NDIRECT then
    let! din := iappend_slot din fbn in
    kret (din, xint (daddr din fbn))
  else
    let! din := iappend_slot din NDIRECT in
    let! indirect := rsect (xint (daddr din NDIRECT)) in
    let! indirect :=
      if ind_get indirect (fbn - NDIRECT) =? 0 then
        let! b := next_block in
        let indirect := ind_put indirect (fbn - NDIRECT) (xint b) in
        wsect (xint (daddr din NDIRECT)) indirect ;;
        kret indirect
      else kret indirect in
    kret (din, xint (ind_get indirect (fbn - NDIRECT))).

(** [p] is what is left to append. *)
Fixpoint iappend_loop (fuel : nat) (din : dinode) (off : Z) (p : list Z) : MK (dinode * Z) :=
  match fuel with
  | O => hang
  | S fuel' =>
      let n := Z.of_nat (length p) in
      if n <=? 0 then kret (din, off) else
      let fbn := off / BSIZE in
      assert_ (fbn <? MAXFILE) ;;
      let! '(din, x) := iappend_block din fbn in
      let n1 := Z.min n ((fbn + 1) * BSIZE - off) in
      let! buf := rsect x in
      wsect x (splice buf (Z.to_nat (off - fbn * BSIZE)) (take (Z.to_nat n1) p)) ;;
      iappend_loop fuel' din (u32 (off + n1)) (drop (Z.to_nat n1) p)
  end.

(** An iteration fills a block or ends the data. *)
Definition iappend (inum : Z) (p : list Z) : MK unit :=
  let! din := rinode inum in
  let! '(din, off) := iappend_loop (Z.to_nat (Z.of_nat (length p) / BSIZE + 3)) din (xint (d_size din)) p in
  winode inum (din <| d_size := xint off |>).

(** ** main *)
Definition put_superblock (d : list Z) (sb : superblock) : list Z :=
  put_addrs d 0 [sb_magic sb; sb_size sb; sb_nblocks sb; sb_ninodes sb; sb_nlog sb; sb_logstart sb; sb_inodestart sb; sb_bmapstart sb].

Definition main_sb : superblock :=
  mksb FSMAGIC (xint FSSIZE) (xint nblocks) (xint NINODES) (xint nlog) (xint 2) (xint (2 + nlog)) (xint (2 + nlog + ninodeblocks)).

(** [strcpy] to the name of a cleared entry. *)
Definition dot_entry (inum : Z) (name : list Z) : list Z :=
  mkdirent (xshort inum) (name ++ [0] ++ drop (S (length name)) (replicate DIRSIZ 0)).

(** The name of an argument in the file system. *)
Definition USER_SLASH : list Z := [117; 115; 101; 114; 47].
Definition UNDERSCORE : Z := 95.
Definition strip_user (argv : list Z) : list Z :=
  if strncmp (reads argv) (reads USER_SLASH) 5 =? 0 then drop 5 argv else argv.
Definition strip_underscore (name : list Z) : list Z :=
  match name with c :: name' => if c =? UNDERSCORE then name' else name | [] => name end.
Definition shortname (argv : list Z) : list Z := strip_underscore (strip_user argv).

(** A command line argument: its name, and what [open] and [read] give: [None] if
    it cannot be opened, and else the buffers the reads return. *)
Definition arg : Type := list Z * option (list (list Z)).

Fixpoint append_all (inum : Z) (bufs : list (list Z)) : MK unit :=
  match bufs with
  | [] => kret tt
  | buf :: bufs' => iappend inum buf ;; append_all inum bufs'
  end.

Definition add_arg (rootino : Z) (a : arg) : MK unit :=
  assert_ (negb (bool_decide (SLASH ∈ strip_user a.1))) ;;
  match a.2 with
  | None => die "open"
  | Some bufs =>
      let name := shortname a.1 in
      assert_ (Z.of_nat (length name) <=? Z.of_nat DIRSIZ) ;;
      let! inum := mkfs_ialloc T_FILE in
      iappend rootino (mkdirent (xshort inum) (strncpy (replicate DIRSIZ 0) (reads name) DIRSIZ)) ;;
      append_all inum bufs
  end.

Fixpoint add_args (rootino : Z) (l : list arg) : MK unit :=
  match l with
  | [] => kret tt
  | a :: l' => add_arg rootino a ;; add_args rootino l'
  end.

Definition fix_root (rootino : Z) : MK unit :=
  let! din := rinode rootino in
  let off := xint (d_size din) in
  let off := u32 ((off / BSIZE + 1) * BSIZE) in
  winode rootino (din <| d_size := xint off |>).

(** [image] is [None] without an image argument, and else says whether the image
    file could be created. *)
Definition mkfs_main (image : option bool) (args : list arg) : MK unit :=
  match image with
  | None => die "usage"
  | Some false => die "open"
  | Some true =>
    modify (fun m => m <| m_len := 0 |> <| m_sb := main_sb |> <| m_freeblock := nmeta |>) ;;
    for_each (Z.to_nat FSSIZE) 0 (fun i => wsect (Z.of_nat i) zero_block) ;;
    wsect 1 (put_superblock zero_block main_sb) ;;
    let! rootino := mkfs_ialloc T_DIR in
    assert_ (rootino =? ROOTINO) ;;
    iappend rootino (dot_entry rootino [46]) ;;
    iappend rootino (dot_entry rootino [46; 46]) ;;
    add_args rootino args ;;
    fix_root rootino ;;
    let! used := gets m_freeblock in
    mkfs_balloc used
  end.
