(* ===== verification/MkfsRep.v ===== *)
(** * What an image holds (mkfs/mkfs.c: iappend)

    The blocks of a file of the image, and the relation between an inode and the
    bytes of its file.  Which file a block belongs to is recorded in a map from
    blocks to owners, so that no block has two. *)

From stdpp Require Import prelude list strings.
From Stdlib Require Import ZArith Lia ZifyBool.
From S2P Require Import Prelude State CString Log Fs FsData FsBlocks FsFile FsWrite Mkfs.
Local Open Scope Z_scope.

(** ** Machine words *)
Lemma xint_id x : 0 <= x < 2 ^ 32 -> xint x = x.
Proof. intros Hx. unfold xint, u8. dlia. Qed.

Lemma xshort_id x : 0 <= x < 2 ^ 16 -> xshort x = x.
Proof. intros Hx. unfold xshort, u8. dlia. Qed.

Lemma sector_id n : 0 <= n < FSSIZE -> sector n = n.
Proof.
  intros Hn. unfold sector, u32. change FSSIZE with 2000 in *. change BSIZE with 1024. rewrite Z.mod_small by lia. by apply Z.div_mul.
Qed.

Lemma upd_block_eq d n b : upd_block d n b n = b.
Proof. unfold upd_block. by rewrite decide_True. Qed.
Lemma upd_block_ne d n b m : m <> n -> upd_block d n b m = d m.
Proof. intros Hm. unfold upd_block. by rewrite decide_False. Qed.

Lemma daddr_set din k j v : length (d_addrs din) = 13%nat -> 0 <= k < 13 -> 0 <= j ->
  daddr (set_daddr k v din) j = if decide (j = k) then v else daddr din j.
Proof.
  intros Hl Hk Hj. unfold daddr, set_daddr. etransitivity; [apply (byte_at_insert (d_addrs din) (Z.to_nat j) (Z.to_nat k) v); lia|].
  destruct (decide (j = k)); [by rewrite decide_True by lia|by rewrite decide_False by lia].
Qed.

Lemma set_daddr_ok k v din : dinode_ok din -> 0 <= v < 2 ^ 32 -> dinode_ok (set_daddr k v din).
Proof.
  intros [H1 H2 H3 H4 H5 H6 H7] Hv. split; try done; cbn; [by rewrite length_insert|]. by apply Forall_insert.
Qed.

Lemma daddr_range din k : dinode_ok din -> 0 <= daddr din k < 2 ^ 32.
Proof.
  intros Hok. unfold daddr. rewrite nth_lookup. destruct (d_addrs din !! Z.to_nat k) as [a|] eqn:E; cbn; [|lia].
  by apply (Forall_lookup_1 _ _ _ _ (dk_range _ Hok) E).
Qed.

Lemma ind_get_put d k j v : length d = 1024%nat -> 0 <= k < 256 -> 0 <= j -> 0 <= v < 2 ^ 32 ->
  ind_get (ind_put d k v) j = if decide (j = k) then v else ind_get d j.
Proof.
  intros Hd Hk Hj Hv. unfold ind_get, ind_put. destruct (decide (j = k)) as [->|Hne].
  - rewrite get32_put32 by lia. unfold u32. by rewrite Z.mod_small.
  - apply get32_put32_other; lia.
Qed.

Lemma nth_zeros n k : nth k (replicate n 0) 0 = 0.
Proof. rewrite nth_lookup. destruct (replicate n 0 !! k) as [a|] eqn:E; [|done]. by apply lookup_replicate in E as [-> _]. Qed.

Lemma byte_at_zero n : byte_at zero_block n = 0.
Proof. apply nth_zeros. Qed.

Lemma ind_get_zero j : ind_get zero_block j = 0.
Proof. unfold ind_get, get32. by rewrite !byte_at_zero. Qed.

(** ** The blocks of a file *)
Definition dblock (di : dinode) (d : Z -> list Z) (k : Z) : Z :=
  if k <? NDIRECT then daddr di k else ind_get (d (daddr di NDIRECT)) (k - NDIRECT).
Definition dbyte (di : dinode) (d : Z -> list Z) (j : Z) : Z :=
  byte_at (d (dblock di d (j / BSIZE))) (Z.to_nat (j mod BSIZE)).

(** The owner of a block: a file and the number of the block in it, -1 for the
    indirect block. *)
Definition owners : Type := Z -> option (nat * Z).
Definition give (b : Z) (o : nat * Z) (own : owners) : owners := fun a => if decide (a = b) then Some o else own a.

(** [di] describes file [i], of [nb] blocks and, if [ind], an indirect one; its
    bytes are those of [c], and zeros up to the end of its last block. *)
Record file_rep (d : Z -> list Z) (own : owners) (i : nat) (di : dinode) (nb : Z) (ind : bool) (c : list Z) : Prop := {
  fr_ok : dinode_ok di;
  fr_nb : 0 <= nb <= MAXFILE;
  fr_big : NDIRECT < nb -> ind = true;
  fr_own : forall k, 0 <= k < nb -> own (dblock di d k) = Some (i, k);
  fr_free : forall k, nb <= k < NDIRECT -> daddr di k = 0;
  fr_ind : if ind then own (daddr di NDIRECT) = Some (i, -1) /\ length (d (daddr di NDIRECT)) = 1024%nat /\
      forall k, Z.max nb NDIRECT <= k < MAXFILE -> ind_get (d (daddr di NDIRECT)) (k - NDIRECT) = 0
    else daddr di NDIRECT = 0;
  fr_fit : Z.of_nat (length c) <= nb * BSIZE;
  fr_bytes : forall j, 0 <= j < nb * BSIZE -> dbyte di d j = nth (Z.to_nat j) c 0 }.

Lemma dblock_frame d d' own i di nb ind c : file_rep d own i di nb ind c ->
  (forall b k, own b = Some (i, k) -> d' b = d b) -> forall k, 0 <= k < nb -> dblock di d' k = dblock di d k.
Proof.
  intros [F1 F2 F3 F4 F5 F6 F7 F8] Hd k Hk. unfold dblock. destruct (Z.ltb_spec k NDIRECT); [done|].
  rewrite F3 in F6 by lia. destruct F6 as (F6 & _). by rewrite (Hd _ _ F6).
Qed.

(** A file depends on the blocks it owns only. *)
Lemma file_rep_frame d d' own own' i di nb ind c : file_rep d own i di nb ind c ->
  (forall b k, own b = Some (i, k) -> d' b = d b) -> (forall b k, own b = Some (i, k) -> own' b = Some (i, k)) ->
  file_rep d' own' i di nb ind c.
Proof.
  intros Hf Hd Ho. pose proof (dblock_frame _ _ _ _ _ _ _ _ Hf Hd) as Hb. destruct Hf as [F1 F2 F3 F4 F5 F6 F7 F8].
  split; try done.
  - intros k Hk. rewrite Hb by done. by apply Ho, F4.
  - destruct ind; [|done]. destruct F6 as (F6 & F6b & F6c). rewrite (Hd _ _ F6). auto.
  - intros j Hj. rewrite <- F8 by done. unfold dbyte.
    assert (Hk : 0 <= j / BSIZE < nb) by (change BSIZE with 1024 in *; dlia).
    rewrite Hb by done. by rewrite (Hd _ _ (F4 _ Hk)).
Qed.

(** ** Giving a block to a file *)
Lemma give_eq b o own : give b o own b = Some o.
Proof. unfold give. by rewrite decide_True. Qed.
Lemma give_old b o own a p : own b = None -> own a = Some p -> give b o own a = Some p.
Proof. intros Hb Ha. unfold give. rewrite decide_False; [done|]. intros ->. congruence. Qed.

Section Alloc.
Context (d : Z -> list Z) (own : owners) (i : nat) (di : dinode) (nb b : Z) (ind : bool) (c : list Z).
Context (Hf : file_rep d own i di nb ind c) (Hno : own b = None) (Hz : d b = zero_block) (Hb : 0 <= b < 2 ^ 32).

Lemma past_end j : nb * BSIZE <= j -> nth (Z.to_nat j) c 0 = 0.
Proof. intros Hj. apply nth_overflow. pose proof (fr_fit _ _ _ _ _ _ _ Hf). change BSIZE with 1024 in *. lia. Qed.

Lemma alloc_direct : nb < NDIRECT -> file_rep d (give b (i, nb) own) i (set_daddr nb b di) (nb + 1) ind c.
Proof.
  intros Hlt. pose proof past_end as Hpe. destruct Hf as [F1 F2 F3 F4 F5 F6 F7 F8]. change NDIRECT with 12 in *. change MAXFILE with 268 in *.
  pose proof (fun j => daddr_set di nb j b (dk_addrs _ F1)) as Ha.
  assert (Hk : forall k, 0 <= k < nb + 1 -> dblock (set_daddr nb b di) d k = if decide (k = nb) then b else dblock di d k).
  { intros k Hk. unfold dblock. change NDIRECT with 12. rewrite !(proj2 (Z.ltb_lt k 12)) by lia. by apply Ha; lia. }
  split; change NDIRECT with 12 in *; change MAXFILE with 268 in *.
  - by apply set_daddr_ok.
  - lia.
  - intros HH. apply F3. lia.
  - intros k Hk'. rewrite Hk by done. destruct (decide (k = nb)) as [->|]; [apply give_eq|]. apply give_old; [done|]. apply F4. lia.
  - intros k Hk'. rewrite Ha, decide_False by lia. apply F5. lia.
  - rewrite !Ha, !decide_False by lia. destruct ind; [|done]. destruct F6 as (E1 & E2 & E3).
    split; [by apply give_old|]. split; [done|]. intros k Hk'. apply E3. lia.
  - change BSIZE with 1024 in *. lia.
  - intros j Hj. unfold dbyte. rewrite Hk by (change BSIZE with 1024 in *; dlia).
    destruct (decide (j / BSIZE = nb)) as [E|E].
    + rewrite Hz, byte_at_zero, Hpe; [done|]. change BSIZE with 1024 in *. dlia.
    + apply F8. change BSIZE with 1024 in *. dlia.
Qed.

Lemma alloc_indirect : ind = false -> file_rep d (give b (i, -1) own) i (set_daddr NDIRECT b di) nb true c.
Proof.
  intros ->. destruct Hf as [F1 F2 F3 F4 F5 F6 F7 F8]. change NDIRECT with 12 in *. change MAXFILE with 268 in *.
  assert (Hnb : nb <= 12) by (destruct (Z.leb_spec nb 12); [done|]; by specialize (F3 ltac:(lia))).
  pose proof (fun j => daddr_set di 12 j b (dk_addrs _ F1)) as Ha.
  assert (Hk : forall k, 0 <= k < nb -> dblock (set_daddr 12 b di) d k = dblock di d k).
  { intros k Hk. unfold dblock. change NDIRECT with 12. rewrite !(proj2 (Z.ltb_lt k 12)) by lia. rewrite Ha, decide_False; [done|lia..]. }
  split; change NDIRECT with 12 in *; change MAXFILE with 268 in *; try done.
  - by apply set_daddr_ok.
  - intros k Hk'. rewrite Hk by done. by apply give_old, F4.
  - intros k Hk'. rewrite Ha, decide_False by lia. apply F5. lia.
  - rewrite !Ha, !decide_True by lia. split; [apply give_eq|]. rewrite Hz. split; [done|]. intros k _. apply ind_get_zero.
  - intros j Hj. rewrite <- F8 by done. unfold dbyte. rewrite Hk; [done|]. change BSIZE with 1024 in *. dlia.
Qed.

Lemma alloc_listed : ind = true -> NDIRECT <= nb < MAXFILE -> let a := daddr di NDIRECT in
  file_rep (upd_block d a (ind_put (d a) (nb - NDIRECT) b)) (give b (i, nb) own) i di (nb + 1) true c.
Proof.
  intros Hind Hlt a. pose proof past_end as Hpe. destruct Hf as [F1 F2 F3 F4 F5 F6 F7 F8]. rewrite Hind in F6. destruct F6 as (E1 & E2 & E3). fold a in E1, E2, E3.
  change NDIRECT with 12 in *. change MAXFILE with 268 in *. set (d' := upd_block _ _ _).
  assert (Hi : forall j, 0 <= j -> ind_get (d' a) j = if decide (j = nb - 12) then b else ind_get (d a) j).
  { intros j Hj. unfold d'. rewrite upd_block_eq. apply ind_get_put; lia. }
  assert (Hd : forall m, m <> a -> d' m = d m) by (intros m Hm; by apply upd_block_ne).
  assert (Hba : b <> a) by (intros ->; congruence).
  assert (Hk : forall k, 0 <= k < nb + 1 -> dblock di d' k = if decide (k = nb) then b else dblock di d k).
  { intros k Hk. unfold dblock. change NDIRECT with 12. fold a. destruct (Z.ltb_spec k 12).
    - by rewrite decide_False by lia.
    - rewrite Hi by lia. destruct (decide (k = nb)); [by rewrite decide_True by lia|by rewrite decide_False by lia]. }
  split; change NDIRECT with 12 in *; change MAXFILE with 268 in *; fold a; try done.
  - lia.
  - intros k Hk'. rewrite Hk by done. destruct (decide (k = nb)) as [->|]; [apply give_eq|]. apply give_old; [done|]. apply F4. lia.
  - intros k Hk'. apply F5. lia.
  - split; [by apply give_old|]. split.
    + unfold d'. rewrite upd_block_eq. unfold ind_put. by rewrite length_put32.
    + intros k Hk'. rewrite Hi, decide_False by lia. apply E3. lia.
  - change BSIZE with 1024 in *. lia.
  - intros j Hj. unfold dbyte. rewrite Hk by (change BSIZE with 1024 in *; dlia).
    destruct (decide (j / BSIZE = nb)) as [E|E].
    + rewrite Hd, Hz, byte_at_zero, Hpe; [done| |done]. change BSIZE with 1024 in *. dlia.
    + assert (Hj' : 0 <= j / BSIZE < nb) by (change BSIZE with 1024 in *; dlia).
      rewrite Hd; [apply F8; change BSIZE with 1024 in *; dlia|]. intros Ea. pose proof (F4 _ Hj') as Ho. rewrite Ea, E1 in Ho.
      injection Ho. lia.
Qed.
End Alloc.

(** ** Writing at the end of a file *)
Lemma append_bytes d own i di nb ind c p : file_rep d own i di nb ind c ->
  let off := Z.of_nat (length c) in let x := dblock di d (off / BSIZE) in
  off / BSIZE < nb -> off mod BSIZE + Z.of_nat (length p) <= BSIZE -> length (d x) = 1024%nat ->
  file_rep (upd_block d x (splice (d x) (Z.to_nat (off mod BSIZE)) p)) own i di nb ind (c ++ p).
Proof.
  intros [F1 F2 F3 F4 F5 F6 F7 F8] off x Hnb Hfit Hlen. set (d' := upd_block _ _ _).
  assert (Hoff : 0 <= off / BSIZE < nb) by (change BSIZE with 1024 in *; dlia).
  pose proof (F4 _ Hoff) as Hx. fold x in Hx.
  assert (Ha : ind = true -> daddr di NDIRECT <> x).
  { intros -> Ea. destruct F6 as (E1 & _). rewrite Ea, Hx in E1. injection E1. lia. }
  assert (Hk : forall k, 0 <= k < nb -> dblock di d' k = dblock di d k).
  { intros k Hk. unfold dblock. destruct (Z.ltb_spec k NDIRECT); [done|]. unfold d'. rewrite upd_block_ne; [done|]. apply Ha, F3. lia. }
  split; try done.
  - intros k Hk'. rewrite Hk by done. by apply F4.
  - destruct ind; [|done]. unfold d'. rewrite upd_block_ne by (by apply Ha). done.
  - rewrite length_app. change BSIZE with 1024 in *. dlia.
  - intros j Hj. unfold dbyte. assert (Hb : 0 <= j / BSIZE < nb) by (change BSIZE with 1024 in *; dlia). rewrite Hk by done.
    specialize (F8 j Hj). unfold dbyte in F8. destruct (decide (j / BSIZE = off / BSIZE)) as [E|E].
    + rewrite E in F8 |- *. unfold d'. fold x in F8 |- *. rewrite upd_block_eq, byte_at_splice by (change BSIZE with 1024 in *; dlia).
      change BSIZE with 1024 in *. destruct (decide _) as [Hin|Hin].
      * rewrite app_nth2 by dlia. f_equal. dlia.
      * rewrite F8. destruct (decide (j < off)) as [Hlt|Hge]; [by rewrite app_nth1 by lia|]. rewrite !nth_overflow; [done| |lia].
        rewrite length_app. dlia.
    + unfold d'. rewrite upd_block_ne.
      * rewrite F8. destruct (decide (j < off)) as [Hlt|Hge]; [by rewrite app_nth1 by lia|].
        rewrite !nth_overflow; [done| |lia]. rewrite length_app. change BSIZE with 1024 in *. dlia.
      * intros Ex. pose proof (F4 _ Hb) as Ho. rewrite Ex, Hx in Ho. injection Ho. lia.
Qed.
