(* ===== verification/MkfsSpec.v ===== *)
(** * The image mkfs makes (mkfs/mkfs.c)

    The image refines an abstract file system, a list of typed byte strings
    indexed by inode number: [mkfs_ialloc] adds an empty one, [iappend] appends to
    one, and the whole program builds a root directory that lists the arguments,
    and the arguments' contents. *)

From stdpp Require Import prelude list strings gmap.
From Stdlib Require Import ZArith Lia ZifyBool.
From S2P Require Import Prelude State CString Bio Cache Blocks Log Fs FsData FsBlocks FsFile FsWrite FsDir Mkfs MkfsRep.
Local Open Scope Z_scope.

(** The blocks of [c], and the blocks a file of [nb] blocks takes. *)
Definition nblk (c : list Z) : Z := (Z.of_nat (length c) + BSIZE - 1) / BSIZE.
Definition taken (nb : Z) : Z := nb + (if NDIRECT <? nb then 1 else 0).

(** The inode of file [i], number [i + 1]. *)
Definition inum_of (i : nat) : Z := Z.of_nat i + 1.
Definition inode_at (d : Z -> list Z) (i : nat) : dinode := get_dinode (d (IBLOCK (inum_of i) main_sb)) (dinode_off (inum_of i)).

Lemma main_sb_eq : main_sb = mksb FSMAGIC 2000 1953 200 31 2 33 46.
Proof. reflexivity. Qed.

Lemma iblock_at i : (i < 200)%nat -> IBLOCK (inum_of i) main_sb = inum_of i / 16 + 33 /\ 33 <= inum_of i / 16 + 33 < 46.
Proof.
  intros Hi. unfold IBLOCK, u32, inum_of. rewrite main_sb_eq. cbn [sb_inodestart]. change IPB with 16. split; [|dlia]. rewrite Z.mod_small; dlia.
Qed.

(** What is in the blocks before the data that hold no inodes: the superblock. *)
Definition meta_block (b : Z) : list Z := if b =? 1 then put_superblock zero_block main_sb else zero_block.

(** The inode of file [i] is on the image, with a type and a size, and the file's
    blocks hold [c]. *)
Definition holds (d : Z -> list Z) (own : owners) (i : nat) (t : Z) (c : list Z) (size : Z) : Prop :=
  let di := inode_at d i in
  file_rep d own i di (nblk c) (NDIRECT <? nblk c) c /\ d_type di = t /\ d_nlink di = 1 /\ d_size di = size.
Definition file_at (m : mkfs) (own : owners) (i : nat) (t : Z) (c : list Z) : Prop :=
  holds (m_img m) own i t c (Z.of_nat (length c)).

(** The image holds the files of [fs]; file [e], if any, is being changed. *)
Record rep (m : mkfs) (own : owners) (fs : list (Z * list Z)) (e : option nat) : Prop := {
  rp_len : m_len m = FSSIZE;
  rp_sb : m_sb m = main_sb;
  rp_sect : forall n, length (m_img m n) = 1024%nat;
  rp_free : nmeta <= m_freeblock m <= FSSIZE;
  rp_own : forall b o, own b = Some o -> nmeta <= b < m_freeblock m;
  rp_fresh : forall b, m_freeblock m <= b -> m_img m b = zero_block;
  rp_meta : forall b, 0 <= b < nmeta -> ~ (33 <= b < 46) -> m_img m b = meta_block b;
  rp_few : (length fs < 200)%nat;
  rp_inum : m_freeinode m = Z.of_nat (length fs) + 1;
  rp_files : forall i t c, fs !! i = Some (t, c) -> e <> Some i -> file_at m own i t c }.

(** ** The steps of the program *)
Definition wrote (n : Z) (b : list Z) (m : mkfs) : mkfs := m <| m_img := upd_block (m_img m) n b |>.
Definition bumped (m : mkfs) : mkfs := m <| m_freeblock := m_freeblock m + 1 |>.

Section Steps.
Context (own : owners) (fs : list (Z * list Z)) (tr : list (mkfs -> mkfs)).

Lemma rsect_run m n : m_len m = FSSIZE -> 0 <= n < FSSIZE -> runs (rsect n) m tr (fun a m' => a = m_img m n /\ m' = m).
Proof.
  intros Hl Hn. unfold rsect. rstep (runs_det kget m tr m m eq_refl) as [-> ->]. rewrite Hl, sector_id, (proj2 (Z.ltb_lt _ _)) by lia.
  apply runs_kret.
Qed.

Lemma wsect_run m n b : m_len m = FSSIZE -> 0 <= n < FSSIZE -> runs (wsect n b) m tr (fun _ m' => m' = wrote n b m).
Proof.
  intros Hl Hn. unfold wsect. eexists tt, _. split; [reflexivity|]. rewrite sector_id by done. unfold wrote.
  destruct m. cbn in *. rewrite Z.max_l by lia. done.
Qed.

Lemma next_run m : nmeta <= m_freeblock m <= FSSIZE -> runs next_block m tr (fun a m' => a = m_freeblock m /\ m' = bumped m).
Proof.
  intros Hm. unfold next_block. eexists _, _. split; [reflexivity|]. split; [done|]. unfold bumped, u32. cbn.
  rewrite Z.mod_small; [done|]. change FSSIZE with 2000 in *. change nmeta with 47 in *. lia.
Qed.

(** A file depends on its inode and on the blocks it owns. *)
Lemma holds_frame d d' own' i t c size : holds d own i t c size ->
  d' (IBLOCK (inum_of i) main_sb) = d (IBLOCK (inum_of i) main_sb) ->
  (forall b k, own b = Some (i, k) -> d' b = d b) -> (forall b k, own b = Some (i, k) -> own' b = Some (i, k)) ->
  holds d' own' i t c size.
Proof.
  intros (F & R) Hn Hd Ho. unfold holds, inode_at in *. rewrite Hn. split; [|done].
  by apply (file_rep_frame _ _ own own' _ _ _ _ _ F).
Qed.

Lemma rep_lt m e i t c : rep m own fs e -> fs !! i = Some (t, c) -> (i < 200)%nat.
Proof. intros R Hi. apply lookup_lt_Some in Hi. pose proof (rp_few _ _ _ _ R). lia. Qed.

(** Writing a data block of the file that is being changed. *)
Lemma rep_write m i n b k : rep m own fs (Some i) -> own n = Some (i, k) -> length b = 1024%nat -> rep (wrote n b m) own fs (Some i).
Proof.
  intros R Hn Hb. pose proof R as [R1 R2 R3 R4 R5 R6 R7 R8 R8' R9]. pose proof (R5 _ _ Hn) as Hr. unfold wrote.
  split; try done; cbn [m_img m_freeblock].
  - intros x. cbn. unfold upd_block. by destruct (decide _).
  - intros x Hx. cbn in *. rewrite upd_block_ne by lia. by apply R6.
  - intros x Hx Hi. cbn. rewrite upd_block_ne by lia. by apply R7.
  - intros j t c Hj Hne. pose proof (rep_lt m _ j t c R Hj) as Hlt. destruct (iblock_at j Hlt) as [Hib Hrg].
    apply (holds_frame (m_img m) _ own j t c _ (R9 j t c Hj Hne)).
    + cbn. rewrite upd_block_ne; [done|]. change nmeta with 47 in *. lia.
    + intros x k' Hx. cbn. rewrite upd_block_ne; [done|]. intros ->. rewrite Hn in Hx. congruence.
    + done.
Qed.

Lemma rep_fresh_none m e : rep m own fs e -> own (m_freeblock m) = None.
Proof. intros R. destruct (own (m_freeblock m)) eqn:E; [|done]. apply (rp_own _ _ _ _ R) in E. lia. Qed.

Lemma rep_give m i k : rep m own fs (Some i) -> m_freeblock m + 1 <= FSSIZE -> rep (bumped m) (give (m_freeblock m) (i, k) own) fs (Some i).
Proof.
  intros R Hlt. pose proof (rep_fresh_none m _ R) as Hno. pose proof R as [R1 R2 R3 R4 R5 R6 R7 R8 R8' R9]. unfold bumped. split; try done.
  - cbn. lia.
  - intros b o. unfold give. cbn. destruct (decide _) as [->|]; [lia|]. intros Ho. apply R5 in Ho. lia.
  - intros b Hb. cbn in *. apply R6. lia.
  - intros j t c Hj Hne. apply (holds_frame (m_img m) _ _ j t c _ (R9 j t c Hj Hne)); [done|done|].
    intros b k'. by apply give_old.
Qed.
End Steps.

(** ** Finding the block to append to *)
(** The fields of an inode other than its addresses. *)
Definition same_head (di di' : dinode) : Prop :=
  d_type di' = d_type di /\ d_nlink di' = d_nlink di /\ d_size di' = d_size di.
Lemma same_head_refl di : same_head di di.
Proof. done. Qed.
Lemma same_head_set k v di : same_head di (set_daddr k v di).
Proof. done. Qed.

(** File [i], with the inode [di], is being changed. *)
Record work (m : mkfs) (own : owners) (fs : list (Z * list Z)) (i : nat) (di : dinode) (nb : Z) (ind : bool) (c : list Z) : Prop := {
  wk_rep : rep m own fs (Some i);
  wk_file : file_rep (m_img m) own i di nb ind c }.

Section Block.
Context (fs : list (Z * list Z)) (i : nat) (c : list Z) (tr : list (mkfs -> mkfs)).

(** A block that has an owner is a data block. *)
Lemma owned_data m own e b o : rep m own fs e -> own b = Some o -> 0 <= b < FSSIZE /\ 0 < b /\ xint b = b.
Proof.
  intros R Hb. pose proof (rp_own _ _ _ _ R _ _ Hb). pose proof (rp_free _ _ _ _ R). change nmeta with 47 in *. change FSSIZE with 2000 in *.
  rewrite xint_id; lia.
Qed.

(** A fresh block goes to the file that is being changed. *)
Lemma fresh_block m own di nb ind : work m own fs i di nb ind c -> m_freeblock m + 1 <= FSSIZE ->
  let b := m_freeblock m in own b = None /\ m_img m b = zero_block /\ 0 <= b < 2 ^ 32 /\ xint b = b.
Proof.
  intros [R _] Hlt b. split; [by apply (rep_fresh_none own fs m (Some i))|]. split; [apply R; unfold b; lia|].
  pose proof (rp_free _ _ _ _ R) as Hf. fold b in Hf. change nmeta with 47 in *. change FSSIZE with 2000 in *. rewrite xint_id; lia.
Qed.

Lemma slot_direct_run m own di nb : work m own fs i di nb (NDIRECT <? nb) c -> nb < NDIRECT -> m_freeblock m + 1 <= FSSIZE ->
  runs (iappend_slot di nb) m tr (fun di' m' => same_head di di' /\ m_freeblock m' = m_freeblock m + 1 /\
    exists own', work m' own' fs i di' (nb + 1) (NDIRECT <? nb + 1) c).
Proof.
  intros W Hnb Hroom. pose proof W as [R F]. destruct (fresh_block m own di nb _ W Hroom) as (B1 & B2 & B3 & B4).
  unfold iappend_slot. rewrite (fr_free _ _ _ _ _ _ _ F) by lia. change (xint 0 =? 0) with true. cbv iota.
  rstep (next_run tr m (rp_free _ _ _ _ R)) as [-> ->]. rewrite B4. apply runs_ret. split; [apply same_head_set|]. split; [done|].
  eexists. split; [by apply (rep_give own fs m i nb)|]. rewrite (proj2 (Z.ltb_ge NDIRECT nb)) in F by lia.
  rewrite (proj2 (Z.ltb_ge NDIRECT (nb + 1))) by lia. by apply alloc_direct.
Qed.

Lemma slot_kept_run m own di nb ind k o : work m own fs i di nb ind c -> own (daddr di k) = Some o ->
  runs (iappend_slot di k) m tr (fun di' m' => di' = di /\ m' = m).
Proof.
  intros [R F] Hk. unfold iappend_slot. destruct (owned_data m own _ _ _ R Hk) as (_ & Hpos & ->). rewrite (proj2 (Z.eqb_neq _ _)) by lia.
  apply runs_kret.
Qed.

Lemma slot_indirect_run m own di nb ind : work m own fs i di nb ind c -> m_freeblock m + (if ind then 0 else 1) <= FSSIZE ->
  runs (iappend_slot di NDIRECT) m tr (fun di' m' => same_head di di' /\ m_freeblock m' = m_freeblock m + (if ind then 0 else 1) /\
    exists own', work m' own' fs i di' nb true c).
Proof.
  intros W Hroom. pose proof W as [R F]. pose proof (fr_ind _ _ _ _ _ _ _ F) as Fi. destruct ind.
  - rlast (slot_kept_run m own di nb _ NDIRECT _ W (proj1 Fi)) as [-> ->]. split; [done|]. split; [lia|]. by exists own.
  - destruct (fresh_block m own di nb _ W Hroom) as (B1 & B2 & B3 & B4). unfold iappend_slot. rewrite Fi.
    change (xint 0 =? 0) with true. cbv iota. rstep (next_run tr m (rp_free _ _ _ _ R)) as [-> ->]. rewrite B4. apply runs_ret.
    split; [apply same_head_set|]. split; [done|]. eexists. split; [by apply (rep_give own fs m i (-1))|]. by eapply alloc_indirect.
Qed.

(** The block behind the indirect block. *)
Definition listed_block (di : dinode) (fbn : Z) : MK (dinode * Z) :=
  let! indirect := rsect (xint (daddr di NDIRECT)) in
  let! indirect :=
    if ind_get indirect (fbn - NDIRECT) =? 0 then
      let! b := next_block in
      let indirect := ind_put indirect (fbn - NDIRECT) (xint b) in
      wsect (xint (daddr di NDIRECT)) indirect ;;
      kret indirect
    else kret indirect in
  kret (di, xint (ind_get indirect (fbn - NDIRECT))).

Lemma listed_run m own di nb fbn : work m own fs i di nb true c -> NDIRECT <= fbn < MAXFILE -> (nb = fbn \/ nb = fbn + 1) ->
  m_freeblock m + (fbn + 1 - nb) <= FSSIZE ->
  runs (listed_block di fbn) m tr (fun r m' => r = (di, dblock di (m_img m') fbn) /\ m_freeblock m' = m_freeblock m + (fbn + 1 - nb) /\
    exists own', work m' own' fs i di (fbn + 1) true c).
Proof.
  intros W Hfbn Hnb Hroom. pose proof W as [R F]. pose proof (fr_ind _ _ _ _ _ _ _ F) as (E1 & E2 & E3). set (a := daddr di NDIRECT) in *.
  destruct (owned_data m own _ _ _ R E1) as (Ha & _ & Ea). unfold listed_block. fold a. rewrite Ea.
  rstep (rsect_run tr m a (rp_len _ _ _ _ R) Ha) as [-> ->].
  assert (Ed : forall d, dblock di d fbn = ind_get (d a) (fbn - NDIRECT)) by (intros d; unfold dblock; by rewrite (proj2 (Z.ltb_ge _ _)) by lia).
  destruct Hnb as [-> | ->].
  - rewrite E3 by (change NDIRECT with 12 in *; lia). change (0 =? 0) with true. cbv iota. rassoc.
    destruct (fresh_block m own di fbn _ W ltac:(lia)) as (B1 & B2 & B3 & B4).
    rstep (next_run tr m (rp_free _ _ _ _ R)) as [-> ->]. rewrite B4. set (l := ind_put _ _ _).
    assert (Hl : length l = 1024%nat) by (unfold l, ind_put; by rewrite length_put32).
    rstep (wsect_run tr (bumped m) a l (rp_len _ _ _ _ R) Ha) as ->. rstep (runs_kret l _ tr) as [-> ->].
    assert (Hr : rep (wrote a l (bumped m)) (give (m_freeblock m) (i, fbn) own) fs (Some i)).
    { apply (rep_write _ fs _ i a l (-1)); [apply rep_give; [done|lia]|by apply give_old|done]. }
    assert (Hf : file_rep (upd_block (m_img m) a l) (give (m_freeblock m) (i, fbn) own) i di (fbn + 1) true c).
    { by apply (alloc_listed (m_img m) own i di fbn (m_freeblock m) true c F). }
    assert (Hx : dblock di (upd_block (m_img m) a l) fbn = ind_get l (fbn - NDIRECT)) by (by rewrite Ed, upd_block_eq).
    pose proof (fr_own _ _ _ _ _ _ _ Hf fbn ltac:(change NDIRECT with 12 in *; lia)) as Ho. rewrite Hx in Ho.
    destruct (owned_data _ _ _ _ _ Hr Ho) as (_ & _ & ->). apply runs_ret. split; [cbn; by rewrite Hx|]. split; [cbn; lia|].
    by exists (give (m_freeblock m) (i, fbn) own).
  - pose proof (fr_own _ _ _ _ _ _ _ F fbn ltac:(change NDIRECT with 12 in *; lia)) as Ho. rewrite Ed in Ho.
    destruct (owned_data _ _ _ _ _ R Ho) as (_ & Hpos & Ex). rewrite (proj2 (Z.eqb_neq _ _)) by lia.
    rstep (runs_kret (m_img m a) m tr) as [-> ->]. rewrite Ex. apply runs_ret. split; [by rewrite Ed|]. split; [lia|]. by exists own.
Qed.

Lemma iappend_block_run m own di : let fbn := Z.of_nat (length c) / BSIZE in
  work m own fs i di (nblk c) (NDIRECT <? nblk c) c -> fbn < MAXFILE ->
  m_freeblock m + taken (fbn + 1) - taken (nblk c) <= FSSIZE ->
  runs (iappend_block di fbn) m tr (fun r m' => exists di' own', r = (di', dblock di' (m_img m') fbn) /\ same_head di di' /\
    m_freeblock m' = m_freeblock m + taken (fbn + 1) - taken (nblk c) /\ work m' own' fs i di' (fbn + 1) (NDIRECT <? fbn + 1) c).
Proof.
  intros fbn W Hmax Hroom. pose proof W as [R F].
  assert (Hnb : nblk c = fbn \/ nblk c = fbn + 1) by (unfold nblk, fbn; change BSIZE with 1024; dlia).
  assert (H0 : 0 <= fbn) by (unfold fbn; change BSIZE with 1024; dlia). unfold iappend_block, taken in *.
  destruct (Z.ltb_spec fbn NDIRECT) as [Hd|Hd].
  - rewrite (proj2 (Z.ltb_ge NDIRECT (fbn + 1))) in Hroom |- * by lia. rewrite (proj2 (Z.ltb_ge NDIRECT (nblk c))) in Hroom |- * by lia.
    assert (Hfin : forall m' own' di', work m' own' fs i di' (fbn + 1) false c -> xint (daddr di' fbn) = dblock di' (m_img m') fbn).
    { intros m' own' di' [R' F']. pose proof (fr_own _ _ _ _ _ _ _ F' fbn ltac:(lia)) as Ho.
      destruct (owned_data _ _ _ _ _ R' Ho) as (_ & _ & E). unfold dblock in *. rewrite (proj2 (Z.ltb_lt _ _)) in * by lia. done. }
    destruct Hnb as [E|E]; rewrite E in *.
    + rstep (slot_direct_run m own di fbn W Hd ltac:(lia)) as (Hh & Hfb & own' & W').
      rewrite (proj2 (Z.ltb_ge NDIRECT (fbn + 1))) in W' by lia.
      apply runs_ret. exists a, own'. split; [by rewrite (Hfin s' own' a)|]. split; [done|]. split; [lia|done].
    + assert (Ho : own (daddr di fbn) = Some (i, fbn)).
      { pose proof (fr_own _ _ _ _ _ _ _ F fbn ltac:(lia)) as Ho. unfold dblock in Ho. by rewrite (proj2 (Z.ltb_lt _ _)) in Ho by lia. }
      rewrite (proj2 (Z.ltb_ge NDIRECT (fbn + 1))) in W by lia.
      rstep (slot_kept_run m own di _ _ fbn _ W Ho) as [-> ->].
      apply runs_ret. exists di, own. split; [by rewrite (Hfin m own di)|]. split; [done|]. split; [lia|done].
  - rewrite (proj2 (Z.ltb_lt NDIRECT (fbn + 1))) in Hroom |- * by lia.
    assert (Ei : (if NDIRECT <? nblk c then 1 else 0) = 1 - (if NDIRECT <? nblk c then 0 else 1)) by (by destruct (NDIRECT <? nblk c)).
    rstep (slot_indirect_run m own di _ _ W) as (Hh & Hfb & own1 & W1); [lia|]. fold (listed_block a fbn).
    rlast (listed_run s' own1 a (nblk c) fbn W1) as (-> & Hfb2 & own2 & W2); [lia|lia|lia|].
    exists a, own2. split; [done|]. split; [done|]. split; [lia|done].
Qed.
End Block.

(** ** The loop of iappend *)
Lemma taken_mono a b : a <= b -> taken a <= taken b.
Proof. intros Hab. unfold taken. destruct (Z.ltb_spec NDIRECT a), (Z.ltb_spec NDIRECT b); lia. Qed.

Lemma nblk_mono c p : nblk c <= nblk (c ++ p).
Proof. unfold nblk. rewrite length_app. change BSIZE with 1024. dlia. Qed.

Section Append.
Context (fs : list (Z * list Z)) (i : nat) (tr : list (mkfs -> mkfs)).

(** One block's worth of data. *)
Lemma append_chunk m own di c p : let fbn := Z.of_nat (length c) / BSIZE in let x := dblock di (m_img m) fbn in
  work m own fs i di (fbn + 1) (NDIRECT <? fbn + 1) c -> p <> [] -> Z.of_nat (length c) mod BSIZE + Z.of_nat (length p) <= BSIZE ->
  0 <= x < FSSIZE /\ nblk (c ++ p) = fbn + 1 /\
  work (wrote x (splice (m_img m x) (Z.to_nat (Z.of_nat (length c) mod BSIZE)) p) m) own fs i di (nblk (c ++ p)) (NDIRECT <? nblk (c ++ p)) (c ++ p).
Proof.
  intros fbn x [R F] Hp Hfit.
  assert (Hn : nblk (c ++ p) = fbn + 1).
  { unfold nblk, fbn. rewrite length_app. destruct p; [done|]. cbn [length] in *. change BSIZE with 1024 in *. dlia. }
  assert (H0 : 0 <= fbn) by (unfold fbn; change BSIZE with 1024; dlia).
  pose proof (fr_own _ _ _ _ _ _ _ F fbn ltac:(lia)) as Ho. fold x in Ho. pose proof (rp_sect _ _ _ _ R x) as Hlen.
  destruct (owned_data fs m own _ _ _ R Ho) as (Hx & _). rewrite Hn. split; [done|]. split; [done|]. split.
  - apply (rep_write own fs m i x _ fbn R Ho). rewrite length_splice; [done|]. rewrite Hlen. change BSIZE with 1024 in *. dlia.
  - apply append_bytes; [done|fold fbn; lia|done|done].
Qed.

Lemma iappend_loop_run fuel : forall m own di c p, work m own fs i di (nblk c) (NDIRECT <? nblk c) c ->
  blocks_spanned (Z.of_nat (length c)) (Z.of_nat (length p)) < Z.of_nat fuel ->
  nblk (c ++ p) <= MAXFILE -> m_freeblock m + taken (nblk (c ++ p)) - taken (nblk c) <= FSSIZE ->
  runs (iappend_loop fuel di (Z.of_nat (length c)) p) m tr (fun r m' => exists di' own', r = (di', Z.of_nat (length (c ++ p))) /\
    same_head di di' /\ m_freeblock m' = m_freeblock m + taken (nblk (c ++ p)) - taken (nblk c) /\
    work m' own' fs i di' (nblk (c ++ p)) (NDIRECT <? nblk (c ++ p)) (c ++ p)).
Proof.
  induction fuel as [|fuel IH]; intros m own di c p W Hfuel Hmax Hroom; cbn [iappend_loop].
  { unfold blocks_spanned in Hfuel. change BSIZE with 1024 in *. destruct (_ =? 0) eqn:E; [lia|]. exfalso. dlia. }
  destruct (Z.leb_spec (Z.of_nat (length p)) 0) as [Hd|Hd].
  { destruct p; [|cbn in Hd; lia]. rewrite app_nil_r in *. apply runs_ret. exists di, own. split; [done|]. split; [done|]. split; [lia|done]. }
  set (off := Z.of_nat (length c)) in *. set (n := Z.of_nat (length p)) in *. set (fbn := off / BSIZE) in *.
  set (n1 := Z.min n ((fbn + 1) * BSIZE - off)).
  assert (Hn1 : n1 = Z.min n (BSIZE - off mod BSIZE)) by (unfold n1, fbn; change BSIZE with 1024; dlia).
  assert (Hmod : off - fbn * BSIZE = off mod BSIZE) by (unfold fbn; change BSIZE with 1024; dlia).
  assert (Hr : 0 < n1 <= n /\ off mod BSIZE + n1 <= BSIZE) by (rewrite Hn1; change BSIZE with 1024; dlia).
  set (q := take (Z.to_nat n1) p). set (p' := drop (Z.to_nat n1) p). assert (Ep : p = q ++ p') by (unfold q, p'; by rewrite take_drop).
  assert (Hq : Z.of_nat (length q) = n1) by (unfold q; rewrite length_take; lia).
  assert (Hqne : q <> []) by (intros E; rewrite E in Hq; cbn in Hq; lia).
  assert (Hcq : nblk (c ++ q) = fbn + 1).
  { unfold nblk. rewrite length_app, Nat2Z.inj_add, Hq. fold off. unfold fbn. change BSIZE with 1024 in *. dlia. }
  assert (Hle : nblk (c ++ q) <= nblk (c ++ p)) by (rewrite Ep, app_assoc; apply nblk_mono). pose proof (taken_mono _ _ Hle) as Ht.
  rewrite Hcq in Hle, Ht. rewrite (proj2 (Z.ltb_lt fbn MAXFILE)) by lia. rstep (runs_kret tt m tr) as [-> ->].
  rstep (iappend_block_run fs i c tr m own di W ltac:(fold off fbn; lia) ltac:(fold off fbn; lia)) as (di1 & own1 & -> & Hh & Hfb & W1).
  rename s' into m1. fold off fbn in Hfb, W1 |- *.
  destruct (append_chunk m1 own1 di1 c q W1 Hqne ltac:(fold off; lia)) as (Hx & _ & W2). fold off fbn in Hx, W2.
  rstep (rsect_run tr m1 _ (rp_len _ _ _ _ (wk_rep _ _ _ _ _ _ _ _ W1)) Hx) as [-> ->]. fold q p'. rewrite Hmod.
  rstep (wsect_run tr m1 _ _ (rp_len _ _ _ _ (wk_rep _ _ _ _ _ _ _ _ W1)) Hx) as ->.
  replace (u32 (off + n1)) with (Z.of_nat (length (c ++ q))).
  2: { rewrite length_app, Nat2Z.inj_add, Hq. fold off. unfold u32. rewrite Z.mod_small; [done|]. change MAXFILE with 268 in *. change BSIZE with 1024 in *. dlia. }
  pose proof (blocks_step off n ltac:(lia) Hd) as Hst. cbv zeta in Hst. rewrite <- Hn1 in Hst. rewrite Ep, app_assoc in Hmax, Hroom |- *.
  rlast (IH _ own1 di1 (c ++ q) p' W2) as (di3 & own3 & -> & Hh3 & Hfb3 & W3).
  - rewrite length_app, Nat2Z.inj_add, Hq. fold off. replace (Z.of_nat (length p')) with (n - n1) by (unfold p'; rewrite length_drop; lia). lia.
  - done.
  - cbn [wrote m_freeblock]. rewrite Hcq. cbn. lia.
  - exists di3, own3. split; [done|]. split; [unfold same_head in *; intuition congruence|]. split; [cbn in Hfb3; rewrite Hcq in Hfb3; lia|done].
Qed.
End Append.

(** ** Inodes on the image *)
Lemma inode_at_other d i j di : (i < 200)%nat -> (j < 200)%nat -> i <> j -> length (d_addrs di) = 13%nat ->
  inode_at (upd_block d (IBLOCK (inum_of i) main_sb) (put_dinode (d (IBLOCK (inum_of i) main_sb)) (dinode_off (inum_of i)) di)) j = inode_at d j.
Proof.
  intros Hi Hj Hne Ha. destruct (iblock_at i Hi) as [Ei _], (iblock_at j Hj) as [Ej _]. unfold inode_at.
  destruct (decide (IBLOCK (inum_of j) main_sb = IBLOCK (inum_of i) main_sb)) as [E|E].
  - rewrite E, upd_block_eq. eapply get_dinode_outside; [by apply put_dinode_outside|]. apply dinode_off_ne.
    rewrite Ei, Ej in E. unfold inum_of in *. change IPB with 16. dlia.
  - by rewrite upd_block_ne.
Qed.

Section Inode.
Context (own : owners) (fs : list (Z * list Z)) (i : nat) (tr : list (mkfs -> mkfs)).
Context (Hi : (i < 200)%nat).
Let n := IBLOCK (inum_of i) main_sb.

Lemma iblock_range : 0 <= n < FSSIZE /\ 33 <= n < 46.
Proof. destruct (iblock_at i Hi) as [E Hr]. unfold n. rewrite E. change FSSIZE with 2000. lia. Qed.

Lemma rinode_run m : m_len m = FSSIZE -> m_sb m = main_sb -> runs (rinode (inum_of i)) m tr (fun di m' => di = inode_at (m_img m) i /\ m' = m).
Proof.
  intros Hl Hsb. unfold rinode. rstep (runs_gets m_sb m tr) as [-> ->]. rewrite Hsb. fold n.
  rstep (rsect_run tr m n Hl (proj1 iblock_range)) as [-> ->]. apply runs_kret.
Qed.

Lemma winode_run m di : m_len m = FSSIZE -> m_sb m = main_sb ->
  runs (winode (inum_of i) di) m tr (fun _ m' => m' = wrote n (put_dinode (m_img m n) (dinode_off (inum_of i)) di) m).
Proof.
  intros Hl Hsb. unfold winode. rstep (runs_gets m_sb m tr) as [-> ->]. rewrite Hsb. fold n.
  rstep (rsect_run tr m n Hl (proj1 iblock_range)) as [-> ->]. by apply wsect_run; [|apply iblock_range].
Qed.

(** Writing the inode of the file that was being changed. *)
Lemma rep_close m m' di t c fs' : rep m own fs (Some i) -> file_rep (m_img m) own i di (nblk c) (NDIRECT <? nblk c) c ->
  d_type di = t -> d_nlink di = 1 -> d_size di = Z.of_nat (length c) ->
  m_img m' = upd_block (m_img m) n (put_dinode (m_img m n) (dinode_off (inum_of i)) di) ->
  m_len m' = m_len m -> m_sb m' = m_sb m -> m_freeblock m' = m_freeblock m -> m_freeinode m' = Z.of_nat (length fs') + 1 ->
  (length fs' < 200)%nat -> fs' !! i = Some (t, c) -> (forall j, j <> i -> fs' !! j = fs !! j) ->
  rep m' own fs' None.
Proof.
  intros [R1 R2 R3 R4 R5 R6 R7 R8 R8' R9] F T1 T2 T3 Eimg El Es Ef En Hfew Hfi Hfj.
  destruct iblock_range as [_ Hr]. pose proof (fr_ok _ _ _ _ _ _ _ F) as Hok.
  assert (Hne : forall b o, own b = Some o -> m_img m' b = m_img m b).
  { intros b o Ho. rewrite Eimg, upd_block_ne; [done|]. apply R5 in Ho. change nmeta with 47 in *. lia. }
  assert (Hat : inode_at (m_img m') i = di).
  { unfold inode_at. rewrite Eimg. fold n. rewrite upd_block_eq. apply get_put_dinode; [done|]. rewrite R3. apply dinode_off_lt. }
  split; [by rewrite El|by rewrite Es| |by rewrite Ef| | | |done|done|].
  - intros b. rewrite Eimg. unfold upd_block. destruct (decide _); [|done]. rewrite length_put_dinode by apply Hok. apply R3.
  - intros b o Ho. rewrite Ef. by eapply R5.
  - intros b Hb. rewrite Eimg, upd_block_ne; [apply R6; by rewrite <- Ef|]. rewrite Ef in Hb. change nmeta with 47 in *. lia.
  - intros b Hb Hno. rewrite Eimg, upd_block_ne; [by apply R7|lia].
  - intros j t' c' Hj _. destruct (decide (j = i)) as [->|Hji].
    + rewrite Hfi in Hj. injection Hj as <- <-. unfold file_at, holds. rewrite Hat. split; [|done].
      apply (file_rep_frame (m_img m) _ own own i di _ _ _ F); [|done]. intros b k. apply Hne.
    + rewrite Hfj in Hj by done. pose proof (lookup_lt_Some _ _ _ Hj) as Hlt.
      assert (Hij : Some i <> Some j) by congruence. specialize (R9 j t' c' Hj Hij). destruct R9 as [F' R'].
      unfold file_at, holds. assert (E : inode_at (m_img m') j = inode_at (m_img m) j) by (rewrite Eimg; apply inode_at_other; [lia..|apply Hok]).
      rewrite E. split; [|done]. apply (file_rep_frame (m_img m) _ own own j _ _ _ _ F'); [|done]. intros b k. apply Hne.
Qed.
End Inode.

(** ** The abstract file system *)
Definition a_alloc (t : Z) (fs : list (Z * list Z)) : list (Z * list Z) := fs ++ [(t, [])].
Definition a_append (i : nat) (p : list Z) (fs : list (Z * list Z)) : list (Z * list Z) := alter (fun f => (f.1, f.2 ++ p)) i fs.

(** The data blocks all files take. *)
Fixpoint total (fs : list (Z * list Z)) : Z :=
  match fs with
  | [] => 0
  | f :: fs' => taken (nblk f.2) + total fs'
  end.

(** What the image has room for. *)
Record fits (fs : list (Z * list Z)) : Prop := {
  ft_blocks : nmeta + total fs <= FSSIZE;
  ft_max : Forall (fun f => nblk f.2 <= MAXFILE) fs;
  ft_few : (length fs < 200)%nat }.

Record image (m : mkfs) (fs : list (Z * list Z)) : Prop := {
  im_rep : exists own, rep m own fs None;
  im_total : m_freeblock m = nmeta + total fs }.

Lemma total_app fs fs' : total (fs ++ fs') = total fs + total fs'.
Proof. induction fs as [|f fs IH]; cbn [total app]; [done|]. rewrite IH. lia. Qed.

Lemma total_append p fs : forall i t c, fs !! i = Some (t, c) ->
  total (a_append i p fs) = total fs + taken (nblk (c ++ p)) - taken (nblk c).
Proof.
  induction fs as [|f fs IH]; intros [|i] t c Hi; try done; cbn in Hi.
  - injection Hi as ->. cbn. lia.
  - change (total (a_append (S i) p (f :: fs))) with (taken (nblk f.2) + total (a_append i p fs)). rewrite (IH i t c Hi). cbn. lia.
Qed.

(** The operations only add. *)
Lemma fits_append i p fs : fits (a_append i p fs) -> fits fs.
Proof.
  intros [F1 F2 F3]. unfold a_append in F3. rewrite length_alter in F3. destruct (fs !! i) as [[t c]|] eqn:E.
  - rewrite (total_append p fs i t c E) in F1. pose proof (taken_mono _ _ (nblk_mono c p)). split; [lia| |done].
    apply Forall_lookup. intros j f Hj. destruct (decide (j = i)) as [->|Hne].
    + rewrite E in Hj. injection Hj as <-. apply (Z.le_trans _ (nblk (c ++ p))); [apply nblk_mono|].
      apply (Forall_lookup_1 _ _ i (t, c ++ p) F2). unfold a_append. by rewrite list_lookup_alter_eq, E.
    + apply (Forall_lookup_1 _ _ j _ F2). unfold a_append. by rewrite list_lookup_alter_ne.
  - assert (Ea : a_append i p fs = fs) by (apply list_eq; intros j; unfold a_append; destruct (decide (i = j)) as [<-|]; [by rewrite list_lookup_alter_eq, E|by rewrite list_lookup_alter_ne]). by rewrite Ea in F1, F2.
Qed.

Lemma fits_alloc t fs : fits (a_alloc t fs) -> fits fs.
Proof.
  intros [F1 F2 F3]. unfold a_alloc in *. rewrite total_app in F1. rewrite length_app in F3. apply Forall_app in F2 as [F2 _].
  change (total [(t, [])]) with 0 in F1. cbn in F3. split; [lia|done|lia].
Qed.

Section Refine.
Context (fs : list (Z * list Z)) (tr : list (mkfs -> mkfs)).

Lemma empty_file d own i t : - 2 ^ 15 <= t < 2 ^ 15 -> file_rep d own i (mkdinode t 0 0 1 0 (replicate 13 0)) 0 false [].
Proof.
  intros Ht. split; try done.
  - split; cbn; try (by repeat constructor); lia.
  - intros k Hk. lia.
  - intros k _. apply nth_zeros.
  - intros j Hj. lia.
Qed.

Lemma ialloc_run m t : image m fs -> 0 <= t < 2 ^ 15 -> fits (a_alloc t fs) ->
  runs (mkfs_ialloc t) m tr (fun r m' => r = inum_of (length fs) /\ image m' (a_alloc t fs)).
Proof.
  intros [(own & R) Hfb] Ht Hfit. pose proof (ft_few _ Hfit) as Hfew. unfold a_alloc in Hfew. rewrite length_app in Hfew. cbn in Hfew.
  unfold mkfs_ialloc. rstep (runs_gets m_freeinode m tr) as [-> ->]. rewrite (rp_inum _ _ _ _ R). fold (inum_of (length fs)).
  rstep (runs_modify _ m tr) as ->. set (m1 := upd_field _ _ m).
  rstep (winode_run (length fs) tr ltac:(lia) m1 _ (rp_len _ _ _ _ R) (rp_sb _ _ _ _ R)) as ->. apply runs_ret. split; [done|].
  rewrite (xshort_id t), (xshort_id 1), (xint_id 0) by lia. split.
  2: { unfold a_alloc. rewrite total_app. change (total [(t, [])]) with 0. cbn. lia. }
  exists own. eapply (rep_close own fs (length fs) ltac:(lia) m _ (mkdinode t 0 0 1 0 (replicate 13 0)) t []); try reflexivity.
  - destruct R as [R1 R2 R3 R4 R5 R6 R7 R8 R8' R9]. split; try done. intros i t' c' Hi _. by apply R9.
  - apply empty_file. lia.
  - cbn. unfold a_alloc, u32, inum_of. rewrite length_app, Z.mod_small; cbn; lia.
  - unfold a_alloc. rewrite length_app. cbn. lia.
  - unfold a_alloc. rewrite lookup_app_r, Nat.sub_diag by lia. done.
  - intros j Hj. unfold a_alloc. destruct (decide (j < length fs)%nat); [by rewrite lookup_app_l|].
    rewrite lookup_app_r by lia. rewrite (lookup_ge_None_2 fs) by lia. destruct (j - length fs)%nat eqn:E; [lia|done].
Qed.

Lemma iappend_run m i p : image m fs -> (i < length fs)%nat -> fits (a_append i p fs) ->
  runs (iappend (inum_of i) p) m tr (fun _ m' => image m' (a_append i p fs)).
Proof.
  intros [(own & R) Hfb] Hi Hfit. destruct (lookup_lt_is_Some_2 fs i Hi) as [[t c] Hc].
  pose proof (rep_lt own fs m _ i t c R Hc) as Hlt. pose proof (rp_files _ _ _ _ R i t c Hc ltac:(done)) as (F & T1 & T2 & T3).
  assert (Ha : a_append i p fs !! i = Some (t, c ++ p)) by (unfold a_append; by rewrite list_lookup_alter_eq, Hc).
  pose proof (Forall_lookup_1 _ _ i _ (ft_max _ Hfit) Ha) as Hmax. cbn in Hmax.
  pose proof (ft_blocks _ Hfit) as Hbl. rewrite (total_append p fs i t c Hc) in Hbl.
  assert (Hsz : 0 <= Z.of_nat (length (c ++ p)) < 2 ^ 32).
  { unfold nblk in Hmax. change MAXFILE with 268 in *. change BSIZE with 1024 in *. split; [lia|]. dlia. }
  unfold iappend. rstep (rinode_run i tr Hlt m (rp_len _ _ _ _ R) (rp_sb _ _ _ _ R)) as [-> ->].
  rewrite T3, xint_id by (rewrite length_app in Hsz; lia).
  assert (W : work m own fs i (inode_at (m_img m) i) (nblk c) (NDIRECT <? nblk c) c).
  { split; [|done]. destruct R as [R1 R2 R3 R4 R5 R6 R7 R8 R8' R9]. split; try done. intros j t' c' Hj _. by apply R9. }
  rstep (iappend_loop_run fs i tr _ m own _ c p W) as (di & own' & -> & (H1 & H2 & H3) & Hfb' & [R' F']).
  { unfold blocks_spanned. change BSIZE with 1024. destruct (_ =? 0); dlia. } { done. } { lia. }
  rename s' into m1. rewrite xint_id by done.
  rlast (winode_run i tr Hlt m1 _ (rp_len _ _ _ _ R') (rp_sb _ _ _ _ R')) as ->. split.
  2: { rewrite (total_append p fs i t c Hc). cbn. lia. }
  exists own'. eapply (rep_close own' fs i Hlt m1 _ (di <| d_size := Z.of_nat (length (c ++ p)) |>) t (c ++ p)); try reflexivity; try done.
  - destruct F' as [G1 G2 G3 G4 G5 G6 G7 G8]. split; try done. destruct G1 as [D1 D2 D3 D4 D5 D6 D7]. by split.
  - cbn. congruence.
  - cbn. congruence.
  - cbn. unfold a_append. rewrite length_alter. apply (rp_inum _ _ _ _ R').
  - apply Hfit.
  - intros j Hj. unfold a_append. by rewrite list_lookup_alter_ne.
Qed.
End Refine.
