(* ===== verification/MkfsMain.v ===== *)
(** * The whole of mkfs (mkfs/mkfs.c: main)

    The image [mkfs_main] leaves, and how the kernel sees it: the root directory
    lists the arguments in order, each file has its argument's bytes, and the
    bitmap marks the blocks before [freeblock], which no two files share. *)

From stdpp Require Import prelude list strings gmap.
From Stdlib Require Import ZArith Lia ZifyBool.
From S2P Require Import Prelude State CString Bio Cache Blocks Log Fs FsData FsBlocks FsInode FsFile FsWrite FsDir Mkfs MkfsRep MkfsSpec.
Local Open Scope Z_scope.

(** ** What the arguments ask for *)
Definition contents (a : arg) : list Z := concat (default [] a.2).
Definition root_entries (args : list arg) : list Z :=
  new_entry 1 [46] ++ new_entry 1 [46; 46] ++ concat (imap (fun k a => new_entry (inum_of (S k)) (shortname a.1)) args).
Definition asked (args : list arg) : list (Z * list Z) :=
  (T_DIR, root_entries args) :: ((fun a => (T_FILE, contents a)) <$> args).

(** The argument can be read, and has a name the file system takes. *)
Record arg_ok (a : arg) : Prop := {
  ag_flat : SLASH ∉ strip_user a.1;
  ag_short : (length (shortname a.1) <= DIRSIZ)%nat;
  ag_open : is_Some a.2 }.

(** ** The abstract run *)
Definition a_bufs (i : nat) (bufs : list (list Z)) (fs : list (Z * list Z)) : list (Z * list Z) :=
  foldl (fun fs b => a_append i b fs) fs bufs.
Definition a_arg (fs : list (Z * list Z)) (a : arg) : list (Z * list Z) :=
  a_bufs (length fs) (default [] a.2) (a_append 0 (new_entry (inum_of (length fs)) (shortname a.1)) (a_alloc T_FILE fs)).
Definition a_root : list (Z * list Z) := a_append 0 (new_entry 1 [46; 46]) (a_append 0 (new_entry 1 [46]) (a_alloc T_DIR [])).

Lemma a_bufs_cons i b bufs fs : a_bufs i (b :: bufs) fs = a_bufs i bufs (a_append i b fs).
Proof. reflexivity. Qed.

Lemma a_bufs_eq fs t bufs : forall c, a_bufs (length fs) bufs (fs ++ [(t, c)]) = fs ++ [(t, c ++ concat bufs)].
Proof.
  induction bufs as [|b bufs IH]; intros c; [cbn; by rewrite app_nil_r|]. rewrite a_bufs_cons.
  assert (E : a_append (length fs) b (fs ++ [(t, c)]) = fs ++ [(t, c ++ b)]).
  { unfold a_append. rewrite alter_app_r_alt, Nat.sub_diag by lia. done. }
  rewrite E, IH. cbn. by rewrite app_assoc.
Qed.

Lemma a_arg_eq r fs a : a_arg ((T_DIR, r) :: fs) a =
  (T_DIR, r ++ new_entry (inum_of (S (length fs))) (shortname a.1)) :: fs ++ [(T_FILE, contents a)].
Proof. unfold a_arg, a_alloc. cbn [length app]. exact (a_bufs_eq ((T_DIR, _) :: fs) T_FILE _ []). Qed.

Lemma asked_eq args : foldl a_arg a_root args = asked args.
Proof.
  induction args as [|a args IH] using rev_ind; [reflexivity|]. rewrite foldl_app, IH. cbn [foldl]. unfold asked.
  rewrite a_arg_eq, fmap_app, length_fmap. f_equal. f_equal. unfold root_entries. rewrite imap_app, concat_app, !app_assoc.
  cbn [imap]. do 2 f_equal. cbn. by rewrite app_nil_r, Nat.add_0_r.
Qed.

Lemma asked_file args k a : args !! k = Some a -> asked args !! S k = Some (T_FILE, contents a).
Proof. intros Ha. change (((fun a => (T_FILE, contents a)) <$> args) !! k = Some (T_FILE, contents a)). by rewrite list_lookup_fmap, Ha. Qed.

(** Everything that was asked for fits if the end does. *)
Lemma fits_bufs i bufs : forall fs, fits (a_bufs i bufs fs) -> fits fs.
Proof. induction bufs as [|b bufs IH]; intros fs; [done|]. rewrite a_bufs_cons. intros Hf. by eapply fits_append, IH. Qed.
Lemma fits_arg fs a : fits (a_arg fs a) -> fits fs.
Proof. intros Hf. by apply fits_bufs, fits_append, fits_alloc in Hf. Qed.
Lemma fits_args args : forall fs, fits (foldl a_arg fs args) -> fits fs.
Proof. induction args as [|a args IH]; intros fs; [done|]. cbn [foldl]. intros Hf. by eapply fits_arg, IH. Qed.

Lemma length_a_append i p fs : length (a_append i p fs) = length fs.
Proof. apply length_alter. Qed.
Lemma length_a_bufs i bufs : forall fs, length (a_bufs i bufs fs) = length fs.
Proof. induction bufs as [|b bufs IH]; intros fs; [done|]. by rewrite a_bufs_cons, IH, length_a_append. Qed.

(** ** The program follows it *)
Section Run.
Context (tr : list (mkfs -> mkfs)).

Lemma append_all_run i bufs : forall m fs, image m fs -> (i < length fs)%nat -> fits (a_bufs i bufs fs) ->
  runs (append_all (inum_of i) bufs) m tr (fun _ m' => image m' (a_bufs i bufs fs)).
Proof.
  induction bufs as [|b bufs IH]; intros m fs Hm Hi Hf; cbn [append_all]; [by apply runs_ret|].
  rewrite a_bufs_cons in Hf |- *. rstep (iappend_run fs tr m i b Hm Hi (fits_bufs _ _ _ Hf)) as Hm'.
  apply IH; [done|by rewrite length_a_append|done].
Qed.

Lemma add_arg_run m fs a : image m fs -> (0 < length fs)%nat -> arg_ok a -> fits (a_arg fs a) ->
  runs (add_arg (inum_of 0) a) m tr (fun _ m' => image m' (a_arg fs a)).
Proof.
  intros Hm Hpos [A1 A2 [bufs A3]] Hf. unfold add_arg, a_arg in *. rewrite A3 in *. cbn [default from_option id] in *.
  rewrite bool_decide_false by done. rstep (runs_kret tt m tr) as [-> ->].
  rewrite (proj2 (Z.leb_le _ _)) by lia. rstep (runs_kret tt m tr) as [-> ->].
  pose proof (fits_bufs _ _ _ Hf) as Hf1. pose proof (fits_append _ _ _ Hf1) as Hf2.
  rstep (ialloc_run fs tr m T_FILE Hm ltac:(done) Hf2) as [-> Hm1]. pose proof (ft_few _ Hf2) as Hfew.
  assert (Hl : length (a_alloc T_FILE fs) = S (length fs)) by (unfold a_alloc; rewrite length_app; cbn; lia).
  rewrite xshort_id by (unfold inum_of; lia). fold (new_entry (inum_of (length fs)) (shortname a.1)).
  rstep (iappend_run _ tr s' 0 _ Hm1 ltac:(lia) Hf1) as Hm2.
  apply append_all_run; [done|rewrite length_a_append; lia|done].
Qed.

Lemma add_args_run args : forall m fs, image m fs -> (0 < length fs)%nat -> Forall arg_ok args -> fits (foldl a_arg fs args) ->
  runs (add_args (inum_of 0) args) m tr (fun _ m' => image m' (foldl a_arg fs args)).
Proof.
  induction args as [|a args IH]; intros m fs Hm Hpos Ha Hf; cbn [add_args foldl] in *; [by apply runs_ret|].
  apply Forall_cons in Ha as [Ha Has]. rstep (add_arg_run m fs a Hm Hpos Ha (fits_args _ _ Hf)) as Hm'.
  apply IH; [done| |done|done]. unfold a_arg. rewrite length_a_bufs, length_a_append. unfold a_alloc. rewrite length_app. lia.
Qed.

(** The empty image. *)
Lemma zero_run m : m_len m = 0 -> (forall b, m_img m b = zero_block) ->
  runs (for_each (Z.to_nat FSSIZE) 0 (fun i => wsect (Z.of_nat i) zero_block)) m tr (fun _ m' =>
    m_len m' = FSSIZE /\ (forall b, m_img m' b = zero_block) /\ m_sb m' = m_sb m /\ m_freeinode m' = m_freeinode m /\
    m_freeblock m' = m_freeblock m).
Proof.
  intros Hl Hz. pose (P := fun (k : nat) m' => m_len m' = Z.of_nat k /\ (forall b, m_img m' b = zero_block) /\ m_sb m' = m_sb m /\
    m_freeinode m' = m_freeinode m /\ m_freeblock m' = m_freeblock m).
  apply (runs_for_each P); [done|]. intros k m1 Hk (P1 & P2 & P3). unfold wsect. rlast (runs_modify _ m1 tr) as ->.
  rewrite sector_id by (change FSSIZE with 2000 in *; lia). split; [cbn; lia|]. split; [|done].
  intros b. cbn. unfold upd_block. by destruct (decide _).
Qed.

Lemma image_nil m : m_len m = FSSIZE -> m_sb m = main_sb -> m_freeinode m = 1 -> m_freeblock m = nmeta ->
  (forall b, m_img m b = meta_block b) -> image m [].
Proof.
  intros H1 H2 H3 H4 H5. split; [|rewrite H4; done]. exists (fun _ => None). split; try done.
  - intros n. rewrite H5. unfold meta_block. by destruct (n =? 1).
  - rewrite H4. done.
  - intros b Hb. rewrite H5. unfold meta_block. rewrite (proj2 (Z.eqb_neq _ _)); [done|]. rewrite H4 in Hb. change nmeta with 47 in Hb. lia.
  - cbn. lia.
Qed.
End Run.

(** ** The bitmap *)
Lemma bit_at_u8 d i v k : 0 <= k -> (i < length d)%nat -> bit_at (<[i := u8 v]> d) k = bit_at (<[i := v]> d) k.
Proof.
  intros Hk Hi. unfold bit_at. rewrite !byte_at_insert by done. destruct (decide _); [|done].
  unfold u8. pose proof (Z.mod_pos_bound k 8). by rewrite Z.mod_pow2_bits_low by lia.
Qed.

Lemma bitmap_block_spec n : Z.of_nat n <= BPB ->
  length (bitmap_block n) = 1024%nat /\ forall k, 0 <= k -> bit_at (bitmap_block n) k = (k <? Z.of_nat n).
Proof.
  induction n as [|n IH]; intros Hn.
  - split; [done|]. intros k Hk. unfold bit_at. change (bitmap_block 0) with zero_block. rewrite byte_at_zero, Z.testbit_0_l. symmetry. apply Z.ltb_ge. lia.
  - destruct (IH ltac:(lia)) as [Hl Hb]. change BPB with 8192 in Hn. unfold bitmap_block. rewrite seq_S, foldl_app. fold (bitmap_block n). cbn [foldl Nat.add].
    assert (Hi : (n / 8 < 1024)%nat) by (apply Nat.Div0.div_lt_upper_bound; change BPB with 8192 in Hn; lia).
    split; [by rewrite length_insert|]. intros k Hk. rewrite bit_at_u8 by (done || by rewrite Hl).
    change (Z.shiftl 1 (Z.of_nat n mod 8)) with (bit_mask (Z.of_nat n)). rewrite set_bit_nat, bit_at_set, Hb by lia. lia.
Qed.

(** ** The last steps *)
Lemma length_upd d n b : (forall x, length (d x) = 1024%nat) -> length b = 1024%nat -> forall x, length (upd_block d n b x) = 1024%nat.
Proof. intros Hd Hb x. unfold upd_block. by destruct (decide _). Qed.

Section Final.
Context (d : Z -> list Z) (own : owners) (Hown : forall b o, own b = Some o -> nmeta <= b).
Let n := IBLOCK (inum_of 0) main_sb.

(** A block before the data that has no inode. *)
Lemma holds_bitmap i t c size b : holds d own i t c size -> (i < 200)%nat -> holds (upd_block d 46 b) own i t c size.
Proof.
  intros H Hi. destruct (iblock_at i Hi) as [E Hr]. apply (holds_frame own d _ own i t c size H); [|intros x k Hx|done].
  - apply upd_block_ne. lia.
  - apply upd_block_ne. apply Hown in Hx. change nmeta with 47 in Hx. lia.
Qed.

(** The root inode with another size. *)
Context (size : Z) (Hsize : 0 <= size < 2 ^ 32) (Hlen : length (d n) = 1024%nat).
Let d' := upd_block d n (put_dinode (d n) (dinode_off (inum_of 0)) ((inode_at d 0) <| d_size := size |>)).

Lemma root_frame b o : own b = Some o -> d' b = d b.
Proof. intros Hb. apply upd_block_ne. apply Hown in Hb. change n with 33. change nmeta with 47 in Hb. lia. Qed.

Lemma holds_root t c z : holds d own 0 t c z -> holds d' own 0 t c size.
Proof.
  intros (F & T1 & T2 & T3). pose proof (fr_ok _ _ _ _ _ _ _ F) as [D1 D2 D3 D4 D5 D6 D7].
  assert (E : inode_at d' 0 = (inode_at d 0%nat) <| d_size := size |>).
  { unfold inode_at at 1. unfold d'. fold n. rewrite upd_block_eq. apply get_put_dinode; [by split|]. rewrite Hlen. apply dinode_off_lt. }
  unfold holds. rewrite E. split; [|done].
  assert (F' : file_rep d own 0 ((inode_at d 0) <| d_size := size |>) (nblk c) (NDIRECT <? nblk c) c).
  { destruct F as [G1 G2 G3 G4 G5 G6 G7 G8]. split; try done. }
  apply (file_rep_frame d d' own own 0 _ _ _ _ F'); [|done]. intros b k. apply root_frame.
Qed.

Lemma holds_others i t c z : holds d own i t c z -> length (d_addrs (inode_at d 0)) = 13%nat -> (0 < i < 200)%nat -> holds d' own i t c z.
Proof.
  intros (F & R) Ha Hi. unfold holds.
  assert (E : inode_at d' i = inode_at d i) by (unfold d', n; apply inode_at_other; [lia|lia|lia|done]). rewrite E. split; [|done].
  apply (file_rep_frame d d' own own i _ _ _ _ F); [|done]. intros b k. apply root_frame.
Qed.
End Final.

(** The size the root directory is given. *)
Definition root_size (args : list arg) : Z := (Z.of_nat (length (root_entries args)) / BSIZE + 1) * BSIZE.

(** The image for the arguments: superblock, empty log, root directory and files,
    blocks with one owner each, and the bitmap. *)
Record image_for (args : list arg) (m : mkfs) (own : owners) : Prop := {
  if_len : m_len m = FSSIZE;
  if_super : get_superblock (m_img m 1) = main_sb;
  if_sect : forall n, length (m_img m n) = 1024%nat;
  if_boot : m_img m 0 = zero_block;
  if_log : forall b, sb_logstart main_sb <= b < sb_logstart main_sb + sb_nlog main_sb -> m_img m b = zero_block;
  if_root : holds (m_img m) own 0 T_DIR (root_entries args) (root_size args);
  if_files : forall k a, args !! k = Some a -> holds (m_img m) own (S k) T_FILE (contents a) (Z.of_nat (length (contents a)));
  if_own : forall b o, own b = Some o -> nmeta <= b < m_freeblock m;
  if_free : m_freeblock m = nmeta + total (asked args);
  if_bitmap : forall b, 0 <= b < BPB -> bit_at (m_img m (sb_bmapstart main_sb)) b = (b <? m_freeblock m) }.

Section Main.
Context (args : list arg) (tr : list (mkfs -> mkfs)).

Lemma root_fits : fits (asked args) -> 0 <= root_size args < 2 ^ 32 /\ Z.of_nat (length (root_entries args)) < 2 ^ 32.
Proof.
  intros Hf. pose proof (Forall_inv (ft_max _ Hf)) as Hm. unfold asked, nblk in Hm. cbn [snd] in Hm. unfold root_size.
  set (l := Z.of_nat (length (root_entries args))) in *. assert (0 <= l) by (unfold l; lia).
  change MAXFILE with 268 in *. change BSIZE with 1024 in *. dlia.
Qed.

(** The end of [main], from the image of what was asked for. *)
Lemma finish_main_run m own : rep m own (asked args) None -> m_freeblock m = nmeta + total (asked args) -> fits (asked args) ->
  runs (fix_root (inum_of 0) ;; let! used := gets m_freeblock in mkfs_balloc used) m tr (fun _ m' => image_for args m' own).
Proof.
  intros R Hfb Hf. pose proof R as [R1 R2 R3 R4 R5 R6 R7 R8 R8' R9]. destruct (root_fits Hf) as [Hsz Hl].
  pose proof (R9 0%nat _ _ eq_refl ltac:(done)) as H0. pose proof H0 as (F0 & _ & _ & T3).
  unfold fix_root. rstep (rinode_run 0 tr ltac:(lia) m R1 R2) as [-> ->]. rewrite T3, (xint_id (Z.of_nat (length (root_entries args)))) by lia. fold (root_size args).
  replace (u32 (root_size args)) with (root_size args) by (unfold u32; by rewrite Z.mod_small). rewrite xint_id by done.
  rstep (winode_run 0 tr ltac:(lia) m _ R1 R2) as ->. set (n := IBLOCK (inum_of 0) main_sb). set (b := put_dinode _ _ _).
  rstep (runs_gets m_freeblock (wrote n b m) tr) as [-> ->]. change (m_freeblock (wrote n b m)) with (m_freeblock m).
  assert (Hu : 0 <= m_freeblock m < BPB) by (change BPB with 8192; change nmeta with 47 in *; change FSSIZE with 2000 in *; lia).
  unfold mkfs_balloc. rewrite (proj2 (Z.ltb_lt (m_freeblock m) BPB)) by lia. rstep (runs_kret tt (wrote n b m) tr) as [-> ->].
  rstep (runs_gets m_sb (wrote n b m) tr) as [-> ->]. change (m_sb (wrote n b m)) with (m_sb m). rewrite R2.
  destruct (bitmap_block_spec (Z.to_nat (m_freeblock m))) as [Hbl Hbits]; [lia|]. rewrite Z2Nat.id in Hbits by lia.
  rlast (wsect_run tr (wrote n b m) 46 _ R1 ltac:(done)) as ->.
  assert (Hown : forall w o, own w = Some o -> nmeta <= w) by (intros w o Ho; apply R5 in Ho; lia).
  assert (Hother : forall w, w <> 33 -> w <> 46 -> m_img (wrote 46 (bitmap_block (Z.to_nat (m_freeblock m))) (wrote n b m)) w = m_img m w).
  { intros w Ha Hb. cbn. by rewrite !upd_block_ne. }
  assert (Hd : length (d_addrs (inode_at (m_img m) 0)) = 13%nat) by apply F0.
  split; [exact R1| | | | | | |exact R5|exact Hfb|].
  - rewrite Hother by done. rewrite R7 by (done || lia). reflexivity.
  - assert (Hb : length b = 1024%nat) by (unfold b; by rewrite length_put_dinode).
    exact (length_upd _ _ _ (length_upd _ _ _ R3 Hb) Hbl).
  - rewrite Hother by done. rewrite R7 by (done || lia). reflexivity.
  - intros w Ha. change (2 <= w < 2 + 31) in Ha. rewrite Hother by lia. rewrite R7 by (change nmeta with 47; lia).
    unfold meta_block. by rewrite (proj2 (Z.eqb_neq _ _)) by lia.
  - apply holds_bitmap; [done| |lia]. by apply (holds_root (m_img m) own Hown _ Hsz (R3 _) _ _ _ H0).
  - intros k w Ha. assert (Hk : asked args !! S k = Some (T_FILE, contents w)) by (by apply asked_file).
    pose proof (lookup_lt_Some _ _ _ Hk). apply holds_bitmap; [done| |lia]. apply (holds_others (m_img m) own Hown (root_size args)); [apply R3|by apply R9|done|lia].
  - intros w Ha. cbn. rewrite upd_block_eq. apply Hbits. lia.
Qed.

Lemma mkfs_run : Forall arg_ok args -> fits (asked args) ->
  runs (mkfs_main (Some true) args) mkfs_init tr (fun _ m => exists own, image_for args m own).
Proof.
  intros Ha Hf. rewrite <- asked_eq in Hf. pose proof (fits_args _ _ Hf) as Hr. pose proof (fits_append _ _ _ Hr) as Hr1.
  pose proof (fits_append _ _ _ Hr1) as Hr2.
  unfold mkfs_main. rstep (runs_modify _ mkfs_init tr) as ->. set (m0 := upd_field _ _ _).
  rstep (zero_run tr m0 eq_refl (fun _ => eq_refl)) as (Z1 & Z2 & Z3 & Z4 & Z5). rename s' into m1.
  rstep (wsect_run tr m1 1 _ Z1 ltac:(done)) as ->. set (m2 := wrote 1 _ m1).
  assert (H2 : image m2 []).
  { apply image_nil; try done. intros b. cbn. unfold upd_block, meta_block. destruct (decide (b = 1)) as [->|Hb]; [done|].
    rewrite Z2. by rewrite (proj2 (Z.eqb_neq _ _)). }
  rstep (ialloc_run [] tr m2 T_DIR H2 ltac:(done) Hr2) as [-> H3]. change (inum_of (length [])) with ROOTINO.
  rstep (runs_kret tt s' tr) as [-> ->]. change ROOTINO with (inum_of 0).
  change (dot_entry (inum_of 0) [46]) with (new_entry 1 [46]). change (dot_entry (inum_of 0) [46; 46]) with (new_entry 1 [46; 46]).
  rstep (iappend_run _ tr s' 0 _ H3 ltac:(cbn; lia) Hr1) as H4. rstep (iappend_run _ tr s'0 0 _ H4 ltac:(cbn; lia) Hr) as H5.
  fold a_root in H5. rstep (add_args_run tr args s'1 a_root H5 ltac:(cbn; lia) Ha Hf) as [(own & R) Hfb].
  rewrite asked_eq in *. rlast (finish_main_run s'2 own R Hfb Hf) as Hfin. by exists own.
Qed.
End Main.

(** C6. For readable arguments that fit, [mkfs] ends, and its image is the file
    system asked for: the superblock the kernel reads back, an empty log, a root
    directory with [.], [..] and the arguments' names in order, each pointing to a
    file with exactly the bytes read; no block has two owners, and the bitmap marks
    the blocks before the first free one and no others. *)
Theorem mkfs_spec args tr : Forall arg_ok args -> fits (asked args) ->
  runs (mkfs_main (Some true) args) mkfs_init tr (fun _ m => exists own, image_for args m own).
Proof. apply mkfs_run. Qed.

(** ** The kernel's view of the image *)
(** The names of the root directory and their inodes. *)
Definition root_names (args : list arg) : list (Z * list Z) :=
  (1, [46]) :: (1, [46; 46]) :: imap (fun k a => (inum_of (S k), shortname a.1)) args.

Lemma root_entries_eq args : root_entries args = concat ((fun e => new_entry e.1 e.2) <$> root_names args).
Proof. unfold root_entries, root_names. cbn [fmap list_fmap concat fst snd]. by rewrite fmap_imap. Qed.

Lemma root_names_arg args k a : args !! k = Some a -> root_names args !! (k + 2)%nat = Some (inum_of (S k), shortname a.1).
Proof.
  intros Ha. rewrite Nat.add_comm.
  change (imap (fun k (a : arg) => (inum_of (S k), shortname a.1)) args !! k = Some (inum_of (S k), shortname a.1)).
  rewrite list_lookup_imap. exact (f_equal _ Ha).
Qed.

Lemma length_root args : length (root_entries args) = (16 * length (root_names args))%nat.
Proof.
  rewrite root_entries_eq. induction (root_names args) as [|e l IH]; [done|]. rewrite fmap_cons. cbn [concat length].
  rewrite length_app, length_new_entry, IH. lia.
Qed.

Lemma concat_entry l : forall k e j, l !! k = Some e -> (j < 16)%nat ->
  nth (16 * k + j) (concat ((fun e : Z * list Z => new_entry e.1 e.2) <$> l)) 0 = nth j (new_entry e.1 e.2) 0.
Proof.
  induction l as [|f l IH]; intros [|k] e j Hk Hj; try done; rewrite fmap_cons; cbn [concat]; pose proof (length_new_entry f.1 f.2) as Hl.
  - injection Hk as ->. by rewrite app_nth1 by lia.
  - rewrite app_nth2 by lia. rewrite Hl. replace (16 * S k + j - 16)%nat with (16 * k + j)%nat by lia. by apply IH.
Qed.

Section View.
Context (args : list arg) (m : mkfs) (own : owners) (Him : image_for args m own) (Hf : fits (asked args)).
Context (s : kstate) (Hv : forall b, view s b = m_img m b).

(** An inode of the kernel's table with the contents of one on the image. *)
Lemma view_byte x i j : dinode_of x = inode_at (m_img m) i -> file_byte x s j = dbyte (inode_at (m_img m) i) (m_img m) j.
Proof.
  intros <-. unfold file_byte, dbyte. rewrite Hv. do 2 f_equal. unfold block_of, dblock. by rewrite Hv.
Qed.

Lemma view_file i t c size x : holds (m_img m) own i t c size -> dinode_of x = inode_at (m_img m) i ->
  i_type x = t /\ i_size x = size /\ forall j, 0 <= j < nblk c * BSIZE -> file_byte x s j = nth (Z.to_nat j) c 0.
Proof.
  intros (F & T1 & T2 & T3) Hx. split; [|split].
  - rewrite <- T1, <- Hx. done.
  - rewrite <- T3, <- Hx. done.
  - intros j Hj. rewrite (view_byte x i j Hx). by apply F.
Qed.

Lemma view_contents k a y : args !! k = Some a -> dinode_of y = inode_at (m_img m) (S k) ->
  i_size y = Z.of_nat (length (contents a)) /\ file_bytes y s 0 (i_size y) = contents a.
Proof.
  intros Ha Hy. destruct (view_file _ _ _ _ y (if_files _ _ _ Him k a Ha) Hy) as (_ & Hs & Hb). split; [done|]. rewrite Hs.
  apply (list_eq_same_length _ _ (length (contents a))); [done|rewrite length_file_bytes; lia|].
  intros j u v Hj Hu Hw. rewrite lookup_file_bytes in Hu by lia. injection Hu as <-. rewrite Hb.
  - apply nth_lookup_Some. replace (Z.to_nat _) with j by lia. done.
  - unfold nblk. change BSIZE with 1024. dlia.
Qed.

Lemma view_entry x k e : dinode_of x = inode_at (m_img m) 0 -> root_names args !! k = Some e -> dir_entry x s k = new_entry e.1 e.2.
Proof.
  intros Hx Hk. destruct (view_file _ _ _ _ x (if_root _ _ _ Him) Hx) as (_ & _ & Hb). pose proof (lookup_lt_Some _ _ _ Hk) as Hlt.
  apply (list_eq_same_length _ _ 16); [apply length_new_entry|apply length_file_bytes|].
  intros j u v Hj Hu Hw. unfold dir_entry in Hu. change DIRENT_SIZE with 16 in Hu. rewrite lookup_file_bytes in Hu by lia. injection Hu as <-. rewrite Hb.
  - replace (Z.to_nat _) with (16 * k + j)%nat by lia. rewrite root_entries_eq, (concat_entry _ _ _ _ Hk Hj). by apply nth_lookup_Some.
  - unfold nblk. rewrite length_root. change BSIZE with 1024. dlia.
Qed.

Lemma view_find x k e : dinode_of x = inode_at (m_img m) 0 -> root_names args !! k = Some e -> 0 < e.1 < 2 ^ 16 ->
  NoDup ((fun e => cstrn (reads e.2) DIRSIZ) <$> root_names args) -> dir_find x s e.2 = Some k /\ de_inum (dir_entry x s k) = e.1.
Proof.
  intros Hx Hk He Hnd. pose proof (lookup_lt_Some _ _ _ Hk) as Hlt. destruct (view_file _ _ _ _ x (if_root _ _ _ Him) Hx) as (_ & Hs & _).
  assert (Hi : de_inum (dir_entry x s k) = e.1) by (rewrite (view_entry x k e Hx Hk); by apply new_entry_inum). split; [|done].
  rewrite dir_find_first. apply first_some. split; [|split].
  - rewrite Hs. unfold root_size, dir_count. rewrite length_root. change BSIZE with 1024. change DIRENT_SIZE with 16. dlia.
  - split; [lia|]. rewrite (view_entry x k e Hx Hk). by rewrite new_entry_name.
  - intros j Hj [_ Hm]. destruct (lookup_lt_is_Some_2 (root_names args) j ltac:(lia)) as [f Hfj].
    rewrite (view_entry x j f Hx Hfj), new_entry_name in Hm. assert (j = k); [|lia].
    apply (NoDup_lookup _ j k (cstrn (reads e.2) DIRSIZ) Hnd); rewrite list_lookup_fmap, ?Hfj, ?Hk; [by rewrite Hm|done].
Qed.

Lemma view_bitmap : bitmap_ok main_sb s /\ forall b, 0 <= b < FSSIZE -> used main_sb s b = (b <? m_freeblock m).
Proof.
  assert (Hb : forall b, 0 <= b < FSSIZE -> BBLOCK b main_sb = 46 /\ b mod BPB = b).
  { intros b Hb. unfold BBLOCK, u32. rewrite main_sb_eq. cbn [sb_bmapstart]. change BPB with 8192. change FSSIZE with 2000 in *.
    rewrite Z.div_small, !Z.mod_small by (rewrite ?Z.div_small; lia). done. }
  assert (Hu : forall b, 0 <= b < FSSIZE -> used main_sb s b = (b <? m_freeblock m)).
  { intros b Hr. destruct (Hb b Hr) as [E1 E2]. unfold used. rewrite E1, E2, Hv.
    apply (if_bitmap _ _ _ Him). change BPB with 8192. change FSSIZE with 2000 in *. lia. }
  split; [|done]. split; try (by rewrite main_sb_eq).
  - intros b Hr. rewrite Hv. apply (if_sect _ _ _ Him).
  - intros b Hr. change (bmap_end main_sb) with 46 in Hr. rewrite Hu by (change FSSIZE with 2000; lia).
    rewrite (if_free _ _ _ Him). apply Z.ltb_lt. change nmeta with 47. assert (0 <= total (asked args)); [|lia].
    clear. induction (asked args) as [|f l IH]; cbn [total]; [done|]. unfold taken, nblk. change BSIZE with 1024. destruct (_ <? _); dlia.
Qed.
End View.

(** C22. The kernel finds in the image what was put in: on a state that shows its
    blocks, the allocator's invariant holds and exactly the blocks before
    [freeblock] are in use; a lookup of an argument's name in the root directory
    finds its entry, and the file behind it reads as the bytes of the argument. *)
Theorem mkfs_mounts args tr : Forall arg_ok args -> fits (asked args) ->
  NoDup ((fun e => cstrn (reads e.2) DIRSIZ) <$> root_names args) ->
  runs (mkfs_main (Some true) args) mkfs_init tr (fun _ m => forall s x,
    (forall b, view s b = m_img m b) -> dinode_of x = inode_at (m_img m) 0 ->
    bitmap_ok main_sb s /\ (forall b, 0 <= b < FSSIZE -> used main_sb s b = (b <? m_freeblock m)) /\ i_type x = T_DIR /\
    forall k a, args !! k = Some a ->
      dir_find x s (shortname a.1) = Some (k + 2)%nat /\ de_inum (dir_entry x s (k + 2)) = inum_of (S k) /\
      forall y, dinode_of y = inode_at (m_img m) (S k) ->
        i_type y = T_FILE /\ i_size y = Z.of_nat (length (contents a)) /\ file_bytes y s 0 (i_size y) = contents a).
Proof.
  intros Ha Hf Hnd. rlast (mkfs_run args tr Ha Hf) as [own Him]. intros s x Hv Hx.
  destruct (view_bitmap args s' own Him s Hv) as [Hb Hu]. split; [done|]. split; [done|].
  split; [by apply (view_file s' own s Hv _ _ _ _ x (if_root _ _ _ Him) Hx)|]. intros k b Hk.
  pose proof (lookup_lt_Some _ _ _ (asked_file args k b Hk)). pose proof (ft_few _ Hf).
  destruct (view_find args s' own Him s Hv x _ _ Hx (root_names_arg args k b Hk)) as [H1 H2]; [unfold inum_of; cbn; lia|done|].
  split; [done|]. split; [done|]. intros y Hy.
  split; [by apply (view_file s' own s Hv _ _ _ _ y (if_files _ _ _ Him k b Hk) Hy)|by apply (view_contents args s' own Him s Hv k)].
Qed.

(** C38. The size of the root directory is rounded up to the block after its last
    byte: when the entries fill their blocks exactly, the last block of the
    directory is one that was never allocated, its address in the inode being 0. *)
Theorem mkfs_root_hole args tr : Forall arg_ok args -> fits (asked args) -> (Z.of_nat (length args) + 2) mod 64 = 0 ->
  runs (mkfs_main (Some true) args) mkfs_init tr (fun _ m =>
    let di := inode_at (m_img m) 0 in let k := (d_size di - 1) / BSIZE in 0 <= k < NDIRECT /\ daddr di k = 0).
Proof.
  intros Ha Hf Hmod. rlast (mkfs_run args tr Ha Hf) as [own Him]. destruct (if_root _ _ _ Him) as (F & _ & _ & Hs). cbv zeta. rewrite Hs.
  pose proof (ft_few _ Hf) as Hfew. unfold asked in Hfew. cbn [length] in Hfew. rewrite length_fmap in Hfew.
  assert (Hl : Z.of_nat (length (root_entries args)) = 16 * (Z.of_nat (length args) + 2)).
  { rewrite length_root. unfold root_names. cbn [length]. rewrite length_imap. unfold arg. lia. }
  assert (Hk : (root_size args - 1) / BSIZE = nblk (root_entries args) /\ 0 <= nblk (root_entries args) < NDIRECT).
  { unfold root_size, nblk. rewrite Hl. change BSIZE with 1024. change NDIRECT with 12. dlia. }
  destruct Hk as [-> Hk]. split; [done|]. apply (fr_free _ _ _ _ _ _ _ F). lia.
Qed.

(** ** One program and one text *)
Definition demo_args : list arg :=
  [([117; 115; 101; 114; 47; 95; 99; 97; 116], Some [replicate 1024 7; [8; 9]]); ([82; 69; 65; 68; 77; 69], Some [[72; 105]])].

Lemma demo_args_ok : Forall arg_ok demo_args.
Proof.
  repeat constructor; cbn; try (by eexists); try lia; intros Hin; apply (bool_decide_pack _) in Hin; by vm_compute in Hin.
Qed.

Lemma demo_fits : fits (asked demo_args).
Proof. split; [by vm_compute| |cbn; lia]. by repeat constructor. Qed.

Lemma mkfs_spec_witness :
  runs (mkfs_main (Some true) demo_args) mkfs_init [] (fun _ m => exists own, image_for demo_args m own /\ m_freeblock m = 51).
Proof.
  rlast (mkfs_spec demo_args [] demo_args_ok demo_fits) as [own Him]. exists own. split; [exact Him|]. rewrite (if_free _ _ _ Him). by vm_compute.
Defined.

Lemma mkfs_mounts_witness :
  runs (mkfs_main (Some true) demo_args) mkfs_init [] (fun _ m => forall s x,
    (forall b, view s b = m_img m b) -> dinode_of x = inode_at (m_img m) 0 ->
    dir_find x s [99; 97; 116] = Some 2%nat /\ dir_find x s [82; 69; 65; 68; 77; 69] = Some 3%nat /\ bitmap_ok main_sb s).
Proof.
  rlast (mkfs_mounts demo_args [] demo_args_ok demo_fits) as Hm.
  - apply (bool_decide_unpack _). by vm_compute.
  - intros s x Hv Hx. destruct (Hm s x Hv Hx) as (Hu & _ & _ & Hk). split; [apply (Hk 0%nat _ eq_refl)|]. split; [apply (Hk 1%nat _ eq_refl)|exact Hu].
Defined.

Lemma mkfs_root_hole_witness :
  runs (mkfs_main (Some true) (replicate 62 ([97], Some []))) mkfs_init [] (fun _ m => exists k, daddr (inode_at (m_img m) 0) k = 0).
Proof.
  rlast (mkfs_root_hole (replicate 62 ([97], Some [])) []) as Hm.
  - apply Forall_replicate. split; [|apply Nat.leb_le; reflexivity|by eexists]. intros Hin. apply (bool_decide_pack _) in Hin. by vm_compute in Hin.
  - split; [by vm_compute| |unfold asked; cbn [length]; rewrite length_fmap, length_replicate; lia]. apply (bool_decide_unpack _). by vm_compute.
  - reflexivity.
  - destruct Hm as [_ Hk]. by eexists.
Defined.
