(* ===== verification/File.v ===== *)
(** * Files and pipes (kernel/file.c, kernel/pipe.c)

    The file table with its reference counts, and the pipe as a circular buffer
    whose two counters wrap at 32 bits.  A pipe is named by the address of the
    page that holds it; while that page is a pipe its fields are in [k_pipes]. *)

From stdpp Require Import prelude list strings gmap.
From Stdlib Require Import ZArith Lia ZifyBool.
From S2P Require Import Prelude State Spinlock CString Kalloc Proc Vm Uaccess Sleeplock Console Bio Log Fs.
Local Open Scope Z_scope.

(** ** Access to the tables *)
Definition get_file (f : nat) : Kern file := let! s := kget in deref (k_files s !! f).
Definition upd_file (f : nat) (g : file -> file) : Kern unit := modify (fun s => s <| k_files ::= alter g f |>).
Definition get_pipe (pi : Z) : Kern pipe := let! s := kget in deref (k_pipes s !! pi).
Definition upd_pipe (pi : Z) (g : pipe -> pipe) : Kern unit := modify (fun s => s <| k_pipes ::= alter g pi |>).

(** [pi->data[i % PIPESIZE]] *)
Definition pipe_at (p : pipe) (i : Z) : Z := nth (Z.to_nat (i mod PIPESIZE)) (pi_data p) 0.
Definition pipe_put (i v : Z) (p : pipe) : pipe := p <| pi_data ::= <[Z.to_nat (i mod PIPESIZE) := v]> |>.

(** The bytes of a [struct stat]; the four bytes of padding are zero here. *)
Definition stat_bytes (st : stat) : list Z :=
  put32 (put32 (put16 (put16 (put32 (put32 (replicate 24 0) 0 (st_dev st)) 4 (st_ino st)) 8 (st_type st)) 10 (st_nlink st))
    16 (st_size st)) 20 0.

Section File.
Context `{DiskDriver} `{KernelLayout} `{Devices}.

(** ** The file table *)
Definition fileinit : Kern unit := initlock L_ftable.

Definition filealloc : Kern (option nat) :=
  acquire L_ftable ;;
  let! r := for_upto NFILE 0 (fun f =>
    let! x := get_file f in
    if f_ref x =? 0 then
      upd_file f (fun x => x <| f_ref := 1 |>) ;;
      release L_ftable ;;
      kret (Some f)
    else kret None) in
  match r with
  | Some f => kret (Some f)
  | None => release L_ftable ;; kret None
  end.

Definition filedup (f : nat) : Kern nat :=
  acquire L_ftable ;;
  let! x := get_file f in
  if f_ref x <? 1 then panic "filedup" else
  upd_file f (fun x => x <| f_ref := f_ref x + 1 |>) ;;
  release L_ftable ;;
  kret f.

(** ** Pipes: closing an end *)
(** The page goes back to the allocator; it is no longer a pipe. *)
Definition pipe_free (pi : Z) : Kern unit :=
  modify (fun s => s <| k_pipes ::= delete pi |>) ;;
  kfree pi.

Definition pipeclose (pi : Z) (writable : bool) : Kern unit :=
  acquire (L_pipe pi) ;;
  (if writable then
     upd_pipe pi (fun p => p <| pi_writeopen := false |>) ;;
     wakeup (Some (Ch_nread pi))
   else
     upd_pipe pi (fun p => p <| pi_readopen := false |>) ;;
     wakeup (Some (Ch_nwrite pi))) ;;
  let! p := get_pipe pi in
  if negb (pi_readopen p) && negb (pi_writeopen p) then
    release (L_pipe pi) ;;
    pipe_free pi
  else release (L_pipe pi).

Definition fileclose (f : nat) : Kern unit :=
  acquire L_ftable ;;
  let! x := get_file f in
  if f_ref x <? 1 then panic "fileclose" else
  upd_file f (fun x => x <| f_ref := f_ref x - 1 |>) ;;
  let! x := get_file f in
  if 0 <? f_ref x then release L_ftable else
  let ff := x in
  upd_file f (fun x => x <| f_ref := 0 |> <| f_type := FD_NONE |>) ;;
  release L_ftable ;;
  match f_type ff with
  | FD_PIPE => pipeclose (f_pipe ff) (f_writable ff)
  | FD_INODE | FD_DEVICE =>
      begin_op ;;
      let! ip := deref (f_ip ff) in
      iput ip ;;
      end_op
  | FD_NONE => kret tt
  end.

(** ** Pipes: opening *)
(** The error exit of [pipealloc]. *)
Definition pipe_bad (pi : Z) (f0 f1 : option nat) : Kern (option (nat * nat)) :=
  when (negb (pi =? 0)) (kfree pi) ;;
  match f0 with Some f => fileclose f | None => kret tt end ;;
  match f1 with Some f => fileclose f | None => kret tt end ;;
  kret None.

(** The read end and the write end; [None] is the result -1. *)
Definition pipealloc : Kern (option (nat * nat)) :=
  let! f0 := filealloc in
  match f0 with
  | None => pipe_bad 0 None None
  | Some r =>
      let! f1 := filealloc in
      match f1 with
      | None => pipe_bad 0 (Some r) None
      | Some w =>
          let! pi := kalloc in
          if pi =? 0 then pipe_bad 0 (Some r) (Some w) else
          modify (fun s => s <| k_pipes ::= <[pi := mkpipe (read_bytes (k_mem s) (pi + 24) 512) 0 0 true true]> |>) ;;
          initlock (L_pipe pi) ;;
          upd_file r (fun x => x <| f_type := FD_PIPE |> <| f_readable := true |> <| f_writable := false |> <| f_pipe := pi |>) ;;
          upd_file w (fun x => x <| f_type := FD_PIPE |> <| f_readable := false |> <| f_writable := true |> <| f_pipe := pi |>) ;;
          kret (Some (r, w))
      end
  end.

(** ** Pipes: transfer *)
(** The iterations of [pipewrite] that wait for room; [false] when the call
    returns -1, the lock then being released. *)
Definition pipe_room (pi : Z) (pr : nat) : Kern bool :=
  loop (
    let! p := get_pipe pi in
    let! dead := if negb (pi_readopen p) then kret true else let! k := killed pr in kret (negb (k =? 0)) in
    if dead then
      release (L_pipe pi) ;;
      kret (Some false)
    else
      let! p := get_pipe pi in
      if pi_nwrite p =? u32 (pi_nread p + PIPESIZE) then
        wakeup (Some (Ch_nread pi)) ;;
        sleep_prepare (Some (Ch_nwrite pi)) ;;
        release (L_pipe pi) ;;
        sleep ;;
        acquire (L_pipe pi) ;;
        kret None
      else kret (Some true)).

(** [left] bytes are still to be written; [None] is the early return of -1. *)
Fixpoint pipewrite_loop (left : nat) (pi : Z) (pr : nat) (addr i : Z) : Kern (option Z) :=
  match left with
  | O => kret (Some i)
  | S left' =>
      let! ok := pipe_room pi pr in
      if negb ok then kret None else
      let! pp := get_proc pr in
      let! '(r, ch) := copyin (p_pagetable pp) (p_sz pp) (u64 (addr + i)) 1 in
      if r =? -1 then kret (Some (if i =? 0 then -1 else i)) else
      upd_pipe pi (fun p => (pipe_put (pi_nwrite p) (nth 0 ch 0) p) <| pi_nwrite := u32 (pi_nwrite p + 1) |>) ;;
      pipewrite_loop left' pi pr addr (i + 1)
  end.

Definition pipewrite (pi addr n : Z) : Kern Z :=
  let! pr := curproc in
  acquire (L_pipe pi) ;;
  let! r := pipewrite_loop (Z.to_nat n) pi pr addr 0 in
  match r with
  | None => kret (-1)
  | Some i =>
      wakeup (Some (Ch_nread pi)) ;;
      release (L_pipe pi) ;;
      kret i
  end.

(** The wait of [piperead] for data; [false] when the process was killed. *)
Definition pipe_data (pi : Z) (pr : nat) : Kern bool :=
  loop (
    let! p := get_pipe pi in
    if (pi_nread p =? pi_nwrite p) && pi_writeopen p then
      let! k := killed pr in
      if negb (k =? 0) then
        release (L_pipe pi) ;;
        kret (Some false)
      else
        sleep_prepare (Some (Ch_nread pi)) ;;
        release (L_pipe pi) ;;
        sleep ;;
        acquire (L_pipe pi) ;;
        kret None
    else kret (Some true)).

Fixpoint piperead_loop (left : nat) (pi : Z) (pr : nat) (addr i : Z) : Kern Z :=
  match left with
  | O => kret i
  | S left' =>
      let! p := get_pipe pi in
      if pi_nread p =? pi_nwrite p then kret i else
      let ch := pipe_at p (pi_nread p) in
      let! pp := get_proc pr in
      let! r := copyout (p_pagetable pp) (p_sz pp) (u64 (addr + i)) [ch] in
      if r =? -1 then kret (if i =? 0 then -1 else i) else
      upd_pipe pi (fun p => p <| pi_nread := u32 (pi_nread p + 1) |>) ;;
      piperead_loop left' pi pr addr (i + 1)
  end.

Definition piperead (pi addr n : Z) : Kern Z :=
  let! pr := curproc in
  acquire (L_pipe pi) ;;
  let! ok := pipe_data pi pr in
  if negb ok then kret (-1) else
  let! i := piperead_loop (Z.to_nat n) pi pr addr 0 in
  wakeup (Some (Ch_nwrite pi)) ;;
  release (L_pipe pi) ;;
  kret i.

(** ** Files *)
Definition filestat (f : nat) (addr : Z) : Kern Z :=
  let! p := curproc in
  let! x := get_file f in
  if bool_decide (f_type x = FD_INODE) || bool_decide (f_type x = FD_DEVICE) then
    let! ip := deref (f_ip x) in
    ilock ip ;;
    let! st := stati ip in
    iunlock ip ;;
    let! pp := get_proc p in
    let! r := copyout (p_pagetable pp) (p_sz pp) addr (stat_bytes st) in
    if r <? 0 then kret (-1) else kret 0
  else kret (-1).

(** [devsw[major].read] and [devsw[major].write]. *)
Definition dev_read (d : devops) (addr n : Z) : Kern Z :=
  match d with Dev_console => consoleread (D_user addr) n end.
Definition dev_write (d : devops) (addr n : Z) : Kern Z :=
  match d with Dev_console => consolewrite (S_user addr) n end.
Definition devsw (major : Z) : Kern (option devops) :=
  if (major <? 0) || (NDEV <=? major) then kret None
  else gets (fun s => k_devsw s !! major).

Definition fileread (f : nat) (addr n : Z) : Kern Z :=
  let! x := get_file f in
  if negb (f_readable x) || (n <? 0) then kret (-1) else
  match f_type x with
  | FD_PIPE => piperead (f_pipe x) addr n
  | FD_DEVICE =>
      let! d := devsw (f_major x) in
      match d with None => kret (-1) | Some d => dev_read d addr n end
  | FD_INODE =>
      let! ip := deref (f_ip x) in
      ilock ip ;;
      let! x := get_file f in
      let! '(r, _) := readi ip (D_user addr) (f_off x) n in
      when (0 <? r) (upd_file f (fun x => x <| f_off := u32 (f_off x + r) |>)) ;;
      iunlock ip ;;
      kret r
  | FD_NONE => panic "fileread"
  end.

(** The chunks of an inode write; the result is [i]. *)
Fixpoint filewrite_loop (fuel : nat) (f : nat) (addr i n : Z) : Kern Z :=
  match fuel with
  | O => hang
  | S fuel' =>
      if n <=? i then kret i else
      let max := (MAXOPBLOCKS - 1 - 1 - 2) / 2 * BSIZE in
      let n1 := Z.min (n - i) max in
      begin_op ;;
      let! x := get_file f in
      let! ip := deref (f_ip x) in
      ilock ip ;;
      let! x := get_file f in
      let! r := writei ip (S_user (u64 (addr + i))) (f_off x) n1 in
      when (0 <? r) (upd_file f (fun x => x <| f_off := u32 (f_off x + r) |>)) ;;
      iunlock ip ;;
      end_op ;;
      if negb (r =? n1) then kret i
      else filewrite_loop fuel' f addr (i + r) n
  end.

Definition filewrite (f : nat) (addr n : Z) : Kern Z :=
  let! x := get_file f in
  if negb (f_writable x) || (n <? 0) then kret (-1) else
  match f_type x with
  | FD_PIPE => pipewrite (f_pipe x) addr n
  | FD_DEVICE =>
      let! d := devsw (f_major x) in
      match d with None => kret (-1) | Some d => dev_write d addr n end
  | FD_INODE =>
      let! i := filewrite_loop (Z.to_nat (n / 3072 + 2)) f addr 0 n in
      kret (if i =? n then n else -1)
  | FD_NONE => panic "filewrite"
  end.
End File.
