(* ===== verification/ProcLife.v ===== *)
(** * The life of a process (kernel/proc.c)

    Allocation of a slot and its page table, the first process, growing memory,
    [fork], [exit] and [wait].  The routines hold the locks the source holds: a
    slot under construction is returned with [p->lock] held, and [wait_lock]
    protects [p->parent]. *)

From stdpp Require Import prelude list strings gmap.
From Stdlib Require Import ZArith Lia ZifyBool.
From S2P Require Import Prelude State Spinlock CString Kalloc Proc Vm Uaccess Sleeplock Console Bio Log Fs File.
Local Open Scope Z_scope.

Section ProcLife.
Context `{DiskDriver} `{KernelLayout} `{Devices}.

(** ** Page tables of processes *)
Definition proc_freepagetable (pagetable sz : Z) : Kern unit :=
  uvmunmap pagetable TRAMPOLINE 1 false ;;
  uvmunmap pagetable TRAPFRAME 1 false ;;
  uvmfree pagetable sz.

Definition proc_pagetable (p : nat) : Kern Z :=
  let! pagetable := uvmcreate in
  if pagetable =? 0 then kret 0 else
  let! r := mappages pagetable TRAMPOLINE PGSIZE trampoline (Z.lor PTE_R PTE_X) in
  if r <? 0 then
    uvmfree pagetable 0 ;;
    kret 0
  else
  let! pp := get_proc p in
  let! r := mappages pagetable TRAPFRAME PGSIZE (p_trapframe pp) (Z.lor PTE_R PTE_W) in
  if r <? 0 then
    uvmunmap pagetable TRAMPOLINE 1 false ;;
    uvmfree pagetable 0 ;;
    kret 0
  else kret pagetable.

(** ** Allocation *)
Definition freeproc (p : nat) : Kern unit :=
  let! pp := get_proc p in
  when (negb (p_trapframe pp =? 0)) (kfree (p_trapframe pp)) ;;
  upd_proc p (fun q => q <| p_trapframe := 0 |>) ;;
  when (negb (p_pagetable pp =? 0)) (proc_freepagetable (p_pagetable pp) (p_sz pp)) ;;
  upd_proc p (fun q => q <| p_pagetable := 0 |> <| p_sz := 0 |> <| p_pid := 0 |> <| p_name ::= <[0%nat := 0]> |>
    <| p_chan := None |> <| p_killed := 0 |> <| p_xstate := 0 |> <| p_priority := PRIORITY_DEFAULT |>
    <| p_wait_ticks := 0 |> <| p_state := UNUSED |>).

(** The search for an unused slot, which is left locked. *)
Definition find_unused : Kern (option nat) :=
  for_upto NPROC 0 (fun i =>
    acquire (L_proc i) ;;
    let! p := get_proc i in
    if decide (p_state p = UNUSED) then kret (Some i)
    else release (L_proc i) ;; kret None).

Definition allocproc : Kern (option nat) :=
  let! found := find_unused in
  match found with
  | None => kret None
  | Some p =>
      let! pid := allocpid in
      upd_proc p (fun q => q <| p_pid := pid |> <| p_state := USED |> <| p_priority := PRIORITY_DEFAULT |> <| p_wait_ticks := 0 |>) ;;
      let! tf := kalloc in
      upd_proc p (fun q => q <| p_trapframe := tf |>) ;;
      if tf =? 0 then
        freeproc p ;;
        release (L_proc p) ;;
        kret None
      else
      let! pt := proc_pagetable p in
      upd_proc p (fun q => q <| p_pagetable := pt |>) ;;
      if pt =? 0 then
        freeproc p ;;
        release (L_proc p) ;;
        kret None
      else
      upd_proc p (fun q => q <| p_context := mkcontext forkret_addr (p_kstack q + PGSIZE) |>) ;;
      kret (Some p)
  end.

Definition userinit : Kern unit :=
  let! p := allocproc in
  modify (fun s => s <| k_initproc := p |>) ;;
  let! p := deref p in
  let! cwd := namei [SLASH] in
  upd_proc p (fun q => q <| p_cwd := cwd |>) ;;
  upd_proc p (fun q => q <| p_state := RUNNABLE |>) ;;
  release (L_proc p).

(** ** Memory *)
Definition growproc (n : Z) : Kern Z :=
  let! p := curproc in
  let! pp := get_proc p in
  let sz := p_sz pp in
  if 0 <? n then
    if TRAPFRAME <? u64 (sz + n) then kret (-1) else
    let! sz := uvmalloc (p_pagetable pp) sz (u64 (sz + n)) PTE_W in
    if sz =? 0 then kret (-1) else
    upd_proc p (fun q => q <| p_sz := sz |>) ;;
    kret 0
  else
    let! sz := if n <? 0 then uvmdealloc (p_pagetable pp) sz (u64 (sz + n)) else kret sz in
    upd_proc p (fun q => q <| p_sz := sz |>) ;;
    kret 0.

(** ** Fork *)
(** [for (i = 0; i < NOFILE; i++) if (p->ofile[i]) np->ofile[i] = filedup(p->ofile[i]);] *)
Definition dup_files (p np : nat) : Kern unit :=
  for_each NOFILE 0 (fun i =>
    let! pp := get_proc p in
    match p_ofile pp !! i with
    | Some (Some f) =>
        let! f := filedup f in
        upd_proc np (fun q => q <| p_ofile ::= <[i := Some f]> |>)
    | Some None => kret tt
    | None => undefined
    end).

Definition kfork : Kern Z :=
  let! p := curproc in
  let! np := allocproc in
  match np with
  | None => kret (-1)
  | Some np =>
      acquire (L_proc p) ;;
      let! pp := get_proc p in
      let parent_priority := p_priority pp in
      release (L_proc p) ;;
      let! pp := get_proc p in
      let! nn := get_proc np in
      let! r := uvmcopy (p_pagetable pp) (p_pagetable nn) (p_sz pp) in
      if r <? 0 then
        freeproc np ;;
        release (L_proc np) ;;
        kret (-1)
      else
      upd_proc np (fun q => q <| p_sz := p_sz pp |>) ;;
      modify (fun s => s <| k_mem := memmove (k_mem s) (p_trapframe nn) (p_trapframe pp) TF_size |>) ;;
      tf_store np TF_a0 0 ;;
      upd_proc np (fun q => q <| p_priority := if priority_valid parent_priority then parent_priority else PRIORITY_DEFAULT |>
        <| p_wait_ticks := 0 |>) ;;
      dup_files p np ;;
      let! pp := get_proc p in
      let! cwd := deref (p_cwd pp) in
      let! cwd := idup cwd in
      upd_proc np (fun q => q <| p_cwd := Some cwd |>) ;;
      upd_proc np (fun q => q <| p_name := safestrcpy (p_name q) (reads (p_name pp)) 16 |>) ;;
      let! nn := get_proc np in
      let pid := p_pid nn in
      release (L_proc np) ;;
      acquire L_wait ;;
      upd_proc np (fun q => q <| p_parent := Some p |>) ;;
      release L_wait ;;
      acquire (L_proc np) ;;
      upd_proc np (fun q => q <| p_state := RUNNABLE |>) ;;
      release (L_proc np) ;;
      kret pid
  end.

(** ** Exit and wait *)
Definition proc_chan (p : option nat) : option wchan := Ch_proc <$> p.

Definition reparent (p : nat) : Kern unit :=
  for_each NPROC 0 (fun i =>
    let! pp := get_proc i in
    when (bool_decide (p_parent pp = Some p))
      (let! init := gets k_initproc in
       upd_proc i (fun q => q <| p_parent := init |>) ;;
       wakeup (proc_chan init))).

Definition close_files (p : nat) : Kern unit :=
  for_each NOFILE 0 (fun fd =>
    let! pp := get_proc p in
    match p_ofile pp !! fd with
    | Some (Some f) =>
        fileclose f ;;
        upd_proc p (fun q => q <| p_ofile ::= <[fd := None]> |>)
    | Some None => kret tt
    | None => undefined
    end).

Definition kexit (status : Z) : Kern unit :=
  let! p := curproc in
  let! init := gets k_initproc in
  if bool_decide (init = Some p) then panic "init exiting" else
  close_files p ;;
  begin_op ;;
  let! pp := get_proc p in
  let! cwd := deref (p_cwd pp) in
  iput cwd ;;
  end_op ;;
  upd_proc p (fun q => q <| p_cwd := None |>) ;;
  acquire L_wait ;;
  reparent p ;;
  let! pp := get_proc p in
  wakeup (proc_chan (p_parent pp)) ;;
  acquire (L_proc p) ;;
  upd_proc p (fun q => q <| p_xstate := status |>) ;;
  upd_proc p (fun q => q <| p_state := ZOMBIE |>) ;;
  release L_wait ;;
  sched ;;
  panic "zombie exit".

(** The scan of [kwait] over the table: the result of the call if it returns,
    and [havekids]. *)
Fixpoint kwait_scan (n i : nat) (p : nat) (addr : Z) (havekids : bool) : Kern (option Z * bool) :=
  match n with
  | O => kret (None, havekids)
  | S n' =>
      let! pp := get_proc i in
      if bool_decide (p_parent pp = Some p) then
        acquire (L_proc i) ;;
        let! pp := get_proc i in
        if bool_decide (p_state pp = ZOMBIE) then
          let pid := p_pid pp in
          let! me := get_proc p in
          let! r :=
            if negb (addr =? 0) then
              copyout (p_pagetable me) (p_sz me) addr (put32 (replicate 4 0) 0 (p_xstate pp))
            else kret 0 in
          if r <? 0 then
            release (L_proc i) ;;
            release L_wait ;;
            kret (Some (-1), true)
          else
          upd_proc i (fun q => q <| p_parent := None |>) ;;
          freeproc i ;;
          release (L_proc i) ;;
          release L_wait ;;
          kret (Some pid, true)
        else
          release (L_proc i) ;;
          kwait_scan n' (S i) p addr true
      else kwait_scan n' (S i) p addr havekids
  end.

Definition kwait (addr : Z) : Kern Z :=
  let! p := curproc in
  acquire L_wait ;;
  loop (
    let! '(r, havekids) := kwait_scan NPROC 0 p addr false in
    match r with
    | Some v => kret (Some v)
    | None =>
        let! stop := if negb havekids then kret true else let! k := killed p in kret (negb (k =? 0)) in
        if (stop : bool) then
          release L_wait ;;
          kret (Some (-1))
        else
          sleep_prepare (proc_chan (Some p)) ;;
          release L_wait ;;
          sleep ;;
          acquire L_wait ;;
          kret None
    end).
End ProcLife.

(** ** Killing process 0 *)
Lemma find_unused_from k : forall n lo s tr q,
  quiescent s -> (k < n)%nat -> (forall j p, (lo <= j < lo + k)%nat -> k_procs s !! j = Some p -> p_state p <> UNUSED) ->
  k_procs s !! (lo + k)%nat = Some q -> p_state q = UNUSED ->
  for_upto n lo (fun i =>
    acquire (L_proc i) ;;
    let! p := get_proc i in
    if decide (p_state p = UNUSED) then kret (Some i)
    else release (L_proc i) ;; kret None) s tr = Done (Some (lo + k)%nat) (enter (L_proc (lo + k)) s) tr.
Proof.
  induction k as [|k IH]; intros [|n] lo s tr q Hq Hk Hno Hp Hu; try lia; cbn [for_upto].
  - rewrite Nat.add_0_r in *. kstep slot_acquire; [done|]. kexact (get_proc_run (enter (L_proc lo) s) tr lo q Hp).
    rewrite decide_True by done. done.
  - destruct (lookup_lt_is_Some_2 (k_procs s) lo) as [p Hlo]; [apply lookup_lt_Some in Hp; lia|].
    kstep slot_acquire; [done|]. kexact (get_proc_run (enter (L_proc lo) s) tr lo p Hlo).
    rewrite decide_False by (apply (Hno lo); [lia|done]). kstep slot_release_id; [done|]. kstep kret_run.
    replace (lo + S k)%nat with (S lo + k)%nat in * by lia. rewrite <- (enter_touch (L_proc (S lo + k)) s).
    apply (IH n (S lo) (touch s) tr q); [by apply quiescent_touch|lia| |done|done].
    intros j p' Hj. apply (Hno j p'). lia.
Qed.

Lemma find_unused_run s tr i q : quiescent s -> k_procs s !! i = Some q -> p_state q = UNUSED ->
  (forall j p, (j < i)%nat -> k_procs s !! j = Some p -> p_state p <> UNUSED) ->
  find_unused s tr = Done (Some i) (enter (L_proc i) s) tr.
Proof.
  intros Hq Hi Hu Hno. apply (find_unused_from i NPROC 0 s tr q); try done; [|intros j p Hj; apply Hno; lia].
  apply lookup_lt_Some in Hi. by rewrite <- (q_len s Hq).
Qed.

(** C40. [kill(0)] succeeds, although no process has pid 0: [kkill] does not look at
    the state of a slot, and the pid of an unused one is 0.  It marks the first
    unused slot as killed, which is the slot that [allocproc] takes next; so the
    next process to be created starts its life killed. *)
Theorem kill_zero_hits_free_slot s tr i q :
  quiescent s -> (forall j p, k_procs s !! j = Some p -> (p_pid p = 0 <-> p_state p = UNUSED)) ->
  k_procs s !! i = Some q -> p_state q = UNUSED ->
  (forall j p, (j < i)%nat -> k_procs s !! j = Some p -> p_state p <> UNUSED) ->
  exists s', kkill 0 s tr = Done 0 s' tr /\
    k_procs s' !! i = Some (q <| p_killed := 1 |>) /\
    find_unused s' tr = Done (Some i) (enter (L_proc i) s') tr.
Proof.
  intros Hq Hpid Hi Hu Hno. set (s1 := s <| k_procs := alter kill_proc i (k_procs s) |>).
  assert (Hq1 : quiescent s1) by (apply quiescent_procs; [done|]; rewrite length_alter; apply Hq).
  assert (Hk : kill_proc q = q <| p_killed := 1 |>) by (unfold kill_proc; rewrite decide_False by (by rewrite Hu); by destruct q).
  assert (Hi1 : k_procs (touch s1) !! i = Some (q <| p_killed := 1 |>)) by (rewrite <- Hk; cbn; by rewrite list_lookup_alter_eq, Hi).
  assert (Hf : list_find (fun p => p_pid p = 0) (k_procs s) = Some (i, q)).
  { apply list_find_Some. split; [done|]. split; [by apply (Hpid i q)|]. intros j p Hj Hlt E. apply (Hno j p Hlt Hj). by apply (Hpid j p). }
  exists (touch s1). split; [by rewrite kkill_run, Hf|]. split; [done|].
  apply (find_unused_run (touch s1) tr i (q <| p_killed := 1 |>)); [by apply quiescent_touch|done|done|].
  intros j p Hj. cbn. rewrite list_lookup_alter_ne by lia. by apply Hno.
Qed.

Lemma kill_zero_hits_free_slot_witness : exists s', kkill 0 demo_alone [] = Done 0 s' [] /\
  k_procs s' !! 0%nat = Some (proc_bss <| p_killed := 1 |>) /\
  find_unused s' [] = Done (Some 0%nat) (enter (L_proc 0) s') [].
Proof.
  apply (kill_zero_hits_free_slot demo_alone [] 0 proc_bss).
  - exact (solo_quiet _ _ demo_alone_solo).
  - intros j p Hj. assert (Hp : p = demo_running \/ p = proc_bss).
    { change (k_procs demo_alone) with (<[1%nat := demo_running]> (replicate NPROC proc_bss)) in Hj.
      destruct (decide (j = 1%nat)) as [->|Hn]; [left; by injection Hj|right].
      rewrite list_lookup_insert_ne in Hj by (by intros <-). by apply lookup_replicate in Hj as [-> _]. }
    destruct Hp as [-> | ->]; split; (discriminate || reflexivity).
  - reflexivity.
  - reflexivity.
  - lia.
Defined.
