(* ===== verification/VmFree.v ===== *)
(** * Giving an address space back (kernel/vm.c, kernel/proc.c)

    [freewalk] hands every table of a page table to the allocator, [uvmunmap]
    the frames of the user pages.  The theorems account for the pages: what is
    on the free list afterwards is what was on it before, the tables, and the
    frames, each once.  So neither a failed [proc_pagetable] nor the end of a
    process loses a page or frees one twice. *)

From stdpp Require Import prelude list strings gmap.
From Stdlib Require Import ZArith Lia ZifyBool.
From S2P Require Import Prelude State Spinlock CString Kalloc Proc Vm VmCopy ProcLife.
Local Open Scope Z_scope.

(** ** The tables below a table, in the order they are freed *)
Definition indices : list Z := Z.of_nat <$> seq 0 512.

Fixpoint tables (n : nat) (m : Z -> Z) (t : Z) : list Z :=
  match n with
  | O => []
  | S n' =>
      (i ← indices; match entry m t i with Some t' => tables n' m t' | None => [] end) ++ [t]
  end.

(** A tree of [n] levels without leaves: what [freewalk] does not panic on. *)
Fixpoint bare (n : nat) (m : Z -> Z) (t : Z) : Prop :=
  match n with
  | O => False
  | S n' => forall i, index i -> has (load64 m (t + 8 * i)) PTE_V = true ->
      pointer_only (load64 m (t + 8 * i)) = true /\ bare n' m (PTE2PA (load64 m (t + 8 * i)))
  end.

Definition tree (n : nat) (m : Z -> Z) (t : Z) : Prop :=
  forall p q x, Forall index p -> Forall index q -> (length p < n)%nat -> (length q < n)%nat ->
    tbl m t p = Some x -> tbl m t q = Some x -> p = q.

(** The subtree of one entry. *)
Definition below (n : nat) (m : Z -> Z) (t i : Z) : list Z :=
  match entry m t i with Some t' => tables n m t' | None => [] end.

Lemma elem_indices i : i ∈ indices <-> index i.
Proof.
  unfold indices, index. rewrite list_elem_of_fmap. split.
  - intros (k & -> & Hk%elem_of_seq). lia.
  - intros Hi. exists (Z.to_nat i). split; [lia|]. apply elem_of_seq. lia.
Qed.

Lemma elem_tables n m : forall t x,
  x ∈ tables n m t <-> exists p, Forall index p /\ (length p < n)%nat /\ tbl m t p = Some x.
Proof.
  induction n as [|n IH]; intros t x; cbn [tables].
  { split; [by intros ?%elem_of_nil|]. intros (p & _ & Hl & _). lia. }
  rewrite elem_of_app, list_elem_of_bind, list_elem_of_singleton. split.
  - intros [(i & Hx & Hi%elem_indices)| ->]; [|exists []; split; [constructor|split; [cbn; lia|done]]].
    destruct (entry m t i) as [t'|] eqn:E; [|by apply elem_of_nil in Hx].
    apply IH in Hx as (p & Hp & Hl & Ht). exists (i :: p). cbn. rewrite E. split; [by constructor|]. split; [lia|done].
  - intros (p & Hp & Hl & Ht). destruct p as [|i p]; cbn in *; [right; by injection Ht|left].
    apply Forall_cons in Hp as [Hi Hp]. exists i. split; [|by apply elem_indices].
    destruct (entry m t i) as [t'|]; [|done]. apply IH. exists p. split; [done|]. split; [lia|done].
Qed.

Lemma elem_tables_same n m m' t x :
  (forall p, Forall index p -> (length p < n)%nat -> tbl m' t p = tbl m t p) ->
  x ∈ tables n m t <-> x ∈ tables n m' t.
Proof.
  intros E. rewrite !elem_tables. split; intros (p & Hp & Hl & Hx); exists p; (split; [done|split; [done|]]).
  - by rewrite E.
  - by rewrite <- E.
Qed.

Lemma root_in_tables n m t : t ∈ tables (S n) m t.
Proof. cbn [tables]. apply elem_of_app. right. by apply list_elem_of_singleton. Qed.

Lemma below_tables n m t i x : index i -> x ∈ below n m t i -> x ∈ tables (S n) m t.
Proof.
  intros Hi Hx. cbn [tables]. apply elem_of_app. left. apply list_elem_of_bind. exists i.
  split; [exact Hx|by apply elem_indices].
Qed.

Lemma elem_below n m t i x :
  x ∈ below n m t i <-> exists p, Forall index p /\ (length p < n)%nat /\ tbl m t (i :: p) = Some x.
Proof.
  unfold below. cbn [tbl]. destruct (entry m t i); [apply elem_tables|].
  split; [by intros ?%elem_of_nil|]. by intros (p & _ & _ & ?).
Qed.

Lemma tree_sub n m t i t' : tree (S n) m t -> index i -> entry m t i = Some t' -> tree n m t'.
Proof.
  intros Ht Hi E p q x Hp Hq Hlp Hlq Hx Hy.
  assert (Heq : i :: p = i :: q).
  { apply (Ht _ _ x); [by constructor|by constructor|cbn; lia|cbn; lia|cbn; by rewrite E|cbn; by rewrite E]. }
  by injection Heq.
Qed.

Lemma below_apart n m t i j x :
  tree (S n) m t -> index i -> index j -> x ∈ below n m t i -> x ∈ below n m t j -> i = j.
Proof.
  intros Ht Hi Hj (p & Hp & Hl & Hx)%elem_below (q & Hq & Hlq & Hy)%elem_below.
  assert (E : i :: p = j :: q) by (apply (Ht _ _ x); [by constructor..|cbn; lia|cbn; lia|done|done]).
  by injection E.
Qed.

Lemma below_root n m t i : tree (S n) m t -> index i -> t ∉ below n m t i.
Proof.
  intros Ht Hi (p & Hp & Hl & Hx)%elem_below.
  by assert (E : i :: p = []) by (apply (Ht _ _ t); [by constructor|done|cbn; lia|cbn; lia|done|done]).
Qed.

Lemma tables_nodup n m : forall t, tree n m t -> NoDup (tables n m t).
Proof.
  induction n as [|n IH]; intros t Ht; cbn [tables]; [constructor|].
  change (NoDup ((indices ≫= below n m t) ++ [t])).
  assert (Hix : Forall index indices) by (apply Forall_forall; intros i; apply elem_indices).
  assert (Hnd : NoDup indices) by (apply NoDup_fmap_2; [exact Nat2Z.inj|apply NoDup_seq]).
  apply NoDup_app. split; [|split; [|apply NoDup_singleton]].
  - induction indices as [|i il IHi]; [constructor|]. cbn. apply Forall_cons in Hix as [Hi Hix].
    apply NoDup_cons in Hnd as [Hni Hnd]. apply NoDup_app. split; [|split; [|by apply IHi]].
    + unfold below. destruct (entry m t i) eqn:E; [|constructor]. eapply IH, tree_sub; done.
    + intros x Hx (j & Hxj & Hj)%list_elem_of_bind. rewrite Forall_forall in Hix.
      assert (i = j) as -> by (eapply below_apart; [done|done|by apply Hix|done..]). done.
  - intros x (i & Hx & Hi)%list_elem_of_bind ->%list_elem_of_singleton. rewrite Forall_forall in Hix.
    by apply (below_root n m t i Ht (Hix i Hi)).
Qed.

(** Memory that agrees on the tables has the same tree. *)
Definition agree (l : list Z) (m m' : Z -> Z) : Prop :=
  forall x b, x ∈ l -> x <= b < x + PGSIZE -> m' b = m b.

Lemma agree_load l m m' t i : agree l m m' -> t ∈ l -> index i -> load64 m' (t + 8 * i) = load64 m (t + 8 * i).
Proof. intros Ha Ht Hi. apply load64_ext. intros b Hb. apply (Ha t); [done|]. unfold index, PGSIZE in *. lia. Qed.

Lemma agree_entry l m m' t i : agree l m m' -> t ∈ l -> index i -> entry m' t i = entry m t i.
Proof. intros Ha Ht Hi. unfold entry. by rewrite (agree_load l m m'). Qed.

Lemma agree_sub n m m' t i t' :
  agree (tables (S n) m t) m m' -> index i -> entry m t i = Some t' -> agree (tables n m t') m m'.
Proof.
  intros Ha Hi E x b Hx. apply Ha. apply (below_tables n m t i); [done|]. unfold below. by rewrite E.
Qed.

Lemma agree_tables n m m' : forall t, agree (tables n m t) m m' -> tables n m' t = tables n m t.
Proof.
  induction n as [|n IH]; intros t Ha; [done|]. cbn [tables]. f_equal. apply list.Forall_bind_ext, Forall_forall.
  intros i Hi%elem_indices. rewrite (agree_entry _ m m' t i Ha (root_in_tables n m t) Hi).
  destruct (entry m t i) as [t'|] eqn:E; [|done]. by apply IH, (agree_sub n m m' t i).
Qed.

Lemma agree_bare n m m' : forall t, agree (tables n m t) m m' -> bare n m t -> bare n m' t.
Proof.
  induction n as [|n IH]; intros t Ha; [done|]. cbn [bare]. intros Hb i Hi.
  rewrite (agree_load _ m m' t i Ha (root_in_tables n m t) Hi). intros Hv. destruct (Hb i Hi Hv) as [Hp Hs].
  split; [done|]. apply IH; [|done]. apply (agree_sub n m m' t i); [done|done|]. unfold entry. by rewrite Hv.
Qed.

Lemma agree_tbl m m' p : forall n t, agree (tables n m t) m m' -> Forall index p -> (length p <= n)%nat ->
  tbl m' t p = tbl m t p.
Proof.
  induction p as [|i p IH]; intros n t Ha Hp Hl; [done|]. apply Forall_cons in Hp as [Hi Hp].
  destruct n as [|n]; [cbn in Hl; lia|]. cbn [tbl].
  rewrite (agree_entry _ m m' t i Ha (root_in_tables n m t) Hi).
  destruct (entry m t i) as [t'|] eqn:E; [|done]. apply (IH n); [by apply (agree_sub n m m' t i)|done|cbn in Hl; lia].
Qed.

Lemma agree_tree n m m' t : agree (tables n m t) m m' -> tree n m t -> tree n m' t.
Proof.
  intros Ha Ht p q x Hp Hq Hlp Hlq. rewrite !(agree_tbl m m' _ n t) by (done || lia). by apply Ht.
Qed.

Lemma in_reverse {A} (x : A) l : x ∈ reverse l -> x ∈ l.
Proof. intros Hx%list_elem_of_In. unfold reverse in Hx. rewrite rev_append_rev, app_nil_r in Hx. by apply list_elem_of_In, in_rev. Qed.

(** ** [freewalk] *)
Section FreeWalk.
Context `{KernelLayout} (Hend : 0 < kernel_end).

(** Memory outside the pages of [l] is as it was. *)
Definition same_off (l : list Z) (m m' : Z -> Z) : Prop :=
  forall b, (forall x, x ∈ l -> ~ (x <= b < x + PGSIZE)) -> m' b = m b.

(** The pages [l] are pages of RAM off the free list [fl]. *)
Definition owned (l fl : list Z) : Prop := forall x, x ∈ l -> page_ok x /\ x ∉ fl.

Lemma same_off_agree l k m m' :
  same_off l m m' -> (forall x, x ∈ l -> page_ok x) -> (forall x, x ∈ k -> page_ok x /\ x ∉ l) -> agree k m m'.
Proof.
  intros Hs Hl Hk x b Hx Hb. apply Hs. intros y Hy Hb'. destruct (Hk x Hx) as [Hxp Hxl].
  assert (x <> y) by (by intros ->). pose proof (page_distinct x y Hxp (Hl y Hy) ltac:(done)). lia.
Qed.

Lemma free_mem x s : same_off [x] (k_mem s) (k_mem (touch (free_page x s))).
Proof.
  intros b Hb. specialize (Hb x ltac:(by left)). cbn.
  rewrite store64_other, memset_spec by (unfold PGSIZE in *; lia). by case_match; [lia|].
Qed.

Lemma kfree_ready s l x :
  kmem_ready s l -> page_ok x -> x ∉ l -> kmem_ready (touch (free_page x s)) (x :: l).
Proof.
  intros [H1 H2 H3] Hx Hn. split; [by apply hart_ok_touch|done|]. by apply (kmem_list_free Hend s).
Qed.

Lemma kfree_runs s l x tr :
  kmem_ready s l -> page_ok x -> x ∉ l ->
  runs (kfree x) s tr (fun _ s' => kmem_ready s' (x :: l) /\ vm_frame s s' /\ same_off [x] (k_mem s) (k_mem s')).
Proof.
  intros Hk Hx Hn. exists tt, (touch (free_page x s)). split; [apply kfree_run; [apply Hk|apply Hk|done]|].
  split; [by apply kfree_ready|]. split; [|apply free_mem]. by exists (k_mem (free_page x s)), x; right.
Qed.

(** The subtrees of the first [k] entries. *)
Definition freed (n : nat) (m : Z -> Z) (t : Z) (k : nat) : list Z :=
  (Z.of_nat <$> seq 0 k) ≫= below n m t.

Lemma freed_S n m t k : freed n m t (S k) = freed n m t k ++ below n m t (Z.of_nat k).
Proof. unfold freed. rewrite seq_S, fmap_app, bind_app. cbn. by rewrite app_nil_r. Qed.

Lemma elem_freed n m t k x : (k <= 512)%nat -> x ∈ freed n m t k -> exists i, index i /\ i < Z.of_nat k /\ x ∈ below n m t i.
Proof.
  intros Hk (i & Hx & (j & -> & Hj%elem_of_seq)%list_elem_of_fmap)%list_elem_of_bind.
  exists (Z.of_nat j). unfold index. split; [lia|]. split; [lia|done].
Qed.

(** Half way through a table: the subtrees of the first [k] entries are on the
    free list, and apart from them only those entries have changed. *)
Record walked (n : nat) (s : kstate) (l : list Z) (t : Z) (k : nat) (s' : kstate) : Prop := {
  wk_kmem : kmem_ready s' (reverse (freed n (k_mem s) t k) ++ l);
  wk_frame : vm_frame s s';
  wk_mem : forall b, (forall x, x ∈ freed n (k_mem s) t k -> ~ (x <= b < x + PGSIZE)) ->
    ~ (t <= b < t + 8 * Z.of_nat k) -> k_mem s' b = k_mem s b }.

Section Table.
Context (n : nat) (s : kstate) (l : list Z) (t : Z) (tr : list (kstate -> kstate)).
Context (Htree : tree (S n) (k_mem s) t) (Hown : owned (tables (S n) (k_mem s) t) l).

Lemma freed_page k x : (k <= 512)%nat -> x ∈ freed n (k_mem s) t k -> page_ok x /\ (x ∉ l) /\ x <> t.
Proof.
  intros Hk (i & Hi & _ & Hx)%elem_freed; [|done].
  destruct (Hown x) as [Hp Hl]; [by apply (below_tables n _ t i)|]. split; [done|]. split; [done|].
  intros ->. by apply (below_root n (k_mem s) t i).
Qed.

Lemma table_page : page_ok t /\ t ∉ l.
Proof. apply Hown, root_in_tables. Qed.

(** The entry to come and its subtree have not been touched. *)
Lemma walked_load k s' : (k < 512)%nat -> walked n s l t k s' ->
  load64 (k_mem s') (t + 8 * Z.of_nat k) = load64 (k_mem s) (t + 8 * Z.of_nat k).
Proof.
  intros Hk [_ _ Hm]. apply load64_ext. intros b Hb. apply Hm; [|lia]. intros x Hx Hxb.
  destruct (freed_page k x) as (Hp & _ & Hne); [lia|done|]. destruct table_page as [Htp _].
  pose proof (page_distinct x t Hp Htp Hne). unfold PGSIZE in *. lia.
Qed.

Lemma walked_agree k s' : (k < 512)%nat -> walked n s l t k s' ->
  agree (below n (k_mem s) t (Z.of_nat k)) (k_mem s) (k_mem s').
Proof.
  intros Hk [_ _ Hm] x b Hx Hb. assert (Hi : index (Z.of_nat k)) by (unfold index; lia).
  destruct (Hown x) as [Hxp _]; [by apply (below_tables n _ t (Z.of_nat k))|].
  destruct table_page as [Htp _]. apply Hm.
  - intros y Hy Hyb. destruct (freed_page k y) as (Hyp & _ & _); [lia|done|].
    apply elem_freed in Hy as (i & Hi' & Hlt & Hy); [|lia].
    assert (x <> y) by (intros ->; assert (i = Z.of_nat k) by (by apply (below_apart n (k_mem s) t i _ y)); lia).
    pose proof (page_distinct x y Hxp Hyp ltac:(done)). lia.
  - assert (x <> t) by (intros ->; by apply (below_root n (k_mem s) t (Z.of_nat k))).
    pose proof (page_distinct x t Hxp Htp ltac:(done)). unfold PGSIZE in *. lia.
Qed.

Lemma store_ready k s' v : (k < 512)%nat -> kmem_ready s' (reverse (freed n (k_mem s) t (S k)) ++ l) ->
  kmem_ready (s' <| k_mem := store64 (k_mem s') (t + 8 * Z.of_nat k) v |>) (reverse (freed n (k_mem s) t (S k)) ++ l).
Proof.
  intros Hk Hr. apply kmem_ready_mem; [done|]. intros x b Hx Hb. destruct table_page as [Htp Htl].
  assert (x <> t).
  { intros ->. apply elem_of_app in Hx as [Hx%in_reverse|Hx]; [|done].
    destruct (freed_page (S k) t) as (_ & _ & ?); [lia|done|done]. }
  destruct (kr_list _ _ Hr) as (_ & _ & Hf). rewrite Forall_forall in Hf.
  pose proof (page_distinct x t (Hf x Hx) Htp ltac:(done)). apply store64_other. unfold PGSIZE in *. lia.
Qed.

(** What the recursive call is used for. *)
Definition frees (n' : nat) : Prop := forall t' s' l', kmem_ready s' l' -> bare n' (k_mem s') t' ->
  tree n' (k_mem s') t' -> owned (tables n' (k_mem s') t') l' ->
  runs (freewalk n' t') s' tr (fun _ s2 => kmem_ready s2 (reverse (tables n' (k_mem s') t') ++ l') /\
    vm_frame s' s2 /\ same_off (tables n' (k_mem s') t') (k_mem s') (k_mem s2)).

Lemma walked_child k s' t' : frees n -> (k < 512)%nat -> walked n s l t k s' ->
  entry (k_mem s) t (Z.of_nat k) = Some t' -> bare n (k_mem s) t' ->
  runs (freewalk n t' ;; store_pte (t + 8 * Z.of_nat k) 0) s' tr (fun _ s2 => walked n s l t (S k) s2).
Proof.
  intros IH Hk W E Hbare. assert (Hi : index (Z.of_nat k)) by (unfold index; lia).
  assert (Hb : below n (k_mem s) t (Z.of_nat k) = tables n (k_mem s) t') by (unfold below; by rewrite E).
  pose proof (walked_agree k s' Hk W) as Ha. rewrite Hb in Ha.
  pose proof (agree_tables _ _ _ _ Ha) as Et.
  destruct (IH t' s' (reverse (freed n (k_mem s) t k) ++ l)) as ([] & s2 & Hrun & Hr & Hf & Hs); rewrite ?Et in *.
  - apply W.
  - by apply (agree_bare n (k_mem s)).
  - apply (agree_tree n (k_mem s)); [done|]. by apply (tree_sub n (k_mem s) t (Z.of_nat k)).
  - intros x Hx. rewrite <- Hb in Hx. destruct (Hown x) as [Hp Hl]; [by apply (below_tables n _ t (Z.of_nat k))|].
    split; [done|]. intros [Hx'%in_reverse|?]%elem_of_app; [|done].
    apply elem_freed in Hx' as (i & Hi' & Hlt & Hx'); [|lia].
    assert (i = Z.of_nat k) by (by apply (below_apart n (k_mem s) t i _ x)). lia.
  - rstep (runs_det _ _ _ _ _ Hrun) as [-> ->]. unfold store_pte. rlast (runs_modify _ _ tr) as ->.
    assert (El : reverse (tables n (k_mem s) t') ++ reverse (freed n (k_mem s) t k) ++ l =
      reverse (freed n (k_mem s) t (S k)) ++ l) by (by rewrite freed_S, reverse_app, Hb, <- app_assoc).
    rewrite El in Hr. split.
    + by apply store_ready.
    + eapply vm_frame_trans; [apply W|]. eapply vm_frame_trans; [exact Hf|apply vm_frame_mem].
    + rewrite freed_S, Hb. intros b Hb1 Hb2. cbn. rewrite store64_other by lia.
      rewrite Hs by (intros x Hx; apply Hb1, elem_of_app; by right). apply (wk_mem _ _ _ _ _ _ W); [|lia].
      intros x Hx. apply Hb1, elem_of_app. by left.
Qed.
End Table.

Lemma freewalk_run tr n : frees tr n.
Proof.
  induction n as [|n IH]; intros t s l Hk Hbare Htree Hown; [done|]. cbn [freewalk].
  pose proof (table_page n s l t Hown) as [Htp Htl].
  eapply runs_bind.
  - apply (runs_for_each (walked n s l t)); [split; [done|apply vm_frame_refl|done]|].
    intros k s' Hk' W. unfold load_pte. rstep (runs_gets _ s' tr) as [-> ->].
    rewrite (walked_load n s l t Htree Hown k s' ltac:(lia) W).
    assert (Hi : index (Z.of_nat k)) by (unfold index; lia). specialize (Hbare (Z.of_nat k) Hi).
    destruct (has _ PTE_V) eqn:Ev.
    + destruct (Hbare eq_refl) as [Hp Hb]. unfold pointer_only in Hp. rewrite Hp. cbn [andb].
      apply (walked_child n s l t tr Htree Hown); [done|lia|done| |done]. unfold entry. by rewrite Ev.
    + cbn [andb]. apply runs_ret. assert (E : freed n (k_mem s) t (S k) = freed n (k_mem s) t k).
      { rewrite freed_S. unfold below, entry. rewrite Ev. apply app_nil_r. }
      destruct W as [W1 W2 W3]. split; rewrite ?E; [done|done|]. intros b Hb1 Hb2. apply W3; [done|lia].
  - intros [] s' [W1 W2 W3]. cbn [Nat.add] in *.
    assert (Hn : t ∉ reverse (freed n (k_mem s) t 512) ++ l).
    { intros [Hx%in_reverse|?]%elem_of_app; [|done].
      by destruct (freed_page n s l t Htree Hown 512 t) as (_ & _ & ?). }
    eapply runs_impl; [by apply kfree_runs|]. intros [] s2 (Hr & Hf & Hs).
    change (tables (S n) (k_mem s) t) with (freed n (k_mem s) t 512 ++ [t]).
    rewrite reverse_snoc. split; [done|]. split; [by eapply vm_frame_trans|].
    intros b Hb. rewrite Hs by (intros x ->%list_elem_of_singleton; apply Hb, elem_of_app; right; by left).
    apply W3; [intros x Hx; apply Hb, elem_of_app; by left|].
    specialize (Hb t ltac:(apply elem_of_app; right; by left)). unfold PGSIZE in *. lia.
Qed.

(** *** A page table that maps nothing *)
Lemma pt_tree m root l : pt_ok m root l -> tree 3 m root /\ owned (tables 3 m root) l.
Proof.
  intros [H1 H2 H3]. split.
  - intros p q x Hp Hq Hlp Hlq. apply H3; (done || lia).
  - intros x (p & Hp & Hl & Hx)%elem_tables. split; [eapply H1|eapply H2]; (done || lia).
Qed.

Lemma path_va i0 i1 i2 : 0 <= i0 < 256 -> index i1 -> index i2 ->
  exists va, 0 <= va < MAXVA /\ vpath va = [i0; i1] /\ PX 0 va = i2.
Proof.
  intros H0 H1 H2. exists (i0 * 2 ^ 30 + i1 * 2 ^ 21 + i2 * 2 ^ 12). unfold index in *.
  change MAXVA with (2 ^ 38). split; [lia|]. unfold vpath. rewrite !PX_div by lia. cbn.
  split; [do 2 f_equal|]; try f_equal; Z.to_euclidean_division_equations; lia.
Qed.

Lemma pt_bare m root : shape m root ->
  (forall va, 0 <= va < MAXVA -> ~ valid m root va) -> bare 3 m root.
Proof.
  intros [Hlow Hptr] Hno i0 H0 V0. set (e0 := load64 m (root + 8 * i0)) in *.
  assert (E0 : entry m root i0 = Some (PTE2PA e0)) by (unfold entry; fold e0; by rewrite V0).
  split; [apply (Hptr [] root i0); [constructor|cbn; lia|done|done|exact V0]|]. intros i1 H1 V1. set (e1 := load64 m (PTE2PA e0 + 8 * i1)) in *.
  assert (E1 : entry m (PTE2PA e0) i1 = Some (PTE2PA e1)) by (unfold entry; fold e1; by rewrite V1).
  split; [apply (Hptr [i0] (PTE2PA e0) i1); [by constructor|cbn; lia|cbn; by rewrite E0|done..]|].
  intros i2 H2 V2. exfalso.
  assert (Hi0 : 0 <= i0 < 256).
  { destruct (decide (i0 < 256)); [unfold index in *; lia|]. rewrite Hlow in E0; [done|unfold index in *; lia]. }
  destruct (path_va i0 i1 i2 Hi0 H1 H2) as (va & Hva & Hpath & Hpx). apply (Hno va Hva).
  unfold valid, pte_val. rewrite Hpath. cbn [tbl]. rewrite E0. cbn [tbl]. rewrite E1, Hpx. exact V2.
Qed.

Lemma freewalk_empty root s l tr :
  kmem_ready s l -> pt_ok (k_mem s) root l -> shape (k_mem s) root ->
  (forall va, 0 <= va < MAXVA -> ~ valid (k_mem s) root va) ->
  runs (freewalk 3 root) s tr (fun _ s' => kmem_ready s' (reverse (tables 3 (k_mem s) root) ++ l) /\
    vm_frame s s' /\ same_off (tables 3 (k_mem s) root) (k_mem s) (k_mem s')).
Proof.
  intros Hk Hok Hsh Hno. destruct (pt_tree _ _ _ Hok) as [Ht Ho]. apply freewalk_run; [done| |done|done].
  by apply pt_bare.
Qed.
End FreeWalk.

Lemma page_range a va : a mod PGSIZE = 0 -> va / PGSIZE = a / PGSIZE <-> a <= va < a + PGSIZE.
Proof.
  intros Ha. pose proof (Z_div_mod_eq_full a PGSIZE). pose proof (Z_div_mod_eq_full va PGSIZE).
  pose proof (Z.mod_pos_bound va PGSIZE). unfold PGSIZE in *. lia.
Qed.

(** ** [uvmunmap] *)
Section Unmap.
Context `{KernelLayout} (Hend : 0 < kernel_end) (root sz : Z) (Hsz : 0 <= sz <= MAXVA).

(** An address space whose user memory is below [sz]: a page is a table, the
    frame of one user page, or on the free list [l]. *)
Record space (m : Z -> Z) (l : list Z) : Prop := {
  sp_pt : pt_ok m root l;
  sp_shape : shape m root;
  sp_page : forall va, 0 <= va < sz -> valid m root va -> page_ok (frame m root va) /\ frame m root va ∉ l;
  sp_table : forall va p t, 0 <= va < sz -> valid m root va -> Forall index p -> (length p <= 2)%nat ->
    tbl m root p = Some t -> t <> frame m root va;
  sp_inj : forall va va', 0 <= va < sz -> 0 <= va' < sz -> valid m root va -> valid m root va' ->
    frame m root va = frame m root va' -> va / PGSIZE = va' / PGSIZE }.

(** The pages of [lo, hi) are no longer mapped; if [do_free], their frames are
    on the free list. *)
Record unmaps (lo hi : Z) (do_free : bool) (s : kstate) (l : list Z) (s' : kstate) (l' : list Z) : Prop := {
  um_kmem : kmem_ready s' l';
  um_space : space (k_mem s') l';
  um_frame : vm_frame s s';
  um_tbl : forall p, Forall index p -> (length p <= 2)%nat -> tbl (k_mem s') root p = tbl (k_mem s) root p;
  um_in : forall va, 0 <= va < MAXVA -> lo <= va < hi -> ~ valid (k_mem s') root va;
  um_out : forall va, 0 <= va < MAXVA -> ~ (lo <= va < hi) -> pte_val (k_mem s') root va = pte_val (k_mem s) root va;
  um_list : forall x, x ∈ l' <-> x ∈ l \/ do_free = true /\
    exists va, 0 <= va < MAXVA /\ lo <= va < hi /\ valid (k_mem s) root va /\ frame (k_mem s) root va = x }.

Lemma unmaps_none lo hi f s l : kmem_ready s l -> space (k_mem s) l ->
  (forall va, 0 <= va < MAXVA -> lo <= va < hi -> ~ valid (k_mem s) root va) -> unmaps lo hi f s l s l.
Proof.
  intros Hk Hs Hno. split; try done; [apply vm_frame_refl|]. intros x. split; [by left|].
  intros [?|(_ & va & ? & ? & ? & _)]; [done|]. by destruct (Hno va).
Qed.

Lemma unmaps_trans lo mid hi f s1 l1 s2 l2 s3 l3 : lo <= mid <= hi ->
  unmaps lo mid f s1 l1 s2 l2 -> unmaps mid hi f s2 l2 s3 l3 -> unmaps lo hi f s1 l1 s3 l3.
Proof.
  intros Hle [A1 A2 A3 A4 A5 A6 A7] [B1 B2 B3 B4 B5 B6 B7]. split; try done.
  - by eapply vm_frame_trans.
  - intros p Hp Hl. by rewrite B4, A4.
  - intros va Hva Hin. destruct (decide (va < mid)) as [Hlt|]; [|apply B5; lia].
    unfold valid in *. rewrite B6 by lia. apply A5; lia.
  - intros va Hva Hout. rewrite B6 by lia. apply A6; lia.
  - intros x. rewrite B7, A7. unfold valid, frame in *. split.
    + intros [[?|(Hf & va & ? & ? & Hv & Hx)]|(Hf & va & ? & ? & Hv & Hx)]; [by left|right..].
      * split; [done|]. exists va. split; [done|]. split; [lia|done].
      * rewrite A6 in Hv, Hx by lia. split; [done|]. exists va. split; [done|]. split; [lia|done].
    + intros [?|(Hf & va & Hva & Hin & Hv & Hx)]; [by left; left|].
      destruct (decide (va < mid)); [left|]; right; (split; [done|]); exists va.
      * split; [done|]. split; [lia|done].
      * rewrite A6 by lia. split; [done|]. split; [lia|done].
Qed.

(** *** One page *)
Section One.
Context (s : kstate) (l : list Z) (a t : Z) (f : bool).
Context (Hk : kmem_ready s l) (Hs : space (k_mem s) l) (Ha : 0 <= a < MAXVA) (Hal : a mod PGSIZE = 0).
Context (Hf : f = true -> a < sz) (Hv : valid (k_mem s) root a).
Context (Ht : tbl (k_mem s) root (vpath a) = Some t).
Abbreviation x := (frame (k_mem s) root a).

Definition one_freed : kstate := if f then touch (free_page x s) else s.
Definition one_list : list Z := if f then x :: l else l.

Lemma one_off : off_tables (k_mem s) root (k_mem one_freed).
Proof.
  intros p u b Hp Hl Hu Hb. unfold one_freed. destruct f; [|done].
  apply (free_mem x s). intros y ->%list_elem_of_singleton Hy.
  destruct (sp_page _ _ Hs a) as [Hx _]; [by split; [lia|apply Hf]|done|].
  pose proof (page_distinct u x (pt_page _ _ _ (sp_pt _ _ Hs) p u Hp Hl Hu) Hx).
  pose proof (sp_table _ _ Hs a p u ltac:(by split; [lia|apply Hf]) Hv Hp Hl Hu). lia.
Qed.

Lemma one_ready : kmem_ready one_freed one_list.
Proof.
  unfold one_freed, one_list. destruct f; [|done].
  destruct (sp_page _ _ Hs a) as [Hx Hn]; [by split; [lia|apply Hf]|done|]. by apply kfree_ready.
Qed.

Lemma one_pt : pt_ok (k_mem one_freed) root one_list.
Proof.
  apply (pt_ok_ext (k_mem s) _ _ one_list); [exact one_off|done|]. unfold one_list. destruct (sp_pt _ _ Hs) as [H1 H2 H3].
  split; [done| |done]. intros p u Hp Hl Hu. destruct f; [|by apply (H2 p)].
  intros [->|Hin]%elem_of_cons; [|by apply (H2 p u)].
  by apply (sp_table _ _ Hs a p x ltac:(by split; [lia|apply Hf]) Hv Hp Hl Hu).
Qed.

Abbreviation s2 := (leaf_set a 0 t one_freed).

Lemma one_step : vm_step root one_freed one_list s2 one_list.
Proof.
  apply leaf_step; [exact one_ready|exact one_pt|].
  by rewrite (tbl_ext (k_mem s)) by (exact one_off || apply vpath_index || (cbn; lia)).
Qed.

Lemma one_tbl p : Forall index p -> (length p <= 2)%nat -> tbl (k_mem s2) root p = tbl (k_mem s) root p.
Proof.
  intros Hp Hl. rewrite (leaf_tbl root a 0 t one_freed one_list); [|exact one_pt| |done|done].
  - apply tbl_ext; [exact one_off|done|lia].
  - by rewrite (tbl_ext (k_mem s)) by (exact one_off || apply vpath_index || (cbn; lia)).
Qed.

Lemma one_val va : 0 <= va < MAXVA ->
  pte_val (k_mem s2) root va = if decide (va / PGSIZE = a / PGSIZE) then 0 else pte_val (k_mem s) root va.
Proof.
  intros Hva. rewrite (leaf_val root a 0 t one_freed one_list); [|done|done|exact one_pt| |done].
  - by rewrite (pte_val_ext (k_mem s)) by exact one_off.
  - by rewrite (tbl_ext (k_mem s)) by (exact one_off || apply vpath_index || (cbn; lia)).
Qed.

(** A page still mapped is another one. *)
Lemma one_other va : 0 <= va < MAXVA -> valid (k_mem s2) root va ->
  va / PGSIZE <> a / PGSIZE /\ pte_val (k_mem s2) root va = pte_val (k_mem s) root va.
Proof. intros Hva. unfold valid. rewrite one_val by done. by destruct (decide _). Qed.

Lemma one_space : space (k_mem s2) one_list.
Proof.
  split.
  - apply one_step.
  - apply one_step. apply (shape_ext (k_mem s)); [exact one_off|apply Hs].
  - intros va Hva Hvv. destruct (one_other va ltac:(lia) Hvv) as [Hne E]. unfold valid, frame in *. rewrite E in *.
    destruct (sp_page _ _ Hs va Hva Hvv) as [Hp Hn]. split; [done|]. unfold one_list. destruct f; [|done].
    intros [Hx|?]%elem_of_cons; [|done]. apply Hne.
    apply (sp_inj _ _ Hs); [done|by split; [lia|apply Hf]|done|done|done].
  - intros va p u Hva Hvv Hp Hl. rewrite one_tbl by done. destruct (one_other va ltac:(lia) Hvv) as [_ E].
    unfold valid, frame in *. rewrite E in *. by apply (sp_table _ _ Hs va p u).
  - intros va va' Hva Hva' Hvv Hvv'. destruct (one_other va ltac:(lia) Hvv) as [_ E].
    destruct (one_other va' ltac:(lia) Hvv') as [_ E']. unfold valid, frame in *. rewrite E, E' in *.
    by apply (sp_inj _ _ Hs va va').
Qed.

Lemma one_unmaps : unmaps a (a + PGSIZE) f s l s2 one_list.
Proof.
  split.
  - apply one_step.
  - exact one_space.
  - eapply vm_frame_trans; [|apply one_step]. unfold one_freed. destruct f; [|apply vm_frame_refl].
    by exists (k_mem (free_page x s)), x; right.
  - exact one_tbl.
  - intros va Hva Hin. unfold valid. rewrite one_val by done. rewrite decide_True; [done|]. by apply page_range.
  - intros va Hva Hout. rewrite one_val by done. rewrite decide_False; [done|]. by rewrite page_range.
  - intros y. unfold one_list. destruct f.
    + rewrite elem_of_cons. split.
      * intros [->|?]; [right|by left]. split; [done|]. exists a. split; [done|]. split; [unfold PGSIZE; lia|done].
      * intros [?|(_ & va & Hva & Hin & _ & <-)]; [by right|left]. unfold frame.
        by rewrite (pte_val_page _ _ va a) by (by apply page_range).
    + split; [by left|]. by intros [?|[? _]].
Qed.
End One.

Lemma uvmunmap_loop_spec f n tr : forall a s l, kmem_ready s l -> space (k_mem s) l ->
  0 <= a -> a mod PGSIZE = 0 -> a + Z.of_nat n * PGSIZE <= MAXVA ->
  (f = true -> a + Z.of_nat n * PGSIZE <= sz) ->
  runs (uvmunmap_loop n root a (a + Z.of_nat n * PGSIZE) f) s tr
    (fun _ s' => exists l', unmaps a (a + Z.of_nat n * PGSIZE) f s l s' l').
Proof.
  assert (Hm : MAXVA + PGSIZE < 2 ^ 64) by done. assert (Hpg : PGSIZE = 4096) by done.
  induction n as [|n IH]; intros a s l Hk Hs Ha Hal Hmax Hf; cbn [uvmunmap_loop].
  { apply runs_ret. exists l. apply unmaps_none; [done|done|lia]. }
  rewrite (proj2 (Z.leb_gt _ _)) by lia.
  rstep (runs_det _ _ _ _ _ (walk_lookup root a s tr ltac:(lia))) as [-> ->].
  assert (Hone : runs (if pte_addr (k_mem s) root a =? 0 then kret tt
       else let! e := load_pte (pte_addr (k_mem s) root a) in
            if negb (has e PTE_V) then kret tt else when f (kfree (PTE2PA e)) ;; store_pte (pte_addr (k_mem s) root a) 0) s tr
    (fun _ s' => exists l', unmaps a (a + PGSIZE) f s l s' l')).
  { pose proof (pte_addr_load Hend root a s l (sp_pt _ _ Hs)) as Hload.
    assert (Hskip : has (pte_val (k_mem s) root a) PTE_V = false -> unmaps a (a + PGSIZE) f s l s l).
    { intros Hv. apply unmaps_none; [done|done|]. intros va Hva Hin. unfold valid.
      rewrite (pte_val_page _ _ va a) by (by apply page_range). by rewrite Hv. }
    destruct (Z.eqb_spec (pte_addr (k_mem s) root a) 0) as [E|E].
    { apply runs_ret. exists l. apply Hskip. by rewrite Hload. }
    unfold load_pte. rstep (runs_gets _ s tr) as [-> ->]. rewrite Hload.
    destruct (has (pte_val (k_mem s) root a) PTE_V) eqn:Ev; cbn [negb]; [|apply runs_ret; exists l; by apply Hskip].
    assert (Ht : exists t, tbl (k_mem s) root (vpath a) = Some t /\ pte_addr (k_mem s) root a = t + 8 * PX 0 a).
    { unfold pte_addr in *. destruct (tbl _ _ _) as [t|]; [by exists t|done]. } destruct Ht as (t & Ht & ->).
    assert (Hrun : when f (kfree (PTE2PA (pte_val (k_mem s) root a))) s tr = Done tt (one_freed s a f) tr).
    { unfold one_freed. destruct f; [|done]. apply kfree_run; [apply Hk|apply Hk|]. apply (sp_page _ _ Hs); [lia|done]. }
    rstep (runs_det _ _ _ _ _ Hrun) as [-> ->]. unfold store_pte. rlast (runs_modify _ _ tr) as ->.
    exists (one_list s l a f). apply (one_unmaps s l a t f); (done || lia || intros Hft; specialize (Hf Hft); lia). }
  rstep Hone as (l1 & U1). rename s' into s1.
  replace (u64 (a + PGSIZE)) with (a + PGSIZE) by (unfold u64; rewrite Z.mod_small; lia).
  replace (a + Z.of_nat (S n) * PGSIZE) with (a + PGSIZE + Z.of_nat n * PGSIZE) in * by lia.
  rlast (IH (a + PGSIZE) s1 l1 (um_kmem _ _ _ _ _ _ _ U1) (um_space _ _ _ _ _ _ _ U1)) as (l2 & U2);
    [lia|by rewrite <- Zplus_mod_idemp_r, Z_mod_same_full, Z.add_0_r|done|done|].
  exists l2. eapply unmaps_trans; [|exact U1|exact U2]. lia.
Qed.
End Unmap.

(** A page that is neither a table nor a frame can be freed first. *)
Section FreeOther.
Context `{KernelLayout} (Hend : 0 < kernel_end) (root sz : Z) (s : kstate) (l : list Z) (y : Z).
Context (Hk : kmem_ready s l) (Hs : space root sz (k_mem s) l) (Hy : page_ok y) (Hyl : y ∉ l).
Context (Htab : y ∉ tables 3 (k_mem s) root).
Context (Hfr : forall va, 0 <= va < sz -> valid (k_mem s) root va -> frame (k_mem s) root va <> y).
Context (s' : kstate) (Hm : same_off [y] (k_mem s) (k_mem s')).

Lemma free_other_off : off_tables (k_mem s) root (k_mem s').
Proof.
  intros p t b Hp Hl Ht Hb. apply Hm. intros x ->%list_elem_of_singleton Hx.
  assert (t <> y) by (intros ->; apply Htab, elem_tables; exists p; split; [done|split; [lia|done]]).
  pose proof (page_distinct t y (pt_page _ _ _ (sp_pt _ _ _ _ Hs) p t Hp Hl Ht) Hy ltac:(done)). lia.
Qed.

Lemma free_other_val va : pte_val (k_mem s') root va = pte_val (k_mem s) root va.
Proof. apply pte_val_ext, free_other_off. Qed.

Lemma free_other_space : space root sz (k_mem s') (y :: l).
Proof.
  pose proof Hs as [H1 H2 H3 H4 H5]. pose proof free_other_off as Hoff.
  split; unfold valid, frame in *; [| |intros va Hva Hv|intros va p t Hva Hv Hp Hl Ht|intros va va' Hva Hva'].
  - apply (pt_ok_ext (k_mem s) _ _ (y :: l)); [done|done|]. destruct H1 as [A1 A2 A3]. split; [done| |done].
    intros p t Hp Hl Ht [->|Hin]%elem_of_cons; [|by apply (A2 p t)].
    apply Htab, elem_tables. exists p. split; [done|]. split; [lia|done].
  - by apply (shape_ext (k_mem s)).
  - rewrite free_other_val in *. destruct (H3 va Hva Hv) as [Hp Hn]. split; [done|].
    intros [E|Hin]%elem_of_cons; [|done]. by apply (Hfr va).
  - rewrite free_other_val in *. rewrite (tbl_ext (k_mem s)) in Ht by (done || lia). by apply (H4 va p t).
  - rewrite !free_other_val. by apply H5.
Qed.

Lemma free_other_same : (forall x, x ∈ tables 3 (k_mem s') root <-> x ∈ tables 3 (k_mem s) root) /\
  (forall va, valid (k_mem s') root va <-> valid (k_mem s) root va) /\
  (forall va, frame (k_mem s') root va = frame (k_mem s) root va).
Proof.
  split; [|unfold valid, frame; split; intros va; by rewrite free_other_val].
  intros x. symmetry. apply elem_tables_same. intros p Hp Hl. apply tbl_ext; [exact free_other_off|done|lia].
Qed.
End FreeOther.

(** ** [uvmfree] and [proc_freepagetable] *)
Lemma PGROUNDUP_range sz : 0 <= sz <= MAXVA - PGSIZE ->
  sz <= PGROUNDUP sz /\ PGROUNDUP sz <= MAXVA /\ PGROUNDUP sz mod PGSIZE = 0.
Proof.
  assert (MAXVA = 67108864 * PGSIZE) by done. intros Hsz. rewrite PGROUNDUP_eq by (unfold PGSIZE in *; lia).
  unfold PGSIZE in *. split; [|split]; Z.to_euclidean_division_equations; lia.
Qed.

Section Spaces.
Context `{KernelLayout} (Hend : 0 < kernel_end).

(** The frames of the user pages below [sz]. *)
Definition is_frame (m : Z -> Z) (root sz x : Z) : Prop :=
  exists va, 0 <= va < sz /\ valid m root va /\ frame m root va = x.

Lemma uvmunmap_spec root sz f s l tr va n :
  0 <= sz <= MAXVA -> kmem_ready s l -> space root sz (k_mem s) l ->
  0 <= va -> va mod PGSIZE = 0 -> 0 <= n -> va + n * PGSIZE <= MAXVA -> (f = true -> va + n * PGSIZE <= sz) ->
  runs (uvmunmap root va n f) s tr (fun _ s' => exists l', unmaps root sz va (va + n * PGSIZE) f s l s' l').
Proof.
  intros Hsz Hk Hs Hva Hal Hn Hmax Hf. unfold uvmunmap. rewrite Hal. cbn [Z.eqb negb].
  assert (Hm : MAXVA < 2 ^ 64) by done.
  replace (u64 (va + n * PGSIZE)) with (va + Z.of_nat (Z.to_nat n) * PGSIZE)
    by (unfold u64; rewrite Z.mod_small, Z2Nat.id; unfold PGSIZE in *; lia).
  assert (E : va + n * PGSIZE = va + Z.of_nat (Z.to_nat n) * PGSIZE) by (rewrite Z2Nat.id; lia).
  rewrite E in *. by apply uvmunmap_loop_spec.
Qed.

Lemma uvmfree_run root sz s l tr :
  0 <= sz <= MAXVA - PGSIZE -> kmem_ready s l -> space root (PGROUNDUP sz) (k_mem s) l ->
  (forall va, PGROUNDUP sz <= va < MAXVA -> ~ valid (k_mem s) root va) ->
  runs (uvmfree root sz) s tr (fun _ s' => exists l', kmem_ready s' l' /\ vm_frame s s' /\
    forall x, x ∈ l' <-> x ∈ l \/ is_frame (k_mem s) root (PGROUNDUP sz) x \/ x ∈ tables 3 (k_mem s) root).
Proof.
  intros Hsz Hk Hs Hno. destruct (PGROUNDUP_range sz) as (Hr0 & Hr1 & Hr2); [lia|].
  assert (Hunmap : runs (when (0 <? sz) (uvmunmap root 0 (PGROUNDUP sz / PGSIZE) true)) s tr
    (fun _ s1 => exists l1, unmaps root (PGROUNDUP sz) 0 (PGROUNDUP sz) true s l s1 l1)).
  { destruct (Z.ltb_spec 0 sz) as [Hpos|Hz]; cbn [when].
    - pose proof (Z_div_mod_eq_full (PGROUNDUP sz) PGSIZE) as Hdiv. rewrite Hr2, Z.add_0_r in Hdiv.
      pose proof (uvmunmap_spec root (PGROUNDUP sz) true s l tr 0 (PGROUNDUP sz / PGSIZE)) as Hu.
      rewrite Z.add_0_l, Z.mul_comm, <- Hdiv in Hu. assert (0 <= PGROUNDUP sz / PGSIZE) by (apply Z.div_pos; [lia|done]). apply Hu; (done || lia).
    - apply runs_ret. exists l. assert (sz = 0) as -> by lia. apply unmaps_none; [done|done|].
      change (PGROUNDUP 0) with 0. lia. }
  unfold uvmfree. rstep Hunmap as (l1 & [U1 U2 U3 U4 U5 U6 U7]). rename s' into s1.
  eapply runs_impl; [apply (freewalk_empty Hend root s1 l1); [done|apply U2|apply U2|]|].
  - intros va Hva. destruct (decide (va < PGROUNDUP sz)); [apply U5; lia|].
    unfold valid. rewrite U6 by lia. apply Hno. lia.
  - intros [] s2 (Hk2 & Hf2 & _). eexists. split; [exact Hk2|]. split; [by eapply vm_frame_trans|].
    intros x. rewrite elem_of_app, U7. unfold is_frame.
    assert (Et : x ∈ reverse (tables 3 (k_mem s1) root) <-> x ∈ tables 3 (k_mem s) root).
    { rewrite (elem_tables_same 3 (k_mem s) (k_mem s1)) by (intros; apply U4; (done || lia)).
      split; [apply in_reverse|]. intros Hx. apply in_reverse. by rewrite reverse_involutive. }
    rewrite Et. split.
    + intros [?|[?|(_ & va & ? & ? & ? & ?)]]; [by right; right|by left|right; left; by exists va].
    + intros [?|[(va & Hva & ? & ?)|?]]; [by right; left| |by left].
      right. right. split; [done|]. exists va. split; [lia|]. done.
Qed.

(** Unmapping without freeing keeps the frames, the tables and the list. *)
Lemma unmaps_keep root sz lo hi s l s' l' : 0 <= sz <= lo -> lo <= MAXVA -> unmaps root sz lo hi false s l s' l' ->
  (forall x, x ∈ l' <-> x ∈ l) /\ (forall x, x ∈ tables 3 (k_mem s') root <-> x ∈ tables 3 (k_mem s) root) /\
  (forall x, is_frame (k_mem s') root sz x <-> is_frame (k_mem s) root sz x).
Proof.
  intros Hsz Hlo [U1 U2 U3 U4 U5 U6 U7]. split; [|split].
  - intros x. rewrite U7. split; [by intros [?|[? _]]|by left].
  - intros x. symmetry. apply elem_tables_same. intros. apply U4; (done || lia).
  - intros x. unfold is_frame, valid, frame. split; intros (va & Hva & H1 & H2); exists va; (split; [done|]).
    + by rewrite <- (U6 va) by lia.
    + by rewrite (U6 va) by lia.
Qed.

(** The end of a process gives all its memory back.  [proc_freepagetable]
    terminates, and the free list is then exactly: what was free before, the
    frame of every user page below [sz], and every table of the page table,
    each page once (the list stays duplicate-free).  The trampoline and the
    trapframe, which are mapped above the user memory, are not freed. *)
Theorem proc_freepagetable_spec root sz s l tr :
  0 <= sz <= TRAPFRAME -> kmem_ready s l -> space root (PGROUNDUP sz) (k_mem s) l ->
  (forall va, PGROUNDUP sz <= va < TRAPFRAME -> ~ valid (k_mem s) root va) ->
  exists s' l', proc_freepagetable root sz s tr = Done tt s' tr /\ kmem_ready s' l' /\ vm_frame s s' /\
    forall x, x ∈ l' <-> x ∈ l \/ is_frame (k_mem s) root (PGROUNDUP sz) x \/ x ∈ tables 3 (k_mem s) root.
Proof.
  intros Hsz Hk Hs Hno. assert (HT : TRAPFRAME = MAXVA - 2 * PGSIZE /\ TRAMPOLINE = MAXVA - PGSIZE) by done.
  assert (Hpg : PGSIZE = 4096) by done.
  destruct (PGROUNDUP_range sz) as (Hr0 & _ & Hr2); [lia|].
  assert (Hr1 : PGROUNDUP sz <= TRAPFRAME).
  { destruct (PGROUNDUP_ge sz) as [Hlt _]; [split; [lia|]; transitivity MAXVA; [lia|done]|].
    apply Z.mod_divide in Hr2 as [q Hq]; [|done]. rewrite Hq in *. destruct HT as [HT _].
    change MAXVA with (67108864 * 4096) in HT. rewrite Hpg in *. lia. }
  enough (Hruns : runs (proc_freepagetable root sz) s tr (fun _ s' => exists l', kmem_ready s' l' /\ vm_frame s s' /\
    forall x, x ∈ l' <-> x ∈ l \/ is_frame (k_mem s) root (PGROUNDUP sz) x \/ x ∈ tables 3 (k_mem s) root)).
  { destruct Hruns as ([] & s' & Hrun & l' & ?). by exists s', l'. }
  unfold proc_freepagetable.
  rstep (uvmunmap_spec root (PGROUNDUP sz) false s l tr TRAMPOLINE 1) as (l1 & U); [lia|done|done|lia|done|lia|lia|done|].
  rename s' into s1. rassoc.
  rstep (uvmunmap_spec root (PGROUNDUP sz) false s1 l1 tr TRAPFRAME 1 ltac:(lia) (um_kmem _ _ _ _ _ _ _ _ _ U) (um_space _ _ _ _ _ _ _ _ _ U)) as (l2 & V);
    [lia|done|lia|lia|done|].
  rename s' into s2.
  destruct (unmaps_keep root (PGROUNDUP sz) TRAMPOLINE _ s l s1 l1 ltac:(lia) ltac:(lia) U) as (UL & UT & UF).
  destruct (unmaps_keep root (PGROUNDUP sz) TRAPFRAME _ s1 l1 s2 l2 ltac:(lia) ltac:(lia) V) as (VL & VT & VF).
  rlast (uvmfree_run root sz s2 l2 tr ltac:(lia) (um_kmem _ _ _ _ _ _ _ _ _ V) (um_space _ _ _ _ _ _ _ _ _ V)) as (l3 & Hk3 & Hf3 & Hx).
  - intros va Hva. destruct (decide (TRAPFRAME <= va < TRAPFRAME + 1 * PGSIZE)) as [Hin|Hout]; [by apply (um_in _ _ _ _ _ _ _ _ _ V); [lia|]|].
    unfold valid. rewrite (um_out _ _ _ _ _ _ _ _ _ V) by lia.
    destruct (decide (TRAMPOLINE <= va)); [apply (um_in _ _ _ _ _ _ _ _ _ U); lia|].
    rewrite (um_out _ _ _ _ _ _ _ _ _ U) by lia. apply Hno. lia.
  - exists l3. split; [done|]. split.
    + eapply vm_frame_trans; [apply U|]. eapply vm_frame_trans; [apply V|done].
    + intros x. by rewrite Hx, VL, UL, VF, UF, VT, UT.
Qed.

(** ** [proc_pagetable] *)
(** The page table of a new process: the trampoline and the process's trapframe
    [tf] below it, for the supervisor only, and nothing else. *)
Definition process_pte (tf va : Z) : Z :=
  if decide (TRAMPOLINE <= va) then leaf_pte trampoline (Z.lor PTE_R PTE_X)
  else if decide (TRAPFRAME <= va) then leaf_pte tf (Z.lor PTE_R PTE_W) else 0.

(** The pages a page table was built from are its tables or still free. *)
Lemma step_tables g s1 l1 s2 l2 : (forall b, g <= b < g + PGSIZE -> k_mem s1 b = 0) ->
  vm_step g s1 l1 s2 l2 -> forall x, x ∈ g :: l1 <-> x ∈ l2 \/ x ∈ tables 3 (k_mem s2) g.
Proof.
  intros Hz Hst x. rewrite elem_of_cons. split.
  - intros [->|Hx]; [right; apply root_in_tables|]. destruct (decide (x ∈ l2)) as [?|Hn]; [by left|right].
    destruct (vs_used _ _ _ _ _ Hst x Hx Hn) as (p & Hp & Hl & Ht). apply elem_tables. exists p. split; [done|]. split; [lia|done].
  - intros [Hx|(p & Hp & Hl & Ht)%elem_tables].
    + right. destruct (vs_list _ _ _ _ _ Hst) as [k ->]. apply elem_of_app. by right.
    + destruct (vs_new _ _ _ _ _ Hst p x Hp ltac:(lia) Ht) as [Ht1|[Hx _]]; [left|by right].
      rewrite tbl_zero in Ht1 by done. destruct p; [by injection Ht1|done].
Qed.

(** A page table without mappings goes back to the allocator. *)
Lemma uvmfree_back g s l L tr : kmem_ready s l -> pt_ok (k_mem s) g l -> shape (k_mem s) g ->
  (forall va, 0 <= va < MAXVA -> ~ valid (k_mem s) g va) -> NoDup L ->
  (forall x, x ∈ L <-> x ∈ l \/ x ∈ tables 3 (k_mem s) g) ->
  runs (uvmfree g 0) s tr (fun _ s' => exists l', kmem_ready s' l' /\ vm_frame s s' /\ l' ≡ₚ L).
Proof.
  intros Hk Hok Hsh Hno Hnd HL. unfold uvmfree. rstep (runs_kret tt s tr) as [-> ->].
  eapply runs_impl; [by apply (freewalk_empty Hend g s l)|]. intros [] s2 (Hk2 & Hf2 & _).
  eexists. split; [exact Hk2|]. split; [done|]. apply NoDup_Permutation; [apply (kr_list _ _ Hk2)|done|].
  intros x. rewrite HL, elem_of_app. split.
  - intros [?%in_reverse|?]; tauto.
  - intros [?|?]; [by right|left]. apply in_reverse. by rewrite reverse_involutive.
Qed.

Context (p : nat) (pp : proc).

(** The second half, once the trampoline is mapped. *)
Lemma proc_pagetable_trapframe g s1 l1 s2 l2 tr :
  NoDup (g :: l1) -> (forall b, g <= b < g + PGSIZE -> k_mem s1 b = 0) -> vm_step g s1 l1 s2 l2 ->
  k_procs s2 !! p = Some pp -> page_ok (p_trapframe pp) -> p_trapframe pp ∉ g :: l1 -> g <> 0 ->
  (forall va, 0 <= va < MAXVA -> pte_val (k_mem s2) g va =
    if decide (TRAMPOLINE <= va) then leaf_pte trampoline (Z.lor PTE_R PTE_X) else 0) ->
  runs (let! pp := get_proc p in
        let! r := mappages g TRAPFRAME PGSIZE (p_trapframe pp) (Z.lor PTE_R PTE_W) in
        if r <? 0 then uvmunmap g TRAMPOLINE 1 false ;; uvmfree g 0 ;; kret 0 else kret g) s2 tr
    (fun r s' => vm_frame s2 s' /\ exists l',
      (r = 0 /\ kmem_ready s' l' /\ l' ≡ₚ g :: l1 \/
       r = g /\ vm_step g s1 l1 s' l' /\
       forall va, 0 <= va < MAXVA -> pte_val (k_mem s') g va = process_pte (p_trapframe pp) va)).
Proof.
  intros Hnd Hz Hst Hpp Htf Htl Hg Hval.
  assert (HT : TRAPFRAME = MAXVA - 2 * PGSIZE /\ TRAMPOLINE = MAXVA - PGSIZE /\ 0 < TRAPFRAME) by done.
  assert (Hpg : PGSIZE = 4096) by done. assert (PHYSTOP + PGSIZE < 2 ^ 56) by done. pose proof (page_ok_pos Hend _ Htf).
  rstep (runs_det _ _ _ _ _ (get_proc_run s2 tr p pp Hpp)) as [-> ->].
  destruct (mappages_run Hend g TRAPFRAME PGSIZE (p_trapframe pp) (Z.lor PTE_R PTE_W) s2 tr l2)
    as (r & s3 & l3 & k & Hrun & Hst3 & Hr & Hval3);
    [done|done|done|done|done|lia|destruct Htf; lia|done|apply Hst|apply Hst| |].
  { intros va Hva. rewrite Hval by lia. by rewrite decide_False by lia. }
  rstep (runs_det _ _ _ _ _ Hrun) as [-> ->].
  assert (Hst13 : vm_step g s1 l1 s3 l3) by (by eapply vm_step_trans).
  destruct Hr as [[-> Hk1]|(-> & Hk0 & ->)].
  - cbn [Z.ltb]. apply runs_ret. split; [apply Hst3|]. exists l3. right. split; [done|]. split; [done|].
    intros va Hva. rewrite Hval3 by done. unfold map_pages, process_pte. rewrite Hk1, Hval by done.
    replace ((va - TRAPFRAME) / PGSIZE * PGSIZE) with (if decide (TRAPFRAME <= va < TRAPFRAME + PGSIZE) then 0 else (va - TRAPFRAME) / PGSIZE * PGSIZE)
      by (destruct (decide _); [rewrite Z.div_small by lia; lia|done]).
    repeat destruct (decide _); try lia; by rewrite ?Z.add_0_r.
  - assert (k = 0%nat) as -> by lia. cbn [Z.ltb Z.compare].
    pose proof (vs_shape _ _ _ _ _ Hst13 (shape_zero _ _ Hz)) as Hsh.
    rstep (uvmunmap_spec g 0 false s3 [] tr TRAMPOLINE 1) as (l4 & U);
      [lia|apply Hst3|split; (done || lia || apply Hst3)|lia|done|lia|lia|done|].
    rename s' into s4. rassoc. destruct (unmaps_keep g 0 TRAMPOLINE _ s3 [] s4 l4 ltac:(lia) ltac:(lia) U) as (UL & UT & _).
    rstep (uvmfree_back g s4 l4 (g :: l1) tr (um_kmem _ _ _ _ _ _ _ _ _ U) (sp_pt _ _ _ _ (um_space _ _ _ _ _ _ _ _ _ U))
      (sp_shape _ _ _ _ (um_space _ _ _ _ _ _ _ _ _ U))) as (l5 & Hk5 & Hf5 & HL); [|done| |].
    + intros va Hva. destruct (decide (TRAMPOLINE <= va < TRAMPOLINE + 1 * PGSIZE)); [by apply (um_in _ _ _ _ _ _ _ _ _ U)|].
      unfold valid. rewrite (um_out _ _ _ _ _ _ _ _ _ U), Hval3 by done. unfold map_pages.
      rewrite decide_False, Hval, decide_False by lia. done.
    + intros x. by rewrite UL, UT, <- (step_tables g s1 l1 s3 []).
    + apply runs_ret. split.
      * eapply vm_frame_trans; [apply Hst3|]. eapply vm_frame_trans; [apply U|done].
      * exists l5. by left.
Qed.

Lemma proc_pagetable_run s l tr :
  kmem_ready s l -> k_procs s !! p = Some pp -> page_ok (p_trapframe pp) -> p_trapframe pp ∉ l ->
  0 <= trampoline -> trampoline + PGSIZE <= 2 ^ 56 ->
  exists r s' l', proc_pagetable p s tr = Done r s' tr /\ vm_frame s s' /\ kmem_ready s' l' /\
    (r = 0 /\ l' ≡ₚ l \/
     r <> 0 /\ pt_ok (k_mem s') r l' /\ shape (k_mem s') r /\
     (forall x, x ∈ l <-> x ∈ l' \/ x ∈ tables 3 (k_mem s') r) /\
     forall va, 0 <= va < MAXVA -> pte_val (k_mem s') r va = process_pte (p_trapframe pp) va).
Proof.
  intros Hk Hpp Htf Htl Htr0 Htr.
  assert (HT : TRAMPOLINE = MAXVA - PGSIZE /\ 0 < TRAMPOLINE) by done. assert (Hpg : PGSIZE = 4096) by done.
  enough (Hruns : runs (proc_pagetable p) s tr (fun r s' => vm_frame s s' /\ exists l', kmem_ready s' l' /\
    (r = 0 /\ l' ≡ₚ l \/
     r <> 0 /\ pt_ok (k_mem s') r l' /\ shape (k_mem s') r /\
     (forall x, x ∈ l <-> x ∈ l' \/ x ∈ tables 3 (k_mem s') r) /\
     forall va, 0 <= va < MAXVA -> pte_val (k_mem s') r va = process_pte (p_trapframe pp) va))).
  { destruct Hruns as (r & s' & Hrun & Hf & l' & ?). by exists r, s', l'. }
  unfold proc_pagetable. destruct (uvmcreate_spec Hend s tr l Hk) as (g & s1 & Hrun & Hf1 & Hc).
  rstep (runs_det _ _ _ _ _ Hrun) as [-> ->].
  destruct l as [|g' l1]; [destruct Hc as [-> Hk1]; apply runs_ret; split; [done|]; exists []; split; [done|by left]|].
  destruct Hc as (-> & Hk1 & Hok1 & Hz). destruct (kr_list _ _ Hk) as (_ & Hnd & Hfl).
  apply Forall_cons in Hfl as [Hg _]. pose proof (page_ok_pos Hend g' Hg). rewrite (proj2 (Z.eqb_neq g' 0)) by lia.
  destruct (mappages_run Hend g' TRAMPOLINE PGSIZE trampoline (Z.lor PTE_R PTE_X) s1 tr l1)
    as (r & s2 & l2 & k & Hrun2 & Hst & Hr & Hval); [done|done|done|done|done|done|done|done|done|done| |].
  { intros va _. by rewrite pte_val_zero. }
  rstep (runs_det _ _ _ _ _ Hrun2) as [-> ->].
  assert (Hsh : forall s' l', vm_step g' s1 l1 s' l' -> shape (k_mem s') g') by (intros ? ? Hv; by apply Hv, shape_zero).
  destruct Hr as [[-> Hk1']|(-> & Hk0 & ->)].
  - cbn [Z.ltb Z.compare]. eapply runs_impl.
    + apply (proc_pagetable_trapframe g' s1 l1 s2 l2); [done|done|done| |done|done|lia|].
      { destruct (vm_frame_same s s1 Hf1) as (_ & E & _). destruct (vm_frame_same s1 s2 (vs_frame _ _ _ _ _ Hst)) as (_ & E' & _).
        by rewrite E', E. }
      intros va Hva. rewrite Hval by done. unfold map_pages. rewrite Hk1'. rewrite pte_val_zero by done.
      repeat destruct (decide _); try lia; try reflexivity. rewrite Z.div_small by lia. by rewrite Z.mul_0_l, Z.add_0_r.
    + intros r s3 (Hf3 & l3 & Hres). split; [eapply vm_frame_trans; [exact Hf1|]; eapply vm_frame_trans; [apply Hst|exact Hf3]|].
      exists l3. destruct Hres as [(-> & Hk3 & HL)|(-> & Hst3 & Hv3)]; [split; [done|by left]|].
      split; [apply Hst3|]. right. split; [lia|]. split; [apply Hst3|]. split; [by eapply Hsh|]. split; [|done].
      by apply (step_tables g' s1 l1 s3 l3).
  - cbn [Z.ltb Z.compare]. assert (k = 0%nat) as -> by lia.
    rstep (uvmfree_back g' s2 [] (g' :: l1) tr (vs_kmem _ _ _ _ _ Hst) (vs_pt _ _ _ _ _ Hst) (Hsh _ _ Hst)) as (l3 & Hk3 & Hf3 & HL);
      [|done|by apply (step_tables g' s1 l1 s2 [])|].
    { intros va Hva. unfold valid. rewrite Hval by done. unfold map_pages. by rewrite decide_False, pte_val_zero by (done || lia). }
    apply runs_ret. split; [eapply vm_frame_trans; [exact Hf1|]; eapply vm_frame_trans; [apply Hst|exact Hf3]|].
    exists l3. split; [done|by left].
Qed.

(** C18. [proc_pagetable] builds the address space of a new process or leaves
    no trace.  It always returns.  Either it returns a page table that maps
    the trampoline page (readable, executable) at the top of the address
    space, the process's trapframe (readable, writable) below it, both without
    the user bit, and nothing else, whose tables are pages taken off the free
    list; or it returns 0 because memory ran out, and every page it had
    taken is back on the free list. *)
Theorem proc_pagetable_spec s l tr :
  kmem_ready s l -> k_procs s !! p = Some pp -> page_ok (p_trapframe pp) -> p_trapframe pp ∉ l ->
  0 <= trampoline -> trampoline + PGSIZE <= 2 ^ 56 ->
  exists r s' l', proc_pagetable p s tr = Done r s' tr /\ vm_frame s s' /\ kmem_ready s' l' /\
    (r = 0 /\ l' ≡ₚ l \/
     r <> 0 /\ pt_ok (k_mem s') r l' /\ shape (k_mem s') r /\
     (forall x, x ∈ l <-> x ∈ l' \/ x ∈ tables 3 (k_mem s') r) /\
     forall va, 0 <= va < MAXVA -> pte_val (k_mem s') r va = process_pte (p_trapframe pp) va).
Proof. apply proc_pagetable_run. Qed.
End Spaces.

(** ** Witnesses *)
#[local] Opaque demo_user.

Lemma demo_space l : @vm_step demo_layout demo_root demo_kmem demo_free demo_user l ->
  @space demo_layout demo_root PGSIZE (k_mem demo_user) l.
Proof.
  intros Hst. destruct demo_user_ok as (_ & _ & Hval).
  assert (Hm : PGSIZE < MAXVA) by done.
  assert (Hfr : forall va, 0 <= va < PGSIZE -> frame (k_mem demo_user) demo_root va = 0x80300000).
  { intros va Hva. assert (Hva' : 0 <= va < MAXVA) by (clear -Hva Hm; lia).
    unfold frame. rewrite (Hval va Hva'), decide_True by exact Hva. reflexivity. }
  split.
  - apply Hst.
  - apply Hst. apply shape_zero. exact demo_root_zero.
  - intros va Hva _. rewrite Hfr by done. split; [done|]. intros Hin.
    destruct (vs_list _ _ _ _ _ Hst) as [k Hl].
    assert (Hd : 0x80300000 ∈ demo_free) by (rewrite Hl; apply elem_of_app; by right).
    revert Hd. apply (bool_decide_unpack _). by vm_compute.
  - intros va p t Hva _ Hp Hl Ht. rewrite Hfr by done. pose proof (us_table _ _ demo_user_sep 0 p t) as Hu.
    rewrite demo_user_page, decide_True in Hu by done. intros E. symmetry in E. revert E. by apply Hu.
  - intros va va' Hva Hva' _ _ _. by rewrite !Z.div_small.
Qed.

Lemma proc_freepagetable_spec_witness :
  exists (l : list Z) s' l', @proc_freepagetable demo_layout demo_root 100 demo_user [] = Done tt s' [] /\
    @kmem_ready demo_layout s' l' /\ vm_frame demo_user s' /\
    forall x, x ∈ l' <-> x ∈ l \/ is_frame (k_mem demo_user) demo_root (PGROUNDUP 100) x \/
      x ∈ tables 3 (k_mem demo_user) demo_root.
Proof.
  destruct demo_user_ok as (l & Hst & Hval). exists l.
  apply (@proc_freepagetable_spec demo_layout eq_refl demo_root 100 demo_user l []).
  - done.
  - apply Hst.
  - change (PGROUNDUP 100) with PGSIZE. by apply demo_space.
  - change (PGROUNDUP 100) with PGSIZE. intros va Hva. unfold valid. rewrite Hval.
    + rewrite decide_False by lia. discriminate.
    + assert (0 < PGSIZE /\ TRAPFRAME < MAXVA) by done. lia.
Defined.

Definition demo_proc : proc := proc_bss <| p_trapframe := 0x80300000 |>.
Definition demo_alloc : kstate := demo_kmem <| k_procs := [demo_proc] |>.

Lemma proc_pagetable_spec_witness :
  exists r s' l', @proc_pagetable demo_layout 0 demo_alloc [] = Done r s' [] /\ vm_frame demo_alloc s' /\
    @kmem_ready demo_layout s' l' /\
    (r = 0 /\ l' ≡ₚ demo_free \/
     r <> 0 /\ @pt_ok demo_layout (k_mem s') r l' /\ shape (k_mem s') r /\
     (forall x, x ∈ demo_free <-> x ∈ l' \/ x ∈ tables 3 (k_mem s') r) /\
     forall va, 0 <= va < MAXVA -> pte_val (k_mem s') r va = @process_pte demo_layout 0x80300000 va).
Proof.
  apply (@proc_pagetable_spec demo_layout eq_refl 0 demo_proc demo_alloc demo_free []).
  - split; [exact boot_hart|reflexivity|exact demo_kmem_list].
  - reflexivity.
  - done.
  - apply (bool_decide_unpack _). by vm_compute.
  - done.
  - done.
Defined.
