(* ===== verification/ProcAlloc.v ===== *)
(** * Creating a process (kernel/proc.c, [allocproc])

    [allocproc] is where the process table, the pid counter, the page allocator
    and the page tables meet.  [allocproc_spec] states what each of its four
    ways out leaves behind: no free slot, no page for the trapframe, no page
    for the page table, or a new process.  [table_ops_typed] lifts it, with the
    other calls that change the table, to sequences of calls: the table keeps
    its type (slots, priorities, pids). *)

From stdpp Require Import prelude list strings gmap.
From Stdlib Require Import ZArith Lia ZifyBool.
From S2P Require Import Prelude State Spinlock CString Kalloc Proc Sched Vm VmCopy ProcLife VmFree.
Local Open Scope Z_scope.

(** ** The steps *)
Section Steps.
Context `{KernelLayout} (Hend : 0 < kernel_end).

Lemma find_unused_none_from n : forall lo s tr,
  quiescent s -> (forall j p, k_procs s !! j = Some p -> p_state p <> UNUSED) -> (lo + n <= NPROC)%nat ->
  for_upto n lo (fun i =>
    acquire (L_proc i) ;;
    let! p := get_proc i in
    if decide (p_state p = UNUSED) then kret (Some i)
    else release (L_proc i) ;; kret None) s tr = Done None (match n with O => s | S _ => touch s end) tr.
Proof.
  induction n as [|n IH]; intros lo s tr Hq Hno Hle; cbn [for_upto]; [done|].
  destruct (lookup_lt_is_Some_2 (k_procs s) lo) as [p Hlo]; [rewrite (q_len s Hq); lia|].
  kstep slot_acquire; [done|]. kexact (get_proc_run (enter (L_proc lo) s) tr lo p Hlo).
  rewrite decide_False by (by apply (Hno lo)). kstep slot_release_id; [done|]. kstep kret_run.
  etransitivity; [apply (IH (S lo) (touch s) tr); [by apply quiescent_touch|done|lia]|].
  destruct n; [done|]. by rewrite touch_touch.
Qed.

Lemma find_unused_none s tr :
  quiescent s -> (forall j p, k_procs s !! j = Some p -> p_state p <> UNUSED) ->
  find_unused s tr = Done None (touch s) tr.
Proof. intros Hq Hno. by apply (find_unused_none_from NPROC 0 s tr). Qed.

Lemma allocpid_run s tr :
  hart_ok s -> k_locks s !! L_pid = None ->
  allocpid s tr = Done (k_nextpid s) (touch (s <| k_nextpid := i32 (k_nextpid s + 1) |>)) tr.
Proof.
  intros Hh Hl. unfold allocpid. kstep acquire_run; [done..|]. kstep gets_run. kstep modify_run.
  by kstep (release_run L_pid (s <| k_nextpid := i32 (k_nextpid s + 1) |>)).
Qed.

(** [kalloc], whether or not there is a page left. *)
Lemma kalloc_any s l tr :
  kmem_ready s l ->
  exists s', kalloc s tr = Done (hd 0 l) s' tr /\ vm_frame s s' /\ kmem_ready s' (tail l).
Proof.
  intros Hk. destruct l as [|g l]; cbn [hd tail].
  - exists (touch s). split; [apply kalloc_run_empty; apply Hk|].
    split; [by exists (k_mem s), (k_freelist s); right|]. split; [apply hart_ok_touch, Hk|apply Hk..].
  - destruct (kr_list _ _ Hk) as (Hc & _ & Hf). apply Forall_cons in Hf as [Hg _].
    pose proof (page_ok_pos Hend g Hg).
    exists (touch (alloc_page g s)). split; [apply kalloc_run; [apply Hk|apply Hk|apply Hc|lia]|].
    split; [by eexists _, _; right|]. split; [apply hart_ok_touch, Hk|apply Hk|apply (kmem_list_alloc s), Hk].
Qed.

Lemma upd_proc_run i f s tr : upd_proc i f s tr = Done tt (s <| k_procs ::= alter f i |>) tr.
Proof. done. Qed.
End Steps.

Lemma alter_inserted {A} (g : A -> A) (x : A) (l : list A) i : alter g i (<[i := x]> l) = <[i := g x]> l.
Proof. revert i. induction l as [|y l IH]; intros [|i]; cbn; [done|done|done|]. f_equal. apply IH. Qed.

(** ** The state in a critical section of a slot *)
Section Slot.
Context (i : nat) (s0 : kstate) (Hq : quiescent s0).

(** [s0] with the slot [i] locked and holding [q], pid counter [n], memory [m]
    and free list head [f]. *)
Definition slot_state (m : Z -> Z) (f : Z) (q : proc) (n : Z) : kstate :=
  with_mem m f (s0 <| k_procs := <[i := q]> (k_procs s0) |> <| k_nextpid := n |>).
Definition in_slot (m : Z -> Z) (f : Z) (q : proc) (n : Z) : kstate := enter (L_proc i) (slot_state m f q n).

Lemma slot_hart m f q n : hart_ok (slot_state m f q n).
Proof. exact (q_hart _ Hq). Qed.

Lemma in_slot_frame m f q n s' : vm_frame (in_slot m f q n) s' -> exists m' f', s' = in_slot m' f' q n.
Proof.
  intros (m' & f' & [-> | ->]); exists m', f'; [done|].
  apply (touch_enter (L_proc i) (slot_state m' f' q n)), slot_hart.
Qed.

Lemma in_slot_proc m f q n : (i < NPROC)%nat -> k_procs (in_slot m f q n) !! i = Some q.
Proof. intros Hi. cbn. apply list_lookup_insert_eq. by rewrite (q_len _ Hq). Qed.

Lemma in_slot_upd g m f q n tr :
  upd_proc i g (in_slot m f q n) tr = Done tt (in_slot m f (g q) n) tr.
Proof.
  unfold upd_proc, modify, in_slot, slot_state, enter, with_mem. cbn. do 3 f_equal.
  apply alter_inserted.
Qed.

Lemma in_slot_get m f q n tr : (i < NPROC)%nat -> get_proc i (in_slot m f q n) tr = Done q (in_slot m f q n) tr.
Proof. intros Hi. by apply get_proc_run, in_slot_proc. Qed.

Context `{KernelLayout} (Hend : 0 < kernel_end) (Hi : (i < NPROC)%nat).

Lemma in_slot_kmem m f q n q' n' l : kmem_ready (in_slot m f q n) l -> kmem_ready (in_slot m f q' n') l.
Proof. by intros [H1 H2 H3]. Qed.

Lemma enter_kmem q n l : kmem_ready s0 l -> kmem_ready (in_slot (k_mem s0) (k_freelist s0) q n) l.
Proof.
  intros [H1 H2 H3]. split; [by apply hart_ok_enter|cbn; by rewrite lookup_insert_ne|done].
Qed.

Lemma slot_kmem m f q n l : kmem_ready (in_slot m f q n) l -> kmem_ready (touch (slot_state m f q n)) l.
Proof.
  intros [H1 H2 H3]. split; [apply hart_ok_touch, slot_hart|cbn in *; by rewrite lookup_insert_ne in H2|done].
Qed.

Lemma in_slot_release m f q n tr :
  release (L_proc i) (in_slot m f q n) tr = Done tt (touch (slot_state m f q n)) tr.
Proof. apply release_run; [apply slot_hart|exact (q_free _ Hq i)]. Qed.

(** ** [freeproc] on a slot without a page table *)
Definition slot_cleared (q : proc) : proc :=
  q <| p_trapframe := 0 |> <| p_pagetable := 0 |> <| p_sz := 0 |> <| p_pid := 0 |> <| p_name ::= <[0%nat := 0]> |>
    <| p_chan := None |> <| p_killed := 0 |> <| p_xstate := 0 |> <| p_priority := PRIORITY_DEFAULT |>
    <| p_wait_ticks := 0 |> <| p_state := UNUSED |>.

Lemma freeproc_run m f q n l tr :
  kmem_ready (in_slot m f q n) l -> p_pagetable q = 0 ->
  (p_trapframe q = 0 \/ page_ok (p_trapframe q) /\ p_trapframe q ∉ l) ->
  exists m' f', freeproc i (in_slot m f q n) tr = Done tt (in_slot m' f' (slot_cleared q) n) tr /\
    kmem_ready (in_slot m' f' (slot_cleared q) n) (if p_trapframe q =? 0 then l else p_trapframe q :: l).
Proof.
  intros Hk Hpt Htf. unfold freeproc.
  assert (Hfree : exists m' f', when (negb (p_trapframe q =? 0)) (kfree (p_trapframe q)) (in_slot m f q n) tr =
      Done tt (in_slot m' f' q n) tr /\
    kmem_ready (in_slot m' f' q n) (if p_trapframe q =? 0 then l else p_trapframe q :: l)).
  { destruct (Z.eqb_spec (p_trapframe q) 0) as [E|E]; cbn [negb when]; [by exists m, f|].
    destruct Htf as [?|[Hp Hn]]; [done|].
    destruct (kfree_runs Hend (in_slot m f q n) l (p_trapframe q) tr Hk Hp Hn) as ([] & s' & Hrun & Hk' & Hf & _).
    destruct (in_slot_frame m f q n s' Hf) as (m' & f' & ->). by exists m', f'. }
  destruct Hfree as (m' & f' & Hrun & Hk'). exists m', f'. split; [|by apply (in_slot_kmem m' f' q n)].
  kstep in_slot_get; [done|]. kexact Hrun. kstep in_slot_upd. rewrite Hpt. cbn [Z.eqb negb when].
  kstep kret_run. etransitivity; [apply in_slot_upd|reflexivity].
Qed.
End Slot.

(** ** [freeproc] on a process *)
Section FreeProc.
Context `{KernelLayout} (Hend : 0 < kernel_end) (i : nat) (s0 : kstate) (Hq : quiescent s0) (Hi : (i < NPROC)%nat).
Context (q : proc) (n : Z).

(** The memory of the process in slot [i]: its trapframe page and its address
    space, which has no user page at or above [sz]. *)
Record owns_memory (m : Z -> Z) (l : list Z) : Prop := {
  om_tf : page_ok (p_trapframe q) /\ (p_trapframe q ∉ l) /\ p_trapframe q ∉ tables 3 m (p_pagetable q);
  om_pt : p_pagetable q <> 0;
  om_sz : 0 <= p_sz q <= TRAPFRAME;
  om_space : space (p_pagetable q) (PGROUNDUP (p_sz q)) m l;
  om_frames : ~ is_frame m (p_pagetable q) (PGROUNDUP (p_sz q)) (p_trapframe q);
  om_none : forall va, PGROUNDUP (p_sz q) <= va < TRAPFRAME -> ~ valid m (p_pagetable q) va }.

(** C11. [freeproc] gives back all the memory of a process.  It returns, leaves
    the slot unused, with pid 0 and the default priority, and the free list is
    then exactly what it was, the process's trapframe, the frame of every user
    page, and every table of its page table, each page once. *)
Theorem freeproc_spec m f l tr :
  kmem_ready (in_slot i s0 m f q n) l -> owns_memory m l ->
  exists m' f' l', freeproc i (in_slot i s0 m f q n) tr = Done tt (in_slot i s0 m' f' (slot_cleared q) n) tr /\
    kmem_ready (in_slot i s0 m' f' (slot_cleared q) n) l' /\
    forall x, x ∈ l' <-> x ∈ l \/ x = p_trapframe q \/ is_frame m (p_pagetable q) (PGROUNDUP (p_sz q)) x \/
      x ∈ tables 3 m (p_pagetable q).
Proof.
  intros Hk [(Htf & Htl & Htt) Hpt Hsz Hsp Hfr Hno]. pose proof (page_ok_pos Hend _ Htf).
  set (tf := p_trapframe q) in *. set (pt := p_pagetable q) in *.
  destruct (kfree_runs Hend _ l tf tr Hk Htf Htl) as ([] & s1 & Hrun1 & Hk1 & Hf1 & Hm1).
  destruct (in_slot_frame i s0 Hq _ _ _ _ s1 Hf1) as (m1 & f1 & ->).
  assert (Hfr' : forall va, 0 <= va < PGROUNDUP (p_sz q) -> valid m pt va -> frame m pt va <> tf)
    by (intros va Hva Hv E; apply Hfr; by exists va).
  pose proof (free_other_space pt (PGROUNDUP (p_sz q)) (in_slot i s0 m f q n) l tf Hsp Htf Htt Hfr' _ Hm1) as Hsp1.
  destruct (free_other_same pt (PGROUNDUP (p_sz q)) (in_slot i s0 m f q n) l tf Hsp Htf Htt _ Hm1) as (ET & EV & EF).
  set (q1 := q <| p_trapframe := 0 |>). apply (in_slot_kmem i s0 _ _ _ _ q1 n) in Hk1.
  destruct (proc_freepagetable_spec Hend pt (p_sz q) (in_slot i s0 m1 f1 q1 n) (tf :: l) tr) as (s2 & l2 & Hrun2 & Hk2 & Hf2 & HL);
    [done|done|done|intros va Hva; rewrite EV; by apply Hno|].
  destruct (in_slot_frame i s0 Hq _ _ _ _ s2 Hf2) as (m2 & f2 & ->).
  exists m2, f2, l2. split; [|split; [by apply (in_slot_kmem i s0 _ _ q1 n)|]].
  - unfold freeproc. kstep in_slot_get; [done|done|]. fold tf pt. rewrite (proj2 (Z.eqb_neq tf 0)) by lia. cbn [negb when].
    kexact Hrun1. kstep in_slot_upd. rewrite (proj2 (Z.eqb_neq pt 0)) by done. cbn [negb when].
    kexact Hrun2. etransitivity; [apply in_slot_upd|reflexivity].
  - intros x. assert (EI : is_frame (k_mem (in_slot i s0 m1 f1 q1 n)) pt (PGROUNDUP (p_sz q)) x <-> is_frame m pt (PGROUNDUP (p_sz q)) x).
    { unfold is_frame. split; intros (va & Hva & Hv & E); exists va; (split; [done|]).
      - by rewrite EV in Hv; rewrite EF in E.
      - by rewrite EV, EF. }
    rewrite HL, elem_of_cons, ET, EI. change (k_mem (in_slot i s0 m f q n)) with m. clear. generalize (x ∈ tables 3 m pt) (is_frame m pt (PGROUNDUP (p_sz q)) x). tauto.
Qed.
End FreeProc.

(** ** [allocproc] *)
(** A slot as [allocproc] hands it out. *)
Definition slot_new `{KernelLayout} (q : proc) (pid tf pt : Z) : proc :=
  q <| p_pid := pid |> <| p_state := USED |> <| p_priority := PRIORITY_DEFAULT |> <| p_wait_ticks := 0 |>
    <| p_trapframe := tf |> <| p_pagetable := pt |> <| p_context := mkcontext forkret_addr (p_kstack q + PGSIZE) |>.

(** The first unused slot. *)
Definition first_unused (s : kstate) (i : nat) (q : proc) : Prop :=
  k_procs s !! i = Some q /\ p_state q = UNUSED /\
  forall j p, (j < i)%nat -> k_procs s !! j = Some p -> p_state p <> UNUSED.

(** What [allocproc] leaves, from [s] with the free list [l] and the unused slot
    [i]. *)
Inductive allocated `{KernelLayout} (s : kstate) (l : list Z) (i : nat) (q : proc) : option nat -> kstate -> list Z -> Prop :=
| al_fail m f l' : l' ≡ₚ l ->
    allocated s l i q None (touch (slot_state i s m f (slot_cleared q) (i32 (k_nextpid s + 1)))) l'
| al_new m f tf pt l' :
    let s' := in_slot i s m f (slot_new q (k_nextpid s) tf pt) (i32 (k_nextpid s + 1)) in
    tf <> 0 -> pt <> 0 -> pt_ok m pt l' -> shape m pt -> tf ∉ l' -> tf ∉ tables 3 m pt ->
    (forall x, x ∈ l <-> x = tf \/ x ∈ l' \/ x ∈ tables 3 m pt) ->
    (forall va, 0 <= va < MAXVA -> pte_val m pt va = process_pte tf va) ->
    allocated s l i q (Some i) s' l'.

Section AllocProc.
Context `{KernelLayout} (Hend : 0 < kernel_end) (Htramp : 0 <= trampoline /\ trampoline + PGSIZE <= 2 ^ 56).
Context (s : kstate) (l : list Z) (i : nat) (q : proc).
Context (Hq : quiescent s) (Hk : kmem_ready s l) (Hpid : k_locks s !! L_pid = None).
Context (Hun : first_unused s i q) (Hclean : p_pagetable q = 0).

Lemma unused_lt : (i < NPROC)%nat.
Proof. destruct Hun as (E & _). apply lookup_lt_Some in E. by rewrite <- (q_len _ Hq). Qed.

Lemma unused_in_slot : enter (L_proc i) s = in_slot i s (k_mem s) (k_freelist s) q (k_nextpid s).
Proof.
  destruct Hun as (E & _). unfold in_slot, slot_state, with_mem.
  rewrite list_insert_id by done. by destruct s.
Qed.

Lemma allocproc_run tr :
  runs allocproc s tr (fun r s' => exists l', allocated s l i q r s' l' /\ kmem_ready s' l').
Proof.
  pose proof unused_lt as Hi. pose proof Hun as (Eq & Hu & Hno).
  unfold allocproc. rstep (runs_det _ _ _ _ _ (find_unused_run s tr i q Hq Eq Hu Hno)) as [-> ->].
  rewrite unused_in_slot. set (n := i32 (k_nextpid s + 1)).
  assert (Hp : allocpid (in_slot i s (k_mem s) (k_freelist s) q (k_nextpid s)) tr =
    Done (k_nextpid s) (in_slot i s (k_mem s) (k_freelist s) q n) tr).
  { rewrite allocpid_run; [|apply hart_ok_enter, slot_hart, Hq|cbn; by rewrite lookup_insert_ne].
    f_equal. exact (touch_enter (L_proc i) (slot_state i s (k_mem s) (k_freelist s) q n) (slot_hart i s Hq _ _ _ _)). }
  rstep (runs_det _ _ _ _ _ Hp) as [-> ->].
  rstep (runs_det _ _ _ _ _ (in_slot_upd i s _ _ _ _ _ tr)) as [_ ->].
  set (q1 := q <| p_pid := k_nextpid s |> <| p_state := USED |> <| p_priority := PRIORITY_DEFAULT |> <| p_wait_ticks := 0 |>).
  pose proof (enter_kmem i s q1 n l Hk) as Hk1.
  destruct (kalloc_any Hend _ l tr Hk1) as (s2 & Hka & Hf2 & Hk2).
  rstep (runs_det _ _ _ _ _ Hka) as [-> ->].
  destruct (in_slot_frame i s Hq _ _ _ _ s2 Hf2) as (m2 & f2 & ->).
  rstep (runs_det _ _ _ _ _ (in_slot_upd i s _ _ _ _ _ tr)) as [_ ->].
  set (q2 := q1 <| p_trapframe := hd 0 l |>).
  apply (in_slot_kmem i s _ _ _ _ q2 n) in Hk2.
  destruct l as [|tf l1]; cbn [hd tail Z.eqb] in *.
  { destruct (freeproc_run i s Hq Hend Hi m2 f2 q2 n [] tr Hk2) as (m3 & f3 & Hfr & Hk3); [exact Hclean|by left|].
    change (slot_cleared q2) with (slot_cleared q) in *.
    rstep (runs_det _ _ _ _ _ Hfr) as [-> ->]. rstep (runs_det _ _ _ _ _ (in_slot_release i s Hq _ _ _ _ tr)) as [-> ->].
    apply runs_ret. exists []. split; [by apply (al_fail _ _ _ _ m3 f3)|]. by apply slot_kmem. }
  destruct (kr_list _ _ Hk) as (_ & Hnd & Hfl). apply NoDup_cons in Hnd as [Htl Hnd].
  apply Forall_cons in Hfl as [Htf _]. pose proof (page_ok_pos Hend tf Htf). rewrite (proj2 (Z.eqb_neq tf 0)) by lia.
  destruct (proc_pagetable_run Hend i q2 (in_slot i s m2 f2 q2 n) l1 tr) as (pt & s3 & l3 & Hpt & Hf3 & Hk3 & Hres);
    [done|by apply in_slot_proc|done|done|apply Htramp|apply Htramp|].
  rstep (runs_det _ _ _ _ _ Hpt) as [-> ->].
  destruct (in_slot_frame i s Hq _ _ _ _ s3 Hf3) as (m3 & f3 & ->).
  rstep (runs_det _ _ _ _ _ (in_slot_upd i s _ _ _ _ _ tr)) as [_ ->].
  set (q3 := q2 <| p_pagetable := pt |>). apply (in_slot_kmem i s _ _ _ _ q3 n) in Hk3.
  destruct Hres as [[-> HL]|(Hpt0 & Hok & Hsh & Hall & Hval)].
  - cbn [Z.eqb].
    destruct (freeproc_run i s Hq Hend Hi m3 f3 q3 n l3 tr Hk3) as (m4 & f4 & Hfr & Hk4); [done|right; split; [done|by rewrite HL]|].
    change (slot_cleared q3) with (slot_cleared q) in *.
    rstep (runs_det _ _ _ _ _ Hfr) as [-> ->]. rstep (runs_det _ _ _ _ _ (in_slot_release i s Hq _ _ _ _ tr)) as [-> ->].
    apply runs_ret. exists (tf :: l3). split; [apply (al_fail _ _ _ _ m4 f4); by rewrite HL|]. apply slot_kmem; [done|].
    revert Hk4. by rewrite (proj2 (Z.eqb_neq (p_trapframe q3) 0)) by (cbn; lia).
  - rewrite (proj2 (Z.eqb_neq pt 0)) by done.
    rstep (runs_det _ _ _ _ _ (in_slot_upd i s _ _ _ _ _ tr)) as [_ ->].
    apply runs_ret. exists l3. set (st := in_slot i s m3 f3 _ n).
    change st with (in_slot i s m3 f3 (slot_new q (k_nextpid s) tf pt) n). clear st.
    split; [|by apply (in_slot_kmem i s _ _ q3 n)]. apply (al_new _ _ _ _ m3 f3 tf pt l3); try done; [lia|..].
    + intros Hin. apply Htl, Hall. by left.
    + intros Hin. apply Htl, Hall. by right.
    + intros x. rewrite elem_of_cons, Hall. done.
Qed.
End AllocProc.

(** ** Whole calls *)
Section Calls.
Context `{KernelLayout} (Hend : 0 < kernel_end) (Htramp : 0 <= trampoline /\ trampoline + PGSIZE <= 2 ^ 56).

Lemma unused_or_full s :
  (exists i q, first_unused s i q) \/ (forall j p, k_procs s !! j = Some p -> p_state p <> UNUSED).
Proof.
  destruct (list_find (fun p => p_state p = UNUSED) (k_procs s)) as [[i q]|] eqn:E.
  - left. apply list_find_Some in E as (Hi & Hu & Hno). exists i, q. split; [done|]. split; [done|].
    intros j p Hj Hp. by apply (Hno j p).
  - right. apply list_find_None in E. rewrite Forall_forall in E. intros j p Hp. apply E. by eapply list_elem_of_lookup_2.
Qed.

Lemma allocproc_cases s l tr :
  quiescent s -> kmem_ready s l -> k_locks s !! L_pid = None ->
  (forall i p, k_procs s !! i = Some p -> p_state p = UNUSED -> p_pagetable p = 0) ->
  (forall j p, k_procs s !! j = Some p -> p_state p <> UNUSED) /\ allocproc s tr = Done None (touch s) tr \/
  exists i q r s' l', first_unused s i q /\ allocproc s tr = Done r s' tr /\
    allocated s l i q r s' l' /\ kmem_ready s' l'.
Proof.
  intros Hq Hk Hpid Hclean. destruct (unused_or_full s) as [(i & q & Hun)|Hno]; [right|left].
  - destruct (allocproc_run Hend Htramp s l i q Hq Hk Hpid Hun (Hclean i q (proj1 Hun) (proj1 (proj2 Hun))) tr)
      as (r & s' & Hrun & l' & Hal & Hk'). by exists i, q, r, s', l'.
  - split; [done|]. unfold allocproc. kstep find_unused_none; [done|done|]. done.
Qed.


(** ** The type of the process table *)
(** Priorities are in range; a slot has pid 0 exactly when it is unused, and then
    holds no memory; pids come from the counter and no two slots share one. *)
Record typed_slot (next : Z) (p : proc) : Prop := {
  ts_prio : priority_valid (p_priority p) = true;
  ts_pid : p_pid p = 0 <-> p_state p = UNUSED;
  ts_next : 0 <= p_pid p < next;
  ts_clean : p_state p = UNUSED -> p_pagetable p = 0 /\ p_trapframe p = 0 }.

Record typed (s : kstate) : Prop := {
  ty_slot : forall i p, k_procs s !! i = Some p -> typed_slot (k_nextpid s) p;
  ty_uniq : forall i j p q, k_procs s !! i = Some p -> k_procs s !! j = Some q ->
    p_pid p = p_pid q -> p_pid p <> 0 -> i = j;
  ty_pos : 0 < k_nextpid s }.

(** Between system calls. *)
Record system (s : kstate) (l : list Z) : Prop := {
  sy_quiet : quiescent s;
  sy_kmem : kmem_ready s l;
  sy_pid : k_locks s !! L_pid = None;
  sy_typed : typed s }.

(** Changes that keep the pid of every slot and the type of the slot. *)
Lemma typed_map s l : typed s -> length l = length (k_procs s) ->
  (forall i p', l !! i = Some p' -> exists p, k_procs s !! i = Some p /\ p_pid p' = p_pid p /\
    (typed_slot (k_nextpid s) p -> typed_slot (k_nextpid s) p')) ->
  typed (s <| k_procs := l |>).
Proof.
  intros [T1 T2 T3] Hl Hm. split; cbn; [|intros i j p q Hi Hj|done].
  - intros i p Hp. destruct (Hm i p Hp) as (p0 & H0 & _ & Ht). by apply Ht, (T1 i).
  - destruct (Hm i p Hi) as (p0 & Hp0 & -> & _), (Hm j q Hj) as (q0 & Hq0 & -> & _). by apply (T2 i j p0 q0).
Qed.

Lemma system_procs s l f : system s l -> length (f (k_procs s)) = NPROC -> typed (s <| k_procs := f (k_procs s) |>) ->
  system (touch (s <| k_procs := f (k_procs s) |>)) l.
Proof.
  intros [Q K P T] Hl Ht. split.
  - by apply quiescent_touch, quiescent_procs.
  - split; [apply hart_ok_touch, Q|apply K..].
  - done.
  - by destruct Ht.
Qed.

Lemma system_touch s l : system s l -> system (touch s) l.
Proof.
  intros [Q K P [T1 T2 T3]]. split; [by apply quiescent_touch|split; [apply hart_ok_touch, Q|apply K..]|done|by split].
Qed.

Lemma typed_alter s i f : typed s ->
  (forall p, k_procs s !! i = Some p -> p_pid (f p) = p_pid p /\
    (typed_slot (k_nextpid s) p -> typed_slot (k_nextpid s) (f p))) ->
  typed (s <| k_procs := alter f i (k_procs s) |>).
Proof.
  intros Ht Hf. apply typed_map; [done|apply length_alter|]. intros j p' Hj.
  destruct (decide (i = j)) as [<-|Hne]; [|rewrite list_lookup_alter_ne in Hj by done; by exists p'].
  rewrite list_lookup_alter_eq in Hj. apply fmap_Some in Hj as (p & Hp & ->). destruct (Hf p Hp). by exists p.
Qed.

Lemma typed_fmap s f : typed s ->
  (forall p, p_pid (f p) = p_pid p /\ (typed_slot (k_nextpid s) p -> typed_slot (k_nextpid s) (f p))) ->
  typed (s <| k_procs := f <$> k_procs s |>).
Proof.
  intros Ht Hf. apply typed_map; [done|apply length_fmap|]. intros j p' Hj.
  rewrite list_lookup_fmap in Hj. apply fmap_Some in Hj as (p & Hp & ->). destruct (Hf p). by exists p.
Qed.

Lemma typed_insert s i q q' m f : typed s -> quiescent s -> first_unused s i q -> k_nextpid s + 1 < 2 ^ 31 ->
  typed_slot (k_nextpid s + 1) q' -> p_pid q' = 0 \/ p_pid q' = k_nextpid s ->
  typed (slot_state i s m f q' (i32 (k_nextpid s + 1))).
Proof.
  intros [T1 T2 T3] Hq Hun Hn Hs Hp. replace (i32 (k_nextpid s + 1)) with (k_nextpid s + 1)
    by (unfold i32; rewrite Z.mod_small; lia).
  assert (Hi : (i < length (k_procs s))%nat) by (rewrite (q_len _ Hq); by apply (unused_lt s i q)).
  assert (Hlook : forall j p, <[i := q']> (k_procs s) !! j = Some p ->
    j = i /\ p = q' \/ j <> i /\ k_procs s !! j = Some p).
  { intros j p Hj. apply list_lookup_insert_Some in Hj as [(-> & -> & _)|[? ?]]; [by left|right; by split]. }
  split; cbn; [intros j p Hj|intros j k p p' Hj Hk|lia].
  - apply Hlook in Hj as [[-> ->]|[_ Hj]]; [done|]. destruct (T1 j p Hj) as [S1 S2 S3 S4]. split; [done|done|lia|done].
  - apply Hlook in Hj as [[-> ->]|[Hji Hj]], Hk as [[-> ->]|[Hki Hk]]; [done| | |by apply (T2 j k)].
    + pose proof (ts_next _ _ (T1 k p' Hk)). lia.
    + pose proof (ts_next _ _ (T1 j p Hj)). lia.
Qed.

(** The calls that change the table. *)
Inductive table_op :=
| OpAlloc
| OpSetPriority (pid v : Z)
| OpKill (pid : Z)
| OpWakeup (chan : option wchan)
| OpScan.

#[export] Instance table_op_eq_dec : EqDecision table_op.
Proof. solve_decision. Defined.

(** [allocproc] returns with the slot locked; its callers release it. *)
Definition table_call (op : table_op) : Kern unit :=
  match op with
  | OpAlloc => let! p := allocproc in match p with Some i => release (L_proc i) | None => kret tt end
  | OpSetPriority pid v => let! _ := ksetpriority pid v in kret tt
  | OpKill pid => let! _ := kkill pid in kret tt
  | OpWakeup chan => wakeup chan
  | OpScan => let! _ := scan_table in kret tt
  end.

Fixpoint table_calls (ops : list table_op) : Kern unit :=
  match ops with
  | [] => kret tt
  | op :: ops' => table_call op ;; table_calls ops'
  end.

Lemma alloc_typed s l tr : system s l -> k_nextpid s + 1 < 2 ^ 31 ->
  runs (table_call OpAlloc) s tr (fun _ s' => k_nextpid s <= k_nextpid s' <= k_nextpid s + 1 /\ exists l', system s' l').
Proof.
  intros Hs Hn. pose proof Hs as [Q K P T]. cbn [table_call].
  assert (Hi32 : i32 (k_nextpid s + 1) = k_nextpid s + 1) by (pose proof (ty_pos _ T); unfold i32; rewrite Z.mod_small; lia).
  destruct (allocproc_cases s l tr Q K P) as [[_ Hrun]|(i & q & r & s' & l' & Hun & Hrun & Hal & Hk')].
  { intros i p Hp Hu. apply (ts_clean _ _ (ty_slot _ T i p Hp) Hu). }
  { rstep (runs_det _ _ _ _ _ Hrun) as [-> ->]. apply runs_ret. split; [cbn; lia|]. exists l. by apply system_touch. }
  rstep (runs_det _ _ _ _ _ Hrun) as [-> ->].
  assert (Hlen : forall m f q', quiescent (touch (slot_state i s m f q' (i32 (k_nextpid s + 1))))).
  { intros m f q'. apply quiescent_touch. split; [apply Q|apply Q|]. cbn. rewrite length_insert. apply Q. }
  pose proof (ts_prio _ _ (ty_slot _ T i q (proj1 Hun))). pose proof (ty_pos _ T).
  destruct Hal as [m f l' HL|m f tf pt l' s' Htf Hpt Hok Hsh Hn1 Hn2 Hall Hval].
  - apply runs_ret. split; [cbn; rewrite Hi32; lia|]. exists l'. split; [apply Hlen|done|done|].
    assert (Ht : typed (slot_state i s m f (slot_cleared q) (i32 (k_nextpid s + 1)))).
    { apply (typed_insert s i q); [done..| |by left]. split; cbn; (done || lia). }
    by destruct Ht.
  - rlast (runs_det _ _ _ _ _ (in_slot_release i s Q m f _ _ tr)) as [_ ->]. split; [cbn; rewrite Hi32; lia|].
    exists l'. split; [apply Hlen|by apply slot_kmem|done|].
    assert (Ht : typed (slot_state i s m f (slot_new q (k_nextpid s) tf pt) (i32 (k_nextpid s + 1)))).
    { apply (typed_insert s i q); [done..| |by right]. split; cbn; [done| |lia|done]. split; [lia|done]. }
    by destruct Ht.
Qed.

(** The slots after a call that changes one slot, or all of them. *)
Lemma set_prio_typed n v p : priority_valid v = true -> typed_slot n p -> typed_slot n (set_prio v p).
Proof. intros Hv [T1 T2 T3 T4]. by split. Qed.

Lemma wakened_typed n (st : procstate) p : (st = p_state p \/ p_state p = SLEEPING /\ st = RUNNABLE) ->
  typed_slot n p -> typed_slot n (p <| p_state := st |>).
Proof. intros Hst [T1 T2 T3 T4]. destruct Hst as [->|[E ->]]; split; cbn; try rewrite E in *; done || naive_solver. Qed.

Lemma kill_typed n p : typed_slot n p -> typed_slot n (kill_proc p).
Proof.
  intros T. unfold kill_proc. apply wakened_typed; [|by destruct T].
  cbn. destruct (decide (p_state p = SLEEPING)); auto.
Qed.

Lemma wake_typed n chan p : p_pid (wake chan p) = p_pid p /\ (typed_slot n p -> typed_slot n (wake chan p)).
Proof.
  unfold wake. destruct (decide (p_chan p = chan)); [|done]. split; [done|]. intros T.
  apply wakened_typed; [|by destruct T]. cbn. destruct (decide (p_state p = SLEEPING)); auto.
Qed.

Lemma tick_typed n p : p_pid (tick p) = p_pid p /\ (typed_slot n p -> typed_slot n (tick p)).
Proof.
  assert (Ha : p_pid (age p) = p_pid p /\ (typed_slot n p -> typed_slot n (age p))).
  { unfold age. destruct (ageable p) eqn:E; [|done]. split; [done|]. intros [T1 T2 T3 T4]. split; cbn; try done.
    unfold ageable, priority_valid in *. lia. }
  unfold tick. destruct (decide (p_state (age p) = RUNNABLE)); [|done]. destruct Ha as [Ha1 Ha2].
  split; [done|]. intros T. by destruct (Ha2 T).
Qed.

Lemma call_done {A} (c : Kern A) s s' a l tr : c s tr = Done a s' tr -> system s' l -> k_nextpid s' = k_nextpid s ->
  runs (let! _ := c in kret tt) s tr (fun _ s' => k_nextpid s' = k_nextpid s /\ system s' l).
Proof. intros Hc Hs Hn. rstep (runs_det _ _ _ _ _ Hc) as [-> ->]. by apply runs_ret. Qed.

Lemma other_typed op s l tr : op <> OpAlloc -> system s l ->
  runs (table_call op) s tr (fun _ s' => k_nextpid s' = k_nextpid s /\ system s' l).
Proof.
  intros Hop Hs. pose proof Hs as [Q K P T]. destruct op as [|pid v|pid|chan|]; [done|..]; cbn [table_call].
  - pose proof (ksetpriority_run pid v s tr Q) as Hrun. destruct (_ || _) eqn:E; [by eapply call_done|].
    destruct (list_find _ _) as [[i p]|] eqn:Ef; [|eapply call_done; [done|by apply system_touch|done]].
    eapply call_done; [done| |done]. apply (system_procs s l (alter (set_prio v) i)); [done|rewrite length_alter; apply Q|].
    apply typed_alter; [done|]. intros p' _. split; [done|]. apply set_prio_typed. lia.
  - pose proof (kkill_run pid s tr Q) as Hrun.
    destruct (list_find _ _) as [[i p]|] eqn:Ef; [|eapply call_done; [done|by apply system_touch|done]].
    eapply call_done; [done| |done]. apply (system_procs s l (alter kill_proc i)); [done|rewrite length_alter; apply Q|].
    apply typed_alter; [done|]. intros p' _. split; [done|]. apply kill_typed.
  - rlast (runs_det _ _ _ _ _ (wakeup_run chan s tr Q)) as [-> ->]. split; [done|].
    apply (system_procs s l (fmap (wake chan))); [done|rewrite length_fmap; apply Q|].
    apply typed_fmap; [done|]. intros p. apply wake_typed.
  - eapply call_done; [by apply scan_run| |done]. apply (system_procs s l (fmap tick)); [done|rewrite length_fmap; apply Q|].
    apply typed_fmap; [done|]. intros p. apply tick_typed.
Qed.

(** C17. The process table keeps its type under any sequence of the calls that
    change it ([allocproc], [ksetpriority], [kkill], [wakeup], and the
    scheduler's scan with its aging), with arbitrary arguments: every call
    returns, priorities stay between 0 and 31, a slot has pid 0 exactly when
    it is unused and then owns no memory, and no two processes have the same
    pid, as long as the 31-bit pid counter does not run over. *)
Theorem table_ops_typed ops s l tr :
  system s l -> k_nextpid s + Z.of_nat (length ops) < 2 ^ 31 ->
  exists s' l', table_calls ops s tr = Done tt s' tr /\ system s' l'.
Proof.
  enough (Hr : forall s l, system s l -> k_nextpid s + Z.of_nat (length ops) < 2 ^ 31 ->
    runs (table_calls ops) s tr (fun _ s' => exists l', system s' l')).
  { intros Hs Hn. destruct (Hr s l Hs Hn) as ([] & s' & E & l' & ?). by exists s', l'. }
  induction ops as [|op ops IH]; intros s0 l0 Hs0 Hn0; cbn [table_calls length] in *; [apply runs_ret; by exists l0|].
  destruct (decide (op = OpAlloc)) as [->|Hop].
  - rstep (alloc_typed s0 l0 tr Hs0 ltac:(lia)) as (Hn1 & l1 & Hs1). apply (IH _ l1); [done|lia].
  - rstep (other_typed op s0 l0 tr Hop Hs0) as (Hn1 & Hs1). apply (IH _ l0); [done|lia].
Qed.
End Calls.

(** ** Witnesses: the table after [procinit], with four free pages *)
Definition demo_table : kstate :=
  demo_kmem <| k_procs := replicate NPROC (proc_bss <| p_priority := PRIORITY_DEFAULT |>) |> <| k_nextpid := 1 |>.

Lemma demo_system : @system demo_layout demo_table demo_free.
Proof.
  assert (Hslot : forall i p, k_procs demo_table !! i = Some p -> p = proc_bss <| p_priority := PRIORITY_DEFAULT |>).
  { intros i p Hp. by apply lookup_replicate in Hp as [-> _]. }
  split.
  - split; [exact boot_hart|reflexivity|reflexivity].
  - split; [exact boot_hart|reflexivity|exact demo_kmem_list].
  - reflexivity.
  - split; [|intros i j p q Hi _ _ Hp|reflexivity].
    + intros i p ->%Hslot. by split.
    + apply Hslot in Hi as ->. by destruct Hp.
Qed.


Lemma table_ops_typed_witness :
  exists s' l', @table_calls demo_layout [OpAlloc; OpSetPriority 1 3; OpKill 0; OpScan; OpWakeup None] demo_table [] =
    Done tt s' [] /\ @system demo_layout s' l'.
Proof.
  apply (@table_ops_typed demo_layout eq_refl ltac:(split; discriminate)
    [OpAlloc; OpSetPriority 1 3; OpKill 0; OpScan; OpWakeup None] demo_table demo_free []); [exact demo_system|reflexivity].
Defined.

(** A process with one user page, its trapframe at 0x80400000. *)
#[local] Opaque demo_user.
Definition demo_live : proc :=
  proc_bss <| p_state := ZOMBIE |> <| p_pid := 2 |> <| p_sz := 100 |> <| p_pagetable := demo_root |> <| p_trapframe := 0x80400000 |>.
Definition demo_exit : kstate := demo_user <| k_procs := replicate NPROC proc_bss |>.

Lemma demo_owned l : @vm_step demo_layout demo_root demo_kmem demo_free demo_user l ->
  @owns_memory demo_layout demo_live (k_mem demo_user) l.
Proof.
  intros Hst. destruct demo_user_ok as (_ & _ & Hval).
  assert (Hn : 0x80400000 ∉ demo_free) by (apply (bool_decide_unpack _); vm_compute; exact I).
  assert (Hc : 0 < PGSIZE /\ TRAPFRAME < MAXVA) by (split; reflexivity).
  split.
  - split; [split; [reflexivity|split; [discriminate|reflexivity]]|]. split.
    + intros Hin. apply Hn. destruct (vs_list _ _ _ _ _ Hst) as [k ->]. apply elem_of_app. by right.
    + intros Hin. apply Hn.
      pose proof (proj2 (step_tables demo_root demo_kmem demo_free demo_user l demo_root_zero Hst 0x80400000) (or_intror Hin)) as Hx.
      apply elem_of_cons in Hx as [Hx|Hx]; [discriminate Hx|exact Hx].
  - discriminate.
  - split; [discriminate|]. discriminate.
  - change (PGROUNDUP (p_sz demo_live)) with PGSIZE. by apply demo_space.
  - change (PGROUNDUP (p_sz demo_live)) with PGSIZE. intros (va & Hva & _ & E). unfold frame in E.
    change (p_pagetable demo_live) with demo_root in E.
    rewrite (Hval va ltac:(clear -Hva Hc; assert (PGSIZE < MAXVA) by done; lia)), decide_True in E by exact Hva. discriminate E.
  - change (PGROUNDUP (p_sz demo_live)) with PGSIZE. intros va Hva. unfold valid.
    change (p_pagetable demo_live) with demo_root. rewrite (Hval va ltac:(clear -Hva Hc; lia)), decide_False by (clear -Hva; lia). discriminate.
Qed.

Lemma new_table `{KernelLayout} s l : kmem_ready s l -> (forall i, k_locks s !! L_proc i = None) ->
  quiescent (s <| k_procs := replicate NPROC proc_bss |>) /\ kmem_ready (s <| k_procs := replicate NPROC proc_bss |>) l.
Proof. intros [H1 H2 H3] Hl. split; split; done. Qed.

Lemma freeproc_spec_witness :
  exists (l : list Z) m' f' l', @freeproc demo_layout 0 (in_slot 0 demo_exit (k_mem demo_user) (k_freelist demo_user) demo_live 3) [] =
      Done tt (in_slot 0 demo_exit m' f' (slot_cleared demo_live) 3) [] /\
    @kmem_ready demo_layout (in_slot 0 demo_exit m' f' (slot_cleared demo_live) 3) l' /\
    forall x, x ∈ l' <-> x ∈ l \/ x = 0x80400000 \/ is_frame (k_mem demo_user) demo_root (PGROUNDUP 100) x \/
      x ∈ tables 3 (k_mem demo_user) demo_root.
Proof.
  destruct demo_user_ok as (l & Hst & _). exists l.
  destruct (vm_frame_same _ _ (vs_frame _ _ _ _ _ Hst)) as (EL & _ & _).
  destruct (new_table demo_user l (vs_kmem _ _ _ _ _ Hst)) as [Hq Hk]; [intros i; rewrite EL; reflexivity|].
  apply (@freeproc_spec demo_layout eq_refl 0 demo_exit Hq ltac:(apply Nat.ltb_lt; reflexivity) demo_live 3
    (k_mem demo_user) (k_freelist demo_user) l []); [|exact (demo_owned l Hst)].
  exact (enter_kmem 0 demo_exit demo_live 3 l Hk).
Defined.
