(* ===== verification/Asm.v ===== *)
(** * The assembly of the kernel (swtch.S, trampoline.S, kernelvec.S, entry.S)
      and machine-mode start-up (start.c)

    A hart is its registers, its control registers and the memory, seen
    through the page table that satp names.  The instructions the four files
    use are an inductive type with an interpreter, and each routine is its list
    of instructions, line by line.  Fetching the instructions is not modelled:
    a routine is where its label is, and a label used as a value is an argument
    of the definition.  The interpreter gives [None] where the hart would
    take a page fault.  start.c is written in the monad of the kernel over
    the same hart. *)

From stdpp Require Import prelude list.
From Stdlib Require Import ZArith Lia ZifyBool.
From S2P Require Import Prelude State CString Vm.
Local Open Scope Z_scope.

(** ** The hart *)
Module Hart.

Inductive reg :=
  | ra | sp | gp | tp | t0 | t1 | t2 | s0 | s1
  | a0 | a1 | a2 | a3 | a4 | a5 | a6 | a7
  | s2 | s3 | s4 | s5 | s6 | s7 | s8 | s9 | s10 | s11
  | t3 | t4 | t5 | t6.

Inductive csreg :=
  | mhartid | mstatus | mepc | medeleg | mideleg | pmpaddr0 | pmpcfg0
  | menvcfg | mcounteren | time
  | sstatus | sie | sepc | sscratch | satp | stimecmp.

Inductive priv := U_mode | S_mode | M_mode.

#[export] Instance reg_eq_dec : EqDecision reg.
Proof. solve_decision. Defined.
#[export] Instance csreg_eq_dec : EqDecision csreg.
Proof. solve_decision. Defined.

Record hart := mkhart {
  h_reg : reg -> Z;
  h_csr : csreg -> Z;
  h_mem : Z -> Z;
  h_pc : Z;
  h_priv : priv }.

#[export] Instance eta_hart : Eta hart := fun h =>
  mkhart (h_reg h) (h_csr h) (h_mem h) (h_pc h) (h_priv h).

(** [f] with [v] at [k]. *)
Definition upd {K} `{EqDecision K} (k : K) (v : Z) (f : K -> Z) : K -> Z :=
  fun k' => if decide (k' = k) then v else f k'.

Definition set_reg (r : reg) (v : Z) (h : hart) : hart := h <| h_reg ::= upd r v |>.
Definition set_csr (c : csreg) (v : Z) (h : hart) : hart := h <| h_csr ::= upd c v |>.

(** *** Address translation
    With satp 0 addresses are physical.  Otherwise the page table whose page
    number satp holds gives the page of an aligned supervisor access: its leaf
    entry is valid, allows the access, and is not a user page.  xv6 makes no
    large pages. *)
Definition SATP2PT (v : Z) : Z := Z.shiftl (Z.land v (Z.ones 44)) 12.

Definition translate (h : hart) (write : bool) (va : Z) : option Z :=
  if negb (va mod 8 =? 0) then None else
  if h_csr h satp =? 0 then Some va else
  if MAXVA <=? va then None else
  let e := pte_val (h_mem h) (SATP2PT (h_csr h satp)) va in
  if has e PTE_V && has e (if write then PTE_W else PTE_R) && negb (has e PTE_U)
  then Some (PTE2PA e + va mod PGSIZE) else None.

(** *** Instructions *)
Inductive instr :=
  | sd (rs : reg) (off : Z) (base : reg)
  | ld (rd : reg) (off : Z) (base : reg)
  | li (rd : reg) (imm : Z)
  | addi (rd rs : reg) (imm : Z)
  | add (rd r1 r2 : reg)
  | mul (rd r1 r2 : reg)
  | csrw (c : csreg) (rs : reg)
  | csrr (rd : reg) (c : csreg)
  | sfence_vma
  | fence_i
  | jalr (rs : reg) (link : Z)
  | call (target link : Z)
  | ret
  | sret.

Definition SPP (v : Z) : priv := if has v (Z.shiftl 1 8) then S_mode else U_mode.

(** sret: SIE gets SPIE, SPIE is set and SPP cleared. *)
Definition sret_status (v : Z) : Z :=
  let v' := Z.ldiff v (Z.lor (Z.shiftl 1 1) (Z.shiftl 1 8)) in
  Z.lor (Z.lor v' (if has v (Z.shiftl 1 5) then Z.shiftl 1 1 else 0)) (Z.shiftl 1 5).

(** The link of [jalr] and [call] is the address of the instruction after. *)
Definition exec (i : instr) (h : hart) : option hart :=
  let x := h_reg h in
  match i with
  | sd rs off base =>
      match translate h true (u64 (x base + off)) with
      | Some pa => Some (h <| h_mem ::= fun m => store64 m pa (x rs) |>)
      | None => None
      end
  | ld rd off base =>
      match translate h false (u64 (x base + off)) with
      | Some pa => Some (set_reg rd (load64 (h_mem h) pa) h)
      | None => None
      end
  | li rd imm => Some (set_reg rd (u64 imm) h)
  | addi rd rs imm => Some (set_reg rd (u64 (x rs + imm)) h)
  | add rd r1 r2 => Some (set_reg rd (u64 (x r1 + x r2)) h)
  | mul rd r1 r2 => Some (set_reg rd (u64 (x r1 * x r2)) h)
  | csrw c rs => Some (set_csr c (x rs) h)
  | csrr rd c => Some (set_reg rd (h_csr h c) h)
  | sfence_vma | fence_i => Some h
  | jalr rs link => Some (set_reg ra link h <| h_pc := x rs |>)
  | call target link => Some (set_reg ra link h <| h_pc := target |>)
  | ret => Some (h <| h_pc := x ra |>)
  | sret => Some (set_csr sstatus (sret_status (h_csr h sstatus)) h
                    <| h_pc := h_csr h sepc |> <| h_priv := SPP (h_csr h sstatus) |>)
  end.

Fixpoint run (p : list instr) (h : hart) : option hart :=
  match p with
  | [] => Some h
  | i :: p' => match exec i h with Some h' => run p' h' | None => None end
  end.

End Hart.
Export Hart.

(** ** swtch.S *)
Definition swtch : list instr := [
  sd ra 0 a0; sd sp 8 a0;
  sd s0 16 a0; sd s1 24 a0; sd s2 32 a0; sd s3 40 a0; sd s4 48 a0; sd s5 56 a0;
  sd s6 64 a0; sd s7 72 a0; sd s8 80 a0; sd s9 88 a0; sd s10 96 a0; sd s11 104 a0;

  ld ra 0 a1; ld sp 8 a1;
  ld s0 16 a1; ld s1 24 a1; ld s2 32 a1; ld s3 40 a1; ld s4 48 a1; ld s5 56 a1;
  ld s6 64 a1; ld s7 72 a1; ld s8 80 a1; ld s9 88 a1; ld s10 96 a1; ld s11 104 a1;

  ret ].

(** The fields of [struct context], by the register they hold. *)
Definition context_fields : list (reg * Z) := [
  (ra, 0); (sp, 8);
  (s0, 16); (s1, 24); (s2, 32); (s3, 40); (s4, 48); (s5, 56);
  (s6, 64); (s7, 72); (s8, 80); (s9, 88); (s10, 96); (s11, 104) ].

(** ** trampoline.S *)
Definition uservec (userret_addr : Z) : list instr := [
  csrw sscratch a0;
  li a0 TRAPFRAME;

  sd ra 40 a0; sd sp 48 a0; sd gp 56 a0; sd tp 64 a0;
  sd t0 72 a0; sd t1 80 a0; sd t2 88 a0; sd s0 96 a0; sd s1 104 a0;
  sd a1 120 a0; sd a2 128 a0; sd a3 136 a0; sd a4 144 a0; sd a5 152 a0; sd a6 160 a0; sd a7 168 a0;
  sd s2 176 a0; sd s3 184 a0; sd s4 192 a0; sd s5 200 a0; sd s6 208 a0; sd s7 216 a0;
  sd s8 224 a0; sd s9 232 a0; sd s10 240 a0; sd s11 248 a0;
  sd t3 256 a0; sd t4 264 a0; sd t5 272 a0; sd t6 280 a0;

  csrr t0 sscratch;
  sd t0 112 a0;

  ld sp 8 a0;
  ld tp 32 a0;
  ld t0 16 a0;
  ld t1 0 a0;
  sfence_vma;
  csrw satp t1;
  sfence_vma;
  jalr t0 userret_addr ].

Definition userret : list instr := [
  fence_i;
  sfence_vma;
  csrw satp a0;
  sfence_vma;

  li a0 TRAPFRAME;

  ld ra 40 a0; ld sp 48 a0; ld gp 56 a0; ld tp 64 a0;
  ld t0 72 a0; ld t1 80 a0; ld t2 88 a0; ld s0 96 a0; ld s1 104 a0;
  ld a1 120 a0; ld a2 128 a0; ld a3 136 a0; ld a4 144 a0; ld a5 152 a0; ld a6 160 a0; ld a7 168 a0;
  ld s2 176 a0; ld s3 184 a0; ld s4 192 a0; ld s5 200 a0; ld s6 208 a0; ld s7 216 a0;
  ld s8 224 a0; ld s9 232 a0; ld s10 240 a0; ld s11 248 a0;
  ld t3 256 a0; ld t4 264 a0; ld t5 272 a0; ld t6 280 a0;

  ld a0 112 a0;
  sret ].

(** The user registers in [struct trapframe]. *)
Definition trapframe_reg (r : reg) : Z :=
  match r with
  | ra => 40 | sp => 48 | gp => 56 | tp => 64 | t0 => 72 | t1 => 80 | t2 => 88
  | s0 => 96 | s1 => 104 | a0 => 112 | a1 => 120 | a2 => 128 | a3 => 136
  | a4 => 144 | a5 => 152 | a6 => 160 | a7 => 168 | s2 => 176 | s3 => 184
  | s4 => 192 | s5 => 200 | s6 => 208 | s7 => 216 | s8 => 224 | s9 => 232
  | s10 => 240 | s11 => 248 | t3 => 256 | t4 => 264 | t5 => 272 | t6 => 280
  end.

(** ** kernelvec.S *)
Definition kernelvec_entry (kerneltrap_addr link : Z) : list instr := [
  addi sp sp (-256);

  sd ra 0 sp; sd gp 16 sp;
  sd t0 32 sp; sd t1 40 sp; sd t2 48 sp;
  sd a0 72 sp; sd a1 80 sp; sd a2 88 sp; sd a3 96 sp;
  sd a4 104 sp; sd a5 112 sp; sd a6 120 sp; sd a7 128 sp;
  sd t3 216 sp; sd t4 224 sp; sd t5 232 sp; sd t6 240 sp;

  call kerneltrap_addr link ].

Definition kernelvec_return : list instr := [
  ld ra 0 sp; ld gp 16 sp;
  ld t0 32 sp; ld t1 40 sp; ld t2 48 sp;
  ld a0 72 sp; ld a1 80 sp; ld a2 88 sp; ld a3 96 sp;
  ld a4 104 sp; ld a5 112 sp; ld a6 120 sp; ld a7 128 sp;
  ld t3 216 sp; ld t4 224 sp; ld t5 232 sp; ld t6 240 sp;

  addi sp sp 256;
  sret ].

(** The whole vector: [kerneltrap] runs where it is called. *)
Definition kernelvec (kerneltrap_addr link : Z) (kerneltrap : hart -> option hart)
    (h : hart) : option hart :=
  match run (kernelvec_entry kerneltrap_addr link) h with
  | Some h1 =>
      match kerneltrap h1 with
      | Some h2 => run kernelvec_return h2
      | None => None
      end
  | None => None
  end.

(** ** entry.S *)
Definition _entry (stack0 start_addr spin : Z) : list instr := [
  li sp stack0;
  li a0 (1024 * 4);
  csrr a1 mhartid;
  addi a1 a1 1;
  mul a0 a0 a1;
  add sp sp a0;
  call start_addr spin ].

(** ** start.c *)
Definition MSTATUS_MPP_MASK : Z := Z.shiftl 3 11.
Definition MSTATUS_MPP_S : Z := Z.shiftl 1 11.
Definition SIE_SEIE : Z := Z.shiftl 1 9.
Definition SIE_STIE : Z := Z.shiftl 1 5.
Definition MENVCFG_STCE : Z := Z.shiftl 1 63.
Definition MENVCFG_ADUE : Z := Z.shiftl 1 61.

Definition HK := K hart.

Definition r_csr (c : csreg) : HK Z := gets (fun h => h_csr h c).
Definition w_csr (c : csreg) (x : Z) : HK unit := modify (set_csr c (u64 x)).

Definition MPP (v : Z) : priv :=
  match Z.land (Z.shiftr v 11) 3 with 0 => U_mode | 1 => S_mode | _ => M_mode end.

(** mret: MIE gets MPIE, MPIE is set and MPP becomes user mode. *)
Definition mret_status (v : Z) : Z :=
  let v' := Z.ldiff v (Z.lor (Z.shiftl 1 3) (Z.shiftl 3 11)) in
  Z.lor (Z.lor v' (if has v (Z.shiftl 1 7) then Z.shiftl 1 3 else 0)) (Z.shiftl 1 7).

Definition mret : HK unit :=
  modify (fun h => set_csr mstatus (mret_status (h_csr h mstatus)) h
                     <| h_pc := h_csr h mepc |> <| h_priv := MPP (h_csr h mstatus) |>).

Definition timerinit : HK unit :=
  let! x := r_csr menvcfg in
  w_csr menvcfg (Z.lor x MENVCFG_STCE) ;;
  let! x := r_csr mcounteren in
  w_csr mcounteren (Z.lor x 2) ;;
  let! now := r_csr time in
  w_csr stimecmp (now + 1000000).

Definition start (main_addr : Z) : HK unit :=
  let! x := r_csr mstatus in
  let x := Z.land x (Z.lnot MSTATUS_MPP_MASK) in
  let x := Z.lor x MSTATUS_MPP_S in
  w_csr mstatus x ;;
  w_csr mepc main_addr ;;
  w_csr satp 0 ;;
  w_csr medeleg 0xffff ;;
  w_csr mideleg 0xffff ;;
  let! x := r_csr sie in
  w_csr sie (Z.lor (Z.lor x SIE_SEIE) SIE_STIE) ;;
  w_csr pmpaddr0 0x3fffffffffffff ;;
  w_csr pmpcfg0 0xf ;;
  let! x := r_csr menvcfg in
  w_csr menvcfg (Z.lor x MENVCFG_ADUE) ;;
  timerinit ;;
  let! id := r_csr mhartid in
  modify (set_reg tp (u64 (i32 id))) ;;
  mret.
