(* ===== verification/AsmSpec.v ===== *)
(** * What the assembly does: context switches and traps

    The routines are runs of stores and loads off one base register, so each
    proof is two or three applications of [run_saves] and [run_loads].  [frame]
    is the one assumption about memory: a block of virtual addresses that the
    page table maps to a block of physical memory that holds no page table. *)

From stdpp Require Import prelude list.
From Stdlib Require Import ZArith Lia ZifyBool.
From S2P Require Import Prelude State Spinlock CString Kalloc Proc Vm ProcLife VmFree Asm.
Local Open Scope Z_scope.

(** ** Bits *)
Lemma has_testbit v k : 0 <= k -> has v (Z.shiftl 1 k) = Z.testbit v k.
Proof.
  intros Hk. unfold has. destruct (Z.testbit v k) eqn:E.
  - apply negb_true_iff, Z.eqb_neq. intros E0.
    assert (Ht : Z.testbit (Z.land v (Z.shiftl 1 k)) k = false) by (by rewrite E0, Z.bits_0).
    rewrite Z.land_spec, E, Z.shiftl_spec, Z.sub_diag in Ht by lia. done.
  - apply negb_false_iff, Z.eqb_eq, Z.bits_inj'. intros n Hn. rewrite Z.land_spec, Z.bits_0, Z.shiftl_1_l, Z.pow2_bits_eqb by done.
    destruct (Z.eqb_spec k n) as [<-|]; [by rewrite E|apply andb_false_r].
Qed.

(** The flags of an entry [mappages] writes. *)
Lemma has_leaf pa perm k : 0 <= k < 10 ->
  has (leaf_pte pa perm) (Z.shiftl 1 k) = Z.testbit (Z.lor perm PTE_V) k.
Proof.
  intros Hk. rewrite has_testbit by lia. unfold leaf_pte, PA2PTE.
  rewrite !Z.lor_spec, Z.shiftl_spec_low by lia. done.
Qed.

(** ** The hart's update functions *)
Lemma upd_eq `{EqDecision A} (k : A) v f : upd k v f k = v.
Proof. unfold upd. by rewrite decide_True. Qed.

Lemma upd_ne `{EqDecision A} (k k' : A) v f : k' <> k -> upd k v f k' = f k'.
Proof. intros. unfold upd. by rewrite decide_False. Qed.

Lemma run_app p q h :
  run (p ++ q) h = match run p h with Some h' => run q h' | None => None end.
Proof. revert h. induction p as [|i p IH]; intros h; [done|]. cbn. destruct (exec i h); [apply IH|done]. Qed.

(** ** Frames *)
(** [clear_of h pa n]: no page table that satp reaches lies in [n] bytes at [pa]. *)
Definition clear_of (h : hart) (pa n : Z) : Prop :=
  h_csr h satp = 0 \/
  forall p t, Forall index p -> (length p <= 2)%nat ->
    tbl (h_mem h) (SATP2PT (h_csr h satp)) p = Some t -> t + PGSIZE <= pa \/ pa + n <= t.

Definition slot (n o : Z) : Prop := 0 <= o /\ o + 8 <= n /\ o mod 8 = 0.

Record frame (h : hart) (va pa n : Z) : Prop := {
  fr_range : 0 <= va /\ va + n <= 2 ^ 64;
  fr_maps : forall w o, slot n o -> translate h w (va + o) = Some (pa + o);
  fr_clear : clear_of h pa n }.

Lemma translate_ext h h' w va :
  h_csr h' satp = h_csr h satp ->
  (h_csr h satp <> 0 -> off_tables (h_mem h) (SATP2PT (h_csr h satp)) (h_mem h')) ->
  translate h' w va = translate h w va.
Proof.
  intros Hs Hm. unfold translate. rewrite Hs. destruct (negb _); [done|].
  destruct (Z.eqb_spec (h_csr h satp) 0); [done|]. by rewrite (pte_val_ext (h_mem h)) by auto.
Qed.

Lemma clear_off h pa n m' :
  clear_of h pa n -> h_csr h satp <> 0 -> (forall x, ~ (pa <= x < pa + n) -> m' x = h_mem h x) ->
  off_tables (h_mem h) (SATP2PT (h_csr h satp)) m'.
Proof.
  intros [?|Hc] Hs Hm; [done|]. intros p t b Hp Hl Ht Hb. apply Hm.
  destruct (Hc p t Hp Hl Ht); lia.
Qed.

(** A frame survives writes to memory that holds no page table. *)
Lemma frame_keep h h' va pa n pa' n' :
  frame h va pa n -> clear_of h pa' n' -> h_csr h' satp = h_csr h satp ->
  (forall x, ~ (pa' <= x < pa' + n') -> h_mem h' x = h_mem h x) ->
  frame h' va pa n.
Proof.
  intros [Hr Hmap Hc] Hc' Hs Hm.
  assert (Hoff : h_csr h satp <> 0 -> off_tables (h_mem h) (SATP2PT (h_csr h satp)) (h_mem h'))
    by (intros; by apply (clear_off h pa' n')).
  split; [done| |].
  - intros w o Ho. rewrite (translate_ext h) by done. by apply Hmap.
  - unfold clear_of. rewrite Hs. destruct Hc as [?|Hc]; [by left|].
    destruct (decide (h_csr h satp = 0)) as [?|Hne]; [by left|right].
    intros p t Hp Hl. rewrite (tbl_ext (h_mem h)) by (auto || lia). by apply Hc.
Qed.

Lemma frame_ext h h' va pa n :
  frame h va pa n -> h_csr h' satp = h_csr h satp ->
  (forall x, ~ (pa <= x < pa + n) -> h_mem h' x = h_mem h x) ->
  frame h' va pa n.
Proof. intros Hf. by apply (frame_keep h _ _ _ _ pa n); [|apply Hf]. Qed.

(** ** Runs of stores and loads *)
Definition saves (b : reg) (l : list (reg * Z)) : list instr := map (fun p => sd p.1 p.2 b) l.
Definition loads (b : reg) (l : list (reg * Z)) : list instr := map (fun p => ld p.1 p.2 b) l.

Definition store_regs (x : reg -> Z) (pa : Z) (l : list (reg * Z)) (m : Z -> Z) : Z -> Z :=
  foldl (fun m p => store64 m (pa + p.2) (x p.1)) m l.
Definition load_regs (m : Z -> Z) (pa : Z) (l : list (reg * Z)) (x : reg -> Z) : reg -> Z :=
  foldl (fun x p => upd p.1 (load64 m (pa + p.2)) x) x l.

Lemma store_regs_out x pa l m a :
  Forall (fun o => ~ (pa + o <= a < pa + o + 8)) l.*2 -> store_regs x pa l m a = m a.
Proof.
  intros Hl. revert m. induction l as [|[r o] l IH]; intros m; [done|]. cbn in *.
  inversion Hl as [|?? Ho Hl']; subst. unfold store_regs in IH. rewrite IH by done.
  by apply store64_other.
Qed.

Lemma store_regs_other x pa n l m a :
  Forall (slot n) l.*2 -> ~ (pa <= a < pa + n) -> store_regs x pa l m a = m a.
Proof.
  intros Hl Ha. apply store_regs_out. eapply Forall_impl; [exact Hl|].
  intros o (? & ? & _). lia.
Qed.

Lemma store_regs_skip x pa l m o :
  o mod 8 = 0 -> Forall (fun o' => o' mod 8 = 0) l.*2 -> o ∉ l.*2 ->
  load64 (store_regs x pa l m) (pa + o) = load64 m (pa + o).
Proof.
  intros Ho Hl. revert m. induction l as [|[r o'] l IH]; intros m Hin; [done|]. cbn in *.
  inversion Hl as [|?? Ho' Hl']; subst. apply not_elem_of_cons in Hin as [Hne Hin].
  unfold store_regs in IH. rewrite IH by done. apply load64_store64_ne.
  revert Hne Ho Ho'. Z.to_euclidean_division_equations. lia.
Qed.

Lemma store_regs_in x pa l m r o :
  Forall (fun o' => o' mod 8 = 0) l.*2 -> NoDup l.*2 -> (r, o) ∈ l -> 0 <= x r < 2 ^ 64 ->
  load64 (store_regs x pa l m) (pa + o) = x r.
Proof.
  intros Hl Hnd Hin Hx. revert m. induction l as [|[r' o'] l IH]; intros m; [by apply elem_of_nil in Hin|].
  cbn in *. inversion Hl as [|?? Ho' Hl']; subst. apply NoDup_cons in Hnd as [Hni Hnd].
  apply elem_of_cons in Hin as [[= <- <-]|Hin]; [|by apply IH].
  pose proof (store_regs_skip x pa l (store64 m (pa + o) (x r)) o Ho' Hl' Hni) as E.
  unfold store_regs in E. rewrite E. by apply load64_store64.
Qed.

Lemma load_regs_other m pa l x r : r ∉ l.*1 -> load_regs m pa l x r = x r.
Proof.
  revert x. induction l as [|[r' o] l IH]; intros x Hr; [done|]. cbn in *.
  apply not_elem_of_cons in Hr as [? ?]. unfold load_regs in IH. rewrite IH by done. by apply upd_ne.
Qed.

Lemma load_regs_in m pa l x r o :
  NoDup l.*1 -> (r, o) ∈ l -> load_regs m pa l x r = load64 m (pa + o).
Proof.
  intros Hnd Hin. revert x. induction l as [|[r' o'] l IH]; intros x; [by apply elem_of_nil in Hin|].
  cbn in *. apply NoDup_cons in Hnd as [Hni Hnd].
  apply elem_of_cons in Hin as [[= <- <-]|Hin]; [|by apply IH].
  pose proof (load_regs_other m pa l (upd r (load64 m (pa + o)) x) r Hni) as E.
  unfold load_regs in E. rewrite E. apply upd_eq.
Qed.

Arguments store_regs : simpl never.
Arguments load_regs : simpl never.

Section Moves.
Context (b : reg) (pa n : Z).

Lemma exec_sd h r o :
  frame h (h_reg h b) pa n -> slot n o ->
  exec (sd r o b) h = Some (h <| h_mem := store64 (h_mem h) (pa + o) (h_reg h r) |>).
Proof.
  intros [Hr Hmap _] Ho. unfold exec, u64. rewrite Z.mod_small by (unfold slot in Ho; lia).
  by rewrite Hmap.
Qed.

Lemma exec_ld h r o :
  frame h (h_reg h b) pa n -> slot n o ->
  exec (ld r o b) h = Some (set_reg r (load64 (h_mem h) (pa + o)) h).
Proof.
  intros [Hr Hmap _] Ho. unfold exec, u64. rewrite Z.mod_small by (unfold slot in Ho; lia).
  by rewrite Hmap.
Qed.

Lemma run_saves l h :
  frame h (h_reg h b) pa n -> Forall (slot n) l.*2 ->
  run (saves b l) h = Some (h <| h_mem := store_regs (h_reg h) pa l (h_mem h) |>).
Proof.
  intros Hf Hl. revert h Hf. induction l as [|[r o] l IH]; intros h Hf; [by destruct h|].
  inversion Hl as [|?? Ho Hl']; subst. cbn [saves map run]. rewrite exec_sd by done. cbn [fst snd].
  fold (saves b l). rewrite IH; [done|done|].
  apply (frame_ext h); [done|done|]. intros x Hx. apply store64_other. unfold slot in Ho. lia.
Qed.

Lemma run_loads l h :
  frame h (h_reg h b) pa n -> Forall (slot n) l.*2 -> b ∉ l.*1 ->
  run (loads b l) h = Some (h <| h_reg := load_regs (h_mem h) pa l (h_reg h) |>).
Proof.
  intros Hf Hl Hb. revert h Hf. induction l as [|[r o] l IH]; intros h Hf; [by destruct h|].
  inversion Hl as [|?? Ho Hl']; subst. cbn in Hb. apply not_elem_of_cons in Hb as [Hne Hb].
  cbn [loads map run]. rewrite exec_ld by done. cbn [fst snd]. fold (loads b l). rewrite IH; [done|done|done|].
  unfold set_reg. cbn. rewrite upd_ne by done. by apply (frame_ext h).
Qed.
End Moves.


(** Side conditions on the concrete layouts. *)
Lemma slots_aligned n (l : list (reg * Z)) :
  Forall (slot n) l.*2 -> Forall (fun o => o mod 8 = 0) l.*2.
Proof. intros Hl. eapply Forall_impl; [exact Hl|]. by intros o (_ & _ & Ho). Qed.

Lemma slot_in n (l : list (reg * Z)) r o : Forall (slot n) l.*2 -> (r, o) ∈ l -> slot n o.
Proof. rewrite Forall_fmap, Forall_forall. intros Hs Hin. apply (Hs _ Hin). Qed.

Ltac slots := cbn; repeat first [apply Forall_nil_2 | apply Forall_cons_2; [split; [lia|split; [lia|reflexivity]]|]].
Ltac distinct := apply (bool_decide_unpack _); vm_compute; exact I.

(** ** swtch *)
Lemma context_slots : Forall (slot 112) context_fields.*2.
Proof. slots. Qed.

Lemma context_nodup : NoDup context_fields.*1 /\ NoDup context_fields.*2.
Proof. split; distinct. Qed.

Lemma swtch_run h po pn :
  frame h (h_reg h a0) po 112 -> frame h (h_reg h a1) pn 112 ->
  let m := store_regs (h_reg h) po context_fields (h_mem h) in
  let x := load_regs m pn context_fields (h_reg h) in
  run swtch h = Some (h <| h_mem := m |> <| h_reg := x |> <| h_pc := x ra |>).
Proof.
  intros Ho Hn m x. change swtch with (saves a0 context_fields ++ loads a1 context_fields ++ [ret]).
  rewrite run_app, (run_saves a0 po 112) by (done || apply context_slots). fold m.
  rewrite run_app, (run_loads a1 pn 112); [done| |apply context_slots|by distinct].
  apply (frame_keep h _ _ _ _ po 112); [done|apply Ho|done|].
  intros; by apply (store_regs_other _ _ 112); [apply context_slots|].
Qed.

(** The registers a C function keeps for its caller, with the return address
    and the stack pointer: the fields of [struct context]. *)
Definition switched (r : reg) : Prop := r ∈ context_fields.*1.
#[local] Instance switched_dec r : Decision (switched r) := _.

(** What a call of [swtch] does: the context at [po] gets the caller's
    registers and the hart gets the ones at [pn]. *)
Record switch (h h' : hart) (po pn : Z) : Prop := {
  sw_saved : forall r o, (r, o) ∈ context_fields -> load64 (h_mem h') (po + o) = h_reg h r;
  sw_loaded : forall r o, (r, o) ∈ context_fields -> h_reg h' r = load64 (h_mem h) (pn + o);
  sw_pc : h_pc h' = load64 (h_mem h) pn;
  sw_regs : forall r, ~ switched r -> h_reg h' r = h_reg h r;
  sw_mem : forall x, ~ (po <= x < po + 112) -> h_mem h' x = h_mem h x;
  sw_csr : h_csr h' = h_csr h /\ h_priv h' = h_priv h }.

Lemma swtch_switch h po pn :
  (forall r, 0 <= h_reg h r < 2 ^ 64) ->
  frame h (h_reg h a0) po 112 -> frame h (h_reg h a1) pn 112 ->
  po + 112 <= pn \/ pn + 112 <= po ->
  exists h', run swtch h = Some h' /\ switch h h' po pn.
Proof.
  intros Hx Ho Hn Hd. eexists. split; [by apply (swtch_run h po pn)|].
  set (m := store_regs _ _ _ _).
  assert (Hm : forall x, ~ (po <= x < po + 112) -> m x = h_mem h x)
    by (intros; by apply (store_regs_other _ _ 112); [apply context_slots|]).
  assert (Hl : forall r o, (r, o) ∈ context_fields ->
    load_regs m pn context_fields (h_reg h) r = load64 (h_mem h) (pn + o)).
  { intros r o Hin. rewrite (load_regs_in _ _ _ _ r o); [|apply context_nodup|done].
    apply load64_ext. intros x Hxx. apply Hm.
    destruct (slot_in _ _ r o context_slots Hin) as (? & ? & _). lia. }
  split; cbn.
  - intros r o Hin. apply store_regs_in; [apply (slots_aligned 112), context_slots|apply context_nodup|done..].
  - exact Hl.
  - rewrite (Hl ra 0) by left. by rewrite Z.add_0_r.
  - intros r Hr. by apply load_regs_other.
  - exact Hm.
  - done.
Qed.

(** C10. A thread that gives up the processor is resumed where it was.  [swtch]
    terminates, stores the caller's return address, stack pointer and twelve
    callee-saved registers in the old context and nothing else in memory, and
    continues the new thread with the fourteen words of its context in those
    registers.  When any hart later calls [swtch] with a context that still
    holds the stored words, that call returns to the caller of the first: the
    program counter is its return address, and its stack pointer and
    callee-saved registers are what they were. *)
Theorem swtch_resumes h po pn :
  (forall r, 0 <= h_reg h r < 2 ^ 64) ->
  frame h (h_reg h a0) po 112 -> frame h (h_reg h a1) pn 112 ->
  po + 112 <= pn \/ pn + 112 <= po ->
  exists h1, run swtch h = Some h1 /\ switch h h1 po pn /\
    forall h2 po2,
      (forall r, 0 <= h_reg h2 r < 2 ^ 64) ->
      frame h2 (h_reg h2 a0) po2 112 -> frame h2 (h_reg h2 a1) po 112 ->
      po2 + 112 <= po \/ po + 112 <= po2 ->
      (forall x, po <= x < po + 112 -> h_mem h2 x = h_mem h1 x) ->
      exists h3, run swtch h2 = Some h3 /\ switch h2 h3 po2 po /\
        h_pc h3 = h_reg h ra /\ forall r, switched r -> h_reg h3 r = h_reg h r.
Proof.
  intros Hx Ho Hn Hd. destruct (swtch_switch h po pn) as (h1 & Hrun & Hsw); [done..|].
  exists h1. split; [done|]. split; [done|]. intros h2 po2 Hx2 Ho2 Hn2 Hd2 Hm.
  destruct (swtch_switch h2 po2 po) as (h3 & Hrun3 & Hsw3); [done..|].
  assert (Hback : forall r o, (r, o) ∈ context_fields -> load64 (h_mem h2) (po + o) = h_reg h r).
  { intros r o Hin. rewrite <- (sw_saved _ _ _ _ Hsw r o Hin). apply load64_ext. intros x Hxx. apply Hm.
    destruct (slot_in _ _ r o context_slots Hin) as (? & ? & _). lia. }
  exists h3. split; [done|]. split; [done|]. split.
  - rewrite (sw_pc _ _ _ _ Hsw3), <- (Hback ra 0) by left. by rewrite Z.add_0_r.
  - intros r ((r' & o) & -> & Hin)%list_elem_of_fmap. cbn. by rewrite (sw_loaded _ _ _ _ Hsw3 r' o), (Hback r' o).
Qed.

(** ** uservec and userret *)
(** The registers [uservec] stores off a0: all but a0 itself. *)
Definition user_fields : list (reg * Z) :=
  (fun r => (r, trapframe_reg r)) <$>
    [ra; sp; gp; tp; t0; t1; t2; s0; s1; a1; a2; a3; a4; a5; a6; a7;
     s2; s3; s4; s5; s6; s7; s8; s9; s10; s11; t3; t4; t5; t6].

Lemma user_slots : Forall (slot PGSIZE) user_fields.*2.
Proof. unfold PGSIZE. slots. Qed.

Lemma user_nodup : NoDup user_fields.*1 /\ NoDup user_fields.*2.
Proof. split; distinct. Qed.

Lemma user_field r : r <> a0 -> (r, trapframe_reg r) ∈ user_fields.
Proof. intros Hr. apply list_elem_of_fmap. exists r. split; [done|]. apply (bool_decide_unpack _). destruct r; first [exact I|congruence]. Qed.

Lemma trapframe_slot r : slot PGSIZE (trapframe_reg r) /\ 40 <= trapframe_reg r <= 280.
Proof. unfold slot, PGSIZE. destruct r; cbn; repeat split; (reflexivity || lia). Qed.

Lemma SATP2PT_MAKE pt : pt mod PGSIZE = 0 -> 0 <= pt < 2 ^ 56 -> SATP2PT (MAKE_SATP pt) = pt.
Proof.
  intros Hp Hr. unfold SATP2PT, MAKE_SATP. rewrite Z.land_lor_distr_l, !Z.land_ones by lia.
  replace (Z.shiftl 8 60 mod 2 ^ 44) with 0 by done. rewrite Z.lor_0_l.
  rewrite Z.shiftr_div_pow2, Z.shiftl_mul_pow2 by lia. change (2 ^ 12) with PGSIZE.
  assert (Hq : pt = PGSIZE * (pt / PGSIZE)) by (pose proof (Z_div_mod_eq_full pt PGSIZE); lia).
  unfold PGSIZE in *. rewrite Z.mod_small; lia.
Qed.

Lemma MAKE_SATP_nz pt : 0 <= pt -> MAKE_SATP pt <> 0.
Proof.
  intros Hp E. assert (Hb : Z.testbit (MAKE_SATP pt) 63 = false) by (by rewrite E).
  unfold MAKE_SATP in Hb. rewrite Z.lor_spec in Hb. by cbn in Hb.
Qed.

(** The user page table [pt] maps [TRAPFRAME], for the supervisor to read and
    write, to the page [tf]; [tf] is not one of its tables. *)
Record trapframe_at (m : Z -> Z) (pt tf : Z) : Prop := {
  ta_pt : pt mod PGSIZE = 0 /\ 0 <= pt < 2 ^ 56;
  ta_page : PTE2PA (pte_val m pt TRAPFRAME) = tf;
  ta_flags : has (pte_val m pt TRAPFRAME) PTE_V = true /\ has (pte_val m pt TRAPFRAME) PTE_R = true /\
    has (pte_val m pt TRAPFRAME) PTE_W = true /\ has (pte_val m pt TRAPFRAME) PTE_U = false;
  ta_clear : forall p t, Forall index p -> (length p <= 2)%nat -> tbl m pt p = Some t ->
    t + PGSIZE <= tf \/ tf + PGSIZE <= t }.

(** The page table [proc_pagetable] makes is one. *)
Lemma process_trapframe `{KernelLayout} (Hend : 0 < kernel_end) m pt tf l :
  pt_ok m pt l -> page_ok tf -> tf ∉ tables 3 m pt ->
  pte_val m pt TRAPFRAME = process_pte tf TRAPFRAME -> trapframe_at m pt tf.
Proof.
  intros Hok Htf Hnt Hv. assert (HP : PHYSTOP < 2 ^ 56) by done.
  assert (Hpt : page_ok pt) by (by apply (pt_page _ _ _ Hok [] pt); [|cbn; lia|]).
  assert (Hlt : TRAPFRAME < TRAMPOLINE) by done.
  unfold process_pte in Hv. rewrite decide_False, decide_True in Hv by lia.
  split.
  - pose proof (page_ok_pos Hend pt Hpt). destruct Hpt. split; [done|]. lia.
  - rewrite Hv. apply leaf_pte_spec; [apply Htf|done].
  - rewrite Hv. pose proof (fun k Hk => has_leaf tf (Z.lor PTE_R PTE_W) k Hk) as Hb.
    split; [apply (Hb 0); lia|]. split; [apply (Hb 1); lia|]. split; [apply (Hb 2)|apply (Hb 4)]; lia.
  - intros p t Hp Hl Ht. apply page_distinct; [by apply (pt_page _ _ _ Hok p t)|done|].
    intros ->. apply Hnt, elem_tables. exists p. split; [done|]. split; [lia|done].
Qed.

Lemma trapframe_frame h pt tf :
  h_csr h satp = MAKE_SATP pt -> trapframe_at (h_mem h) pt tf -> frame h TRAPFRAME tf PGSIZE.
Proof.
  intros Hs [[Hpt Hr] <- (HV & HR & HW & HU) Hc].
  assert (HT : TRAPFRAME = 67108862 * PGSIZE) by done.
  assert (Hn : h_csr h satp <> 0) by (rewrite Hs; apply MAKE_SATP_nz; lia).
  assert (E : SATP2PT (h_csr h satp) = pt) by (rewrite Hs; by apply SATP2PT_MAKE).
  split; [done| |right; by rewrite E].
  intros w o (Ho & Hon & Ho8). unfold translate.
  assert (Hv : pte_val (h_mem h) pt (TRAPFRAME + o) = pte_val (h_mem h) pt TRAPFRAME).
  { apply pte_val_page. rewrite HT. unfold PGSIZE in *. Z.to_euclidean_division_equations. lia. }
  rewrite E, Hv, (proj2 (Z.eqb_neq _ _) Hn), HV, HU.
  assert ((TRAPFRAME + o) mod 8 = 0 /\ (TRAPFRAME + o) mod PGSIZE = o /\ TRAPFRAME + o < MAXVA) as (-> & -> & Hlt).
  { rewrite HT. unfold PGSIZE in *. change MAXVA with (2 ^ 38). Z.to_euclidean_division_equations. lia. }
  rewrite (proj2 (Z.leb_gt _ _) Hlt). destruct w; [rewrite HW|rewrite HR]; reflexivity.
Qed.

(** What entering the kernel through [uservec] does. *)
Record trap_entry (h h1 : hart) (tf link : Z) : Prop := {
  te_saved : forall r, load64 (h_mem h1) (tf + trapframe_reg r) = h_reg h r;
  te_sp : h_reg h1 sp = load64 (h_mem h) (tf + 8);
  te_tp : h_reg h1 tp = load64 (h_mem h) (tf + 32);
  te_ra : h_reg h1 ra = link;
  te_pc : h_pc h1 = load64 (h_mem h) (tf + 16);
  te_satp : h_csr h1 satp = load64 (h_mem h) tf;
  te_mem : forall x, ~ (tf + 40 <= x < tf + 288) -> h_mem h1 x = h_mem h x }.

(** The memory after the stores of [uservec]. *)
Definition trapped (h : hart) (tf : Z) : Z -> Z :=
  store64 (store_regs (h_reg h) tf user_fields (h_mem h)) (tf + 112) (h_reg h a0).

Lemma trapped_other h tf x : ~ (tf + 40 <= x < tf + 288) -> trapped h tf x = h_mem h x.
Proof.
  intros Hx. unfold trapped. rewrite store64_other by lia. apply store_regs_out.
  apply Forall_fmap, Forall_fmap, Forall_forall. intros r _. cbn. pose proof (trapframe_slot r). lia.
Qed.

Lemma trapped_load h tf o : 0 <= o -> o + 8 <= 40 -> load64 (trapped h tf) (tf + o) = load64 (h_mem h) (tf + o).
Proof. intros. apply load64_ext. intros x Hx. apply trapped_other. lia. Qed.

Lemma trapped_saved h tf r :
  (forall r, 0 <= h_reg h r < 2 ^ 64) -> load64 (trapped h tf) (tf + trapframe_reg r) = h_reg h r.
Proof.
  intros Hx. unfold trapped. destruct (decide (r = a0)) as [->|Hr]; [by apply load64_store64|].
  rewrite load64_store64_ne; [|destruct r; cbn; (done || lia)].
  apply store_regs_in; [apply (slots_aligned PGSIZE), user_slots|apply user_nodup|by apply user_field|done].
Qed.

Definition kernel_fields : list (reg * Z) := [(sp, 8); (tp, 32); (t0, 16); (t1, 0)].

Lemma uservec_run h pt tf link :
  (forall r, 0 <= h_reg h r < 2 ^ 64) -> h_csr h satp = MAKE_SATP pt -> trapframe_at (h_mem h) pt tf ->
  exists h1, run (uservec link) h = Some h1 /\ trap_entry h h1 tf link.
Proof.
  intros Hx Hs Hta.
  set (h0 := set_reg a0 TRAPFRAME (set_csr sscratch (h_reg h a0) h)).
  pose proof (trapframe_frame h pt tf Hs Hta) as Hf.
  assert (Hf0 : frame h0 (h_reg h0 a0) tf PGSIZE) by (by apply (frame_ext h)).
  change (uservec link) with ([csrw sscratch a0; li a0 TRAPFRAME] ++ saves a0 user_fields ++
    [csrr t0 sscratch; sd t0 112 a0] ++ loads a0 kernel_fields ++ [sfence_vma; csrw satp t1; sfence_vma; jalr t0 link]).
  rewrite run_app. change (run [csrw sscratch a0; li a0 TRAPFRAME] h) with (Some h0). cbv iota.
  rewrite run_app, (run_saves a0 tf PGSIZE) by (exact Hf0 || apply user_slots).
  set (h1 := set_reg t0 (h_reg h a0) (h0 <| h_mem := store_regs (h_reg h) tf user_fields (h_mem h) |>)).
  change (store_regs (h_reg h0) tf user_fields (h_mem h0)) with (store_regs (h_reg h) tf user_fields (h_mem h)).
  assert (Hf1 : frame h1 (h_reg h1 a0) tf PGSIZE).
  { apply (frame_ext h); [exact Hf|done|]. intros x Hxx. by apply (store_regs_other _ _ PGSIZE); [apply user_slots|]. }
  set (h2 := h1 <| h_mem := trapped h tf |>).
  assert (Hf2 : frame h2 (h_reg h2 a0) tf PGSIZE).
  { apply (frame_ext h); [exact Hf|done|]. intros x Hxx. apply trapped_other. unfold PGSIZE in *. lia. }
  rewrite run_app.
  change (run [csrr t0 sscratch; sd t0 112 a0] (h0 <| h_mem := store_regs (h_reg h) tf user_fields (h_mem h) |>))
    with (match exec (sd t0 112 a0) h1 with Some h' => Some h' | None => None end).
  rewrite (exec_sd a0 tf PGSIZE); [|exact Hf1|split; [lia|split; [unfold PGSIZE; lia|done]]].
  change (h1 <| h_mem := store64 (h_mem h1) (tf + 112) (h_reg h1 t0) |>) with h2. cbv iota.
  rewrite run_app, (run_loads a0 tf PGSIZE); [|exact Hf2|unfold PGSIZE; slots|by distinct].
  eexists. split; [reflexivity|].
  assert (Hl : forall r o, (r, o) ∈ kernel_fields ->
    load_regs (h_mem h2) tf kernel_fields (h_reg h2) r = load64 (h_mem h) (tf + o)).
  { intros r o Hin. rewrite (load_regs_in _ _ _ _ r o); [|by distinct|done]. apply trapped_load;
      unfold kernel_fields in Hin; repeat (apply elem_of_cons in Hin as [[= -> ->]|Hin]; [lia|]); by apply elem_of_nil in Hin. }
  split; cbn.
  - intros r. by apply trapped_saved.
  - by apply (Hl sp 8); left.
  - by apply (Hl tp 32); right; left.
  - done.
  - by apply (Hl t0 16); do 2 right; left.
  - pose proof (Hl t1 0 ltac:(by do 3 right; left)) as E. rewrite Z.add_0_r in E. exact E.
  - apply trapped_other.
Qed.

(** What leaving the kernel through [userret] does. *)
Record trap_return (h h1 : hart) (pt tf : Z) : Prop := {
  tr_regs : forall r, h_reg h1 r = load64 (h_mem h) (tf + trapframe_reg r);
  tr_pc : h_pc h1 = h_csr h sepc;
  tr_priv : h_priv h1 = SPP (h_csr h sstatus);
  tr_satp : h_csr h1 satp = MAKE_SATP pt;
  tr_mem : h_mem h1 = h_mem h }.

Lemma userret_run h pt tf :
  h_reg h a0 = MAKE_SATP pt -> trapframe_at (h_mem h) pt tf ->
  exists h1, run userret h = Some h1 /\ trap_return h h1 pt tf.
Proof.
  intros Ha Hta.
  set (h0 := set_reg a0 TRAPFRAME (set_csr satp (h_reg h a0) h)).
  assert (Hf : frame h0 (h_reg h0 a0) tf PGSIZE) by (by apply (trapframe_frame h0 pt tf)).
  change userret with ([fence_i; sfence_vma; csrw satp a0; sfence_vma; li a0 TRAPFRAME] ++
    loads a0 user_fields ++ [ld a0 112 a0; sret]).
  rewrite run_app. change (run [fence_i; sfence_vma; csrw satp a0; sfence_vma; li a0 TRAPFRAME] h) with (Some h0).
  cbv iota. rewrite run_app, (run_loads a0 tf PGSIZE); [|exact Hf|apply user_slots|by distinct].
  set (h1 := h0 <| h_reg := _ |>).
  assert (Hf1 : frame h1 (h_reg h1 a0) tf PGSIZE).
  { apply (frame_ext h0); [|done..]. replace (h_reg h1 a0) with (h_reg h0 a0); [exact Hf|].
    symmetry. apply load_regs_other. by distinct. }
  cbn [run]. rewrite (exec_ld a0 tf PGSIZE); [|exact Hf1|apply (trapframe_slot a0)].
  eexists. split; [reflexivity|]. split; cbn; [|done..].
  intros r. destruct (decide (r = a0)) as [->|Hr]; [by rewrite upd_eq|rewrite upd_ne by done].
  change (h_mem h) with (h_mem h0). apply load_regs_in; [apply user_nodup|by apply user_field].
Qed.

(** C8. A user program's registers survive its traps.  [uservec], entered with
    the user page table in satp, terminates without a page fault with each of
    the 31 user registers in its field of the process's trapframe and no other
    memory written; it is then at the kernel's handler with the kernel's stack
    pointer, hart number and page table from the trapframe, and returns to
    [userret].  When the kernel comes back to [userret] with the user satp in
    a0, it terminates at the program counter in sepc, under the user page
    table, with memory unchanged and with every register holding its field of
    the trapframe: what it held before the trap, for the fields the kernel
    left alone. *)
Theorem user_trap_roundtrip h pt tf link :
  (forall r, 0 <= h_reg h r < 2 ^ 64) -> h_csr h satp = MAKE_SATP pt -> trapframe_at (h_mem h) pt tf ->
  exists h1, run (uservec link) h = Some h1 /\ trap_entry h h1 tf link /\
    forall h2, h_reg h2 a0 = MAKE_SATP pt -> trapframe_at (h_mem h2) pt tf ->
      exists h3, run userret h2 = Some h3 /\ trap_return h2 h3 pt tf /\
        forall r, load64 (h_mem h2) (tf + trapframe_reg r) = load64 (h_mem h1) (tf + trapframe_reg r) ->
          h_reg h3 r = h_reg h r.
Proof.
  intros Hx Hs Hta. destruct (uservec_run h pt tf link) as (h1 & Hrun & Hte); [done..|].
  exists h1. split; [done|]. split; [done|]. intros h2 Ha Hta2.
  destruct (userret_run h2 pt tf) as (h3 & Hrun3 & Htr); [done..|].
  exists h3. split; [done|]. split; [done|]. intros r Hr.
  by rewrite (tr_regs _ _ _ _ Htr), Hr, (te_saved _ _ _ _ Hte).
Qed.

(** ** kernelvec *)
Definition kernelvec_fields : list (reg * Z) := [
  (ra, 0); (gp, 16); (t0, 32); (t1, 40); (t2, 48);
  (a0, 72); (a1, 80); (a2, 88); (a3, 96); (a4, 104); (a5, 112); (a6, 120); (a7, 128);
  (t3, 216); (t4, 224); (t5, 232); (t6, 240) ].

Lemma kernelvec_slots : Forall (slot 256) kernelvec_fields.*2.
Proof. slots. Qed.

Lemma kernelvec_nodup : NoDup kernelvec_fields.*1 /\ NoDup kernelvec_fields.*2.
Proof. split; distinct. Qed.

(** The calling convention: a function returns with the stack pointer and the
    callee-saved registers it was called with, and leaves its caller's frame
    (the [n] bytes at [pa] that the stack pointer names) mapped and as it was. *)
Definition callee_saved : list reg := [sp; s0; s1; s2; s3; s4; s5; s6; s7; s8; s9; s10; s11].

Record obeys_convention (h h' : hart) (pa n : Z) : Prop := {
  oc_regs : forall r, r ∈ callee_saved -> h_reg h' r = h_reg h r;
  oc_mem : forall x, pa <= x < pa + n -> h_mem h' x = h_mem h x;
  oc_frame : frame h' (h_reg h sp) pa n }.

Lemma kernelvec_cover r : r <> tp -> r ∉ callee_saved -> r ∈ kernelvec_fields.*1.
Proof. intros Hr Hc. destruct r; first [congruence | by distinct | by destruct Hc; distinct]. Qed.

Lemma callee_not_saved r : r ∈ callee_saved -> r ∉ kernelvec_fields.*1.
Proof. revert r. apply Forall_forall. distinct. Qed.

Lemma kernelvec_entry_run h pa target link :
  256 <= h_reg h sp < 2 ^ 64 -> frame h (h_reg h sp - 256) pa 256 ->
  run (kernelvec_entry target link) h =
    Some (set_reg ra link (set_reg sp (h_reg h sp - 256) h
           <| h_mem := store_regs (h_reg h) pa kernelvec_fields (h_mem h) |>) <| h_pc := target |>).
Proof.
  intros Hsp Hf. change (kernelvec_entry target link) with
    ([addi sp sp (-256)] ++ saves sp kernelvec_fields ++ [call target link]).
  rewrite run_app. cbn [run exec]. unfold u64.
  replace ((h_reg h sp + -256) mod 2 ^ 64) with (h_reg h sp - 256) by (rewrite Z.mod_small; lia).
  rewrite run_app, (run_saves sp pa 256); [reflexivity| |apply kernelvec_slots].
  by apply (frame_ext h).
Qed.

Lemma kernelvec_return_run h pa :
  0 <= h_reg h sp -> h_reg h sp + 256 < 2 ^ 64 -> frame h (h_reg h sp) pa 256 ->
  exists h', run kernelvec_return h = Some h' /\
    h_reg h' = upd sp (h_reg h sp + 256) (load_regs (h_mem h) pa kernelvec_fields (h_reg h)) /\
    h_pc h' = h_csr h sepc /\ h_priv h' = SPP (h_csr h sstatus) /\ h_mem h' = h_mem h.
Proof.
  intros Hsp Hlt Hf. change kernelvec_return with (loads sp kernelvec_fields ++ [addi sp sp 256; sret]).
  rewrite run_app, (run_loads sp pa 256); [|done|apply kernelvec_slots|by distinct].
  eexists. split; [reflexivity|]. cbn. repeat split. f_equal.
  rewrite load_regs_other by distinct. unfold u64. apply Z.mod_small. lia.
Qed.

Section KernelVec.
Context (target link : Z) (kerneltrap : hart -> option hart).

(** C19. Kernel code does not notice its interrupts.  If [kerneltrap] returns
    and keeps to the calling convention (the caller's frame, its stack pointer
    and the callee-saved registers), then the vector returns to the interrupted
    instruction with every register as it was, whatever [kerneltrap] did to the
    caller-saved ones; tp alone is left as [kerneltrap] leaves it, since the
    thread may come back on another hart.  Before the call only the 256 bytes
    below the stack pointer are written. *)
Theorem kernelvec_transparent h pa :
  (forall r, 0 <= h_reg h r < 2 ^ 64) -> 256 <= h_reg h sp ->
  frame h (h_reg h sp - 256) pa 256 ->
  (forall h1, h_pc h1 = target -> h_reg h1 ra = link -> frame h1 (h_reg h1 sp) pa 256 ->
    exists h2, kerneltrap h1 = Some h2 /\ obeys_convention h1 h2 pa 256) ->
  exists h1 h2 h', run (kernelvec_entry target link) h = Some h1 /\ kerneltrap h1 = Some h2 /\
    kernelvec target link kerneltrap h = Some h' /\
    (forall x, ~ (pa <= x < pa + 256) -> h_mem h1 x = h_mem h x) /\
    (forall r, r <> tp -> h_reg h' r = h_reg h r) /\ h_reg h' tp = h_reg h2 tp /\
    h_pc h' = h_csr h2 sepc /\ h_priv h' = SPP (h_csr h2 sstatus) /\ h_mem h' = h_mem h2.
Proof.
  intros Hx Hsp Hf Hcall. pose proof (Hx sp).
  pose proof (kernelvec_entry_run h pa target link ltac:(lia) Hf) as Hin.
  set (m := store_regs _ _ _ _) in Hin. set (h1 := set_reg ra link _) in Hin.
  assert (Hm : forall x, ~ (pa <= x < pa + 256) -> m x = h_mem h x)
    by (intros; by apply (store_regs_other _ _ 256); [apply kernelvec_slots|]).
  assert (Hf1 : frame h1 (h_reg h1 sp) pa 256) by (by apply (frame_ext h)).
  destruct (Hcall h1) as (h2 & Hk & [Hr2 Hm2 Hf2]); [reflexivity|reflexivity|exact Hf1|].
  assert (Hsp2 : h_reg h2 sp = h_reg h sp - 256) by (rewrite (Hr2 sp) by left; done).
  assert (E1 : h_reg h1 sp = h_reg h sp - 256) by done.
  destruct (kernelvec_return_run h2 pa) as (h' & Hout & Hregs & Hpc & Hpriv & Hmem);
    [lia|lia|by rewrite Hsp2, <- E1|].
  exists h1, h2, h'. unfold kernelvec. rewrite Hin, Hk, Hout.
  split; [done|]. split; [done|]. split; [done|]. split; [exact Hm|]. split; [|split; [|auto]].
  - intros r Hr. rewrite Hregs. destruct (decide (r = sp)) as [->|Hrs]; [rewrite upd_eq; lia|rewrite upd_ne by done].
    destruct (decide (r ∈ callee_saved)) as [Hc|Hc].
    + pose proof (callee_not_saved r Hc) as Hn. rewrite load_regs_other, (Hr2 r Hc) by done.
      assert (r <> ra) by (intros ->; apply Hn; left). unfold h1. cbn. by rewrite !upd_ne.
    + pose proof (kernelvec_cover r Hr Hc) as ((r' & o) & -> & Hin')%list_elem_of_fmap. cbn [fst] in *.
      rewrite (load_regs_in _ _ _ _ r' o); [|apply kernelvec_nodup|done].
      rewrite (load64_ext _ m) by
        (intros x ?; apply Hm2; destruct (slot_in _ _ r' o kernelvec_slots Hin') as (? & ? & _); lia).
      by apply store_regs_in; [apply (slots_aligned 256), kernelvec_slots|apply kernelvec_nodup|..].
  - rewrite Hregs, upd_ne by done. apply load_regs_other. by distinct.
Qed.
End KernelVec.

(** ** Booting: entry.S and start.c *)
Lemma testbit_u64 v k : 0 <= k < 64 -> Z.testbit (u64 v) k = Z.testbit v k.
Proof. intros Hk. unfold u64. apply Z.mod_pow2_bits_low. lia. Qed.

Lemma testbit_u64_set v k : 0 <= k < 64 -> Z.testbit (u64 (Z.lor v (Z.shiftl 1 k))) k = true.
Proof.
  intros Hk. rewrite testbit_u64, Z.lor_spec, Z.shiftl_spec, Z.sub_diag by lia. apply orb_true_r.
Qed.

Lemma has_set v k : 0 <= k < 64 -> has (u64 (Z.lor v (Z.shiftl 1 k))) (Z.shiftl 1 k) = true.
Proof. intros Hk. rewrite has_testbit by lia. by apply testbit_u64_set. Qed.

Lemma has_kept v w k : 0 <= k < 64 -> Z.testbit v k = true -> has (u64 (Z.lor v w)) (Z.shiftl 1 k) = true.
Proof. intros Hk Hv. by rewrite has_testbit, testbit_u64, Z.lor_spec, Hv by lia. Qed.

Lemma MPP_supervisor x :
  MPP (u64 (Z.lor (Z.land x (Z.lnot MSTATUS_MPP_MASK)) MSTATUS_MPP_S)) = S_mode.
Proof.
  unfold MPP. replace (Z.land _ 3) with 1; [done|]. symmetry. change 3 with (Z.ones 2) at 1.
  apply Z.bits_inj'. intros n Hn. rewrite Z.land_spec, Z.shiftr_spec by lia.
  destruct (decide (n < 2)) as [Hlt|Hge]; [|by rewrite Z.ones_spec_high, andb_false_r, Z.bits_above_log2 by (cbn; lia)].
  rewrite testbit_u64, Z.ones_spec_low, andb_true_r, Z.lor_spec, Z.land_spec, Z.lnot_spec by lia.
  assert (n = 0 \/ n = 1) as [->| ->] by lia; cbn; by rewrite andb_false_r.
Qed.

Lemma small_id x : 0 <= x < Z.of_nat NCPU -> u64 (i32 x) = x.
Proof.
  intros Hx. assert (Z.of_nat NCPU = 8) by done. unfold u64, i32.
  rewrite (Z.mod_small (_ + _)), Z.mod_small; lia.
Qed.

(** A hart in [main]: [h] is the hart as it was switched on. *)
Definition booted (h h2 : hart) (stack0 main_addr : Z) : Prop :=
  h_pc h2 = main_addr /\ h_priv h2 = S_mode /\ h_csr h2 satp = 0 /\
  h_reg h2 tp = h_csr h mhartid /\ h_reg h2 sp = stack0 + 4096 * (h_csr h mhartid + 1) /\
  h_csr h2 medeleg = 0xffff /\ h_csr h2 mideleg = 0xffff /\
  has (h_csr h2 sie) SIE_SEIE = true /\ has (h_csr h2 sie) SIE_STIE = true /\
  has (h_csr h2 menvcfg) MENVCFG_STCE = true /\ has (h_csr h2 menvcfg) MENVCFG_ADUE = true /\
  h_csr h2 stimecmp = u64 (h_csr h time + 1000000) /\ h_mem h2 = h_mem h.

(** The addresses of a hart's boot stack, which grows down from sp. *)
Definition boot_stack (h1 : hart) (x : Z) : Prop := h_reg h1 sp - 4096 <= x < h_reg h1 sp.

Section Boot.
Context (stack0 start_addr spin main_addr : Z).
Context (Hstack : 0 <= stack0 /\ stack0 + 4096 * Z.of_nat NCPU < 2 ^ 64).

Lemma entry_run h :
  0 <= h_csr h mhartid < Z.of_nat NCPU ->
  exists h1, run (_entry stack0 start_addr spin) h = Some h1 /\
    h_reg h1 sp = stack0 + 4096 * (h_csr h mhartid + 1) /\ h_pc h1 = start_addr /\
    h_csr h1 = h_csr h /\ h_mem h1 = h_mem h.
Proof.
  intros Hh. eexists. split; [reflexivity|]. split; [|by repeat split].
  transitivity (u64 (u64 stack0 + u64 (u64 4096 * u64 (h_csr h mhartid + 1)))); [reflexivity|].
  assert (Z.of_nat NCPU = 8) by done. unfold u64. change (4096 mod 2 ^ 64) with 4096.
  rewrite (Z.mod_small (_ + 1)) by lia. rewrite (Z.mod_small (4096 * _)) by lia.
  rewrite (Z.mod_small stack0) by lia. rewrite Z.mod_small by lia. lia.
Qed.


(** C21. The boot stacks do not overlap: each hart's [sp] is inside [stack0],
    and the 4096 bytes below it belong to that hart only. *)
Theorem boot_stacks_apart h h' :
  0 <= h_csr h mhartid < Z.of_nat NCPU -> 0 <= h_csr h' mhartid < Z.of_nat NCPU ->
  exists h1 h1', run (_entry stack0 start_addr spin) h = Some h1 /\
    run (_entry stack0 start_addr spin) h' = Some h1' /\
    (forall x, boot_stack h1 x -> stack0 <= x < stack0 + 4096 * Z.of_nat NCPU) /\
    (h_csr h mhartid <> h_csr h' mhartid -> forall x, boot_stack h1 x -> ~ boot_stack h1' x).
Proof.
  intros Hh Hh'. destruct (entry_run h Hh) as (h1 & Hrun & Hsp & _).
  destruct (entry_run h' Hh') as (h1' & Hrun' & Hsp' & _).
  exists h1, h1'. unfold boot_stack. rewrite Hsp, Hsp'. split; [done|]. split; [done|]. split; lia.
Qed.
End Boot.

(** ** Witnesses *)
(** A hart without paging: every aligned block is a frame. *)
Lemma bare_frame h va n :
  h_csr h satp = 0 -> 0 <= va -> va + n <= 2 ^ 64 -> va mod 8 = 0 -> frame h va va n.
Proof.
  intros Hs Hva Hn Hal. split; [done| |by left].
  intros w o (_ & _ & Ho). unfold translate. rewrite Hs. cbn [Z.eqb].
  by rewrite Z.add_mod, Hal, Ho by lia.
Qed.

(** Hart 3, every register with a value of its own. *)
Definition demo_regs (r : reg) : Z :=
  match r with
  | a0 => 0x80010000 | a1 => 0x80010100 | sp => 0x80020000 | r => 0x1000 + trapframe_reg r
  end.
Definition demo_csrs (pt : Z) (c : csreg) : Z :=
  match c with mhartid => 3 | satp => pt | sepc => 0x80001234 | _ => 0 end.
Definition demo_hart : hart := mkhart demo_regs (demo_csrs 0) (fun _ => 0) 0x80000000 M_mode.

Lemma demo_regs_range r : 0 <= demo_regs r < 2 ^ 64.
Proof. destruct r; done. Qed.

Lemma swtch_resumes_witness :
  exists h1, run swtch demo_hart = Some h1 /\ switch demo_hart h1 0x80010000 0x80010100 /\
    forall h2 po2,
      (forall r, 0 <= h_reg h2 r < 2 ^ 64) ->
      frame h2 (h_reg h2 a0) po2 112 -> frame h2 (h_reg h2 a1) 0x80010000 112 ->
      po2 + 112 <= 0x80010000 \/ 0x80010000 + 112 <= po2 ->
      (forall x, 0x80010000 <= x < 0x80010000 + 112 -> h_mem h2 x = h_mem h1 x) ->
      exists h3, run swtch h2 = Some h3 /\ switch h2 h3 po2 0x80010000 /\
        h_pc h3 = 0x1028 /\ forall r, switched r -> h_reg h3 r = demo_regs r.
Proof.
  apply (swtch_resumes demo_hart 0x80010000 0x80010100).
  - exact demo_regs_range.
  - by apply bare_frame.
  - by apply bare_frame.
  - left. lia.
Defined.

(** A handler that clobbers all it may, and moves the thread to hart 5. *)
Definition demo_handler (h : hart) : option hart :=
  Some (h <| h_reg ::= fun x r =>
    if decide (r = tp) then 5 else if decide (r ∈ callee_saved) then x r else 0xdead |>).

Lemma kernelvec_transparent_witness :
  exists h1 h2 h', run (kernelvec_entry 0x80002000 0x80005854) demo_hart = Some h1 /\ demo_handler h1 = Some h2 /\
    kernelvec 0x80002000 0x80005854 demo_handler demo_hart = Some h' /\
    (forall x, ~ (0x8001ff00 <= x < 0x8001ff00 + 256) -> h_mem h1 x = 0) /\
    (forall r, r <> tp -> h_reg h' r = demo_regs r) /\ h_reg h' tp = h_reg h2 tp /\
    h_pc h' = h_csr h2 sepc /\ h_priv h' = SPP (h_csr h2 sstatus) /\ h_mem h' = h_mem h2.
Proof.
  apply (kernelvec_transparent 0x80002000 0x80005854 demo_handler demo_hart 0x8001ff00).
  - exact demo_regs_range.
  - done.
  - by apply bare_frame.
  - intros h1 _ _ Hf. eexists. split; [reflexivity|]. split; [|done|by apply (frame_ext h1)].
    intros r Hr. cbn. rewrite decide_False; [by rewrite decide_True|]. intros ->. revert Hr. by distinct.
Defined.


Lemma boot_stacks_apart_witness :
  exists h1 h1', run (_entry 0x80009000 0x80000020 0x8000001a) demo_hart = Some h1 /\
    run (_entry 0x80009000 0x80000020 0x8000001a) (set_csr mhartid 7 demo_hart) = Some h1' /\
    (forall x, boot_stack h1 x -> 0x80009000 <= x < 0x80009000 + 4096 * Z.of_nat NCPU) /\
    (3 <> 7 -> forall x, boot_stack h1 x -> ~ boot_stack h1' x).
Proof.
  apply (boot_stacks_apart 0x80009000 0x80000020 0x8000001a ltac:(done) demo_hart (set_csr mhartid 7 demo_hart)); done.
Defined.

(** A user program under the page table that [proc_pagetable] has just made. *)
Definition demo_user_hart (s : kstate) (pt : Z) : hart :=
  mkhart demo_regs (demo_csrs (MAKE_SATP pt)) (k_mem s) (TRAMPOLINE + uservec_off (KernelLayout := demo_layout)) S_mode.

Lemma demo_tf : @page_ok demo_layout 0x80300000 /\ 0x80300000 ∉ demo_free.
Proof. split; [done|]. apply (bool_decide_unpack _). by vm_compute. Qed.

Lemma user_trap_roundtrip_witness :
  exists pt s', @proc_pagetable demo_layout 0 demo_alloc [] = Done pt s' [] /\
  exists h1, run (uservec 0x3ffffff09a) (demo_user_hart s' pt) = Some h1 /\
    trap_entry (demo_user_hart s' pt) h1 0x80300000 0x3ffffff09a /\
    forall h2, h_reg h2 a0 = MAKE_SATP pt -> trapframe_at (h_mem h2) pt 0x80300000 ->
      exists h3, run userret h2 = Some h3 /\ trap_return h2 h3 pt 0x80300000 /\
        forall r, load64 (h_mem h2) (0x80300000 + trapframe_reg r) = load64 (h_mem h1) (0x80300000 + trapframe_reg r) ->
          h_reg h3 r = demo_regs r.
Proof.
  destruct demo_tf as [Hp Hf].
  destruct (@proc_pagetable_run demo_layout eq_refl 0 demo_proc demo_alloc demo_free [])
    as (pt & s' & l' & Hrun & _ & Hk & Hres);
    [split; [exact boot_hart|reflexivity|exact demo_kmem_list]|reflexivity|exact Hp|exact Hf|done|done|].
  exists pt, s'. split; [exact Hrun|].
  destruct Hres as [[-> _]|(Hpt & Hok & _ & Hall & Hval)].
  { exfalso. assert (Hc : match @proc_pagetable demo_layout 0 demo_alloc [] with Done r _ _ => r =? 0 | _ => true end = false)
      by (vm_compute; reflexivity). rewrite Hrun in Hc. discriminate. }
  assert (Hn : 0x80300000 ∉ tables 3 (k_mem s') pt) by (intros Hin; exact (Hf (proj2 (Hall _) (or_intror Hin)))).
  assert (HT : 0 <= TRAPFRAME < MAXVA) by (split; reflexivity || discriminate).
  pose proof (@process_trapframe demo_layout eq_refl (k_mem s') pt 0x80300000 l' Hok Hp Hn (Hval TRAPFRAME HT)) as Hta.
  exact (user_trap_roundtrip (demo_user_hart s' pt) pt 0x80300000 0x3ffffff09a demo_regs_range eq_refl Hta).
Defined.
