(* ===== verification/Exec.v ===== *)
(** * Running a program (kernel/exec.c)

    [kexec] builds a new user image from an ELF file and commits to it only when
    nothing can fail any more; every error path goes through [exec_bad], which
    releases what has been built.  [argv] is the list of the argument strings. *)

From stdpp Require Import prelude list strings gmap.
From Stdlib Require Import ZArith Lia ZifyBool.
From S2P Require Import Prelude State Spinlock CString Kalloc Proc Vm Uaccess Sleeplock Console Bio Log Fs File ProcLife.
Local Open Scope Z_scope.

(** ** ELF (elf.h) *)
Definition ELF_MAGIC : Z := 0x464C457F.
Definition ELF_PROG_LOAD : Z := 1.
Definition ELFHDR_SIZE : Z := 64.
Definition PROGHDR_SIZE : Z := 56.
Definition USERSTACK : Z := 1.
Definition get64 (d : list Z) (off : nat) : Z := get32 d off + get32 d (off + 4) * 2 ^ 32.

Record elfhdr := mkelf {
  elf_magic : Z;
  elf_entry : Z;
  elf_phoff : Z;
  elf_phnum : Z }.
Definition get_elfhdr (d : list Z) : elfhdr :=
  mkelf (get32 d 0) (get64 d 24) (get64 d 32) (get16 d 56).

Record proghdr := mkph {
  ph_type : Z;
  ph_flags : Z;
  ph_off : Z;
  ph_vaddr : Z;
  ph_filesz : Z;
  ph_memsz : Z }.
Definition get_proghdr (d : list Z) : proghdr :=
  mkph (get32 d 0) (get32 d 4) (get64 d 8) (get64 d 16) (get64 d 32) (get64 d 40).

Definition flags2perm (flags : Z) : Z :=
  let perm := if negb (Z.land flags 0x1 =? 0) then PTE_X else 0 in
  if negb (Z.land flags 0x2 =? 0) then Z.lor perm PTE_W else perm.

(** The program name: what follows the last slash of the path. *)
Fixpoint last_elem (last s : list Z) : list Z :=
  match s with
  | [] => last
  | c :: s' => if c =? SLASH then last_elem s' s' else last_elem last s'
  end.

(** A 64-bit word and an array of them, as bytes. *)
Definition word64 (v : Z) : list Z := put32 (put32 (replicate 8 0) 0 v) 4 (v / 2 ^ 32).
Definition words64 (l : list Z) : list Z := mjoin (word64 <$> l).

Section Exec.
Context `{DiskDriver} `{KernelLayout} `{Devices}.

Fixpoint loadseg_loop (fuel : nat) (pagetable va : Z) (ip : nat) (offset sz i : Z) : Kern Z :=
  match fuel with
  | O => hang
  | S fuel' =>
      if sz <=? i then kret 0 else
      let! pa := walkaddr pagetable (u64 (va + i)) in
      if pa =? 0 then panic "loadseg: address should exist" else
      let n := if sz - i <? PGSIZE then sz - i else PGSIZE in
      let! '(r, _) := readi ip (D_kern pa) (u32 (offset + i)) n in
      if negb (r =? n) then kret (-1) else
      loadseg_loop fuel' pagetable va ip offset sz (u32 (i + PGSIZE))
  end.
Definition loadseg (pagetable va : Z) (ip : nat) (offset sz : Z) : Kern Z :=
  loadseg_loop (Z.to_nat (sz / PGSIZE + 2)) pagetable va ip offset sz 0.

(** [bad:] *)
Definition exec_bad (pagetable sz : Z) (ip : option nat) : Kern Z :=
  when (negb (pagetable =? 0)) (proc_freepagetable pagetable sz) ;;
  match ip with
  | Some ip => iunlockput ip ;; end_op
  | None => kret tt
  end ;;
  kret (-1).

(** The loop over the program headers: the size of the image, and whether it
    ended without a [goto bad]. *)
Fixpoint load_segments (n : nat) (ip : nat) (pagetable off sz : Z) : Kern (Z * bool) :=
  match n with
  | O => kret (sz, true)
  | S n' =>
      let! '(r, d) := readi ip D_var (u32 off) PROGHDR_SIZE in
      if negb (r =? PROGHDR_SIZE) then kret (sz, false) else
      let ph := get_proghdr d in
      if negb (ph_type ph =? ELF_PROG_LOAD) then load_segments n' ip pagetable (i32 (off + PROGHDR_SIZE)) sz else
      if ph_memsz ph <? ph_filesz ph then kret (sz, false) else
      if u64 (ph_vaddr ph + ph_memsz ph) <? ph_vaddr ph then kret (sz, false) else
      if negb (ph_vaddr ph mod PGSIZE =? 0) then kret (sz, false) else
      let! sz1 := uvmalloc pagetable sz (u64 (ph_vaddr ph + ph_memsz ph)) (flags2perm (ph_flags ph)) in
      if sz1 =? 0 then kret (sz, false) else
      let! r := loadseg pagetable (ph_vaddr ph) ip (u32 (ph_off ph)) (u32 (ph_filesz ph)) in
      if r <? 0 then kret (sz1, false) else
      load_segments n' ip pagetable (i32 (off + PROGHDR_SIZE)) sz1
  end.

(** The loop that pushes the argument strings: [sp], the addresses pushed, and
    whether there was no [goto bad].  [ustack] has [MAXARG] elements. *)
Fixpoint push_args (argv : list (list Z)) (pagetable sz stackbase sp : Z) (ustack : list Z) : Kern (Z * list Z * bool) :=
  match argv with
  | [] => kret (sp, ustack, true)
  | a :: argv' =>
      let len := Z.of_nat (length a) + 1 in
      let sp := u64 (sp - len) in
      let sp := sp - sp mod 16 in
      if sp <? stackbase then kret (sp, ustack, false) else
      let! r := copyout pagetable sz sp (a ++ [0]) in
      if r <? 0 then kret (sp, ustack, false) else
      if MAXARG <=? Z.of_nat (length ustack) then undefined else
      push_args argv' pagetable sz stackbase sp (ustack ++ [sp])
  end.

Definition kexec (path : list Z) (argv : list (list Z)) : Kern Z :=
  let! p := curproc in
  begin_op ;;
  let! ip := namei path in
  match ip with
  | None => end_op ;; kret (-1)
  | Some ip =>
      ilock ip ;;
      let! '(r, d) := readi ip D_var 0 ELFHDR_SIZE in
      if negb (r =? ELFHDR_SIZE) then exec_bad 0 0 (Some ip) else
      let elf := get_elfhdr d in
      if negb (elf_magic elf =? ELF_MAGIC) then exec_bad 0 0 (Some ip) else
      let! pagetable := proc_pagetable p in
      if pagetable =? 0 then exec_bad 0 0 (Some ip) else
      let! '(sz, ok) := load_segments (Z.to_nat (elf_phnum elf)) ip pagetable (i32 (elf_phoff elf)) 0 in
      if negb ok then exec_bad pagetable sz (Some ip) else
      iunlockput ip ;;
      end_op ;;
      let! p := curproc in
      let! pp := get_proc p in
      let oldsz := p_sz pp in
      let sz := PGROUNDUP sz in
      let! sz1 := uvmalloc pagetable sz (u64 (sz + (USERSTACK + 1) * PGSIZE)) PTE_W in
      if sz1 =? 0 then exec_bad pagetable sz None else
      let sz := sz1 in
      uvmclear pagetable (u64 (sz - (USERSTACK + 1) * PGSIZE)) ;;
      let sp := sz in
      let stackbase := u64 (sp - USERSTACK * PGSIZE) in
      let! '(sp, ustack, ok) := push_args argv pagetable sz stackbase sp [] in
      if negb ok then exec_bad pagetable sz None else
      let argc := Z.of_nat (length argv) in
      if MAXARG <=? argc then undefined else
      let ustack := ustack ++ [0] in
      let sp := u64 (sp - (argc + 1) * 8) in
      let sp := sp - sp mod 16 in
      if sp <? stackbase then exec_bad pagetable sz None else
      let! r := copyout pagetable sz sp (words64 ustack) in
      if r <? 0 then exec_bad pagetable sz None else
      tf_store p TF_a1 sp ;;
      upd_proc p (fun q => q <| p_name := safestrcpy (p_name q) (reads (last_elem path path)) 16 |>) ;;
      let! pp := get_proc p in
      let oldpagetable := p_pagetable pp in
      upd_proc p (fun q => q <| p_pagetable := pagetable |>) ;;
      upd_proc p (fun q => q <| p_sz := sz |>) ;;
      tf_store p TF_epc (elf_entry elf) ;;
      tf_store p TF_sp sp ;;
      proc_freepagetable oldpagetable oldsz ;;
      kret argc
  end.
End Exec.
