(* ===== verification/Syscall.v ===== *)
(** * System calls (kernel/syscall.c, sysproc.c, sysfile.c)

    Each handler reads its arguments from the trapframe and calls the layer
    below; [syscall] dispatches on the number in a7 and puts the result in a0. *)

From stdpp Require Import prelude list strings gmap.
From Stdlib Require Import ZArith Lia ZifyBool.
From S2P Require Import Prelude State Spinlock CString Kalloc Proc Vm Uaccess Sleeplock Console Bio Log Fs File ProcLife Exec.
Local Open Scope Z_scope.

(** ** Constants of syscall.h, fcntl.h, vm.h, param.h *)
Definition SBRK_EAGER : Z := 1.
Definition MAXPATH : Z := 128.
Definition O_RDONLY : Z := 0x000.
Definition O_WRONLY : Z := 0x001.
Definition O_RDWR : Z := 0x002.
Definition O_CREATE : Z := 0x200.
Definition O_TRUNC : Z := 0x400.
Definition has_flag (omode flag : Z) : bool := negb (Z.land omode flag =? 0).

Section Sysproc.
Context `{DiskDriver} `{KernelLayout} `{Devices}.

(** ** Processes (sysproc.c) *)
Definition sys_exit : Kern Z :=
  let! n := argint 0 in
  kexit n ;;
  kret 0.

Definition sys_getpid : Kern Z :=
  let! p := curproc in
  let! pp := get_proc p in
  kret (p_pid pp).

Definition sys_fork : Kern Z := kfork.

Definition sys_wait : Kern Z :=
  let! p := argaddr 0 in
  kwait p.

Definition sys_sbrk : Kern Z :=
  let! n := argint 0 in
  let! t := argint 1 in
  let! p := curproc in
  let! pp := get_proc p in
  let addr := p_sz pp in
  if (t =? SBRK_EAGER) || (n <? 0) then
    let! r := growproc n in
    if r <? 0 then kret (-1) else kret addr
  else
    if u64 (addr + n) <? addr then kret (-1) else
    if TRAPFRAME <? u64 (addr + n) then kret (-1) else
    upd_proc p (fun q => q <| p_sz := u64 (p_sz q + n) |>) ;;
    kret addr.

Definition sys_pause : Kern Z :=
  let! n := argint 0 in
  let n := if n <? 0 then 0 else n in
  acquire L_ticks ;;
  let! ticks0 := gets k_ticks in
  let! r := loop (
    let! t := gets k_ticks in
    if u32 (t - ticks0) <? n then
      let! p := curproc in
      let! k := killed p in
      if negb (k =? 0) then
        release L_ticks ;;
        kret (Some (-1))
      else
        sleep_prepare (Some Ch_ticks) ;;
        release L_ticks ;;
        sleep ;;
        acquire L_ticks ;;
        kret None
    else
      release L_ticks ;;
      kret (Some 0)) in
  kret r.

Definition sys_kill : Kern Z :=
  let! pid := argint 0 in
  kkill pid.

Definition sys_setpriority : Kern Z :=
  let! pid := argint 0 in
  let! priority := argint 1 in
  ksetpriority pid priority.

Definition sys_getpriority : Kern Z :=
  let! pid := argint 0 in
  kgetpriority pid.

Definition sys_uptime : Kern Z :=
  acquire L_ticks ;;
  let! xticks := gets k_ticks in
  release L_ticks ;;
  kret xticks.

(** ** Descriptors (sysfile.c) *)
(** The descriptor and its file; [None] is the result -1. *)
Definition argfd (n : Z) : Kern (option (Z * nat)) :=
  let! fd := argint n in
  if (fd <? 0) || (Z.of_nat NOFILE <=? fd) then kret None else
  let! p := curproc in
  let! pp := get_proc p in
  match p_ofile pp !! Z.to_nat fd with
  | Some (Some f) => kret (Some (fd, f))
  | Some None => kret None
  | None => undefined
  end.

Definition fdalloc (f : nat) : Kern Z :=
  let! p := curproc in
  let! r := for_upto NOFILE 0 (fun fd =>
    let! pp := get_proc p in
    match p_ofile pp !! fd with
    | Some None =>
        upd_proc p (fun q => q <| p_ofile ::= <[fd := Some f]> |>) ;;
        kret (Some (Z.of_nat fd))
    | Some (Some _) => kret None
    | None => undefined
    end) in
  kret (default (-1) r).

(** [myproc()->ofile[fd] = 0] *)
Definition clear_fd (fd : Z) : Kern unit :=
  let! p := curproc in
  upd_proc p (fun q => q <| p_ofile ::= <[Z.to_nat fd := None]> |>).

Definition sys_dup : Kern Z :=
  let! a := argfd 0 in
  match a with
  | None => kret (-1)
  | Some (_, f) =>
      let! fd := fdalloc f in
      if fd <? 0 then kret (-1) else
      let! _ := filedup f in
      kret fd
  end.

Definition sys_read : Kern Z :=
  let! p := argaddr 1 in
  let! n := argint 2 in
  let! a := argfd 0 in
  match a with None => kret (-1) | Some (_, f) => fileread f p n end.

Definition sys_write : Kern Z :=
  let! p := argaddr 1 in
  let! n := argint 2 in
  let! a := argfd 0 in
  match a with None => kret (-1) | Some (_, f) => filewrite f p n end.

Definition sys_close : Kern Z :=
  let! a := argfd 0 in
  match a with
  | None => kret (-1)
  | Some (fd, f) =>
      clear_fd fd ;;
      fileclose f ;;
      kret 0
  end.

Definition sys_fstat : Kern Z :=
  let! st := argaddr 1 in
  let! a := argfd 0 in
  match a with None => kret (-1) | Some (_, f) => filestat f st end.
End Sysproc.

Section Sysfile.
Context `{DiskDriver} `{KernelLayout} `{Devices}.

(** ** Links *)
(** Common endings: [iunlockput(ip); end_op(); return -1;] *)
Definition put_fail (ip : nat) : Kern Z :=
  iunlockput ip ;;
  end_op ;;
  kret (-1).

(** [bad:] of [sys_link] *)
Definition link_bad (ip : nat) : Kern Z :=
  ilock ip ;;
  upd_inode ip (fun x => x <| i_nlink := i16 (i_nlink x - 1) |>) ;;
  iupdate ip ;;
  put_fail ip.

Definition sys_link : Kern Z :=
  let! '(r0, old) := argstr 0 MAXPATH in
  if r0 <? 0 then kret (-1) else
  let! '(r1, new) := argstr 1 MAXPATH in
  if r1 <? 0 then kret (-1) else
  begin_op ;;
  let! ip := namei old in
  match ip with
  | None => end_op ;; kret (-1)
  | Some ip =>
      ilock ip ;;
      let! x := get_inode ip in
      if i_type x =? T_DIR then put_fail ip else
      if NLINK_MAX <=? i_nlink x then put_fail ip else
      upd_inode ip (fun x => x <| i_nlink := i16 (i_nlink x + 1) |>) ;;
      iupdate ip ;;
      iunlock ip ;;
      let! '(dp, name) := nameiparent new (replicate DIRSIZ 0) in
      match dp with
      | None => link_bad ip
      | Some dp =>
          ilock dp ;;
          let! d := get_inode dp in
          if i_nlink d =? 0 then
            iunlockput dp ;;
            link_bad ip
          else
          let! x := get_inode ip in
          let! bad :=
            if negb (i_dev d =? i_dev x) then kret true
            else let! r := dirlink dp name (i_inum x) in kret (r <? 0) in
          if (bad : bool) then
            iunlockput dp ;;
            link_bad ip
          else
          iunlockput dp ;;
          iput ip ;;
          end_op ;;
          kret 0
      end
  end.

Definition isdirempty (dp : nat) : Kern bool :=
  let! x := get_inode dp in
  let! r := for_upto (dir_count (i_size x) - 2) 2 (fun k =>
    let! '(r, de) := readi dp D_var (Z.of_nat k * DIRENT_SIZE) DIRENT_SIZE in
    if negb (r =? DIRENT_SIZE) then panic "isdirempty: readi" else
    if negb (de_inum de =? 0) then kret (Some false) else kret None) in
  kret (default true r).

Definition sys_unlink : Kern Z :=
  let! '(r, path) := argstr 0 MAXPATH in
  if r <? 0 then kret (-1) else
  begin_op ;;
  let! '(dp, name) := nameiparent path (replicate DIRSIZ 0) in
  match dp with
  | None => end_op ;; kret (-1)
  | Some dp =>
      ilock dp ;;
      if (namecmp name [46; 0] =? 0) || (namecmp name [46; 46; 0] =? 0) then put_fail dp else
      let! r := dirlookup dp name in
      match r with
      | None => put_fail dp
      | Some (ip, off) =>
          ilock ip ;;
          let! x := get_inode ip in
          if i_nlink x <? 1 then panic "unlink: nlink < 1" else
          let! full :=
            if i_type x =? T_DIR then let! e := isdirempty ip in kret (negb e) else kret false in
          if (full : bool) then
            iunlockput ip ;;
            put_fail dp
          else
          let! w := writei dp (S_var (replicate 16 0)) off DIRENT_SIZE in
          if negb (w =? DIRENT_SIZE) then panic "unlink: writei" else
          let! x := get_inode ip in
          when (i_type x =? T_DIR)
            (upd_inode dp (fun d => d <| i_nlink := i16 (i_nlink d - 1) |>) ;;
             iupdate dp) ;;
          iunlockput dp ;;
          upd_inode ip (fun x => x <| i_nlink := i16 (i_nlink x - 1) |>) ;;
          iupdate ip ;;
          iunlockput ip ;;
          end_op ;;
          kret 0
      end
  end.

(** ** Creation *)
(** [fail:] of [create] *)
Definition create_fail (ip dp : nat) : Kern (option nat) :=
  upd_inode ip (fun x => x <| i_nlink := 0 |>) ;;
  iupdate ip ;;
  iunlockput ip ;;
  iunlockput dp ;;
  kret None.

Definition create (path : list Z) (type major minor : Z) : Kern (option nat) :=
  let! '(dp, name) := nameiparent path (replicate DIRSIZ 0) in
  match dp with
  | None => kret None
  | Some dp =>
      ilock dp ;;
      let! d := get_inode dp in
      if i_nlink d =? 0 then iunlockput dp ;; kret None else
      if (type =? T_DIR) && (NLINK_MAX <=? i_nlink d) then iunlockput dp ;; kret None else
      let! r := dirlookup dp name in
      match r with
      | Some (ip, _) =>
          iunlockput dp ;;
          ilock ip ;;
          let! x := get_inode ip in
          if (type =? T_FILE) && ((i_type x =? T_FILE) || (i_type x =? T_DEVICE)) then kret (Some ip) else
          iunlockput ip ;;
          kret None
      | None =>
          let! ip := ialloc (i_dev d) type in
          match ip with
          | None => iunlockput dp ;; kret None
          | Some ip =>
              ilock ip ;;
              upd_inode ip (fun x => x <| i_major := i16 major |> <| i_minor := i16 minor |> <| i_nlink := 1 |>) ;;
              iupdate ip ;;
              let! x := get_inode ip in
              let! ok :=
                if type =? T_DIR then
                  let! r := dirlink ip [46; 0] (i_inum x) in
                  if r <? 0 then kret false else
                  let! r := dirlink ip [46; 46; 0] (i_inum d) in
                  kret (negb (r <? 0))
                else kret true in
              if negb (ok : bool) then create_fail ip dp else
              let! r := dirlink dp name (i_inum x) in
              if r <? 0 then create_fail ip dp else
              when (type =? T_DIR)
                (upd_inode dp (fun d => d <| i_nlink := i16 (i_nlink d + 1) |>) ;;
                 iupdate dp) ;;
              iunlockput dp ;;
              kret (Some ip)
          end
      end
  end.

(** The first half of [sys_open]: the inode, locked, or the failure. *)
Definition open_inode (path : list Z) (omode : Z) : Kern (option nat) :=
  if has_flag omode O_CREATE then
    let! ip := create path T_FILE 0 0 in
    match ip with
    | None => end_op ;; kret None
    | Some ip => kret (Some ip)
    end
  else
    let! ip := namei path in
    match ip with
    | None => end_op ;; kret None
    | Some ip =>
        ilock ip ;;
        let! x := get_inode ip in
        if (i_type x =? T_DIR) && negb (omode =? O_RDONLY) then
          let! _ := put_fail ip in kret None
        else kret (Some ip)
    end.

Definition sys_open : Kern Z :=
  let! omode := argint 1 in
  let! '(n, path) := argstr 0 MAXPATH in
  if n <? 0 then kret (-1) else
  begin_op ;;
  let! ip := open_inode path omode in
  match ip with
  | None => kret (-1)
  | Some ip =>
      let! x := get_inode ip in
      if (i_type x =? T_DEVICE) && ((i_major x <? 0) || (NDEV <=? i_major x)) then put_fail ip else
      let! f := filealloc in
      match f with
      | None => put_fail ip
      | Some f =>
          let! fd := fdalloc f in
          if fd <? 0 then
            fileclose f ;;
            put_fail ip
          else
          (if i_type x =? T_DEVICE then
             upd_file f (fun y => y <| f_type := FD_DEVICE |> <| f_major := i_major x |>)
           else
             upd_file f (fun y => y <| f_type := FD_INODE |> <| f_off := 0 |>)) ;;
          upd_file f (fun y => y <| f_ip := Some ip |> <| f_readable := negb (has_flag omode O_WRONLY) |>
            <| f_writable := has_flag omode O_WRONLY || has_flag omode O_RDWR |>) ;;
          when (has_flag omode O_TRUNC && (i_type x =? T_FILE)) (itrunc ip) ;;
          iunlock ip ;;
          end_op ;;
          kret fd
      end
  end.

Definition sys_mkdir : Kern Z :=
  begin_op ;;
  let! '(r, path) := argstr 0 MAXPATH in
  let! ip := if r <? 0 then kret None else create path T_DIR 0 0 in
  match ip with
  | None => end_op ;; kret (-1)
  | Some ip =>
      iunlockput ip ;;
      end_op ;;
      kret 0
  end.

Definition sys_mknod : Kern Z :=
  begin_op ;;
  let! major := argint 1 in
  let! minor := argint 2 in
  let! '(r, path) := argstr 0 MAXPATH in
  let! ip := if r <? 0 then kret None else create path T_DEVICE (i16 major) (i16 minor) in
  match ip with
  | None => end_op ;; kret (-1)
  | Some ip =>
      iunlockput ip ;;
      end_op ;;
      kret 0
  end.

Definition sys_chdir : Kern Z :=
  let! p := curproc in
  begin_op ;;
  let! '(r, path) := argstr 0 MAXPATH in
  let! ip := if r <? 0 then kret None else namei path in
  match ip with
  | None => end_op ;; kret (-1)
  | Some ip =>
      ilock ip ;;
      let! x := get_inode ip in
      if negb (i_type x =? T_DIR) then put_fail ip else
      iunlock ip ;;
      let! pp := get_proc p in
      let! cwd := deref (p_cwd pp) in
      iput cwd ;;
      end_op ;;
      upd_proc p (fun q => q <| p_cwd := Some ip |>) ;;
      kret 0
  end.

(** ** Exec *)
(** [for (i = 0; i < NELEM(argv) && argv[i] != 0; i++) kfree(argv[i]);] *)
Fixpoint free_args (pages : list Z) : Kern unit :=
  match pages with
  | [] => kret tt
  | a :: pages' => kfree a ;; free_args pages'
  end.

(** The loop that fetches the arguments: the pages allocated so far, the strings,
    and whether there was no [goto bad].  A string is copied to its page. *)
Fixpoint fetch_args (n : nat) (uargv : Z) (i : Z) (pages : list Z) (argv : list (list Z)) : Kern (list Z * list (list Z) * bool) :=
  match n with
  | O => kret (pages, argv, false)
  | S n' =>
      let! '(r, uarg) := fetchaddr (u64 (uargv + 8 * i)) in
      if r <? 0 then kret (pages, argv, false) else
      if uarg =? 0 then kret (pages, argv, true) else
      let! page := kalloc in
      if page =? 0 then kret (pages, argv, false) else
      let! '(r, str) := fetchstr uarg PGSIZE in
      modify (fun s => s <| k_mem := write_bytes (k_mem s) page (if r <? 0 then str else str ++ [0]) |>) ;;
      if r <? 0 then kret (pages ++ [page], argv, false) else
      fetch_args n' uargv (i + 1) (pages ++ [page]) (argv ++ [str])
  end.

Definition sys_exec : Kern Z :=
  let! uargv := argaddr 1 in
  let! '(r, path) := argstr 0 MAXPATH in
  if r <? 0 then kret (-1) else
  let! '(pages, argv, ok) := fetch_args (Z.to_nat MAXARG) uargv 0 [] [] in
  if negb ok then
    free_args pages ;;
    kret (-1)
  else
  let! ret := kexec path argv in
  free_args pages ;;
  kret ret.

(** ** Pipes *)
Definition le32 (v : Z) : list Z := put32 (replicate 4 0) 0 v.

Definition sys_pipe : Kern Z :=
  let! p := curproc in
  let! fdarray := argaddr 0 in
  let! r := pipealloc in
  match r with
  | None => kret (-1)
  | Some (rf, wf) =>
      let! fd0 := fdalloc rf in
      let! fd1 := if fd0 <? 0 then kret (-1) else fdalloc wf in
      if (fd0 <? 0) || (fd1 <? 0) then
        when (0 <=? fd0) (clear_fd fd0) ;;
        fileclose rf ;;
        fileclose wf ;;
        kret (-1)
      else
      let! pp := get_proc p in
      let! r0 := copyout (p_pagetable pp) (p_sz pp) fdarray (le32 fd0) in
      let! r1 := if r0 <? 0 then kret r0 else copyout (p_pagetable pp) (p_sz pp) (u64 (fdarray + 4)) (le32 fd1) in
      if (r0 <? 0) || (r1 <? 0) then
        clear_fd fd0 ;;
        clear_fd fd1 ;;
        fileclose rf ;;
        fileclose wf ;;
        kret (-1)
      else kret 0
  end.

(** ** Dispatch *)
Definition syscalls (num : Z) : option (Kern Z) :=
  match num with
  | 1 => Some sys_fork
  | 2 => Some sys_exit
  | 3 => Some sys_wait
  | 4 => Some sys_pipe
  | 5 => Some sys_read
  | 6 => Some sys_kill
  | 7 => Some sys_exec
  | 8 => Some sys_fstat
  | 9 => Some sys_chdir
  | 10 => Some sys_dup
  | 11 => Some sys_getpid
  | 12 => Some sys_sbrk
  | 13 => Some sys_pause
  | 14 => Some sys_uptime
  | 15 => Some sys_open
  | 16 => Some sys_write
  | 17 => Some sys_mknod
  | 18 => Some sys_unlink
  | 19 => Some sys_link
  | 20 => Some sys_mkdir
  | 21 => Some sys_close
  | 22 => Some sys_sync
  | 23 => Some sys_setpriority
  | 24 => Some sys_getpriority
  | _ => None
  end.

Definition syscall : Kern unit :=
  let! p := curproc in
  let! a7 := tf_load p TF_a7 in
  let num := i32 a7 in
  match syscalls num with
  | Some f =>
      let! v := f in
      tf_store p TF_a0 (u64 v)
  | None =>
      let! pp := get_proc p in
      let! _ := printk (lit "%d %s: unknown sys call %d" ++ [NEWLINE])
        [A_word (p_pid pp); A_str (Some (cstr (p_name pp))); A_word num] in
      tf_store p TF_a0 (u64 (-1))
  end.
End Sysfile.
