(* ===== verification/Virtio.v ===== *)
(** * The disk driver (kernel/virtio_disk.c)

    [virtio_disk_rw] puts a chain of three descriptors in the queue, notifies the
    device and sleeps until [virtio_disk_intr] has seen the request completed.
    The queues are the fields of [k_vdisk]; the device writes the used ring, the
    status bytes and, for a read, the buffer. *)

From stdpp Require Import prelude list strings gmap.
From Stdlib Require Import ZArith Lia ZifyBool.
From S2P Require Import Prelude State Spinlock CString Kalloc Proc Bio.
Local Open Scope Z_scope.

(** ** Constants of virtio.h *)
(** The control registers, by their offsets. *)
Inductive mmio_reg :=
  | VIRTIO_MMIO_MAGIC_VALUE | VIRTIO_MMIO_VERSION | VIRTIO_MMIO_DEVICE_ID | VIRTIO_MMIO_VENDOR_ID
  | VIRTIO_MMIO_DEVICE_FEATURES | VIRTIO_MMIO_DRIVER_FEATURES | VIRTIO_MMIO_QUEUE_SEL
  | VIRTIO_MMIO_QUEUE_NUM_MAX | VIRTIO_MMIO_QUEUE_NUM | VIRTIO_MMIO_QUEUE_READY
  | VIRTIO_MMIO_QUEUE_NOTIFY | VIRTIO_MMIO_INTERRUPT_STATUS | VIRTIO_MMIO_INTERRUPT_ACK
  | VIRTIO_MMIO_STATUS | VIRTIO_MMIO_QUEUE_DESC_LOW | VIRTIO_MMIO_QUEUE_DESC_HIGH
  | VIRTIO_MMIO_DRIVER_DESC_LOW | VIRTIO_MMIO_DRIVER_DESC_HIGH | VIRTIO_MMIO_DEVICE_DESC_LOW
  | VIRTIO_MMIO_DEVICE_DESC_HIGH.

Definition mmio_offset (r : mmio_reg) : Z :=
  match r with
  | VIRTIO_MMIO_MAGIC_VALUE => 0x000 | VIRTIO_MMIO_VERSION => 0x004
  | VIRTIO_MMIO_DEVICE_ID => 0x008 | VIRTIO_MMIO_VENDOR_ID => 0x00c
  | VIRTIO_MMIO_DEVICE_FEATURES => 0x010 | VIRTIO_MMIO_DRIVER_FEATURES => 0x020
  | VIRTIO_MMIO_QUEUE_SEL => 0x030 | VIRTIO_MMIO_QUEUE_NUM_MAX => 0x034
  | VIRTIO_MMIO_QUEUE_NUM => 0x038 | VIRTIO_MMIO_QUEUE_READY => 0x044
  | VIRTIO_MMIO_QUEUE_NOTIFY => 0x050 | VIRTIO_MMIO_INTERRUPT_STATUS => 0x060
  | VIRTIO_MMIO_INTERRUPT_ACK => 0x064 | VIRTIO_MMIO_STATUS => 0x070
  | VIRTIO_MMIO_QUEUE_DESC_LOW => 0x080 | VIRTIO_MMIO_QUEUE_DESC_HIGH => 0x084
  | VIRTIO_MMIO_DRIVER_DESC_LOW => 0x090 | VIRTIO_MMIO_DRIVER_DESC_HIGH => 0x094
  | VIRTIO_MMIO_DEVICE_DESC_LOW => 0x0a0 | VIRTIO_MMIO_DEVICE_DESC_HIGH => 0x0a4
  end.
Coercion mmio_offset : mmio_reg >-> Z.

(** Bits of the status register. *)
Inductive config_bit :=
  | VIRTIO_CONFIG_S_ACKNOWLEDGE | VIRTIO_CONFIG_S_DRIVER | VIRTIO_CONFIG_S_DRIVER_OK
  | VIRTIO_CONFIG_S_FEATURES_OK.

Definition config_mask (r : config_bit) : Z :=
  match r with
  | VIRTIO_CONFIG_S_ACKNOWLEDGE => 1 | VIRTIO_CONFIG_S_DRIVER => 2 | VIRTIO_CONFIG_S_DRIVER_OK => 4
  | VIRTIO_CONFIG_S_FEATURES_OK => 8
  end.
Coercion config_mask : config_bit >-> Z.

(** Device features, by bit number. *)
Inductive feature :=
  | VIRTIO_BLK_F_RO | VIRTIO_BLK_F_SCSI | VIRTIO_BLK_F_FLUSH | VIRTIO_BLK_F_CONFIG_WCE
  | VIRTIO_BLK_F_MQ | VIRTIO_F_ANY_LAYOUT | VIRTIO_RING_F_INDIRECT_DESC | VIRTIO_RING_F_EVENT_IDX.

Definition feature_bit (r : feature) : Z :=
  match r with
  | VIRTIO_BLK_F_RO => 5 | VIRTIO_BLK_F_SCSI => 7 | VIRTIO_BLK_F_FLUSH => 9
  | VIRTIO_BLK_F_CONFIG_WCE => 11 | VIRTIO_BLK_F_MQ => 12 | VIRTIO_F_ANY_LAYOUT => 27
  | VIRTIO_RING_F_INDIRECT_DESC => 28 | VIRTIO_RING_F_EVENT_IDX => 29
  end.
Coercion feature_bit : feature >-> Z.

Definition VRING_DESC_F_NEXT : Z := 1.
Definition VRING_DESC_F_WRITE : Z := 2.
Definition VIRTIO_BLK_T_IN : Z := 0.
Definition VIRTIO_BLK_T_OUT : Z := 1.

(** [features &= ~(1 << bit)]: the mask is an [int], sign-extended. *)
Definition without (features bit : Z) : Z := Z.land features (Z.lnot (Z.shiftl 1 bit)).

(** ** Access to [disk] *)
Definition upd_vdisk (f : vdisk -> vdisk) : Kern unit := modify (fun s => s <| k_vdisk ::= f |>).
Definition upd_desc (i : nat) (f : virtq_desc -> virtq_desc) : Kern unit := upd_vdisk (fun v => v <| v_desc ::= alter f i |>).
Definition upd_ops (i : nat) (f : virtio_blk_req -> virtio_blk_req) : Kern unit := upd_vdisk (fun v => v <| v_ops ::= alter f i |>).
Definition upd_info (i : nat) (f : vinfo -> vinfo) : Kern unit := upd_vdisk (fun v => v <| v_info ::= alter f i |>).

Section Virtio.
Context `{KernelLayout} `{Devices}.

(** [*R(r)] and [*R(r) = v] *)
Definition Rload (r : Z) : Kern Z := mmio_load (VIRTIO0 + r).
Definition Rstore (r v : Z) : Kern unit := mmio_store (VIRTIO0 + r) (u32 v).

Definition virtio_disk_init : Kern unit :=
  let status := 0 in
  initlock L_vdisk ;;
  let! magic := Rload VIRTIO_MMIO_MAGIC_VALUE in
  let! version := if magic =? 0x74726976 then Rload VIRTIO_MMIO_VERSION else kret 0 in
  let! device := if version =? 2 then Rload VIRTIO_MMIO_DEVICE_ID else kret 0 in
  let! vendor := if device =? 2 then Rload VIRTIO_MMIO_VENDOR_ID else kret 0 in
  if negb (vendor =? 0x554d4551) then panic "could not find virtio disk" else
  Rstore VIRTIO_MMIO_STATUS status ;;
  let status := Z.lor status VIRTIO_CONFIG_S_ACKNOWLEDGE in
  Rstore VIRTIO_MMIO_STATUS status ;;
  let status := Z.lor status VIRTIO_CONFIG_S_DRIVER in
  Rstore VIRTIO_MMIO_STATUS status ;;
  let! features := Rload VIRTIO_MMIO_DEVICE_FEATURES in
  let features := without features VIRTIO_BLK_F_RO in
  let features := without features VIRTIO_BLK_F_SCSI in
  let features := without features VIRTIO_BLK_F_FLUSH in
  let features := without features VIRTIO_BLK_F_CONFIG_WCE in
  let features := without features VIRTIO_BLK_F_MQ in
  let features := without features VIRTIO_F_ANY_LAYOUT in
  let features := without features VIRTIO_RING_F_EVENT_IDX in
  let features := without features VIRTIO_RING_F_INDIRECT_DESC in
  Rstore VIRTIO_MMIO_DRIVER_FEATURES features ;;
  let status := Z.lor status VIRTIO_CONFIG_S_FEATURES_OK in
  Rstore VIRTIO_MMIO_STATUS status ;;
  let! status := Rload VIRTIO_MMIO_STATUS in
  if Z.land status VIRTIO_CONFIG_S_FEATURES_OK =? 0 then panic "virtio disk FEATURES_OK unset" else
  Rstore VIRTIO_MMIO_QUEUE_SEL 0 ;;
  let! ready := Rload VIRTIO_MMIO_QUEUE_READY in
  if negb (ready =? 0) then panic "virtio disk should not be ready" else
  let! max := Rload VIRTIO_MMIO_QUEUE_NUM_MAX in
  if max =? 0 then panic "virtio disk has no queue 0" else
  if max <? Z.of_nat NUM then panic "virtio disk max queue too short" else
  let! desc := kalloc in
  let! avail := kalloc in
  let! used := kalloc in
  if (desc =? 0) || (avail =? 0) || (used =? 0) then panic "virtio disk kalloc" else
  modify (fun s => s <| k_mem := memset (memset (memset (k_mem s) desc 0 PGSIZE) avail 0 PGSIZE) used 0 PGSIZE |>) ;;
  upd_vdisk (fun v => v <| v_desc := replicate NUM (mkdesc VA_null 0 0 0) |> <| v_avail_idx := 0 |>
    <| v_avail_ring := replicate NUM 0 |> <| v_used_idx_dev := 0 |> <| v_used_ring := replicate NUM 0 |>) ;;
  Rstore VIRTIO_MMIO_QUEUE_NUM (Z.of_nat NUM) ;;
  Rstore VIRTIO_MMIO_QUEUE_DESC_LOW desc ;;
  Rstore VIRTIO_MMIO_QUEUE_DESC_HIGH (Z.shiftr desc 32) ;;
  Rstore VIRTIO_MMIO_DRIVER_DESC_LOW avail ;;
  Rstore VIRTIO_MMIO_DRIVER_DESC_HIGH (Z.shiftr avail 32) ;;
  Rstore VIRTIO_MMIO_DEVICE_DESC_LOW used ;;
  Rstore VIRTIO_MMIO_DEVICE_DESC_HIGH (Z.shiftr used 32) ;;
  Rstore VIRTIO_MMIO_QUEUE_READY 0x1 ;;
  for_each NUM 0 (fun i => upd_vdisk (fun v => v <| v_free ::= <[i := true]> |>)) ;;
  let status := Z.lor status VIRTIO_CONFIG_S_DRIVER_OK in
  Rstore VIRTIO_MMIO_STATUS status.

(** ** Descriptors *)
Definition alloc_desc : Kern (option nat) :=
  for_upto NUM 0 (fun i =>
    let! v := gets k_vdisk in
    if default false (v_free v !! i) then
      upd_vdisk (fun v => v <| v_free ::= <[i := false]> |>) ;;
      kret (Some i)
    else kret None).

Definition free_desc (i : nat) : Kern unit :=
  if decide (NUM <= i)%nat then panic "free_desc 1" else
  let! v := gets k_vdisk in
  if default false (v_free v !! i) then panic "free_desc 2" else
  upd_desc i (fun d => d <| vd_addr := VA_null |> <| vd_len := 0 |> <| vd_flags := 0 |> <| vd_next := 0 |>) ;;
  upd_vdisk (fun v => v <| v_free ::= <[i := true]> |>) ;;
  wakeup (Some Ch_diskfree).

(** A chain has at most [NUM] descriptors: freeing one twice panics. *)
Fixpoint free_chain_loop (fuel : nat) (i : nat) : Kern unit :=
  match fuel with
  | O => hang
  | S fuel' =>
      let! v := gets k_vdisk in
      let! d := deref (v_desc v !! i) in
      free_desc i ;;
      if negb (Z.land (vd_flags d) VRING_DESC_F_NEXT =? 0) then free_chain_loop fuel' (Z.to_nat (vd_next d))
      else kret tt
  end.
Definition free_chain (i : nat) : Kern unit := free_chain_loop (S NUM) i.

(** The loop of [alloc3_desc]: what was allocated is freed when one is missing. *)
Fixpoint alloc3_loop (n : nat) (idx : list nat) : Kern (option (list nat)) :=
  match n with
  | O => kret (Some idx)
  | S n' =>
      let! r := alloc_desc in
      match r with
      | Some i => alloc3_loop n' (idx ++ [i])
      | None =>
          for_each (length idx) 0 (fun j => let! i := deref (idx !! j) in free_desc i) ;;
          kret None
      end
  end.
Definition alloc3_desc : Kern (option (list nat)) := alloc3_loop 3 [].

(** ** Requests *)
Definition virtio_disk_rw (b : nat) (write : bool) : Kern unit :=
  let! bb := get_buf b in
  let sector := u32 (b_blockno bb * (BSIZE / 512)) in
  acquire L_vdisk ;;
  let! idx := loop (
    let! r := alloc3_desc in
    match r with
    | Some idx => kret (Some idx)
    | None =>
        sleep_prepare (Some Ch_diskfree) ;;
        release L_vdisk ;;
        sleep ;;
        acquire L_vdisk ;;
        kret None
    end) in
  let! i0 := deref (idx !! 0%nat) in
  let! i1 := deref (idx !! 1%nat) in
  let! i2 := deref (idx !! 2%nat) in
  upd_ops i0 (fun _ => mkreq (if write then VIRTIO_BLK_T_OUT else VIRTIO_BLK_T_IN) 0 sector) ;;
  upd_desc i0 (fun _ => mkdesc (VA_ops i0) 16 VRING_DESC_F_NEXT (Z.of_nat i1)) ;;
  upd_desc i1 (fun _ => mkdesc (VA_data b) BSIZE
    (Z.lor (if write then 0 else VRING_DESC_F_WRITE) VRING_DESC_F_NEXT) (Z.of_nat i2)) ;;
  upd_info i0 (fun x => x <| vi_status := 0xff |>) ;;
  upd_desc i2 (fun _ => mkdesc (VA_status i0) 1 VRING_DESC_F_WRITE 0) ;;
  upd_buf b (fun x => x <| b_disk := 1 |>) ;;
  upd_info i0 (fun x => x <| vi_b := Some b |>) ;;
  upd_vdisk (fun v => v <| v_avail_ring ::= <[ring_slot (v_avail_idx v) := Z.of_nat i0]> |>) ;;
  upd_vdisk (fun v => v <| v_avail_idx := u16 (v_avail_idx v + 1) |>) ;;
  Rstore VIRTIO_MMIO_QUEUE_NOTIFY 0 ;;
  loop (
    let! bb := get_buf b in
    if b_disk bb =? 1 then
      sleep_prepare (Some (Ch_buf b)) ;;
      release L_vdisk ;;
      sleep ;;
      acquire L_vdisk ;;
      kret None
    else kret (Some tt)) ;;
  upd_info i0 (fun x => x <| vi_b := None |>) ;;
  free_chain i0 ;;
  release L_vdisk.

(** The loop of [virtio_disk_intr] over the new entries of the used ring. *)
Fixpoint intr_loop (fuel : nat) : Kern unit :=
  match fuel with
  | O => hang
  | S fuel' =>
      let! v := gets k_vdisk in
      if v_used_idx v =? v_used_idx_dev v then kret tt else
      let! id := deref (v_used_ring v !! ring_slot (v_used_idx v)) in
      let! inf := deref (v_info v !! Z.to_nat id) in
      if negb (vi_status inf =? 0) then panic "virtio_disk_intr status" else
      let! b := deref (vi_b inf) in
      upd_buf b (fun x => x <| b_disk := 0 |>) ;;
      wakeup (Some (Ch_buf b)) ;;
      upd_vdisk (fun v => v <| v_used_idx := u16 (v_used_idx v + 1) |>) ;;
      intr_loop fuel'
  end.

Definition virtio_disk_intr : Kern unit :=
  acquire L_vdisk ;;
  let! st := Rload VIRTIO_MMIO_INTERRUPT_STATUS in
  Rstore VIRTIO_MMIO_INTERRUPT_ACK (Z.land st 0x3) ;;
  let! v := gets k_vdisk in
  intr_loop (S (Z.to_nat (u16 (v_used_idx_dev v - v_used_idx v)))) ;;
  release L_vdisk.
End Virtio.
