(* ===== verification/VirtioSpec.v ===== *)
(** * The driver implements the disk that the buffer cache relies on

    [device] is the virtio block device's side of the queue as its standard
    documents it: it follows the chain of descriptors that the available ring
    names.  [disk_turn] is what happens while a process sleeps in
    [virtio_disk_rw]: the device serves the request, [virtio_disk_intr] runs on
    the hart, and the scheduler resumes the process.  With that turn
    [virtio_disk_rw] has exactly the effect [disk_effect]. *)

From stdpp Require Import prelude list strings gmap.
From Stdlib Require Import ZArith Lia ZifyBool.
From S2P Require Import Prelude State Spinlock CString Kalloc Proc Sleeplock Bio Virtio.
Local Open Scope Z_scope.

(** ** The device *)
(** A chain of three descriptors: a request header, a data buffer and a status
    byte.  The result is the request, whether the device may write the data, the
    buffer and the place of the status. *)
Definition chain_at (v : vdisk) (head : nat) : option (virtio_blk_req * bool * nat * nat) :=
  d0 ← v_desc v !! head;
  d1 ← v_desc v !! Z.to_nat (vd_next d0);
  d2 ← v_desc v !! Z.to_nat (vd_next d1);
  match vd_addr d0, vd_addr d1, vd_addr d2 with
  | VA_ops j, VA_data b, VA_status k =>
      req ← v_ops v !! j;
      if (vd_flags d0 =? VRING_DESC_F_NEXT) && (vd_len d0 =? 16) &&
         negb (Z.land (vd_flags d1) VRING_DESC_F_NEXT =? 0) && (vd_len d1 =? BSIZE) &&
         (vd_flags d2 =? VRING_DESC_F_WRITE) && (vd_len d2 =? 1)
      then Some (req, negb (Z.land (vd_flags d1) VRING_DESC_F_WRITE =? 0), b, k) else None
  | _, _, _ => None
  end.

(** The device serves the newest request of the available ring: it transfers the
    block, writes the status byte and appends the chain to the used ring. *)
Definition device (s : kstate) : option kstate :=
  let v := k_vdisk s in
  head ← v_avail_ring v !! ring_slot (v_avail_idx v - 1);
  '(req, writable, b, k) ← chain_at v (Z.to_nat head);
  bb ← k_bufs s !! b;
  let n := vr_sector req / (BSIZE / 512) in
  s' ← (if (vr_type req =? VIRTIO_BLK_T_OUT) && negb writable then
          Some (s <| k_disk := fun m => if m =? n then b_data bb else k_disk s m |>
                  <| k_dhist := (n, b_data bb) :: k_dhist s |>)
        else if (vr_type req =? VIRTIO_BLK_T_IN) && writable then
          Some (s <| k_bufs := alter (fun x => x <| b_data := k_disk s n |>) b (k_bufs s) |>)
        else None);
  Some (s' <| k_vdisk ::= fun v => v <| v_info ::= alter (fun x => x <| vi_status := 0 |>) k |>
    <| v_used_ring ::= <[ring_slot (v_used_idx_dev v) := head]> |>
    <| v_used_idx_dev := u16 (v_used_idx_dev v + 1) |> |>).

Section Turn.
Context `{Devices}.

(** Process [i] has switched to the scheduler, which has released its lock; an
    interrupt is taken on the hart. *)
Definition off_cpu (i : nat) (s : kstate) : kstate :=
  s <| k_cpus ::= alter (fun c => c <| c_noff := 0 |> <| c_proc := None |>) (k_tp s) |> <| k_locks ::= delete (L_proc i) |>.

(** The scheduler takes the lock of the process again and runs it. *)
Definition back_on (i : nat) (s0 s : kstate) : kstate :=
  s <| k_cpus := k_cpus s0 |> <| k_locks := k_locks s0 |> <| k_procs ::= alter (fun p => p <| p_state := RUNNING |>) i |>.

Definition disk_turn (s : kstate) : kstate :=
  match k_cpus s !! k_tp s ≫= c_proc, device s with
  | Some i, Some s1 =>
      match virtio_disk_intr (off_cpu i s1) [] with
      | Done _ s2 _ => back_on i s s2
      | _ => s
      end
  | _, _ => s
  end.

(** The driver with a device and a scheduler that give every request its turn. *)
Definition virtio_driver : DiskDriver := fun b write s tr =>
  match virtio_disk_rw b write s [disk_turn] with
  | Done a s' _ => Done a s' tr
  | o => o
  end.
End Turn.

(** ** Descriptors *)
Lemma alloc3_run s tr : v_free (k_vdisk s) = replicate NUM true ->
  alloc3_desc s tr = Done (Some [0; 1; 2]%nat)
    (s <| k_vdisk ::= fun v => v <| v_free := [false; false; false; true; true; true; true; true] |> |>) tr.
Proof.
  intros Hf. destruct s. cbn in *. destruct k_vdisk. cbn in *. subst v_free. reflexivity.
Qed.

(** ** Posting a request *)
Definition request (write : bool) (n : Z) : virtio_blk_req :=
  mkreq (if write then VIRTIO_BLK_T_OUT else VIRTIO_BLK_T_IN) 0 (u32 (n * (BSIZE / 512))).

(** The queue with the request for buffer [b], block [n], in it. *)
Definition posted (b : nat) (write : bool) (n : Z) (v : vdisk) : vdisk :=
  v <| v_free := [false; false; false; true; true; true; true; true] |>
    <| v_ops ::= alter (fun _ => request write n) 0%nat |>
    <| v_desc ::= fun l => alter (fun _ => mkdesc (VA_status 0) 1 VRING_DESC_F_WRITE 0) 2%nat
        (alter (fun _ => mkdesc (VA_data b) BSIZE (Z.lor (if write then 0 else VRING_DESC_F_WRITE) VRING_DESC_F_NEXT) 2) 1%nat
          (alter (fun _ => mkdesc (VA_ops 0) 16 VRING_DESC_F_NEXT 1) 0%nat l)) |>
    <| v_info ::= fun l => alter (fun x => x <| vi_b := Some b |>) 0%nat (alter (fun x => x <| vi_status := 0xff |>) 0%nat l) |>
    <| v_avail_ring ::= <[ring_slot (v_avail_idx v) := 0]> |>
    <| v_avail_idx := u16 (v_avail_idx v + 1) |>.

Definition waiting (b : nat) (write : bool) (n : Z) (s : kstate) : kstate :=
  s <| k_vdisk ::= posted b write n |> <| k_bufs ::= alter (fun x => x <| b_disk := 1 |>) b |>.

Section Rw.
Context `{Devices}.
(** The registers of the device are its own: accesses to them do not change the
    kernel's state. *)
Context (Hload : forall r s, exists v, dev_load (VIRTIO0 + r) s = (v, s)) (Hstore : forall r v s, dev_store (VIRTIO0 + r) v s = s).

Lemma Rstore_run r v s tr : Rstore r v s tr = Done tt s tr.
Proof. unfold Rstore, mmio_store, modify. by rewrite Hstore. Qed.

Lemma Rload_run r s tr : exists v, Rload r s tr = Done v s tr.
Proof. destruct (Hload r s) as [v E]. exists v. unfold Rload, mmio_load. by rewrite E. Qed.

(** The wait for the completion, and what follows it. *)
Definition wait_done (b : nat) : Kern unit :=
  loop (
    let! bb := get_buf b in
    if b_disk bb =? 1 then
      sleep_prepare (Some (Ch_buf b)) ;;
      release L_vdisk ;;
      sleep ;;
      acquire L_vdisk ;;
      kret None
    else kret (Some tt)).

Lemma virtio_disk_rw_post i b write s tr bb : solo i s -> vdisk_idle (k_vdisk s) -> k_bufs s !! b = Some bb ->
  virtio_disk_rw b write s tr =
    (wait_done b ;; upd_info 0 (fun x => x <| vi_b := None |>) ;; free_chain 0 ;; release L_vdisk)
      (enter L_vdisk (waiting b write (b_blockno bb) s)) tr.
Proof.
  intros Hs Hv Hb. unfold virtio_disk_rw. kexact (get_buf_run s tr b bb Hb). kstep (solo_acquire i s Hs).
  kstep loop_first.
  { kstep alloc3_run; [exact (vi_free _ Hv)|]. done. }
  do 3 (kstep kret_run; cbv beta). do 9 kstep modify_run. kstep Rstore_run.
  reflexivity.
Qed.

(** ** The interrupt handler *)
(** What one completion does: the buffer is the driver's no more, and who sleeps
    for it is woken. *)
Definition serve1 (b : nat) (s : kstate) : kstate :=
  s <| k_bufs ::= alter (fun x => x <| b_disk := 0 |>) b |>
    <| k_procs := wake (Some (Ch_buf b)) <$> k_procs s |>
    <| k_vdisk ::= fun v => v <| v_used_idx := u16 (v_used_idx v + 1) |> |>.
Fixpoint served (bs : list nat) (s : kstate) : kstate :=
  match bs with [] => s | b :: bs' => served bs' (serve1 b s) end.

(** The used ring has entries the driver has not seen, for the buffers [bs]. *)
Record completions (bs : list nat) (v : vdisk) : Prop := {
  co_range : 0 <= v_used_idx v < 2 ^ 16;
  co_idx : v_used_idx_dev v = u16 (v_used_idx v + Z.of_nat (length bs));
  co_count : (length bs <= NUM)%nat;
  co_ring : forall j b, bs !! j = Some b -> exists id inf,
    v_used_ring v !! ring_slot (v_used_idx v + Z.of_nat j) = Some id /\
    v_info v !! Z.to_nat id = Some inf /\ vi_status inf = 0 /\ vi_b inf = Some b }.

Lemma ring_slot_wrap a j : ring_slot (u16 a + j) = ring_slot (a + j).
Proof. unfold ring_slot, u16, NUM. f_equal. Z.to_euclidean_division_equations. lia. Qed.

Lemma completions_next b bs v : completions (b :: bs) v -> completions bs (v <| v_used_idx := u16 (v_used_idx v + 1) |>).
Proof.
  intros [H1 H2 H3 H4]. cbn [length] in *. split; cbn [v_used_idx v_used_idx_dev v_used_ring v_info upd_field].
  - apply Z.mod_pos_bound. lia.
  - rewrite H2. unfold u16. rewrite Zplus_mod_idemp_l. f_equal. lia.
  - lia.
  - intros j c Hj. destruct (H4 (S j) c Hj) as (id & inf & E & R). exists id, inf. split; [|done].
    rewrite ring_slot_wrap. rewrite <- E. f_equal. f_equal. lia.
Qed.

Lemma quiescent_serve1 b s : quiescent s -> quiescent (serve1 b s).
Proof. intros [H1 H2 H3]. split; [done|done|]. cbn. by rewrite length_fmap. Qed.

Lemma intr_loop_run bs : forall fuel s tr, quiescent s -> completions bs (k_vdisk s) -> (length bs < fuel)%nat ->
  intr_loop fuel (enter L_vdisk s) tr = Done tt (enter L_vdisk (served bs s)) tr.
Proof.
  induction bs as [|b bs IH]; intros [|fuel] s tr Hq Hc Hf; cbn [length] in *; try lia; cbn [intr_loop served].
  - kstep (gets_run k_vdisk). change (k_vdisk (enter L_vdisk s)) with (k_vdisk s).
    pose proof (co_idx _ _ Hc) as E. cbn [length] in E. rewrite Z.add_0_r in E. unfold u16 in E.
    rewrite Z.mod_small in E by apply Hc. rewrite (proj2 (Z.eqb_eq _ _)); done.
  - pose proof (co_range _ _ Hc) as Hr. pose proof (co_idx _ _ Hc) as Ei. pose proof (co_count _ _ Hc) as Hn. cbn [length] in Ei, Hn.
    destruct (co_ring _ _ Hc 0%nat b eq_refl) as (id & inf & E1 & E2 & E3 & E4). rewrite Z.add_0_r in E1.
    set (v := k_vdisk s) in *. assert (E0 : gets k_vdisk (enter L_vdisk s) tr = Done v (enter L_vdisk s) tr) by done. kexact E0.
    rewrite (proj2 (Z.eqb_neq (v_used_idx v) (v_used_idx_dev v))).
    2: { rewrite Ei. unfold u16, NUM in *. Z.to_euclidean_division_equations. lia. }
    rewrite E1. kstep kret_run. rewrite E2. kstep kret_run. rewrite E3. cbn [Z.eqb negb]. rewrite E4. kstep kret_run.
    kstep modify_run. kstep (wakeup_run (Some (Ch_buf b))).
    { set (s1 := s <| k_bufs ::= alter (fun x => x <| b_disk := 0 |>) b |>).
      assert (Hq1 : quiescent s1) by (by destruct Hq; split). exact (quiescent_enter L_vdisk s1 Hq1 ltac:(done)). }
    kstep modify_run.
    etransitivity; [|apply (IH fuel (serve1 b s) tr); [by apply quiescent_serve1|exact (completions_next b bs _ Hc)|lia]].
    f_equal. exact (touch_enter L_vdisk (serve1 b s) (q_hart _ (quiescent_serve1 b s Hq))).
Qed.

Lemma virtio_disk_intr_run bs s tr : quiescent s -> k_locks s !! L_vdisk = None -> completions bs (k_vdisk s) ->
  virtio_disk_intr s tr = Done tt (touch (served bs s)) tr.
Proof.
  intros Hq Hl Hc. unfold virtio_disk_intr. kstep acquire_run; [apply Hq|done|].
  destruct (Rload_run VIRTIO_MMIO_INTERRUPT_STATUS (enter L_vdisk s) tr) as (st & E). kexact E. kstep Rstore_run.
  set (v := k_vdisk s) in *. assert (E0 : gets k_vdisk (enter L_vdisk s) tr = Done v (enter L_vdisk s) tr) by done. kexact E0.
  assert (Hfuel : Z.to_nat (u16 (v_used_idx_dev v - v_used_idx v)) = length bs).
  { rewrite (co_idx _ _ Hc). pose proof (co_count _ _ Hc). pose proof (co_range _ _ Hc). unfold u16, NUM in *.
    Z.to_euclidean_division_equations. lia. }
  rewrite Hfuel. kstep (intr_loop_run bs); [done|done|lia|].
  apply release_run.
  - clear -Hq. revert s Hq. induction bs as [|b bs IH]; intros s Hq; [apply Hq|]. by apply IH, quiescent_serve1.
  - clear -Hl. revert s Hl. induction bs as [|b bs IH]; intros s Hl; [done|]. by apply IH.
Qed.

(** ** The device serves the posted request *)
Lemma chain_posted b write n v : vdisk_idle v ->
  chain_at (posted b write n v) 0 = Some (request write n, negb write, b, 0%nat).
Proof.
  intros [_ _ _ H4 _ _ _ H8]. destruct v as [desc ? ? ? ? ? ? ? ops]. cbn in H4, H8.
  destruct desc as [|d0 [|d1 [|d2 desc]]]; try done. destruct ops as [|o0 ops]; [done|]. by destruct write.
Qed.

(** The transfer, and the entry in the used ring. *)
Definition transferred (b : nat) (write : bool) (bb : buf) (s : kstate) : kstate :=
  if write then
    s <| k_disk := fun m => if m =? b_blockno bb then b_data bb else k_disk s m |>
      <| k_dhist := (b_blockno bb, b_data bb) :: k_dhist s |>
  else s <| k_bufs := alter (fun x => x <| b_data := k_disk s (b_blockno bb) |>) b (k_bufs s) |>.
Definition used_posted (v : vdisk) : vdisk :=
  v <| v_info ::= alter (fun x => x <| vi_status := 0 |>) 0%nat |>
    <| v_used_ring ::= <[ring_slot (v_used_idx_dev v) := 0]> |>
    <| v_used_idx_dev := u16 (v_used_idx_dev v + 1) |>.

Lemma device_run b write bb v s : vdisk_idle v -> k_vdisk s = posted b write (b_blockno bb) v ->
  0 <= b_blockno bb < 2 ^ 31 -> k_bufs s !! b = Some (bb <| b_disk := 1 |>) ->
  device s = Some ((transferred b write bb s) <| k_vdisk ::= used_posted |>).
Proof.
  intros Hv Ev Hn Hb. unfold device. rewrite Ev.
  assert (Hring : v_avail_ring (posted b write (b_blockno bb) v) !! ring_slot (v_avail_idx (posted b write (b_blockno bb) v) - 1) = Some 0).
  { cbn. change (u16 (v_avail_idx v + 1) - 1) with (u16 (v_avail_idx v + 1) + -1). rewrite ring_slot_wrap.
    replace (v_avail_idx v + 1 + -1) with (v_avail_idx v) by lia. apply list_lookup_insert_eq.
    rewrite (vi_avail _ Hv). unfold ring_slot, NUM. pose proof (Z.mod_pos_bound (v_avail_idx v) 8). lia. }
  rewrite Hring. cbn [mbind option_bind]. change (Z.to_nat 0) with 0%nat. rewrite (chain_posted b write (b_blockno bb) v Hv).
  cbn [mbind option_bind]. rewrite Hb. cbn [mbind option_bind].
  assert (Es : vr_sector (request write (b_blockno bb)) / (BSIZE / 512) = b_blockno bb).
  { cbn [request vr_sector]. change (BSIZE / 512) with 2. unfold u32. rewrite Z.mod_small by lia. by rewrite Z.div_mul. }
  rewrite Es. by destruct write.
Qed.

Lemma completions_posted b write n v : vdisk_idle v -> completions [b] (used_posted (posted b write n v)).
Proof.
  intros Hv. split; cbn.
  - apply Hv.
  - by rewrite (vi_seen _ Hv).
  - unfold NUM. lia.
  - intros [|j] c Hj; [|done]. injection Hj as <-. rewrite Z.add_0_r. pose proof (vi_info _ Hv) as Hi.
    destruct (v_info v) as [|x0 l] eqn:E; [done|]. exists 0, (mkinfo (Some b) 0). split; [|by cbn].
    rewrite (vi_seen _ Hv). apply list_lookup_insert_eq.
    rewrite (vi_ring _ Hv). unfold ring_slot, NUM. pose proof (Z.mod_pos_bound (v_used_idx_dev v) 8). lia.
Qed.

(** ** The wait *)
(** The process registered on a channel, asleep, woken and resumed is as it was. *)
Lemma procs_back i s chan : solo i s ->
  alter (fun p => p <| p_state := RUNNING |>) i (wake (Some chan) <$>
    alter (fun p => p <| p_state := SLEEPING |>) i (alter (fun p => p <| p_chan := Some chan |>) i (k_procs s))) = k_procs s.
Proof.
  intros Hs. destruct (solo_proc i s Hs) as (p & Hp & Hrun). pose proof (solo_calm i s Hs) as Hcalm.
  apply list_eq. intros j. destruct (decide (i = j)) as [<-|Hne].
  - rewrite list_lookup_alter_eq, list_lookup_fmap, !list_lookup_alter_eq, Hp. cbn. f_equal.
    pose proof (Forall_lookup_1 _ _ _ _ Hcalm Hp) as Hc. unfold wake. cbn. rewrite !decide_True by done.
    destruct p. cbn in *. by rewrite Hc, Hrun.
  - rewrite list_lookup_alter_ne, list_lookup_fmap, !list_lookup_alter_ne by done.
    destruct (k_procs s !! j) as [q|] eqn:Hq; [|done]. cbn. f_equal. unfold wake.
    pose proof (Forall_lookup_1 _ _ _ _ Hcalm Hq) as Hc. by rewrite Hc, decide_False.
Qed.

(** The request has been served. *)
Definition finished (b : nat) (write : bool) (bb : buf) (s : kstate) : kstate :=
  let s1 := (transferred b write bb s) <| k_vdisk ::= used_posted |> in
  s1 <| k_bufs ::= alter (fun x => x <| b_disk := 0 |>) b |>
     <| k_vdisk ::= fun v => v <| v_used_idx := u16 (v_used_idx v + 1) |> |>.

Definition registered (i b : nat) (s : kstate) : kstate :=
  s <| k_procs := alter (fun q => q <| p_chan := Some (Ch_buf b) |>) i (k_procs s) |>.

Lemma disk_turn_run i b write bb s0 s : solo i s -> vdisk_idle (k_vdisk s0) ->
  k_vdisk s = posted b write (b_blockno bb) (k_vdisk s0) -> 0 <= b_blockno bb < 2 ^ 31 ->
  k_bufs s !! b = Some (bb <| b_disk := 1 |>) ->
  disk_turn (asleep i (registered i b s)) = enter (L_proc i) (finished b write bb s).
Proof.
  intros Hs Hv Ev Hn Hb. set (A := asleep i (registered i b s)). unfold disk_turn.
  destruct (solo_cpu i s Hs) as (c & Hc & Hcn & Hcp & Hci).
  assert (Hi : k_cpus A !! k_tp A ≫= c_proc = Some i).
  { change (alter push_cpu (k_tp s) (k_cpus s) !! k_tp s ≫= c_proc = Some i). by rewrite list_lookup_alter_eq, Hc. }
  rewrite Hi, (device_run b write bb (k_vdisk s0) A Hv Ev Hn Hb).
  set (s1 := (transferred b write bb A) <| k_vdisk ::= used_posted |>).
  assert (Hsame : k_tp s1 = k_tp s /\ k_cpus s1 = k_cpus A /\ k_locks s1 = k_locks A /\ k_procs s1 = k_procs A).
  { unfold s1, transferred. by destruct write. }
  destruct Hsame as (E1 & E2 & E3 & E4).
  assert (Hlocks : forall l, k_locks (off_cpu i s1) !! l = None).
  { intros l. change (delete (L_proc i) (k_locks s1) !! l = None). rewrite E3.
    change (k_locks A) with (<[L_proc i := k_tp s]> (k_locks s)). rewrite (solo_locks i s Hs). destruct (decide (l = L_proc i)) as [->|];
      [apply lookup_delete_eq|by rewrite lookup_delete_ne, lookup_insert_ne]. }
  rewrite (virtio_disk_intr_run [b]); [| |apply Hlocks|].
  - cbn [served]. transitivity ((enter (L_proc i) (finished b write bb s)) <| k_procs :=
      alter (fun p => p <| p_state := RUNNING |>) i (wake (Some (Ch_buf b)) <$>
        alter (fun p => p <| p_state := SLEEPING |>) i (alter (fun p => p <| p_chan := Some (Ch_buf b) |>) i (k_procs s))) |>).
    + unfold s1. by destruct write.
    + rewrite (procs_back i s (Ch_buf b) Hs). by destruct write.
  - split; [|intros j; apply Hlocks|].
    + exists ((push_cpu c) <| c_noff := 0 |> <| c_proc := None |>). split; [|split; cbn; lia].
      change (alter (fun c => c <| c_noff := 0 |> <| c_proc := None |>) (k_tp s1) (k_cpus s1) !! k_tp s1 = Some ((push_cpu c) <| c_noff := 0 |> <| c_proc := None |>)).
      rewrite E1, E2. change (k_cpus A) with (alter push_cpu (k_tp s) (k_cpus s)). by rewrite !list_lookup_alter_eq, Hc.
    + change (length (k_procs s1) = NPROC). rewrite E4. cbn. rewrite !length_alter. apply (solo_quiet i s Hs).
  - replace (k_vdisk (off_cpu i s1)) with (used_posted (posted b write (b_blockno bb) (k_vdisk s0))); [by apply completions_posted|].
    rewrite <- Ev. unfold s1. by destruct write.
Qed.

Lemma solo_finished i b write bb s : solo i s -> solo i (finished b write bb s).
Proof. apply solo_same. by destruct write. Qed.

(** The end of [sleep], once the scheduler has resumed the process. *)
Lemma resume_run i s c tr : solo i s -> k_cpus s !! k_tp s = Some c -> c_noff c = 0 ->
  (set_mycpu (fun c0 => c0 <| c_intena := c_sie c |>) ;; release (L_proc i)) (enter (L_proc i) s) tr = Done tt s tr.
Proof.
  intros Hs Hc Hn. kstep set_mycpu_run.
  assert (E : (enter (L_proc i) s) <| k_cpus := alter (fun c0 => c0 <| c_intena := c_sie c |>) (k_tp s) (k_cpus (enter (L_proc i) s)) |> = enter (L_proc i) s).
  { unfold enter. cbn. f_equal. eapply alter_at_id; [by rewrite list_lookup_alter_eq, Hc|].
    unfold push_cpu. cbn. by rewrite Hn. }
  etransitivity; [|apply (solo_release i s Hs (L_proc i) tr)]. f_equal. exact E.
Qed.

(** One turn of the environment is enough. *)
Lemma wait_done_run i b write bb s0 s tr : solo i s -> vdisk_idle (k_vdisk s0) ->
  k_vdisk s = posted b write (b_blockno bb) (k_vdisk s0) -> 0 <= b_blockno bb < 2 ^ 31 ->
  k_bufs s !! b = Some (bb <| b_disk := 1 |>) ->
  wait_done b (enter L_vdisk s) (disk_turn :: tr) = Done tt (enter L_vdisk (finished b write bb s)) tr.
Proof.
  intros Hs Hv Ev Hn Hb. unfold wait_done, loop. cbn [length]. set (fuel := S (length tr)). cbn [loop_fuel].
  kexact (get_buf_run (enter L_vdisk s) (disk_turn :: tr) b _ Hb). cbn [b_disk upd_field Z.eqb Pos.eqb].
  destruct (solo_cpu i s Hs) as (c & Hc & Hcn & Hcp & Hci). destruct (solo_proc i s Hs) as (p & Hp & Hrun).
  pose proof (solo_quiet i s Hs) as Hq. pose proof (solo_hart i s Hs) as Hh.
  set (s1 := registered i b s).
  assert (Hq1 : quiescent s1) by (apply quiescent_procs; [done|rewrite length_alter; apply Hq]).
  assert (Ep : sleep_prepare (Some (Ch_buf b)) (enter L_vdisk s) (disk_turn :: tr) = Done tt (enter L_vdisk s1) (disk_turn :: tr)).
  { rewrite (sleep_prepare_run i (push_cpu c)); [|by apply quiescent_enter|cbn; by rewrite list_lookup_alter_eq, Hc|done].
    f_equal. exact (touch_enter L_vdisk s1 (q_hart _ Hq1)). }
  kexact Ep.
  kstep release_run; [apply Hq1|cbn; by rewrite (solo_locks i s Hs)|].
  assert (Ht : touch s1 = s1) by (apply (touch_cpus s1 c Hc); unfold touch_cpu; rewrite Hcn; destruct c; cbn in *; by rewrite Hci).
  rewrite Ht.
  assert (Hp1 : k_procs s1 !! i = Some (p <| p_chan := Some (Ch_buf b) |>)) by (cbn; by rewrite list_lookup_alter_eq, Hp).
  pose proof (proj2 (sleep_blocks i _ c s1 Hq1 Hc Hcp Hp1 (Ch_buf b) eq_refl Hcn) disk_turn tr) as Esl.
  pose proof (solo_finished i b write bb s Hs) as Hs2. unfold s1 in Esl.
  rewrite (disk_turn_run i b write bb s0 s Hs Hv Ev Hn Hb) in Esl. set (s2 := finished b write bb s) in *.
  assert (Hc2 : k_cpus s2 !! k_tp s2 = Some c) by (unfold s2; by destruct write).
  rewrite (resume_run i s2 c tr Hs2 Hc2 Hcn) in Esl. kexact Esl.
  kstep (solo_acquire i s2 Hs2). kstep kret_run. cbn [loop_fuel fuel].
  assert (Hb2 : exists x, k_bufs (enter L_vdisk s2) !! b = Some x /\ b_disk x = 0).
  { unfold s2. destruct write; cbn; rewrite ?list_lookup_alter_eq, Hb; cbn; by eexists. }
  destruct Hb2 as (x & Hx & Hx0). kexact (get_buf_run (enter L_vdisk s2) tr b x Hx). by rewrite Hx0.
Qed.

(** ** Giving the descriptors back *)
Definition freed (k : nat) (v : vdisk) : vdisk :=
  v <| v_desc ::= alter (fun d => d <| vd_addr := VA_null |> <| vd_len := 0 |> <| vd_flags := 0 |> <| vd_next := 0 |>) k |>
    <| v_free ::= <[k := true]> |>.

Lemma free_desc_run i s k tr : solo i s -> (k < NUM)%nat -> v_free (k_vdisk s) !! k = Some false ->
  free_desc k (enter L_vdisk s) tr = Done tt (enter L_vdisk (s <| k_vdisk ::= freed k |>)) tr.
Proof.
  intros Hs Hk Hf. unfold free_desc. rewrite decide_False by lia.
  assert (E0 : gets k_vdisk (enter L_vdisk s) tr = Done (k_vdisk s) (enter L_vdisk s) tr) by done. kexact E0.
  rewrite Hf. cbn [default]. kstep modify_run. kstep modify_run.
  exact (enter_wakeup i (s <| k_vdisk ::= freed k |>) ltac:(by apply (solo_same i s)) L_vdisk Ch_diskfree tr ltac:(done)).
Qed.

Lemma free_chain_step i s k d fuel tr : solo i s -> (k < NUM)%nat -> v_free (k_vdisk s) !! k = Some false ->
  v_desc (k_vdisk s) !! k = Some d ->
  free_chain_loop (S fuel) k (enter L_vdisk s) tr =
    (if negb (Z.land (vd_flags d) VRING_DESC_F_NEXT =? 0) then free_chain_loop fuel (Z.to_nat (vd_next d)) else kret tt)
      (enter L_vdisk (s <| k_vdisk ::= freed k |>)) tr.
Proof.
  intros Hs Hk Hf Hd. cbn [free_chain_loop].
  assert (E0 : gets k_vdisk (enter L_vdisk s) tr = Done (k_vdisk s) (enter L_vdisk s) tr) by done. kexact E0.
  rewrite Hd. kstep kret_run. by kexact (free_desc_run i s k tr Hs Hk Hf).
Qed.

Lemma free_chain_run i s fuel tr : solo i s ->
  v_free (k_vdisk s) = [false; false; false; true; true; true; true; true] ->
  (exists d0 d1 d2 l, v_desc (k_vdisk s) = d0 :: d1 :: d2 :: l /\ vd_flags d0 = VRING_DESC_F_NEXT /\ vd_next d0 = 1 /\
    Z.land (vd_flags d1) VRING_DESC_F_NEXT = 1 /\ vd_next d1 = 2 /\ vd_flags d2 = VRING_DESC_F_WRITE) ->
  free_chain_loop (S (S (S fuel))) 0 (enter L_vdisk s) tr =
    Done tt (enter L_vdisk (s <| k_vdisk ::= fun v => freed 2 (freed 1 (freed 0 v)) |>)) tr.
Proof.
  intros Hs Hf (d0 & d1 & d2 & l & Hd & F0 & N0 & F1 & N1 & F2).
  rewrite (free_chain_step i s 0 d0) by (done || (unfold NUM; lia) || by rewrite ?Hf, ?Hd). rewrite F0, N0.
  change (negb (Z.land VRING_DESC_F_NEXT VRING_DESC_F_NEXT =? 0)) with true. cbv iota.
  set (s1 := s <| k_vdisk ::= freed 0 |>). assert (Hs1 : solo i s1) by (by apply (solo_same i s)).
  change (Z.to_nat 1) with 1%nat. rewrite (free_chain_step i s1 1 d1); [|done|unfold NUM; lia|cbn; by rewrite Hf|cbn; by rewrite Hd].
  rewrite F1, N1. change (negb (1 =? 0)) with true. cbv iota. set (s2 := s1 <| k_vdisk ::= freed 1 |>). assert (Hs2 : solo i s2) by (by apply (solo_same i s)).
  change (Z.to_nat 2) with 2%nat. rewrite (free_chain_step i s2 2 d2); [|done|unfold NUM; lia|cbn; by rewrite Hf|cbn; by rewrite Hd].
  by rewrite F2.
Qed.

(** The queue after the whole request is the one [disk_effect] names. *)
Lemma vdisk_after_eq b write n v : vdisk_idle v ->
  freed 2 (freed 1 (freed 0 ((used_posted (posted b write n v)) <| v_used_idx := u16 (v_used_idx v + 1) |>
    <| v_info ::= alter (fun x => x <| vi_b := None |>) 0%nat |>))) = vdisk_after v write n.
Proof.
  intros [H1 _ _ H4 _ _ H7 H8]. destruct v as [desc ai ar ud ur fr ui info ops]. cbn in *. subst fr.
  destruct desc as [|d0 [|d1 [|d2 desc]]]; try done. destruct ops as [|o0 ops]; [done|].
  destruct info as [|i0 info]; [done|]. by destruct write.
Qed.

Lemma bufs_after b write bb s : k_bufs s !! b = Some bb -> b_disk bb = 0 ->
  k_bufs (finished b write bb (waiting b write (b_blockno bb) s)) = k_bufs (disk_effect b write s).
Proof.
  intros Hb Hd. unfold disk_effect. rewrite Hb. destruct write; cbn; rewrite ?list_alter_alter_eq.
  - eapply alter_at_id; [done|]. destruct bb. cbn in *. by rewrite Hd.
  - eapply alter_at; [done|]. destruct bb. cbn in *. by rewrite Hd.
Qed.

Lemma virtio_disk_rw_run i b write s tr bb :
  solo i s -> vdisk_idle (k_vdisk s) -> k_bufs s !! b = Some bb -> b_disk bb = 0 -> 0 <= b_blockno bb < 2 ^ 31 ->
  virtio_disk_rw b write s (disk_turn :: tr) = Done tt (disk_effect b write s) tr.
Proof.
  intros Hs Hv Hb Hd Hn. rewrite (virtio_disk_rw_post i b write s _ bb Hs Hv Hb).
  set (s0 := waiting b write (b_blockno bb) s). assert (Hs0 : solo i s0) by (by apply (solo_same i s)).
  assert (Hb0 : k_bufs s0 !! b = Some (bb <| b_disk := 1 |>)) by (cbn; by rewrite list_lookup_alter_eq, Hb).
  kexact (wait_done_run i b write bb s s0 tr Hs0 Hv eq_refl Hn Hb0). kstep modify_run.
  set (s2 := finished b write bb s0). set (s3 := s2 <| k_vdisk ::= fun v => v <| v_info ::= alter (fun x => x <| vi_b := None |>) 0%nat |> |>).
  assert (Hs3 : solo i s3) by (apply (solo_same i s2); [done|by apply solo_finished]).
  assert (E3 : k_vdisk s3 = (used_posted (posted b write (b_blockno bb) (k_vdisk s))) <| v_used_idx := u16 (v_used_idx (k_vdisk s) + 1) |>
    <| v_info ::= alter (fun x => x <| vi_b := None |>) 0%nat |>) by (unfold s3, s2; by destruct write).
  pose proof (vi_desc _ Hv) as Hlen.
  assert (Ef : free_chain 0 (enter L_vdisk s3) tr = Done tt (enter L_vdisk (s3 <| k_vdisk ::= fun v => freed 2 (freed 1 (freed 0 v)) |>)) tr).
  { apply (free_chain_run i s3); [done|by rewrite E3|]. rewrite E3. cbn.
    destruct (v_desc (k_vdisk s)) as [|d0 [|d1 [|d2 l]]]; try done. cbn. eexists _, _, _, l. split; [done|]. by destruct write. }
  kexact Ef. set (s4 := s3 <| k_vdisk ::= fun v => freed 2 (freed 1 (freed 0 v)) |>).
  assert (Hs4 : solo i s4) by (by apply (solo_same i s3)). rewrite (solo_release i s4 Hs4). f_equal.
  assert (E4 : k_vdisk s4 = vdisk_after (k_vdisk s) write (b_blockno bb)).
  { change (k_vdisk s4) with (freed 2 (freed 1 (freed 0 (k_vdisk s3)))). rewrite E3. by apply (vdisk_after_eq b). }
  assert (E5 : k_bufs s4 = k_bufs (disk_effect b write s)) by exact (bufs_after b write bb s Hb Hd).
  transitivity ((disk_effect b write s) <| k_bufs := k_bufs s4 |> <| k_vdisk := k_vdisk s4 |>).
  - unfold disk_effect. rewrite Hb. unfold s4, s3, s2, s0. by destruct write.
  - rewrite E4, E5. unfold disk_effect. rewrite Hb. by destruct write.
Qed.

(** The driver keeps the promise on which the cache, the log and the file system
    are built. *)
#[export] Instance virtio_driver_ok : @DiskOk virtio_driver.
Proof.
  intros i b write s tr bb Hs Hv _ Hb Hd Hn. unfold disk_rw, virtio_driver.
  by rewrite (virtio_disk_rw_run i b write s [] bb Hs Hv Hb Hd Hn).
Qed.
End Rw.

(** C5. Called by a process that runs alone, with no request on its way,
    [virtio_disk_rw] fills in three descriptors and a request, sleeps until the
    interrupt handler has seen the completion, frees the descriptors, and
    returns; together with the device's turn the outcome is that block
    [b_blockno] has been written to the disk or read into the buffer, and the
    queue is idle again.  [Hload] and [Hstore] say of the platform that the
    device registers are not part of the kernel's memory. *)
Theorem virtio_disk_rw_spec `{Devices} i b (write : bool) s tr bb :
  (forall r s, exists v, dev_load (VIRTIO0 + r) s = (v, s)) -> (forall r v s, dev_store (VIRTIO0 + r) v s = s) ->
  solo i s -> vdisk_idle (k_vdisk s) -> k_bufs s !! b = Some bb -> b_disk bb = 0 -> 0 <= b_blockno bb < 2 ^ 31 ->
  exists s', virtio_disk_rw b write s (disk_turn :: tr) = Done tt s' tr /\
    solo i s' /\ vdisk_idle (k_vdisk s') /\ v_avail_idx (k_vdisk s') = u16 (v_avail_idx (k_vdisk s) + 1) /\
    k_bufs s' !! b = Some (if write then bb else bb <| b_data := k_disk s (b_blockno bb) |>) /\
    (forall c, c <> b -> k_bufs s' !! c = k_bufs s !! c) /\
    (forall n, k_disk s' n = if write && (n =? b_blockno bb) then b_data bb else k_disk s n) /\
    k_dhist s' = (if write then (b_blockno bb, b_data bb) :: k_dhist s else k_dhist s).
Proof.
  intros Hload Hstore Hs Hv Hb Hd Hn. exists (disk_effect b write s).
  split; [by apply (virtio_disk_rw_run Hload Hstore i b write s tr bb)|]. unfold disk_effect. rewrite Hb.
  pose proof (vdisk_after_idle (k_vdisk s) write (b_blockno bb) Hv) as Hi.
  destruct write; (split; [by apply (solo_same i s)|]); (split; [exact Hi|]); (split; [done|]).
  - repeat (split; [done|]). done.
  - split; [cbn; by rewrite list_lookup_alter_eq, Hb|]. split; [|done]. intros c Hc. by apply list_lookup_alter_ne.
Qed.

(** A platform whose registers read as zero. *)
Definition demo_devices : Devices := {| dev_load := fun _ s => (0, s); dev_store := fun _ _ s => s; dev_time := fun _ => 0 |}.

Lemma demo_alone_buf : k_bufs demo_alone !! 3%nat = Some buf_bss.
Proof. vm_compute. reflexivity. Qed.

Lemma virtio_disk_rw_spec_witness : exists s',
  @virtio_disk_rw demo_devices 3 false demo_alone [@disk_turn demo_devices] = Done tt s' [] /\
  k_bufs s' !! 3%nat = Some ((buf_bss <| b_data := demo_disk 0 |>)).
Proof.
  destruct (@virtio_disk_rw_spec demo_devices 1 3 false demo_alone [] buf_bss) as (s' & E & _ & _ & _ & Hb & _).
  - intros r s. exists 0. reflexivity.
  - reflexivity.
  - exact demo_alone_solo.
  - exact demo_alone_idle.
  - exact demo_alone_buf.
  - reflexivity.
  - split; [discriminate|reflexivity].
  - exists s'. split; [exact E|exact Hb].
Defined.
