(* ===== verification/Trap.v ===== *)
(** * Traps, interrupts and boot (kernel/trap.c, plic.c, main.c, forkret of proc.c)

    The C handlers that trampoline.S and kernelvec.S call.  The registers that a
    trap sets (sepc, scause, stval, the SPP bit) are fields of the hart; the
    return to user space is the value of satp that [usertrap] gives back to the
    trampoline. *)

From stdpp Require Import prelude list strings gmap.
From Stdlib Require Import ZArith Lia ZifyBool.
From S2P Require Import Prelude State Spinlock CString Kalloc Proc Sched Vm Uaccess Sleeplock.
From S2P Require Import Console Bio Log Fs File ProcLife Exec Syscall Virtio.
Local Open Scope Z_scope.

Definition SCAUSE_SYSCALL : Z := 8.
Definition SCAUSE_LOAD_FAULT : Z := 13.
Definition SCAUSE_STORE_FAULT : Z := 15.
Definition SCAUSE_EXTERNAL : Z := 0x8000000000000009.
Definition SCAUSE_TIMER : Z := 0x8000000000000005.

Section Trap.
Context `{DiskDriver} `{KernelLayout} `{Devices}.

(** ** Supervisor registers of this hart *)
Definition csr {A} (f : cpu -> A) : Kern A := let! c := mycpu in kret (f c).
Definition w_stvec (v : Z) : Kern unit := set_mycpu (fun c => c <| c_stvec := v |>).
Definition w_sepc (v : Z) : Kern unit := set_mycpu (fun c => c <| c_sepc := v |>).
Definition w_stimecmp (v : Z) : Kern unit := set_mycpu (fun c => c <| c_stimecmp := v |>).

Definition trapinit : Kern unit := initlock L_ticks.
Definition trapinithart : Kern unit := w_stvec kernelvec_addr.

(** ** The interrupt controller (plic.c) *)
Definition plicinit : Kern unit :=
  mmio_store (PLIC + UART0_IRQ * 4) 1 ;;
  mmio_store (PLIC + VIRTIO0_IRQ * 4) 1.

Definition plicinithart : Kern unit :=
  let! hart := cpuid in
  mmio_store (PLIC_SENABLE (Z.of_nat hart)) (Z.lor (Z.shiftl 1 UART0_IRQ) (Z.shiftl 1 VIRTIO0_IRQ)) ;;
  mmio_store (PLIC_SPRIORITY (Z.of_nat hart)) 0.

Definition plic_claim : Kern Z :=
  let! hart := cpuid in
  mmio_load (PLIC_SCLAIM (Z.of_nat hart)).

Definition plic_complete (irq : Z) : Kern unit :=
  let! hart := cpuid in
  mmio_store (PLIC_SCLAIM (Z.of_nat hart)) irq.

(** ** Interrupts *)
Definition clockintr : Kern unit :=
  let! hart := cpuid in
  when (Nat.eqb hart 0)
    (acquire L_ticks ;;
     modify (fun s => s <| k_ticks := u32 (k_ticks s + 1) |>) ;;
     wakeup (Some Ch_ticks) ;;
     release L_ticks) ;;
  let! t := gets dev_time in
  w_stimecmp (u64 (t + 1000000)).

Definition devintr : Kern Z :=
  let! scause := csr c_scause in
  if scause =? SCAUSE_EXTERNAL then
    let! irq := plic_claim in
    (if irq =? UART0_IRQ then uartintr
     else if irq =? VIRTIO0_IRQ then virtio_disk_intr
     else when (negb (irq =? 0))
       (let! _ := printk (lit "unexpected interrupt irq=%d" ++ [NEWLINE]) [A_word irq] in kret tt)) ;;
    when (negb (irq =? 0)) (plic_complete irq) ;;
    kret 1
  else if scause =? SCAUSE_TIMER then
    clockintr ;;
    kret 2
  else kret 0.

(** ** Return to user space *)
Definition prepare_return : Kern unit :=
  let! p := curproc in
  intr_off ;;
  w_stvec (TRAMPOLINE + uservec_off) ;;
  let! satp := csr c_satp in
  tf_store p TF_kernel_satp satp ;;
  let! pp := get_proc p in
  tf_store p TF_kernel_sp (p_kstack pp + PGSIZE) ;;
  tf_store p TF_kernel_trap usertrap_addr ;;
  let! hart := cpuid in
  tf_store p TF_kernel_hartid (Z.of_nat hart) ;;
  set_mycpu (fun c => c <| c_spp := false |> <| c_spie := true |>) ;;
  let! epc := tf_load p TF_epc in
  w_sepc epc.

(** ** Traps *)
(** What [usertrap] does with a trap that is not a system call; the result is
    [which_dev]. *)
Definition user_fault (p : nat) : Kern Z :=
  let! which_dev := devintr in
  if negb (which_dev =? 0) then kret which_dev else
  let! scause := csr c_scause in
  let! stval := csr c_stval in
  let! pp := get_proc p in
  let! fixed :=
    if (scause =? SCAUSE_STORE_FAULT) || (scause =? SCAUSE_LOAD_FAULT) then
      let! pa := vmfault (p_pagetable pp) (p_sz pp) stval (scause =? SCAUSE_LOAD_FAULT) in
      kret (negb (pa =? 0))
    else kret false in
  if (fixed : bool) then kret 0 else
  let! _ := printk (lit "usertrap(): unexpected scause 0x%lx pid=%d" ++ [NEWLINE]) [A_word scause; A_word (p_pid pp)] in
  let! sepc := csr c_sepc in
  let! _ := printk (lit "            sepc=0x%lx stval=0x%lx" ++ [NEWLINE]) [A_word sepc; A_word stval] in
  setkilled p ;;
  kret 0.

Definition usertrap : Kern Z :=
  let! spp := csr c_spp in
  if (spp : bool) then panic "usertrap: not from user mode" else
  w_stvec kernelvec_addr ;;
  let! p := curproc in
  let! sepc := csr c_sepc in
  tf_store p TF_epc sepc ;;
  let! scause := csr c_scause in
  let! which_dev :=
    if scause =? SCAUSE_SYSCALL then
      let! k := killed p in
      when (negb (k =? 0)) (kexit (-1)) ;;
      let! epc := tf_load p TF_epc in
      tf_store p TF_epc (u64 (epc + 4)) ;;
      intr_on ;;
      syscall ;;
      kret 0
    else user_fault p in
  let! k := killed p in
  when (negb (k =? 0)) (kexit (-1)) ;;
  when (which_dev =? 2) yield ;;
  prepare_return ;;
  let! pp := get_proc p in
  kret (MAKE_SATP (p_pagetable pp)).

(** [sstatus] is saved and restored: its SPP, SPIE and SIE bits. *)
Definition kerneltrap : Kern unit :=
  let! sepc := csr c_sepc in
  let! spp := csr c_spp in
  let! spie := csr c_spie in
  let! sie := csr c_sie in
  let! scause := csr c_scause in
  if negb spp then panic "kerneltrap: not from supervisor mode" else
  let! on := intr_get in
  if (on : bool) then panic "kerneltrap: interrupts enabled" else
  let! which_dev := devintr in
  if which_dev =? 0 then
    let! sepc := csr c_sepc in
    let! stval := csr c_stval in
    let! _ := printk (lit "scause=0x%lx sepc=0x%lx stval=0x%lx" ++ [NEWLINE]) [A_word scause; A_word sepc; A_word stval] in
    panic "kerneltrap"
  else
  let! p := if which_dev =? 2 then myproc else kret None in
  match p with Some _ => yield | None => kret tt end ;;
  w_sepc sepc ;;
  set_mycpu (fun c => c <| c_spp := spp |> <| c_spie := spie |> <| c_sie := sie |>).

(** ** The first run of a process (proc.c, [forkret]) *)
(** The result is the satp passed to the trampoline. *)
Definition forkret : Kern Z :=
  let! p := curproc in
  release (L_proc p) ;;
  let! first := gets k_first in
  when first
    (fsinit ROOTDEV ;;
     modify (fun s => s <| k_first := false |>) ;;
     let! r := kexec (lit "/init") [lit "/init"] in
     tf_store p TF_a0 (u64 r) ;;
     let! a0 := tf_load p TF_a0 in
     if a0 =? u64 (-1) then panic "exec" else kret tt) ;;
  prepare_return ;;
  let! pp := get_proc p in
  kret (MAKE_SATP (p_pagetable pp)).

(** ** Boot (main.c) *)
(** What hart 0 sets up before it enters the scheduler. *)
Definition boot : Kern unit :=
  consoleinit ;;
  printkinit ;;
  let! _ := printk [NEWLINE] [] in
  let! _ := printk (lit "xv6 kernel is booting" ++ [NEWLINE]) [] in
  let! _ := printk [NEWLINE] [] in
  kinit ;;
  kvminit ;;
  kvminithart ;;
  procinit ;;
  trapinit ;;
  trapinithart ;;
  plicinit ;;
  plicinithart ;;
  binit ;;
  iinit ;;
  fileinit ;;
  virtio_disk_init ;;
  userinit ;;
  modify (fun s => s <| k_started := true |>).

(** The other harts wait for it. *)
Definition boot_other : Kern unit :=
  loop (
    let! started := gets k_started in
    if (started : bool) then kret (Some tt) else environment ;; kret None) ;;
  let! hart := cpuid in
  let! _ := printk (lit "hart %d starting" ++ [NEWLINE]) [A_word (Z.of_nat hart)] in
  kvminithart ;;
  trapinithart ;;
  plicinithart.

(** [scheduler] never returns; it is given a number of rounds. *)
Definition main (rounds : nat) : Kern (list (option nat)) :=
  let! hart := cpuid in
  (if Nat.eqb hart 0 then boot else boot_other) ;;
  scheduler rounds.
End Trap.
