(* ===== verification/Ring.v ===== *)
(** * Circular buffers with free-running counters

    The pipe (kernel/pipe.c) and the console's input buffer (kernel/console.c)
    index an array of [N] bytes with 32-bit counters that are only ever
    incremented, modulo [N].  [slice] reads the bytes between two counters;
    because [N] divides [2^32] it does not matter that the counters wrap. *)

From stdpp Require Import prelude list.
From Stdlib Require Import ZArith Lia ZifyBool.
From S2P Require Import Prelude State.
Local Open Scope Z_scope.

(** The number of steps from counter [a] to counter [b]. *)
Definition dist (a b : Z) : Z := u32 (b - a).
Definition counter (a : Z) : Prop := 0 <= a < 2 ^ 32.

Lemma dist_pos a b : 0 <= dist a b < 2 ^ 32.
Proof. apply Z.mod_pos_bound. done. Qed.

Lemma counter_u32 a : counter (u32 a).
Proof. apply Z.mod_pos_bound. done. Qed.

Lemma dist_cases a b : counter a -> counter b ->
  dist a b = b - a /\ a <= b \/ dist a b = b - a + 2 ^ 32 /\ b < a.
Proof. unfold counter, dist, u32. intros. Z.to_euclidean_division_equations. lia. Qed.

Lemma dist_next a b : counter a -> counter b -> dist a b < 2 ^ 32 - 1 -> dist a (u32 (b + 1)) = dist a b + 1.
Proof. unfold counter, dist, u32. intros. Z.to_euclidean_division_equations. lia. Qed.

Lemma dist_back a b : counter a -> counter b -> 0 < dist a b -> dist a (u32 (b - 1)) = dist a b - 1.
Proof. unfold counter, dist, u32. intros. Z.to_euclidean_division_equations. lia. Qed.

Lemma dist_advance a b : counter a -> counter b -> 0 < dist a b -> dist (u32 (a + 1)) b = dist a b - 1.
Proof. unfold counter, dist, u32. intros. Z.to_euclidean_division_equations. lia. Qed.

Lemma dist_zero a b : counter a -> counter b -> (a =? b) = (dist a b =? 0).
Proof. intros Ha Hb. destruct (dist_cases a b Ha Hb); unfold counter in *; lia. Qed.

Section Ring.
Context (N : Z) (HN : 0 < N) (Hdiv : (N | 2 ^ 32)).

Definition ring_at (d : list Z) (a : Z) : Z := nth (Z.to_nat (a mod N)) d 0.
Definition ring_put (a v : Z) (d : list Z) : list Z := <[Z.to_nat (a mod N) := v]> d.
Definition slice (d : list Z) (a k : Z) : list Z := (fun j => ring_at d (a + Z.of_nat j)) <$> seq 0 (Z.to_nat k).

Lemma length_slice d a k : length (slice d a k) = Z.to_nat k.
Proof. unfold slice. by rewrite length_fmap, length_seq. Qed.

Lemma lookup_slice d a k j : (j < Z.to_nat k)%nat -> slice d a k !! j = Some (ring_at d (a + Z.of_nat j)).
Proof. intros Hj. unfold slice. by rewrite list_lookup_fmap, lookup_seq_lt. Qed.

Lemma slice_nil d a : slice d a 0 = [].
Proof. done. Qed.

Lemma mod_u32 a : u32 a mod N = a mod N.
Proof. unfold u32. by apply Z.mod_mod_divide. Qed.

Lemma slice_ext d d' a a' k :
  (forall j, 0 <= j < k -> ring_at d' (a' + j) = ring_at d (a + j)) -> slice d' a' k = slice d a k.
Proof. intros E. apply list_fmap_ext. intros j x Hj%lookup_seq. apply E. lia. Qed.

Lemma slice_u32 d a k : slice d (u32 a) k = slice d a k.
Proof.
  apply slice_ext. intros j _. unfold ring_at. by rewrite <- Zplus_mod_idemp_l, mod_u32, Zplus_mod_idemp_l.
Qed.

Lemma ring_at_u32 d a : ring_at d (u32 a) = ring_at d a.
Proof. unfold ring_at. by rewrite mod_u32. Qed.

Lemma u32_dist a b j : counter a -> counter b -> u32 (a + dist a b + j) = u32 (b + j).
Proof. unfold counter, dist, u32. intros. Z.to_euclidean_division_equations. lia. Qed.

(** Counting on from [a] to [b] addresses the byte of [b]. *)
Lemma ring_at_dist d a b j : counter a -> counter b -> ring_at d (a + dist a b + j) = ring_at d (b + j).
Proof. intros Ha Hb. by rewrite <- ring_at_u32, u32_dist, ring_at_u32. Qed.

Lemma slice_dist d a b k : counter a -> counter b -> slice d (a + dist a b) k = slice d b k.
Proof. intros Ha Hb. apply slice_ext. intros j _. by apply ring_at_dist. Qed.

Lemma slice_app d a k1 k2 : 0 <= k1 -> 0 <= k2 -> slice d a (k1 + k2) = slice d a k1 ++ slice d (a + k1) k2.
Proof.
  intros H1 H2. unfold slice. rewrite Z2Nat.inj_add, seq_app, fmap_app by done. f_equal. cbn [Nat.add].
  rewrite <- (Nat.add_0_r (Z.to_nat k1)), <- fmap_add_seq, <- list_fmap_compose. apply list_fmap_ext.
  intros j x _. cbn. f_equal. lia.
Qed.

Lemma slice_one d a : slice d a 1 = [ring_at d a].
Proof. change (slice d a 1) with [ring_at d (a + 0)]. by rewrite Z.add_0_r. Qed.

Lemma slice_snoc d a k : 0 <= k -> slice d a (k + 1) = slice d a k ++ [ring_at d (a + k)].
Proof. intros Hk. by rewrite slice_app, slice_one. Qed.

Lemma slice_cons d a k : 0 <= k -> slice d a (1 + k) = ring_at d a :: slice d (a + 1) k.
Proof. intros Hk. by rewrite slice_app, slice_one. Qed.

Lemma ring_at_put d a b v : length d = Z.to_nat N ->
  ring_at (ring_put a v d) b = if decide (b mod N = a mod N) then v else ring_at d b.
Proof.
  intros Hd. unfold ring_at, ring_put. rewrite !nth_lookup.
  pose proof (Z.mod_pos_bound a N HN). pose proof (Z.mod_pos_bound b N HN).
  destruct (decide _) as [->|Hne]; [by rewrite list_lookup_insert_eq by lia|]. by rewrite list_lookup_insert_ne by lia.
Qed.

(** A byte stored outside a slice, and right behind it. *)
Lemma slice_put d a k b v : length d = Z.to_nat N -> a + k <= b < a + N -> slice (ring_put b v d) a k = slice d a k.
Proof.
  intros Hd Hb. apply slice_ext. intros j Hj. rewrite ring_at_put by done. apply decide_False.
  intros E%Z.cong_iff_0. apply Z.mod_divide in E as [q E]; [|lia].
  destruct (Z.lt_ge_cases q 0); nia.
Qed.

Lemma slice_push d a k v : length d = Z.to_nat N -> 0 <= k < N -> slice (ring_put (a + k) v d) a (k + 1) = slice d a k ++ [v].
Proof.
  intros Hd Hk. rewrite slice_snoc, slice_put, ring_at_put by (done || lia). by rewrite decide_True.
Qed.

(** The counter that has gone around addresses the same bytes. *)
Lemma ring_put_u32 d a v : ring_put (u32 a) v d = ring_put a v d.
Proof. unfold ring_put. by rewrite mod_u32. Qed.

Lemma ring_put_dist d a b v : counter a -> counter b -> ring_put b v d = ring_put (a + dist a b) v d.
Proof.
  intros Ha Hb. rewrite <- (ring_put_u32 d (a + _)), <- (Z.add_0_r (a + _)), u32_dist, Z.add_0_r by done.
  by rewrite ring_put_u32.
Qed.
End Ring.
