(* ===== verification/PipeSpec.v ===== *)
(** * The pipe is a bounded first-in first-out queue

    [contents] reads the queue off the circular buffer and its two free-running
    32-bit counters.  [pipewrite] appends to it and [piperead] takes from its
    front, also when a counter has wrapped around. *)

From stdpp Require Import prelude list strings gmap.
From Stdlib Require Import ZArith Lia ZifyBool.
From S2P Require Import Prelude State Spinlock CString Kalloc Proc Vm Uaccess Sleeplock Bio File Ring.
Local Open Scope Z_scope.

(** ** The queue *)
Definition queued (p : pipe) : Z := dist (pi_nread p) (pi_nwrite p).
Definition contents (p : pipe) : list Z := slice PIPESIZE (pi_data p) (pi_nread p) (queued p).

Record pipe_ok (p : pipe) : Prop := {
  po_len : length (pi_data p) = Z.to_nat PIPESIZE;
  po_read : counter (pi_nread p);
  po_write : counter (pi_nwrite p);
  po_room : queued p <= PIPESIZE }.

(** What one iteration of each loop does to the pipe. *)
Definition push (ch : Z) (p : pipe) : pipe := (pipe_put (pi_nwrite p) ch p) <| pi_nwrite := u32 (pi_nwrite p + 1) |>.
Definition pop (p : pipe) : pipe := p <| pi_nread := u32 (pi_nread p + 1) |>.

Lemma PIPESIZE_div : (PIPESIZE | 2 ^ 32).
Proof. by exists (2 ^ 23). Qed.

Lemma queued_pos p : 0 <= queued p.
Proof. apply dist_pos. Qed.

(** The tests of the code: the pipe is empty, the pipe is full. *)
Lemma pipe_empty p : pipe_ok p -> (pi_nread p =? pi_nwrite p) = (queued p =? 0).
Proof. intros [_ H1 H2 _]. by apply dist_zero. Qed.

Lemma pipe_full p : pipe_ok p -> (pi_nwrite p =? u32 (pi_nread p + PIPESIZE)) = (queued p =? PIPESIZE).
Proof.
  intros [_ H1 H2 H3]. pose proof (dist_cases _ _ H1 H2). unfold queued, counter, u32, PIPESIZE in *.
  set (q := dist _ _) in *. clearbody q. Z.to_euclidean_division_equations. lia.
Qed.

Lemma push_queued ch p : pipe_ok p -> queued p < PIPESIZE -> queued (push ch p) = queued p + 1.
Proof. intros [_ H1 H2 _] Hlt. apply (dist_next (pi_nread p)); [done|done|]. unfold queued, PIPESIZE in *. lia. Qed.

Lemma pop_queued p : pipe_ok p -> 0 < queued p -> queued (pop p) = queued p - 1.
Proof. intros [_ H1 H2 _] Hlt. by apply dist_advance. Qed.

Lemma push_ok ch p : pipe_ok p -> queued p < PIPESIZE -> pipe_ok (push ch p).
Proof.
  intros Hp Hlt. pose proof (push_queued ch p Hp Hlt). destruct Hp as [H1 H2 H3 H4].
  split; [cbn; by rewrite length_insert|done|apply counter_u32|lia].
Qed.

Lemma pop_ok p : pipe_ok p -> 0 < queued p -> pipe_ok (pop p).
Proof.
  intros Hp Hlt. pose proof (pop_queued p Hp Hlt). destruct Hp as [H1 H2 H3 H4].
  split; [done|apply counter_u32|done|lia].
Qed.

Lemma contents_push ch p : pipe_ok p -> queued p < PIPESIZE -> contents (push ch p) = contents p ++ [ch].
Proof.
  intros Hp Hlt. unfold contents. rewrite push_queued by done. destruct Hp as [H1 H2 H3 H4].
  change (pi_data (push ch p)) with (ring_put PIPESIZE (pi_nwrite p) ch (pi_data p)).
  rewrite (ring_put_dist PIPESIZE PIPESIZE_div _ (pi_nread p)) by done. apply slice_push; [done|done|].
  split; [apply queued_pos|done].
Qed.

Lemma contents_pop p : pipe_ok p -> 0 < queued p -> contents p = pipe_at p (pi_nread p) :: contents (pop p).
Proof.
  intros Hp Hlt. unfold contents. rewrite pop_queued by done.
  change (pi_data (pop p)) with (pi_data p). change (pi_nread (pop p)) with (u32 (pi_nread p + 1)).
  rewrite (slice_u32 PIPESIZE PIPESIZE_div). replace (queued p) with (1 + (queued p - 1)) at 1 by lia. apply slice_cons. lia.
Qed.

Lemma length_contents p : length (contents p) = Z.to_nat (queued p).
Proof. apply length_slice. Qed.

(** A sequence of writes. *)
Definition push_all (l : list Z) (p : pipe) : pipe := foldl (fun p ch => push ch p) p l.

Lemma push_all_ok l : forall p, pipe_ok p -> queued p + Z.of_nat (length l) <= PIPESIZE ->
  pipe_ok (push_all l p) /\ contents (push_all l p) = contents p ++ l /\
  pi_readopen (push_all l p) = pi_readopen p /\ pi_writeopen (push_all l p) = pi_writeopen p.
Proof.
  induction l as [|ch l IH]; intros p Hp Hl; cbn [push_all foldl length] in *; [by rewrite app_nil_r|].
  destruct (IH (push ch p)) as (H1 & H2 & H3 & H4); [apply push_ok; (done || lia)|rewrite push_queued by (done || lia); lia|].
  unfold push_all in *. split; [done|]. split; [|done]. rewrite H2, contents_push by (done || lia). by rewrite <- app_assoc.
Qed.

(** ** One byte to or from the user *)
Section Transfer.
Context `{KL : KernelLayout} (Hend : 0 < kernel_end) (i : nat) (pi : Z) (tr : list (kstate -> kstate)).

Abbreviation held s := (enter (L_pipe pi) s).
Abbreviation with_pipe p s := (s <| k_pipes := <[pi := p]> (k_pipes s) |>).

Lemma copyin_byte root psz va s l : pt_ok (k_mem s) root l -> 0 <= va -> va + 1 <= MAXVA ->
  user_page (pte_val (k_mem s) root) va <> 0 ->
  copyin root psz va 1 s tr = Done (0, [user_byte (k_mem s) root va]) s tr.
Proof.
  intros Hpt Hva Hmax Hu. unfold copyin.
  rewrite (copyin_loop_run Hend root _ [] psz va 1 s tr l); try done. intros x Hx. by replace x with va by lia.
Qed.

Lemma get_pipe_run s p : k_pipes s !! pi = Some p -> get_pipe pi s tr = Done p s tr.
Proof. intros Hp. unfold get_pipe. kstep (eq_refl : kget s tr = Done s s tr). by rewrite Hp. Qed.

Lemma upd_pipe_run s p f : k_pipes s !! pi = Some p -> upd_pipe pi f s tr = Done tt (with_pipe (f p) s) tr.
Proof.
  intros Hp. unfold upd_pipe, modify. f_equal. unfold upd_field. cbn. f_equal. apply map_eq. intros k.
  destruct (decide (k = pi)) as [->|]; [by rewrite lookup_alter_eq, lookup_insert_eq, Hp|by rewrite lookup_alter_ne, lookup_insert_ne].
Qed.

Lemma held_killed s pr : solo i s -> k_procs s !! i = Some pr -> killed i (held s) tr = Done (p_killed pr) (held s) tr.
Proof.
  intros Hs Hp. rewrite (killed_run i (held s) tr pr); [|by apply (enter_quiescent i)|done].
  by rewrite touch_enter by apply (solo_hart i s Hs).
Qed.

Lemma pipe_room_run s p pr : solo i s -> k_pipes s !! pi = Some p -> k_procs s !! i = Some pr ->
  pipe_ok p -> queued p < PIPESIZE -> pi_readopen p = true -> p_killed pr = 0 ->
  pipe_room pi i (held s) tr = Done true (held s) tr.
Proof.
  intros Hs Hp Hpr Hok Hlt Hopen Hk. apply loop_first. kstep (get_pipe_run (held s) p Hp). rewrite Hopen. cbn [negb].
  kstep (held_killed s pr Hs Hpr). rewrite Hk. kstep kret_run. kstep (get_pipe_run (held s) p Hp).
  rewrite (pipe_full p Hok). rewrite (proj2 (Z.eqb_neq _ _)) by lia. done.
Qed.

(** Without a reader, or for a killed process, the write is given up. *)
Lemma pipe_room_dead s p pr : solo i s -> k_pipes s !! pi = Some p -> k_procs s !! i = Some pr ->
  pi_readopen p = false \/ p_killed pr <> 0 ->
  pipe_room pi i (held s) tr = Done false s tr.
Proof.
  intros Hs Hp Hpr Hdead. apply loop_first. kstep (get_pipe_run (held s) p Hp).
  assert (E : (if negb (pi_readopen p) then kret true else let! k := killed i in kret (negb (k =? 0))) (held s) tr = Done true (held s) tr).
  { destruct (pi_readopen p); cbn [negb]; [|done]. kstep (held_killed s pr Hs Hpr). unfold kret. f_equal.
    destruct Hdead as [|Hk]; [done|]. by rewrite (proj2 (Z.eqb_neq _ _) Hk). }
  kexact E. kexact (solo_release i s Hs (L_pipe pi) tr). done.
Qed.

Lemma pipe_data_run s p : k_pipes s !! pi = Some p -> pipe_ok p -> 0 < queued p \/ pi_writeopen p = false ->
  pipe_data pi i (held s) tr = Done true (held s) tr.
Proof.
  intros Hp Hok Hready. apply loop_first. kstep (get_pipe_run (held s) p Hp). rewrite (pipe_empty p Hok).
  destruct (Z.eqb_spec (queued p) 0); cbn [andb]; [|done]. destruct Hready as [|Hw]; [lia|]. by rewrite Hw.
Qed.

(** ** The loops *)
Lemma pipewrite_loop_run pr addr l left : forall s p k,
  solo i s -> k_pipes s !! pi = Some p -> k_procs s !! i = Some pr -> pipe_ok p ->
  pi_readopen p = true -> p_killed pr = 0 -> queued p + Z.of_nat left <= PIPESIZE ->
  pt_ok (k_mem s) (p_pagetable pr) l -> 0 <= addr + k -> addr + k + Z.of_nat left <= MAXVA ->
  accessible (pte_val (k_mem s) (p_pagetable pr)) (addr + k) (Z.of_nat left) ->
  pipewrite_loop left pi i addr k (held s) tr =
    Done (Some (k + Z.of_nat left))
      (held (with_pipe (push_all (read_bytes (user_byte (k_mem s) (p_pagetable pr)) (addr + k) left) p) s)) tr.
Proof.
  induction left as [|left IH]; intros s p k Hs Hp Hpr Hok Hopen Hk Hroom Hpt Ha Hmax Hacc; cbn [pipewrite_loop].
  - unfold kret. rewrite Z.add_0_r. do 2 f_equal. destruct s. cbn in *. f_equal. by rewrite insert_id.
  - kexact (pipe_room_run s p pr Hs Hp Hpr Hok ltac:(lia) Hopen Hk). cbn [negb].
    kexact (get_proc_run (held s) tr i pr Hpr). assert (MAXVA < 2 ^ 64) by done. unfold u64. rewrite Z.mod_small by lia.
    assert (Hu : user_page (pte_val (k_mem s) (p_pagetable pr)) (addr + k) <> 0) by (apply Hacc; lia).
    kexact (copyin_byte (p_pagetable pr) (p_sz pr) (addr + k) (held s) l Hpt Ha ltac:(lia) Hu).
    cbn [Z.eqb].
    set (ch := user_byte (k_mem (held s)) (p_pagetable pr) (addr + k)).
    kexact (upd_pipe_run (held s) p (fun p => (pipe_put (pi_nwrite p) (nth 0 [ch] 0) p) <| pi_nwrite := u32 (pi_nwrite p + 1) |>) Hp).
    change (with_pipe _ (held s)) with (held (with_pipe (push ch p) s)).
    assert (Hs1 : solo i (with_pipe (push ch p) s)) by (by apply (solo_same i s)).
    rewrite (IH (with_pipe (push ch p) s) (push ch p) (k + 1)); try done.
    + unfold push_all. cbn [foldl]. change (k_mem (with_pipe (push ch p) s)) with (k_mem s).
      replace (addr + (k + 1)) with (addr + k + 1) by lia. fold ch. f_equal; [f_equal; lia|].
      destruct s. unfold enter. cbn. by rewrite insert_insert_eq.
    + cbn. apply lookup_insert_eq.
    + apply push_ok; [done|lia].
    + rewrite push_queued by (done || lia). lia.
    + lia.
    + lia.
    + intros x Hx. apply Hacc. lia.
Qed.

Lemma copyout_byte root psz va ch s l : pt_ok (k_mem s) root l -> user_sep (k_mem s) root -> 0 <= va -> va + 1 <= MAXVA ->
  writable (pte_val (k_mem s) root) va 1 ->
  exists m, copyout root psz va [ch] s tr = Done 0 (s <| k_mem := m |>) tr /\
    copied (pte_val (k_mem s) root) va [ch] (k_mem s) m /\ off_tables (k_mem s) root m.
Proof. intros Hpt Hsep Hva Hmax Hw. by apply (copyout_loop_run Hend root 2 psz va [ch] s tr l); auto. Qed.

(** The pipe after [n] bytes have been taken. *)
Definition pop_all (n : nat) (p : pipe) : pipe := Nat.iter n pop p.

Lemma pop_all_S n p : pop_all (S n) p = pop_all n (pop p).
Proof. unfold pop_all. apply Nat.iter_succ_r. Qed.

Lemma pop_all_ok n : forall p, pipe_ok p -> Z.of_nat n <= queued p ->
  pipe_ok (pop_all n p) /\ contents (pop_all n p) = drop n (contents p).
Proof.
  induction n as [|n IH]; intros p Hp Hn; [done|]. rewrite pop_all_S.
  destruct (IH (pop p)) as [H1 H2]; [apply pop_ok; (done || lia)|rewrite pop_queued by (done || lia); lia|].
  split; [done|]. rewrite H2, (contents_pop p) by (done || lia). done.
Qed.

Lemma piperead_loop_run pr addr l left : forall s p k,
  solo i s -> k_pipes s !! pi = Some p -> k_procs s !! i = Some pr -> pipe_ok p ->
  pt_ok (k_mem s) (p_pagetable pr) l -> user_sep (k_mem s) (p_pagetable pr) ->
  let n := Nat.min left (Z.to_nat (queued p)) in
  0 <= addr + k -> addr + k + Z.of_nat n <= MAXVA -> 0 <= k ->
  writable (pte_val (k_mem s) (p_pagetable pr)) (addr + k) (Z.of_nat n) ->
  exists m, piperead_loop left pi i addr k (held s) tr =
      Done (k + Z.of_nat n) (held ((with_pipe (pop_all n p) s) <| k_mem := m |>)) tr /\
    copied (pte_val (k_mem s) (p_pagetable pr)) (addr + k) (take n (contents p)) (k_mem s) m /\
    off_tables (k_mem s) (p_pagetable pr) m.
Proof.
  assert (Hz : forall s p (k : Z), k_pipes s !! pi = Some p -> exists m,
    kret k (held s) tr = Done (k + Z.of_nat 0) (held ((with_pipe (pop_all 0 p) s) <| k_mem := m |>)) tr /\ m = k_mem s).
  { intros s p k Hp. exists (k_mem s). split; [|done]. unfold kret. rewrite Z.add_0_r. f_equal. destruct s. cbn in *. f_equal. by rewrite insert_id. }
  induction left as [|left IH]; intros s p k Hs Hp Hpr Hok Hpt Hsep n Ha Hmax Hk Hw.
  { destruct (Hz s p k Hp) as (m & E & ->). exists (k_mem s). split; [exact E|]. split; [by split|done]. }
  pose proof (queued_pos p). destruct (Z.eqb_spec (queued p) 0) as [Hq|Hq].
  { assert (n = 0)%nat as -> by (unfold n; lia). destruct (Hz s p k Hp) as (m & E & ->). exists (k_mem s).
    split; [|split; [by split|done]]. cbn [piperead_loop]. kexact (get_pipe_run (held s) p Hp). by rewrite (pipe_empty p Hok), Hq. }
  set (ch := pipe_at p (pi_nread p)). set (root := p_pagetable pr) in *.
  destruct (copyout_byte root (p_sz pr) (addr + k) ch (held s) l Hpt Hsep Ha) as (m1 & E1 & C1 & O1); [lia|intros x Hx; apply Hw; lia|].
  set (s1 := (with_pipe (pop p) s) <| k_mem := m1 |>).
  assert (E0 : piperead_loop (S left) pi i addr k (held s) tr = piperead_loop left pi i addr (k + 1) (held s1) tr).
  { cbn [piperead_loop]. kexact (get_pipe_run (held s) p Hp). rewrite (pipe_empty p Hok), (proj2 (Z.eqb_neq _ _) Hq).
    kexact (get_proc_run (held s) tr i pr Hpr). assert (MAXVA < 2 ^ 64) by done. unfold u64. rewrite Z.mod_small by lia.
    kexact E1. cbn [Z.eqb].
    set (s0 := (held s) <| k_mem := m1 |>). kexact (upd_pipe_run s0 p (fun p => p <| pi_nread := u32 (pi_nread p + 1) |>) Hp). done. }
  rewrite E0.
  assert (Hf : forall x, pte_val m1 root x = pte_val (k_mem s) root x) by (intros x; by apply pte_val_ext).
  assert (Hn : n = S (Nat.min left (Z.to_nat (queued (pop p))))) by (unfold n; rewrite pop_queued by (done || lia); lia).
  destruct (IH s1 (pop p) (k + 1)) as (m & E & C & O); try done.
  - by apply (solo_same i s).
  - cbn. apply lookup_insert_eq.
  - apply pop_ok; [done|lia].
  - by apply (pt_ok_ext (k_mem s) m1 root l l).
  - by apply (user_sep_ext root (k_mem s)).
  - lia.
  - lia.
  - lia.
  - cbn. intros x Hx. unfold user_page. rewrite Hf. apply Hw. lia.
  - exists m. rewrite Hn in *. split; [|split].
    + rewrite pop_all_S. etransitivity; [exact E|]. f_equal; [lia|]. destruct s. unfold s1, enter. cbn. by rewrite insert_insert_eq.
    + rewrite (contents_pop p) by (done || lia). cbn [take]. fold ch. apply (copied_app _ _ [ch] _ _ m1).
      * intros x y Hx Hy. assert (forall z, addr + k <= z < addr + k + Z.of_nat (length ([ch] ++ take (Nat.min left (Z.to_nat (queued (pop p)))) (contents (pop p)))) ->
          user_page (pte_val (k_mem s) root) z <> 0) as Hu by (intros z Hz'; rewrite length_app, length_take, length_contents in Hz'; cbn [length] in Hz'; apply Hw; lia).
        apply (phys_inj root (k_mem s)); try done; try lia; by apply Hu.
      * exact C1.
      * eapply copied_ext; [|replace (addr + k + Z.of_nat (length [ch])) with (addr + (k + 1)) by (cbn; lia); exact C]. exact Hf.
    + intros q t b Hq1 Hq2 Ht Hb. transitivity (m1 b); [|exact (O1 q t b Hq1 Hq2 Ht Hb)]. eapply (O q t); try done.
      cbn. rewrite (tbl_ext (k_mem s) m1); (done || lia).
Qed.
End Transfer.


(** C28. [piperead] of a pipe with data takes the first [min n queued] bytes off the
    queue and stores exactly these at the user's address, in order; it returns
    their number and changes no other memory.  On an empty pipe whose write end
    is closed it returns 0. *)
Theorem piperead_spec `{KernelLayout} i pi addr n s tr p pr l :
  0 < kernel_end -> solo i s -> k_pipes s !! pi = Some p -> k_procs s !! i = Some pr -> pipe_ok p ->
  pt_ok (k_mem s) (p_pagetable pr) l -> user_sep (k_mem s) (p_pagetable pr) ->
  let k := Z.min n (queued p) in
  0 <= addr -> 0 <= n -> addr + k <= MAXVA -> writable (pte_val (k_mem s) (p_pagetable pr)) addr k ->
  0 < queued p \/ pi_writeopen p = false ->
  exists m p', piperead pi addr n s tr = Done k (s <| k_pipes := <[pi := p']> (k_pipes s) |> <| k_mem := m |>) tr /\ pipe_ok p' /\
    contents p = take (Z.to_nat k) (contents p) ++ contents p' /\
    copied (pte_val (k_mem s) (p_pagetable pr)) addr (take (Z.to_nat k) (contents p)) (k_mem s) m /\
    forall va, pte_val m (p_pagetable pr) va = pte_val (k_mem s) (p_pagetable pr) va.
Proof.
  intros Hend Hs Hp Hpr Hok Hpt Hsep k Ha Hn Hmax Hw Hready. pose proof (queued_pos p).
  assert (Ek : Nat.min (Z.to_nat n) (Z.to_nat (queued p)) = Z.to_nat k) by (unfold k; lia).
  destruct (piperead_loop_run Hend i pi tr pr addr l (Z.to_nat n) s p 0 Hs Hp Hpr Hok Hpt Hsep) as (m & E & C & O);
    rewrite ?Ek, ?Z.add_0_r, ?Z2Nat.id in *; try lia; [done|].
  destruct (pop_all_ok (Z.to_nat k) p Hok) as [H1 H2]; [unfold k; lia|].
  exists m, (pop_all (Z.to_nat k) p). split; [|split; [done|split; [|split; [done|intros va; by apply pte_val_ext]]]].
  - unfold piperead. kstep (solo_curproc i s Hs). kstep (solo_acquire i s Hs).
    kexact (pipe_data_run i pi tr s p Hp Hok Hready). cbn [negb]. kexact E. rewrite Z.add_0_l.
    set (s1 := _ <| k_mem := m |>). assert (Hs1 : solo i s1) by (by apply (solo_same i s)).
    kstep (enter_wakeup i s1 Hs1 (L_pipe pi) (Ch_nwrite pi) tr); [done|]. kexact (solo_release i s1 Hs1 (L_pipe pi) tr). done.
  - by rewrite H2, take_drop.
Qed.

(** ** A pipe whose counters are about to wrap *)
#[local] Existing Instance demo_layout.
Definition demo_reader : proc := demo_running <| p_pagetable := demo_root |> <| p_sz := PGSIZE |>.
Definition demo_ring : pipe := mkpipe (replicate 510 0 ++ [104; 105]) (2 ^ 32 - 2) 0 true true.
Definition demo_piped : kstate :=
  demo_alone <| k_procs := <[1%nat := demo_reader]> (replicate NPROC proc_bss) |>
    <| k_mem := k_mem demo_user |> <| k_pipes := {[ 7 := demo_ring ]} |>.

Lemma demo_piped_solo : solo 1 demo_piped.
Proof.
  split.
  - split; [|done|done]. exists (boot_cpu <| c_proc := Some 1%nat |>). split; [done|]. split; cbn; [lia|done].
  - done.
  - by exists (boot_cpu <| c_proc := Some 1%nat |>).
  - by exists demo_reader.
  - apply Forall_insert; [|done]. by apply Forall_replicate.
Qed.

Lemma demo_ring_ok : pipe_ok demo_ring.
Proof. by split; vm_compute. Qed.

Lemma demo_range va k : 0 <= va -> va + k <= PGSIZE -> accessible (pte_val (k_mem demo_user) demo_root) va k /\
  writable (pte_val (k_mem demo_user) demo_root) va k.
Proof.
  intros Hva Hk. destruct demo_user_ok as (l & _ & Hval).
  assert (Hu : forall x, va <= x < va + k -> user_page (pte_val (k_mem demo_user) demo_root) x <> 0).
  { intros x Hx. rewrite demo_user_page by lia. by rewrite decide_True by lia. }
  split; [done|]. intros x Hx. split; [by apply Hu|]. rewrite Hval by (change MAXVA with (2 ^ 38); unfold PGSIZE in *; lia).
  by rewrite decide_True by (unfold PGSIZE in *; lia).
Qed.


Lemma piperead_spec_witness : exists m p', piperead 7 16 1 demo_piped [] = Done 1 (demo_piped <| k_pipes := {[ 7 := p' ]} |> <| k_mem := m |>) [] /\
  contents p' = [105] /\ m 0x80300010 = 104.
Proof.
  destruct demo_user_ok as (l & Hstep & Hval).
  destruct (piperead_spec 1 7 16 1 demo_piped [] demo_ring demo_reader l) as (m & p' & E & _ & C & (M & _) & _).
  - reflexivity.
  - exact demo_piped_solo.
  - reflexivity.
  - reflexivity.
  - exact demo_ring_ok.
  - apply Hstep.
  - exact demo_user_sep.
  - discriminate.
  - discriminate.
  - vm_compute. discriminate.
  - apply (demo_range 16 1); [discriminate|unfold PGSIZE; lia].
  - left. reflexivity.
  - exists m, p'. split; [exact E|]. split.
    + change (contents demo_ring) with [104; 105] in C. injection C as C. symmetry. exact C.
    + assert (M0 : m (phys (pte_val (k_mem demo_user) demo_root) 16) = 104) by exact (M 0%nat 104 eq_refl).
      unfold phys in M0. rewrite (demo_user_page 16) in M0 by discriminate.
      rewrite decide_True in M0 by reflexivity. exact M0.
Defined.
