(* ===== verification/ConsoleSpec.v ===== *)
(** * The console's line editor

    The input buffer holds the lines that [consoleread] may take and, behind
    them, the line being edited.  [consoleintr] is shown to implement [edit], the
    editor on these two lists of bytes, and to echo what it does. *)

From stdpp Require Import prelude list strings gmap.
From Stdlib Require Import ZArith Lia ZifyBool Ascii.
From S2P Require Import Prelude State Spinlock CString Kalloc Proc Sleeplock Console Ring.
Local Open Scope Z_scope.

(** ** The editor *)
Definition line : Type := list Z * list Z.

(** What is stored for a character typed. *)
Definition typed (c : Z) : Z := if c =? CARRIAGE_RETURN then NEWLINE else c.
Definition accepts (c : Z) (l : line) : bool := negb (c =? 0) && (Z.of_nat (length (l.1 ++ l.2)) <? INPUT_BUF_SIZE).
Definition ends_line (c : Z) (l : line) : bool :=
  (typed c =? NEWLINE) || (typed c =? Ctrl "D") || (Z.of_nat (length (l.1 ++ l.2)) + 1 =? INPUT_BUF_SIZE).

Definition is_erase (c : Z) : bool := (c =? Ctrl "H") || (c =? DELETE).

Definition edit (c : Z) (l : line) : line :=
  if c =? Ctrl "U" then (l.1, [])
  else if is_erase c then (l.1, take (length l.2 - 1) l.2)
  else if accepts c l then
    if ends_line c l then (l.1 ++ l.2 ++ [typed c], []) else (l.1, l.2 ++ [typed c])
  else l.

Definition wakes (c : Z) (l : line) : bool :=
  negb (c =? Ctrl "U") && negb (is_erase c) && accepts c l && ends_line c l.

Definition rubout : list Z := [8; 32; 8].
Definition echo (c : Z) (l : line) : list Z :=
  if c =? Ctrl "U" then concat (replicate (length l.2) rubout)
  else if is_erase c then (if decide (l.2 = []) then [] else rubout)
  else if accepts c l then [typed c] else [].

(** ** The buffer *)
Definition ready (c : consst) : list Z := slice INPUT_BUF_SIZE (co_buf c) (co_r c) (dist (co_r c) (co_w c)).
Definition editing (c : consst) : list Z := slice INPUT_BUF_SIZE (co_buf c) (co_w c) (dist (co_w c) (co_e c)).
Definition line_of (c : consst) : line := (ready c, editing c).

Record cons_ok (c : consst) : Prop := {
  ok_len : length (co_buf c) = Z.to_nat INPUT_BUF_SIZE;
  ok_r : counter (co_r c);
  ok_w : counter (co_w c);
  ok_e : counter (co_e c);
  ok_order : dist (co_r c) (co_w c) + dist (co_w c) (co_e c) = dist (co_r c) (co_e c);
  ok_room : dist (co_r c) (co_e c) <= INPUT_BUF_SIZE;
  ok_line : NEWLINE ∉ editing c }.

Lemma BUF_div : (INPUT_BUF_SIZE | 2 ^ 32).
Proof. by exists (2 ^ 25). Qed.

Lemma length_line c : cons_ok c -> Z.of_nat (length (ready c ++ editing c)) = dist (co_r c) (co_e c).
Proof.
  intros Hc. rewrite length_app. unfold ready, editing. rewrite !length_slice, <- (ok_order c Hc).
  pose proof (dist_pos (co_r c) (co_w c)). pose proof (dist_pos (co_w c) (co_e c)). lia.
Qed.

(** Moving [cons.e] back by one. *)
Definition erase (c : consst) : consst := c <| co_e := u32 (co_e c - 1) |>.

Lemma erase_spec c : cons_ok c -> 0 < dist (co_w c) (co_e c) ->
  cons_ok (erase c) /\ ready (erase c) = ready c /\ dist (co_w c) (co_e (erase c)) = dist (co_w c) (co_e c) - 1 /\
  editing c = editing (erase c) ++ [cons_at c (u32 (co_e c - 1))].
Proof.
  intros [H1 H2 H3 H4 H5 H6 H7] Hpos. pose proof (dist_pos (co_r c) (co_w c)).
  assert (D1 : dist (co_w c) (co_e (erase c)) = dist (co_w c) (co_e c) - 1) by (by apply (dist_back (co_w c))).
  assert (D2 : dist (co_r c) (co_e (erase c)) = dist (co_r c) (co_e c) - 1) by (apply (dist_back (co_r c)); [done|done|lia]).
  assert (E : editing c = editing (erase c) ++ [cons_at c (u32 (co_e c - 1))]).
  { change (editing (erase c)) with (slice INPUT_BUF_SIZE (co_buf c) (co_w c) (dist (co_w c) (co_e (erase c)))). rewrite D1.
    unfold editing. replace (dist (co_w c) (co_e c)) with (dist (co_w c) (co_e c) - 1 + 1) at 1 by lia.
    rewrite slice_snoc by lia. f_equal. f_equal. change (cons_at c ?a) with (ring_at INPUT_BUF_SIZE (co_buf c) a).
    rewrite (ring_at_u32 _ BUF_div), <- (ring_at_dist _ BUF_div _ (co_w c) (co_e c) (-1)) by done. f_equal. lia. }
  split; [|done]. split; try done; [apply counter_u32|cbn in *; lia|cbn in *; lia|].
  intros Hin. apply H7. rewrite E. apply elem_of_app. by left.
Qed.

(** Storing a character at [cons.e]. *)
Definition store (v : Z) (c : consst) : consst := (cons_put (co_e c) v c) <| co_e := u32 (co_e c + 1) |>.

Lemma store_spec v c : cons_ok c -> dist (co_r c) (co_e c) < INPUT_BUF_SIZE -> 0 <= v < 256 ->
  length (co_buf (store v c)) = Z.to_nat INPUT_BUF_SIZE /\ ready (store v c) = ready c /\
  editing (store v c) = editing c ++ [v] /\
  dist (co_w c) (co_e (store v c)) = dist (co_w c) (co_e c) + 1 /\
  dist (co_r c) (co_e (store v c)) = dist (co_r c) (co_e c) + 1.
Proof.
  intros [H1 H2 H3 H4 H5 H6 H7] Hlt Hv. pose proof (dist_pos (co_r c) (co_w c)). pose proof (dist_pos (co_w c) (co_e c)).
  assert (D1 : dist (co_w c) (co_e (store v c)) = dist (co_w c) (co_e c) + 1).
  { apply (dist_next (co_w c)); [done|done|]. unfold INPUT_BUF_SIZE in *. lia. }
  assert (D2 : dist (co_r c) (co_e (store v c)) = dist (co_r c) (co_e c) + 1).
  { apply (dist_next (co_r c)); [done|done|]. unfold INPUT_BUF_SIZE in *. lia. }
  assert (Eb : co_buf (store v c) = ring_put INPUT_BUF_SIZE (co_e c) v (co_buf c)).
  { unfold store, cons_put, ring_put. cbn [co_buf upd_field]. unfold u8. by rewrite (Z.mod_small v). }
  split; [rewrite Eb; unfold ring_put; by rewrite length_insert|]. split; [|split; [|split; [exact D1|exact D2]]].
  - unfold ready. rewrite Eb, (ring_put_dist INPUT_BUF_SIZE BUF_div _ (co_r c)) by done. cbn [co_r co_w store cons_put upd_field].
    apply slice_put; [done|done|]. lia.
  - unfold editing. change (co_w (store v c)) with (co_w c). rewrite Eb, D1, (ring_put_dist INPUT_BUF_SIZE BUF_div _ (co_w c)) by done.
    apply slice_push; [done|done|]. lia.
Qed.

Lemma store_open v c : cons_ok c -> dist (co_r c) (co_e c) < INPUT_BUF_SIZE -> 0 <= v < 256 -> v <> NEWLINE -> cons_ok (store v c).
Proof.
  intros Hc Hlt Hv Hnl. destruct (store_spec v c Hc Hlt Hv) as (E1 & E2 & E3 & D1 & D2). destruct Hc as [H1 H2 H3 H4 H5 H6 H7].
  split; try done; [apply counter_u32|cbn in *; lia|cbn in *; lia|]. rewrite E3, elem_of_app, list_elem_of_singleton. by intros [?|?].
Qed.

(** Handing the edited line over. *)
Definition commit_line (c : consst) : consst := c <| co_w := co_e c |>.

Lemma commit_spec v c : cons_ok c -> dist (co_r c) (co_e c) < INPUT_BUF_SIZE -> 0 <= v < 256 ->
  cons_ok (commit_line (store v c)) /\ line_of (commit_line (store v c)) = (ready c ++ editing c ++ [v], []).
Proof.
  intros Hc Hlt Hv. destruct (store_spec v c Hc Hlt Hv) as (E1 & E2 & E3 & D1 & D2). destruct Hc as [H1 H2 H3 H4 H5 H6 H7].
  set (y := store v c) in *. pose proof (dist_pos (co_r c) (co_w c)). pose proof (dist_pos (co_w c) (co_e c)).
  assert (Z0 : dist (co_e y) (co_e y) = 0) by (unfold dist; by rewrite Z.sub_diag).
  assert (En : editing (commit_line y) = []) by (change (editing (commit_line y)) with (slice INPUT_BUF_SIZE (co_buf y) (co_e y) (dist (co_e y) (co_e y))); by rewrite Z0).
  split.
  - split; try done; try apply counter_u32; [cbn in *; lia|cbn in *; lia|rewrite En; apply not_elem_of_nil].
  - unfold line_of. rewrite En. f_equal. rewrite <- E3, <- E2. unfold ready, editing, commit_line. cbn [co_buf co_r co_w upd_field].
    change (co_r y) with (co_r c) in *. change (co_w y) with (co_w c) in *.
    replace (dist (co_r c) (co_e y)) with (dist (co_r c) (co_w c) + dist (co_w c) (co_e y)) by lia.
    rewrite slice_app by (apply dist_pos). f_equal. by apply (slice_dist _ BUF_div).
Qed.

(** ** The terminal *)
Definition print (l : list Z) (s : kstate) : kstate := s <| k_uart_out := rev l ++ k_uart_out s |>.

Section Run.
Context `{Devices}.
(** The 16550: a byte stored in THR is transmitted, and LSR says when the next one
    may be stored. *)
Context (Hidle : forall s, exists v, dev_load (UART0 + LSR) s = (v, s) /\ Z.land v LSR_TX_IDLE <> 0).
Context (Hsend : forall v s, dev_store (UART0 + THR) v s = print [v] s).

Abbreviation held s := (enter L_cons s).
Abbreviation with_cons x s := (s <| k_cons := x |>).

Lemma uartputc_sync_run lk c s tr : hart_ok s -> 0 <= c < 256 ->
  uartputc_sync c (enter lk s) tr = Done tt (enter lk (print [c] s)) tr.
Proof.
  intros Hs Hc. destruct (hart_ok_enter lk s Hs) as (cp & Hcp & Hok). unfold uartputc_sync.
  kstep (push_off_run (enter lk s) tr cp Hcp). set (s1 := (enter lk s) <| k_cpus := _ |>).
  assert (El : loop (let! lsr := ReadReg LSR in
    if Z.land lsr LSR_TX_IDLE =? 0 then environment ;; kret None else kret (Some tt)) s1 tr = Done tt s1 tr).
  { apply loop_first. destruct (Hidle s1) as (v & E & Hv). unfold ReadReg, mmio_load.
    assert (Er : (fun s tr => let '(v, s') := dev_load (UART0 + LSR) s in Done v s' tr) s1 tr = Done v s1 tr) by (by rewrite E).
    kexact Er. by rewrite (proj2 (Z.eqb_neq _ _) Hv). }
  kexact El. unfold WriteReg, mmio_store. kstep modify_run. rewrite Hsend. unfold u8. rewrite Z.mod_small by done.
  rewrite <- (touch_enter lk (print [c] s) Hs). exact (pop_off_run (enter lk (print [c] s)) tr cp Hcp Hok).
Qed.

Lemma consputc_run lk c s tr : hart_ok s -> 0 <= c < 256 -> consputc c (enter lk s) tr = Done tt (enter lk (print [c] s)) tr.
Proof. intros Hs Hc. unfold consputc. rewrite (proj2 (Z.eqb_neq _ _)) by (unfold BACKSPACE; lia). by apply uartputc_sync_run. Qed.

Lemma consputc_back lk s tr : hart_ok s -> consputc BACKSPACE (enter lk s) tr = Done tt (enter lk (print rubout s)) tr.
Proof.
  intros Hs. unfold consputc. change (BACKSPACE =? BACKSPACE) with true. cbv iota.
  kexact (uartputc_sync_run lk 8 s tr Hs ltac:(lia)). kexact (uartputc_sync_run lk 32 (print [8] s) tr Hs ltac:(lia)).
  exact (uartputc_sync_run lk 8 (print [32] (print [8] s)) tr Hs ltac:(lia)).
Qed.

Lemma consputs_run lk l : forall s tr, hart_ok s -> Forall (fun c => 0 <= c < 256) l ->
  consputs l (enter lk s) tr = Done tt (enter lk (print l s)) tr.
Proof.
  induction l as [|c l IH]; intros s tr Hs Hl; [done|]. apply Forall_cons in Hl as [Hc Hl]. cbn [consputs].
  kexact (consputc_run lk c s tr Hs Hc). etransitivity; [exact (IH (print [c] s) tr Hs Hl)|]. unfold print. cbn. by rewrite <- app_assoc.
Qed.

Lemma gets_cons s tr : gets k_cons (held s) tr = Done (k_cons s) (held s) tr.
Proof. done. Qed.

(** Kill-line erases the line being edited, and no more. *)
Lemma kill_line_run n : forall s tr fuel, hart_ok s -> cons_ok (k_cons s) -> length (editing (k_cons s)) = n -> (n < fuel)%nat ->
  exists x, kill_line fuel (held s) tr = Done tt (held (print (concat (replicate n rubout)) (with_cons x s))) tr /\
    cons_ok x /\ ready x = ready (k_cons s) /\ editing x = [].
Proof.
  induction n as [|n IH]; intros s tr [|fuel] Hs Hc Hn Hf; try lia; set (c := k_cons s) in *.
  - exists c. assert (E : editing c = []) by (by apply nil_length_inv). split; [|done]. cbn [kill_line].
    kexact (gets_cons s tr). fold c. rewrite (dist_zero (co_e c) (co_w c)) by apply Hc.
    unfold editing in Hn. rewrite length_slice in Hn. pose proof (dist_pos (co_w c) (co_e c)).
    assert (Ew : co_w c = co_e c) by (apply Z.eqb_eq; rewrite dist_zero by apply Hc; lia).
    rewrite Ew. unfold dist. by rewrite Z.sub_diag.
  - assert (Hpos : 0 < dist (co_w c) (co_e c)) by (unfold editing in Hn; rewrite length_slice in Hn; lia).
    destruct (erase_spec c Hc Hpos) as (K1 & K2 & K3 & K4).
    assert (Hnl : cons_at c (u32 (co_e c - 1)) <> NEWLINE).
    { intros E. apply (ok_line c Hc). rewrite K4, E. apply elem_of_app. right. by apply list_elem_of_singleton. }
    assert (Hne : co_e c <> co_w c) by (intros E; rewrite E in Hpos; unfold dist in Hpos; by rewrite Z.sub_diag in Hpos).
    set (s0 := with_cons (erase c) s). set (s1 := print rubout s0).
    destruct (IH s1 tr fuel) as (x & E & X1 & X2 & X3); [done|done| |lia|].
    { rewrite K4, length_app in Hn. cbn in Hn |- *. lia. }
    exists x. split; [|by rewrite X2]. cbn [kill_line]. kexact (gets_cons s tr). fold c.
    rewrite (proj2 (Z.eqb_neq _ _) Hne), (proj2 (Z.eqb_neq _ _) Hnl). cbn [negb andb]. kstep modify_run.
    kexact (consputc_back L_cons s0 tr Hs). etransitivity; [exact E|]. f_equal. f_equal.
    unfold print, s1, s0. cbn [replicate concat]. rewrite rev_app_distr, <- app_assoc. done.
Qed.

(** What [consoleintr] leaves: [x] in the buffer, its echo on the terminal, and the
    readers woken. *)
Definition edited (c : Z) (x : consst) (s : kstate) : kstate :=
  let l := line_of (k_cons s) in
  print (echo c l) (s <| k_cons := x |> <| k_procs := if wakes c l then wake (Some Ch_cons) <$> k_procs s else k_procs s |>).

Lemma quiescent_edited c x s : quiescent s -> quiescent (edited c x s).
Proof. intros [Q1 Q2 Q3]. split; [done|done|]. cbn. destruct (wakes _ _); [by rewrite length_fmap|done]. Qed.

Section Intr.
Context (s : kstate) (tr : list (kstate -> kstate)).
Context (Hq : quiescent s) (Hl : k_locks s !! L_cons = None) (Hc : cons_ok (k_cons s)).

Lemma intr_done c x : release L_cons (held (edited c x s)) tr = Done tt (touch (edited c x s)) tr.
Proof. apply release_run; [apply (quiescent_edited c x s Hq)|exact Hl]. Qed.

Lemma intr_kill : let c := Ctrl "U" in
  exists x, consoleintr c s tr = Done tt (touch (edited c x s)) tr /\ cons_ok x /\ line_of x = edit c (line_of (k_cons s)).
Proof.
  intros c. set (n := length (editing (k_cons s))).
  destruct (kill_line_run n s tr (S (Z.to_nat (dist (co_w (k_cons s)) (co_e (k_cons s))))) (q_hart _ Hq) Hc eq_refl) as (x & E & X1 & X2 & X3).
  { unfold n, editing. rewrite length_slice. lia. }
  exists x. split; [|split; [done|unfold line_of; rewrite X2, X3; done]].
  unfold consoleintr. kstep acquire_run; [apply Hq|done|]. change (c =? Ctrl "P") with false. change (c =? Ctrl "U") with true. cbv iota.
  kexact (gets_cons s tr). kexact E. exact (intr_done c x).
Qed.

Lemma not_empty : (co_e (k_cons s) =? co_w (k_cons s)) = (dist (co_w (k_cons s)) (co_e (k_cons s)) =? 0).
Proof. rewrite Z.eqb_sym. apply dist_zero; apply Hc. Qed.

Lemma length_editing : Z.of_nat (length (editing (k_cons s))) = dist (co_w (k_cons s)) (co_e (k_cons s)).
Proof. unfold editing. rewrite length_slice, Z2Nat.id; [done|apply dist_pos]. Qed.

Lemma intr_erase c : is_erase c = true -> 
  exists x, consoleintr c s tr = Done tt (touch (edited c x s)) tr /\ cons_ok x /\ line_of x = edit c (line_of (k_cons s)).
Proof.
  intros He. assert (Hcs : c = Ctrl "H" \/ c = DELETE) by (unfold is_erase in He; lia).
  assert (Hn : (c =? Ctrl "P") = false /\ (c =? Ctrl "U") = false) by (by destruct Hcs as [-> | ->]). destruct Hn as [HP HU].
  pose proof length_editing as Hlen. unfold edit, consoleintr. rewrite HU, He.
  destruct (Z.eqb_spec (dist (co_w (k_cons s)) (co_e (k_cons s))) 0) as [Hz|Hz].
  - exists (k_cons s). assert (Ee : editing (k_cons s) = []) by (apply nil_length_inv; lia).
    split; [|split; [done|unfold line_of; by rewrite Ee]]. kstep acquire_run; [apply Hq|done|]. rewrite HP.
    unfold is_erase in He. rewrite He. kexact (gets_cons s tr). rewrite not_empty, Hz. cbn [Z.eqb negb when]. kstep kret_run.
    rewrite <- intr_done. f_equal. f_equal. unfold edited, echo, wakes, line_of. cbn [fst snd]. rewrite HU, Ee.
    unfold is_erase. rewrite He. cbn. by destruct s.
  - pose proof (dist_pos (co_w (k_cons s)) (co_e (k_cons s))).
    destruct (erase_spec (k_cons s) Hc) as (K1 & K2 & K3 & K4); [lia|]. exists (erase (k_cons s)).
    assert (Hne : editing (k_cons s) <> []) by (intros E; rewrite E in Hlen; cbn in Hlen; lia).
    split; [|split; [done|]].
    + kstep acquire_run; [apply Hq|done|]. rewrite HP. unfold is_erase in He. rewrite He. kexact (gets_cons s tr).
      rewrite not_empty, (proj2 (Z.eqb_neq _ _) Hz). cbn [negb when]. kstep modify_run.
      set (s0 := with_cons (erase (k_cons s)) s). kexact (consputc_back L_cons s0 tr (q_hart _ Hq)).
      rewrite <- intr_done. f_equal. f_equal. unfold edited, echo, wakes, line_of. cbn [fst snd]. rewrite HU.
      rewrite (decide_False (P := editing (k_cons s) = [])) by done. unfold is_erase. by rewrite He.
    + unfold line_of. cbn [fst snd]. rewrite K2. f_equal. rewrite K4, length_app. cbn [length].
      rewrite Nat.add_sub. by rewrite take_app_length.
Qed.

(** The part of [consoleintr] that stores a character. *)
Definition type_char (v : Z) : Kern unit :=
  consputc v ;;
  upd_cons (fun x => (cons_put (co_e x) v x) <| co_e := u32 (co_e x + 1) |>) ;;
  let! x := gets k_cons in
  when ((v =? NEWLINE) || (v =? Ctrl "D") || (u32 (co_e x - co_r x) =? INPUT_BUF_SIZE))
    (upd_cons (fun x => x <| co_w := co_e x |>) ;;
     wakeup (Some Ch_cons)).

Lemma type_char_run c : let l := line_of (k_cons s) in
  0 <= c < 256 -> (c =? Ctrl "U") = false -> is_erase c = false -> accepts c l = true ->
  exists x, type_char (typed c) (held s) tr = Done tt (held (edited c x s)) tr /\ cons_ok x /\
    line_of x = if ends_line c l then (l.1 ++ l.2 ++ [typed c], []) else (l.1, l.2 ++ [typed c]).
Proof.
  intros l Hb HU He Ha. pose proof (length_line (k_cons s) Hc) as Hlen. set (v := typed c).
  assert (Hv : 0 <= v < 256) by (unfold v, typed; destruct (c =? CARRIAGE_RETURN); [by vm_compute|done]).
  assert (Hlt : dist (co_r (k_cons s)) (co_e (k_cons s)) < INPUT_BUF_SIZE).
  { unfold accepts, l, line_of in Ha. cbn [fst snd] in Ha. rewrite Hlen in Ha. lia. }
  destruct (store_spec v (k_cons s) Hc Hlt Hv) as (E1 & E2 & E3 & D1 & D2).
  set (s0 := print [v] (with_cons (store v (k_cons s)) s)).
  assert (Hend : ((v =? NEWLINE) || (v =? Ctrl "D") || (u32 (co_e (k_cons s0) - co_r (k_cons s0)) =? INPUT_BUF_SIZE)) = ends_line c l).
  { unfold ends_line, l, line_of. cbn [fst snd]. rewrite Hlen. fold v. change (u32 _) with (dist (co_r (k_cons s)) (co_e (store v (k_cons s)))).
    by rewrite D2. }
  unfold type_char, edited, echo, wakes. fold l. rewrite HU, He, Ha. cbn [negb andb]. fold v.
  destruct (ends_line c l) eqn:Ee.
  - exists (commit_line (store v (k_cons s))). destruct (commit_spec v (k_cons s) Hc Hlt Hv) as [C1 C2]. split; [|done].
    kexact (consputc_run L_cons v s tr (q_hart _ Hq) Hv). kstep modify_run. kexact (gets_cons s0 tr). rewrite Hend. cbn [when].
    kstep modify_run. set (s1 := print [v] (with_cons (commit_line (store v (k_cons s))) s)).
    assert (Hq1 : quiescent (held s1)) by (apply quiescent_enter; [by destruct Hq; split|done]).
    etransitivity; [exact (wakeup_run (Some Ch_cons) (held s1) tr Hq1)|]. f_equal.
    set (s2 := s1 <| k_procs := wake (Some Ch_cons) <$> k_procs s |>). exact (touch_enter L_cons s2 (q_hart _ Hq)).
  - exists (store v (k_cons s)). split; [|split].
    + kexact (consputc_run L_cons v s tr (q_hart _ Hq) Hv). kstep modify_run. kexact (gets_cons s0 tr). rewrite Hend. done.
    + apply store_open; try done. intros Hn. unfold ends_line in Ee. fold v in Ee. rewrite Hn in Ee. done.
    + unfold line_of. by rewrite E2, E3.
Qed.

Lemma intr_other c : 0 <= c < 256 -> c <> Ctrl "P" -> c <> Ctrl "U" -> is_erase c = false ->
  exists x, consoleintr c s tr = Done tt (touch (edited c x s)) tr /\ cons_ok x /\ line_of x = edit c (line_of (k_cons s)).
Proof.
  intros Hb HP%Z.eqb_neq HU%Z.eqb_neq He. pose proof (length_line (k_cons s) Hc) as Hlen.
  assert (Hacc : accepts c (line_of (k_cons s)) = negb (c =? 0) && (dist (co_r (k_cons s)) (co_e (k_cons s)) <? INPUT_BUF_SIZE)).
  { unfold accepts, line_of. cbn [fst snd]. by rewrite Hlen. }
  assert (Hstart : consoleintr c s tr = (when (accepts c (line_of (k_cons s))) (type_char (typed c)) ;; release L_cons) (held s) tr).
  { unfold consoleintr. kstep acquire_run; [apply Hq|done|]. rewrite HP, HU. unfold is_erase in He. rewrite He.
    kexact (gets_cons s tr). rewrite Hacc. done. }
  rewrite Hstart. unfold edit. rewrite HU, He. destruct (accepts c (line_of (k_cons s))) eqn:Ea; cbn [when].
  - destruct (type_char_run c Hb HU He Ea) as (x & E & X). exists x. split; [|exact X]. kexact E. apply intr_done.
  - exists (k_cons s). split; [|done]. kstep kret_run. rewrite <- intr_done. f_equal. f_equal.
    unfold edited, echo, wakes. by rewrite HU, He, Ea.
Qed.
End Intr.
End Run.

(** C29. [consoleintr] is the line editor [edit]: for every byte but control-P it
    keeps the buffer well formed, changes the finished lines and the line being
    edited as [edit] says (erase, kill, append, hand over at a newline, at
    control-D or when the buffer is full), echoes the change, and wakes the
    readers exactly when it hands a line over; nothing else in the kernel
    changes.  [Hidle] and [Hsend] describe the UART. *)
Theorem consoleintr_refines `{Devices} c s tr :
  (forall s, exists v, dev_load (UART0 + LSR) s = (v, s) /\ Z.land v LSR_TX_IDLE <> 0) ->
  (forall v s, dev_store (UART0 + THR) v s = print [v] s) ->
  quiescent s -> k_locks s !! L_cons = None -> cons_ok (k_cons s) -> 0 <= c < 256 -> c <> Ctrl "P" ->
  let l := line_of (k_cons s) in
  exists x, consoleintr c s tr = Done tt (touch (edited c x s)) tr /\ cons_ok x /\ line_of x = edit c l.
Proof.
  intros Hidle Hsend Hq Hl Hc Hb HP l. destruct (decide (c = Ctrl "U")) as [->|HU]; [by apply intr_kill|].
  destruct (is_erase c) eqn:He; [by apply intr_erase|by apply intr_other].
Qed.

(** ** A terminal, and a line typed across the wrap-around of the counters *)
Definition demo_terminal : Devices := {|
  dev_load := fun _ s => (uart_mask LSR_TX_IDLE, s);
  dev_store := fun a v s => if a =? UART0 + THR then print [v] s else s;
  dev_time := fun _ => 0 |}.
Definition demo_line : consst := mkcons (replicate 127 0 ++ [108]) (2 ^ 32 - 1) (2 ^ 32 - 1) 0.
Definition demo_console : kstate := demo_procs <| k_cons := demo_line |>.

Lemma demo_line_ok : cons_ok demo_line.
Proof.
  split; try (by vm_compute). change (editing demo_line) with [108]. intros Hin. by apply list_elem_of_singleton in Hin.
Qed.

Lemma consoleintr_refines_witness : exists x s',
  @consoleintr demo_terminal CARRIAGE_RETURN demo_console [] = Done tt s' [] /\ k_cons s' = x /\
  line_of x = ([108; 10], []) /\ k_uart_out s' = [10].
Proof.
  destruct (@consoleintr_refines demo_terminal CARRIAGE_RETURN demo_console []) as (x & E & _ & L).
  - intros s. exists LSR_TX_IDLE. split; [reflexivity|discriminate].
  - reflexivity.
  - destruct demo_quiescent as [Q1 Q2 Q3]. split; [exact Q1|exact Q2|exact Q3].
  - reflexivity.
  - exact demo_line_ok.
  - split; [discriminate|reflexivity].
  - discriminate.
  - exists x. eexists. split; [exact E|]. split; [reflexivity|]. split; [exact L|reflexivity].
Defined.

(** ** Numbers *)
Definition digit (c : Z) : Z := if c <? 58 then c - 48 else c - 87.
(** The number that a string of digits denotes, most significant digit first. *)
Definition number (base : Z) (l : list Z) : Z := foldl (fun a c => a * base + digit c) 0 l.

Lemma digit_of k : 0 <= k < 16 -> let c := nth (Z.to_nat k) digits 0 in digit c = k /\ 48 <= c < 256 /\ (c = 48 -> k = 0).
Proof.
  intros Hk. assert (Hall : forallb (fun j => let c := nth j digits 0 in
    (digit c =? Z.of_nat j) && (48 <=? c) && (c <? 256) && (negb (c =? 48) || (j =? 0)%nat)) (seq 0 16) = true) by (by vm_compute).
  rewrite forallb_forall in Hall. specialize (Hall (Z.to_nat k)). cbv zeta in *. set (c := nth (Z.to_nat k) digits 0) in *.
  assert (Hin : In (Z.to_nat k) (seq 0 16)) by (apply in_seq; lia). specialize (Hall Hin). clearbody c. lia.
Qed.

Section Digits.
Context (base : Z) (Hbase : 2 <= base <= 16).

Lemma number_snoc l c : number base (l ++ [c]) = number base l * base + digit c.
Proof. unfold number. by rewrite foldl_app. Qed.

(** The loop's digits denote [x]; there are at most [n] of them if [x] has at most
    [n]; the leading one is not a zero unless it is the only one. *)
Lemma int_digits_spec fuel : forall x n, 0 <= x < base ^ Z.of_nat fuel -> (0 < fuel)%nat -> x < base ^ Z.of_nat n -> (0 < n)%nat ->
  let l := rev (int_digits fuel x base) in
  number base l = x /\ (0 < length l <= n)%nat /\ Forall (fun c => 48 <= c < 256) l /\ (l !! 0%nat = Some 48 -> x = 0).
Proof.
  induction fuel as [|fuel IH]; intros x n Hx Hf Hn Hn0; [lia|]. cbn [int_digits rev]. set (c := nth (Z.to_nat (x mod base)) digits 0).
  pose proof (Z.mod_pos_bound x base). pose proof (Z_div_mod_eq_full x base) as Hdiv.
  destruct (digit_of (x mod base)) as (D1 & D2 & D3); [lia|]. fold c in D1, D2, D3.
  destruct (Z.eqb_spec (x / base) 0) as [Hz|Hz].
  - rewrite number_snoc, D1. change (number base (rev [])) with 0. split; [lia|]. cbn [rev app length lookup list_lookup]. split; [lia|]. split; [by apply Forall_singleton|]. intros [= E]. specialize (D3 E). lia.
  - assert (Hpos : 0 < x / base) by (pose proof (Z.div_pos x base); lia).
    rewrite !Nat2Z.inj_succ, Z.pow_succ_r in Hx by lia.
    destruct n as [|n]; [lia|]. rewrite Nat2Z.inj_succ, Z.pow_succ_r in Hn by lia.
    assert (Hn1 : x / base < base ^ Z.of_nat n) by (apply Z.div_lt_upper_bound; lia).
    assert (n <> 0)%nat by (intros ->; cbn in Hn1; lia).
    assert (Hx1 : x / base < base ^ Z.of_nat fuel) by (apply Z.div_lt_upper_bound; lia).
    assert (fuel <> 0)%nat by (intros ->; cbn in Hx1; lia).
    destruct (IH (x / base) n) as (I1 & I2 & I3 & I4); try lia.
    rewrite number_snoc, I1, D1, length_app. cbn [length]. split; [lia|]. split; [lia|]. split; [apply Forall_app; split; [done|by apply Forall_singleton]|].
    rewrite lookup_app_l by lia. intros E. specialize (I4 E). lia.
Qed.
End Digits.

(** [printint] prints the number it is given: with the UART idle, the bytes it
    sends are the digits of [xx] in base 10 or 16, without leading zeros, behind a
    minus sign when [sign] is set and [xx] is negative; they are at most twenty,
    the size of [printint]'s buffer. *)
Theorem printint_spec `{Devices} lk xx base (sign : bool) s tr :
  (forall s, exists v, dev_load (UART0 + LSR) s = (v, s) /\ Z.land v LSR_TX_IDLE <> 0) ->
  (forall v s, dev_store (UART0 + THR) v s = print [v] s) -> hart_ok s ->
  base = 10 \/ base = 16 -> (if sign then - 2 ^ 63 <= xx < 2 ^ 63 else 0 <= xx < 2 ^ 64) ->
  exists ds, let out := if sign && (xx <? 0) then 45 :: ds else ds in
    printint xx base sign (enter lk s) tr = Done tt (enter lk (print out s)) tr /\
    number base ds = Z.abs xx /\ (0 < length ds)%nat /\ (length out <= 20)%nat /\ (ds !! 0%nat = Some 48 -> xx = 0).
Proof.
  intros Hidle Hsend Hs Hbase Hxx. set (neg := sign && (xx <? 0)).
  set (x := Z.abs xx). set (n := if neg then 19%nat else 20%nat).
  assert (Hx : (if neg then u64 (- xx) else u64 xx) = x).
  { unfold neg, x, u64. destruct sign; cbn [andb]; [destruct (Z.ltb_spec xx 0)|]; rewrite Z.mod_small; lia. }
  assert (Hb : 2 <= base <= 16) by lia.
  assert (Hsmall : 0 <= x < 2 ^ 64 /\ (neg = true -> x <= 2 ^ 63)) by (unfold x, neg; destruct sign; cbn [andb]; lia).
  assert (H20 : x < base ^ Z.of_nat n).
  { unfold n. destruct neg, Hbase as [-> | ->]; cbn [Z.of_nat]; cbn; destruct Hsmall as [? Hm]; try (specialize (Hm eq_refl)); lia. }
  assert (H64 : x < base ^ Z.of_nat 64) by (destruct Hbase as [-> | ->]; cbn; lia).
  destruct (int_digits_spec base Hb 64 x n) as (I1 & I2 & I3 & I4); [lia|lia|done|unfold n; destruct neg; lia|].
  exists (rev (int_digits 64 x base)). cbv zeta. split; [|split; [done|split; [lia|split; [|intros E; specialize (I4 E); lia]]]].
  - unfold printint, printint_buf. fold neg. rewrite Hx.
    assert (Ho : rev (if neg then int_digits 64 x base ++ [45] else int_digits 64 x base) =
      if neg then 45 :: rev (int_digits 64 x base) else rev (int_digits 64 x base)) by (destruct neg; [by rewrite rev_app_distr|done]).
    rewrite Ho. apply (consputs_run Hidle Hsend); [done|].
    assert (Hd : Forall (fun c => 0 <= c < 256) (rev (int_digits 64 x base))) by (eapply Forall_impl; [exact I3|cbn; lia]).
    destruct neg; [constructor; [lia|done]|done].
  - unfold n in I2. destruct neg; cbn [length]; lia.
Qed.

Lemma printint_spec_witness : exists ds,
  @printint demo_terminal (- 2 ^ 63) 10 true (enter L_pr demo_procs) [] = Done tt (enter L_pr (print (45 :: ds) demo_procs)) [] /\
  number 10 ds = 2 ^ 63 /\ (length ds <= 19)%nat.
Proof.
  destruct (@printint_spec demo_terminal L_pr (- 2 ^ 63) 10 true demo_procs []) as (ds & E & N & _ & L & _).
  - intros s. exists LSR_TX_IDLE. split; [reflexivity|discriminate].
  - reflexivity.
  - exact (q_hart _ demo_quiescent).
  - left. reflexivity.
  - split; [discriminate|reflexivity].
  - exists ds. split; [exact E|]. split; [exact N|]. apply le_S_n. exact L.
Defined.
