(* ===== verification/ULib.v ===== *)
(** * The user library (user/ulib.c) and what a user program sees

    A user program's memory is a function from addresses to bytes.  A loop over a
    string that is only read returns an option, [None] being the end of its fuel;
    a routine that calls the kernel runs in the monad over [ustate], and the
    system calls it uses are the operations of [Sys]. *)

From stdpp Require Import prelude list strings.
From Stdlib Require Import ZArith Lia ZifyBool.
From S2P Require Import Prelude State CString.
Local Open Scope Z_scope.

(** ** The state of a user program *)
Record ustate := mkustate {
  u_mem : Z -> Z;
  u_in : list Z;               (* what can still be read from the input *)
  u_out : list (Z * list Z);   (* the writes performed: descriptor and bytes, oldest first *)
  u_brk : Z;                   (* the end of the heap *)
  u_freep : Z }.               (* umalloc.c, [freep] *)
#[export] Instance eta_ustate : Eta ustate :=
  fun s => mkustate (u_mem s) (u_in s) (u_out s) (u_brk s) (u_freep s).

Abbreviation UK := (K ustate).

(** The system calls. *)
Class Sys := {
  read : Z -> Z -> Z -> UK Z;
  write : Z -> Z -> Z -> UK Z;
  sbrk : Z -> UK Z }.

(** ** Strings *)
Fixpoint strcpy (fuel : nat) (m : Z -> Z) (s t : Z) : option (Z -> Z) :=
  match fuel with
  | O => None
  | S fuel' =>
      let m := store8 m s (m t) in
      if m s =? 0 then Some m else strcpy fuel' m (s + 1) (t + 1)
  end.

Fixpoint strcmp (fuel : nat) (m : Z -> Z) (p q : Z) : option Z :=
  match fuel with
  | O => None
  | S fuel' => if negb (m p =? 0) && (m p =? m q) then strcmp fuel' m (p + 1) (q + 1) else Some (m p - m q)
  end.

Fixpoint ustrlen_from (fuel : nat) (m : Z -> Z) (s n : Z) : option Z :=
  match fuel with
  | O => None
  | S fuel' => if m (s + n) =? 0 then Some n else ustrlen_from fuel' m s (n + 1)
  end.
Definition ustrlen (fuel : nat) (m : Z -> Z) (s : Z) : option Z := ustrlen_from fuel m s 0.

Definition umemset (m : Z -> Z) (dst c n : Z) : Z -> Z := memset_loop m dst c (Z.to_nat n).

(** The result is a pointer, 0 if [c] does not occur. *)
Fixpoint strchr (fuel : nat) (m : Z -> Z) (s c : Z) : option Z :=
  match fuel with
  | O => None
  | S fuel' => if m s =? 0 then Some 0 else if m s =? c then Some s else strchr fuel' m (s + 1) c
  end.

(** Numbers beyond the range of [int] are undefined behaviour in C; here they are not cut off. *)
Fixpoint atoi_from (fuel : nat) (m : Z -> Z) (s n : Z) : option Z :=
  match fuel with
  | O => None
  | S fuel' => if (48 <=? m s) && (m s <=? 57) then atoi_from fuel' m (s + 1) (n * 10 + m s - 48) else Some n
  end.
Definition atoi (fuel : nat) (m : Z -> Z) (s : Z) : option Z := atoi_from fuel m s 0.

Definition umemmove (m : Z -> Z) (dst src n : Z) : Z -> Z :=
  if dst <? src then copy_forward m dst src (Z.to_nat n)
  else copy_backward m (dst + n) (src + n) (Z.to_nat n).

Definition umemcmp (m : Z -> Z) (s1 s2 n : Z) : Z := memcmp_loop m s1 s2 (Z.to_nat n).

Section Gets.
Context `{Sys}.

(** [c] is the address of the local variable of [gets]. *)
Fixpoint gets_loop (fuel : nat) (c buf max i : Z) : UK Z :=
  match fuel with
  | O => hang
  | S fuel' =>
      if i + 1 <? max then
        let! cc := read 0 c 1 in
        if cc <? 1 then kret i else
        modify (fun s => s <| u_mem := store8 (u_mem s) (buf + i) (u_mem s c) |>) ;;
        let! ch := Prelude.gets (fun s => u_mem s c) in
        if (ch =? 10) || (ch =? 13) then kret (i + 1) else gets_loop fuel' c buf max (i + 1)
      else kret i
  end.
Definition gets (c buf max : Z) : UK Z :=
  let! i := gets_loop (S (Z.to_nat max)) c buf max 0 in
  modify (fun s => s <| u_mem := store8 (u_mem s) (buf + i) 0 |>) ;;
  kret buf.
End Gets.

(** A loop of the library that is only read, within the fuel. *)
Definition pure {S A} (o : option A) : K S A := match o with Some a => kret a | None => hang end.

Lemma pure_run {S A} (o : option A) a (s : S) tr : o = Some a -> pure o s tr = Done a s tr.
Proof. by intros ->. Qed.

(** ** What the kernel promises *)
(** [read] delivers some of the bytes that are left, at least one if there are any
    and the program asks for any; [write] takes them all. *)
Class SysOk `{Sys} := {
  read_run : forall fd a n s tr, 0 <= n -> exists k : nat,
    read fd a n s tr = Done (Z.of_nat k)
      (s <| u_mem := write_bytes (u_mem s) a (take k (u_in s)) |> <| u_in := drop k (u_in s) |>) tr /\
    Z.of_nat k <= n /\ (k <= length (u_in s))%nat /\ (0 < n -> u_in s <> [] -> (0 < k)%nat);
  write_run : forall fd a n s tr, 0 <= n ->
    write fd a n s tr = Done n (s <| u_out := u_out s ++ [(fd, read_bytes (u_mem s) a (Z.to_nat n))] |>) tr }.

(** [l] is the string at address [a]. *)
Record string_at (m : Z -> Z) (a : Z) (l : list Z) : Prop := {
  sa_byte : forall i c, l !! i = Some c -> m (a + Z.of_nat i) = c;
  sa_end : m (a + Z.of_nat (length l)) = 0;
  sa_nul : Forall (fun c => c <> 0) l }.

Lemma string_head m a l : string_at m a l -> m a = default 0 (head l).
Proof.
  intros [H1 H2 _]. destruct l as [|c l]; cbn in *; [by rewrite Z.add_0_r in H2|]. rewrite <- (H1 0%nat c eq_refl). f_equal. lia.
Qed.

Lemma string_tail m a c l : string_at m a (c :: l) -> c <> 0 /\ m a = c /\ string_at m (a + 1) l.
Proof.
  intros Hs. pose proof (string_head m a _ Hs) as Hh. destruct Hs as [H1 H2 H3]. apply Forall_cons in H3 as [Hc H3].
  split; [done|]. split; [done|]. split; [| |done].
  - intros i x Hi. rewrite <- (H1 (S i) x Hi). f_equal. lia.
  - rewrite <- H2. f_equal. cbn [length]. lia.
Qed.

(** [strchr] finds the first occurrence. *)
Lemma strchr_run m c l : forall fuel s, string_at m s l -> (length l < fuel)%nat ->
  strchr fuel m s c = Some (match list_find (fun x => x = c) l with Some (i, _) => s + Z.of_nat i | None => 0 end).
Proof.
  induction l as [|x l IH]; intros [|fuel] s Hs Hf; cbn [length] in Hf; try lia; cbn [strchr].
  - by rewrite (string_head m s _ Hs).
  - apply string_tail in Hs as (Hx & E & Hs). rewrite E, (proj2 (Z.eqb_neq _ _) Hx). cbn [list_find].
    destruct (Z.eqb_spec x c) as [->|Hne]; [rewrite decide_True by done; by rewrite Z.add_0_r|].
    rewrite decide_False, (IH fuel (s + 1)) by (done || lia). destruct (list_find _ l) as [[i y]|]; cbn; [|done]. f_equal. lia.
Qed.

Lemma ustrlen_run m l : forall fuel s n, string_at m (s + n) l -> (length l < fuel)%nat -> ustrlen_from fuel m s n = Some (n + Z.of_nat (length l)).
Proof.
  induction l as [|c l IH]; intros [|fuel] s n Hs Hf; cbn [length] in Hf; try lia; cbn [ustrlen_from].
  - rewrite (string_head m _ [] Hs). cbn. by rewrite Z.add_0_r.
  - apply string_tail in Hs as (Hc & -> & Hs). rewrite (proj2 (Z.eqb_neq c 0)) by done.
    rewrite IH; [cbn [length]; f_equal; lia|by rewrite Z.add_assoc|lia].
Qed.

Lemma umemmove_spec m dst src n a : bytes m -> 0 <= n ->
  umemmove m dst src n a = if (dst <=? a) && (a <? dst + n) then m (src + (a - dst)) else m a.
Proof.
  intros Hm Hn. unfold umemmove. destruct (Z.ltb_spec dst src).
  - rewrite copy_forward_spec by (done || lia). by rewrite Z2Nat.id by lia.
  - rewrite copy_backward_spec by (done || lia). rewrite Z2Nat.id by lia. replace (dst + n - n) with dst by lia.
    destruct (_ && _); [|done]. f_equal. lia.
Qed.

(** ** Strings in memory that changes *)
Lemma string_app m w : forall s l, string_at m s (w ++ l) -> string_at m (s + Z.of_nat (length w)) l.
Proof.
  induction w as [|c w IH]; intros s l H; cbn [length app] in *; [by rewrite Z.add_0_r|].
  apply string_tail in H as (_ & _ & H). apply IH in H. by replace (s + Z.of_nat (S (length w))) with (s + 1 + Z.of_nat (length w)) by lia.
Qed.

Lemma string_ext m m' a l : string_at m a l -> (forall x, a <= x <= a + Z.of_nat (length l) -> m' x = m x) -> string_at m' a l.
Proof.
  intros [H1 H2 H3] Hm. split; [|by rewrite Hm by lia|done].
  intros i c Hi. pose proof (lookup_lt_Some _ _ _ Hi). rewrite Hm by lia. by apply H1.
Qed.

(** A string cut in two by a NUL. *)
Lemma string_cut m a l c l' : string_at m a (l ++ c :: l') ->
  string_at (store8 m (a + Z.of_nat (length l)) 0) a l /\ string_at m (a + Z.of_nat (length l) + 1) l' /\
  m (a + Z.of_nat (length l)) = c.
Proof.
  intros [H1 H2 H3]. apply Forall_app in H3 as [H3 H4]. apply Forall_cons in H4 as [Hc H4].
  assert (Hm : m (a + Z.of_nat (length l)) = c) by (apply H1; by rewrite lookup_app_r, Nat.sub_diag by lia).
  split; [|split; [|done]].
  - split; [| |done].
    + intros i x Hi. pose proof (lookup_lt_Some _ _ _ Hi). unfold store8. rewrite (proj2 (Z.eqb_neq _ _)) by lia.
      apply H1. by apply lookup_app_l_Some.
    + unfold store8. by rewrite Z.eqb_refl.
  - split; [| |done].
    + intros i x Hi. rewrite <- (H1 (length l + S i)%nat x); [f_equal; lia|]. rewrite lookup_app_r by lia.
      by replace (length l + S i - length l)%nat with (S i) by lia.
    + rewrite <- H2. f_equal. rewrite length_app. cbn [length]. lia.
Qed.

(** Bytes stored behind a prefix, and a NUL behind them. *)
Lemma string_extend m a l l' : (forall i c, l !! i = Some c -> m (a + Z.of_nat i) = c) ->
  Forall (fun c => 0 < c < 256) (l ++ l') ->
  string_at (store8 (write_bytes m (a + Z.of_nat (length l)) l') (a + Z.of_nat (length (l ++ l'))) 0) a (l ++ l').
Proof.
  intros Hl Hn. rewrite length_app. split.
  - intros i c Hi. pose proof (lookup_lt_Some _ _ _ Hi) as Hlt. rewrite length_app in Hlt. unfold store8. rewrite (proj2 (Z.eqb_neq _ _)) by lia.
    apply lookup_app_Some in Hi as [Hi|[Hge Hi]].
    + rewrite write_bytes_other by (apply lookup_lt_Some in Hi; lia). by apply Hl.
    + replace (a + Z.of_nat i) with (a + Z.of_nat (length l) + Z.of_nat (i - length l)) by lia.
      rewrite (write_bytes_at _ _ _ _ c Hi). apply u8_byte. apply Forall_app in Hn as [_ Hn].
      pose proof (Forall_lookup_1 _ _ _ _ Hn Hi) as Hc. cbn in Hc. lia.
  - rewrite length_app. unfold store8. by rewrite Z.eqb_refl.
  - eapply Forall_impl; [exact Hn|]. cbn. lia.
Qed.

Lemma read_string m a l c : (forall i x, l !! i = Some x -> m (a + Z.of_nat i) = x) -> m (a + Z.of_nat (length l)) = c ->
  read_bytes m a (length l + 1) = l ++ [c].
Proof.
  intros Hl Hc. apply list_eq_same_length with (length l + 1)%nat; [by rewrite length_app|by rewrite length_read_bytes|].
  intros i x y Hi. rewrite read_bytes_lookup by done. intros [= <-] [Hy|[Hge Hy]]%lookup_app_Some; [by apply Hl|].
  assert (i = length l) as -> by lia. rewrite Nat.sub_diag in Hy. by injection Hy as <-.
Qed.

Lemma string_write m a l : Forall (fun c => 0 < c < 256) l -> m (a + Z.of_nat (length l)) = 0 -> string_at (write_bytes m a l) a l.
Proof.
  intros Hl Hz. rewrite Forall_lookup in Hl. split.
  - intros i c Hi. rewrite (write_bytes_at l m a i c Hi). apply u8_byte. specialize (Hl i c Hi). lia.
  - by rewrite write_bytes_other by lia.
  - apply Forall_lookup. intros i c Hi. specialize (Hl i c Hi). lia.
Qed.

(** ** A file delivered two bytes at a time *)
Definition demo_sys : Sys := {|
  read := fun _ a n s tr =>
    let k := Nat.min (Nat.min 2 (Z.to_nat n)) (length (u_in s)) in
    Done (Z.of_nat k) (s <| u_mem := write_bytes (u_mem s) a (take k (u_in s)) |> <| u_in := drop k (u_in s) |>) tr;
  write := fun fd a n s tr =>
    Done n (s <| u_out := u_out s ++ [(fd, read_bytes (u_mem s) a (Z.to_nat n))] |>) tr;
  sbrk := fun _ => kret (-1) |}.

Lemma demo_sys_ok : @SysOk demo_sys.
Proof.
  split; [|done]. intros fd a n s tr Hn. exists (Nat.min (Nat.min 2 (Z.to_nat n)) (length (u_in s))). split; [done|].
  split; [lia|]. split; [lia|]. intros Hpos Hin. destruct (u_in s); [done|]. cbn [length]. lia.
Qed.
