(* ===== verification/UGrep.v ===== *)
(** * grep (user/grep.c)

    The matcher of Kernighan and Pike on strings in memory, and the loop that
    reads, splits and prints lines.  The patterns denote languages ([lang]);
    [match_re] is shown to decide them, and [grep] to print exactly the lines that
    match, however the reads cut the input. *)

From stdpp Require Import prelude list strings.
From Stdlib Require Import ZArith Lia ZifyBool.
From S2P Require Import Prelude State CString ULib.
Local Open Scope Z_scope.

(** ** The matcher *)
Fixpoint matchhere (fuel : nat) (m : Z -> Z) (re text : Z) : option bool :=
  match fuel with
  | O => None
  | S fuel' =>
      if m re =? 0 then Some true else
      if m (re + 1) =? 42 then matchstar fuel' m (m re) (re + 2) text else
      if (m re =? 36) && (m (re + 1) =? 0) then Some (m text =? 0) else
      if negb (m text =? 0) && ((m re =? 46) || (m re =? m text)) then matchhere fuel' m (re + 1) (text + 1)
      else Some false
  end
with matchstar (fuel : nat) (m : Z -> Z) (c re text : Z) : option bool :=
  match fuel with
  | O => None
  | S fuel' =>
      match matchhere fuel' m re text with
      | None => None
      | Some true => Some true
      | Some false =>
          if negb (m text =? 0) && ((m text =? c) || (c =? 46)) then matchstar fuel' m c re (text + 1)
          else Some false
      end
  end.

(** The loop of [match] over the starts of the text. *)
Fixpoint match_loop (fuel : nat) (m : Z -> Z) (re text : Z) : option bool :=
  match fuel with
  | O => None
  | S fuel' =>
      match matchhere fuel' m re text with
      | None => None
      | Some true => Some true
      | Some false => if negb (m text =? 0) then match_loop fuel' m re (text + 1) else Some false
      end
  end.
Definition match_re (fuel : nat) (m : Z -> Z) (re text : Z) : option bool :=
  if m re =? 94 then matchhere fuel m (re + 1) text else match_loop fuel m re text.

(** ** Patterns *)
(** A pattern is a sequence of characters, each possibly starred, and may be
    anchored at the end of the text. *)
Fixpoint parse (re : list Z) : list (Z * bool) * bool :=
  match re with
  | [] => ([], false)
  | c :: re1 =>
      match re1 with
      | [] => if c =? 36 then ([], true) else ([(c, false)], false)
      | d :: re2 =>
          if d =? 42 then let '(l, e) := parse re2 in ((c, true) :: l, e)
          else let '(l, e) := parse re1 in ((c, false) :: l, e)
      end
  end.

Lemma parse_cons c d re : parse (c :: d :: re) =
  if d =? 42 then let '(l, e) := parse re in ((c, true) :: l, e)
  else let '(l, e) := parse (d :: re) in ((c, false) :: l, e).
Proof. done. Qed.

Definition fits (c x : Z) : Prop := c = 46 \/ x = c.

Inductive lang : list (Z * bool) -> list Z -> Prop :=
| L_nil : lang [] []
| L_one c x l s : fits c x -> lang l s -> lang ((c, false) :: l) (x :: s)
| L_star c xs l s : Forall (fits c) xs -> lang l s -> lang ((c, true) :: l) (xs ++ s).

(** The text begins with a string of the pattern. *)
Definition begins (re text : list Z) : Prop :=
  exists s t, text = s ++ t /\ lang (parse re).1 s /\ ((parse re).2 = true -> t = []).
(** The text contains one, at its beginning if the pattern starts with a caret. *)
Definition matches (re text : list Z) : Prop :=
  match re with
  | 94 :: re' => begins re' text
  | _ => exists p t, text = p ++ t /\ begins re t
  end.

Lemma begins_nil text : begins [] text.
Proof. exists [], text. split; [done|]. split; [constructor|done]. Qed.

Lemma begins_star c re text :
  begins (c :: 42 :: re) text <-> exists xs t, text = xs ++ t /\ Forall (fits c) xs /\ begins re t.
Proof.
  unfold begins. cbn [parse]. change (42 =? 42) with true. cbv iota. destruct (parse re) as [l e]. cbn [fst snd]. split.
  - intros (s & t & -> & Hl & He). inversion Hl as [| |? xs ? s' Hx Hs]; subst. exists xs, (s' ++ t).
    split; [by rewrite app_assoc|]. split; [done|]. by exists s', t.
  - intros (xs & t & -> & Hx & s & t' & -> & Hl & He). exists (xs ++ s), t'. split; [by rewrite app_assoc|]. split; [by constructor|done].
Qed.

Lemma begins_dollar text : begins [36] text <-> text = [].
Proof.
  unfold begins. cbn. split.
  - intros (s & t & -> & Hl & He). inversion Hl; subst. by apply He.
  - intros ->. exists [], []. split; [done|]. split; [constructor|done].
Qed.

(** A character that is neither starred nor the final dollar. *)
Lemma begins_char c re text : head re <> Some 42 -> ~ (c = 36 /\ re = []) ->
  begins (c :: re) text <-> exists x t, text = x :: t /\ fits c x /\ begins re t.
Proof.
  intros Hstar Hd. assert (E : parse (c :: re) = ((c, false) :: (parse re).1, (parse re).2)).
  { destruct re as [|d re2].
    - cbn. rewrite (proj2 (Z.eqb_neq c 36)); [done|]. intros ->. by apply Hd.
    - rewrite parse_cons, (proj2 (Z.eqb_neq d 42)) by (intros ->; by apply Hstar). by destruct (parse (d :: re2)). }
  unfold begins. rewrite E. cbn [fst snd]. split.
  - intros (s & t & -> & Hl & He). inversion Hl as [|? x ? s' Hx Hs|]; subst. exists x, (s' ++ t). split; [done|]. split; [done|]. by exists s', t.
  - intros (x & t & -> & Hx & s & t' & -> & Hl & He). exists (x :: s), t'. split; [done|]. split; [by constructor|done].
Qed.

(** ** Correctness of the matcher *)
Definition decides (o : option bool) (P : Prop) : Prop := exists b, o = Some b /\ (b = true <-> P).

Lemma decides_iff o P Q : (P <-> Q) -> decides o P -> decides o Q.
Proof. intros E (b & Hb & Hi). exists b. split; [done|]. by rewrite Hi. Qed.

Lemma decides_bool (b : bool) (P : Prop) : (b = true <-> P) -> decides (Some b) P.
Proof. intros E. by exists b. Qed.

Lemma star_unfold c re text :
  (exists xs t, text = xs ++ t /\ Forall (fits c) xs /\ begins re t) <->
  begins re text \/ exists x t, text = x :: t /\ fits c x /\ exists xs t', t = xs ++ t' /\ Forall (fits c) xs /\ begins re t'.
Proof.
  split.
  - intros ([|x xs] & t & -> & Hx & Ht); [by left|right]. apply Forall_cons in Hx as [Hx Hxs].
    exists x, (xs ++ t). split; [done|]. split; [done|]. by exists xs, t.
  - intros [Ht|(x & t & -> & Hx & xs & t' & -> & Hxs & Ht)]; [by exists [], text|]. exists (x :: xs), t'. split; [done|]. split; [by constructor|done].
Qed.

Section Match.
Context (m : Z -> Z).

(** One character of the text: it is compared and skipped, or the answer is no. *)
Lemma char_case (test : Z -> bool) (next : option bool) (P : list Z -> Prop) (Q : Z -> Prop) text b :
  string_at m b text -> (forall x, test x = true <-> Q x) ->
  (forall x t, text = x :: t -> string_at m (b + 1) t -> decides next (P t)) ->
  decides (if negb (m b =? 0) && test (m b) then next else Some false) (exists x t, text = x :: t /\ Q x /\ P t).
Proof.
  intros Hb Ht Hn. rewrite (string_head m b _ Hb). destruct text as [|x t]; [change (default 0 (head [])) with 0|change (default 0 (head (x :: t))) with x].
  { apply decides_bool. split; [done|]. by intros (? & ? & ? & _). }
  apply string_tail in Hb as (Hx & Ex & Hb). rewrite (proj2 (Z.eqb_neq _ _) Hx). cbn [negb andb]. destruct (test x) eqn:Et.
  - eapply decides_iff; [|apply (Hn x t eq_refl Hb)]. apply Ht in Et. split; [intros HP; by exists x, t|]. by intros (? & ? & [= <- <-] & _ & HP).
  - apply decides_bool. split; [done|]. intros (? & ? & [= <- <-] & HQ & _). apply Ht in HQ. congruence.
Qed.

Definition here_ok (fuel : nat) : Prop := forall re text a b,
  string_at m a re -> string_at m b text -> (2 * length re + length text + 1 <= fuel)%nat ->
  decides (matchhere fuel m a b) (begins re text).
Definition star_ok (fuel : nat) : Prop := forall c re text a b,
  string_at m a re -> string_at m b text -> (2 * length re + length text + 2 <= fuel)%nat ->
  decides (matchstar fuel m c a b) (exists xs t, text = xs ++ t /\ Forall (fits c) xs /\ begins re t).

Lemma here_step fuel : here_ok fuel -> star_ok fuel -> here_ok (S fuel).
Proof.
  intros IHh IHs re text a b Ha Hb Hf. cbn [matchhere]. destruct re as [|c re].
  { rewrite (string_head m a _ Ha). apply decides_bool. split; [intros _; apply begins_nil|done]. }
  apply string_tail in Ha as (Hc & Ec & Ha). rewrite Ec, (proj2 (Z.eqb_neq _ _) Hc). pose proof (string_head m _ _ Ha) as Ed. cbn [length] in Hf.
  destruct (Z.eqb_spec (m (a + 1)) 42) as [E|Hstar].
  { destruct re as [|d re]; cbn in Ed; [by rewrite Ed in E|]. assert (d = 42) as -> by lia. apply string_tail in Ha as (_ & _ & Ha).
    apply (decides_iff _ _ _ (iff_sym (begins_star c re text))). replace (a + 2) with (a + 1 + 1) by lia.
    apply IHs; [done|done|]. cbn [length] in Hf. lia. }
  destruct ((c =? 36) && (m (a + 1) =? 0)) eqn:Edol.
  { assert (c = 36) as -> by lia. destruct re as [|d re]; [|cbn in Ed; apply string_tail in Ha as (? & _); lia].
    apply decides_bool. rewrite begins_dollar, (string_head m b _ Hb). destruct text as [|x t]; cbn; [done|].
    apply string_tail in Hb as (Hx & _). rewrite Z.eqb_eq. split; [done|discriminate]. }
  eapply decides_iff; [symmetry; apply begins_char|].
  - destruct re as [|d re]; cbn in *; congruence.
  - intros [-> ->]. cbn in Ed. rewrite Ed in Edol. done.
  - apply (char_case (fun x => (c =? 46) || (c =? x)) _ (begins re) (fits c) text b Hb); [unfold fits; lia|].
    intros x t -> Hb'. apply IHh; [done|done|]. cbn [length] in Hf. lia.
Qed.

Lemma star_step fuel : here_ok fuel -> star_ok fuel -> star_ok (S fuel).
Proof.
  intros IHh IHs c re text a b Ha Hb Hf. cbn [matchstar]. apply (decides_iff _ _ _ (iff_sym (star_unfold c re text))).
  destruct (IHh re text a b Ha Hb ltac:(lia)) as (r & Er & Hr). rewrite Er. destruct r.
  { apply decides_bool. split; [intros _; left; by apply Hr|done]. }
  eapply decides_iff; [|apply (char_case (fun x => (x =? c) || (c =? 46)) _
    (fun t => exists xs t', t = xs ++ t' /\ Forall (fits c) xs /\ begins re t') (fits c) text b Hb); [unfold fits; lia|]].
  - split; [by right|]. intros [Ht|Ht]; [by apply Hr in Ht|done].
  - intros x t -> Hb'. apply IHs; [done|done|]. cbn [length] in Hf. lia.
Qed.

Lemma match_correct fuel : here_ok fuel /\ star_ok fuel.
Proof.
  induction fuel as [|fuel [IHh IHs]]; [split; intros re *; lia|]. split; [by apply here_step|by apply star_step].
Qed.

Lemma match_loop_correct fuel : forall re text a b, string_at m a re -> string_at m b text ->
  (2 * length re + length text + 2 <= fuel)%nat ->
  decides (match_loop fuel m a b) (exists p t, text = p ++ t /\ begins re t).
Proof.
  induction fuel as [|fuel IH]; intros re text a b Ha Hb Hf; [lia|]. cbn [match_loop].
  destruct (proj1 (match_correct fuel) re text a b Ha Hb ltac:(lia)) as (r & Er & Hr). rewrite Er. destruct r.
  { apply decides_bool. split; [intros _; exists [], text; split; [done|by apply Hr]|done]. }
  rewrite <- (andb_true_r (negb _)).
  eapply decides_iff; [|apply (char_case (fun _ => true) _ (fun t => exists p t', t = p ++ t' /\ begins re t') (fun _ => True) text b Hb)]; [|done|].
  - split.
    + intros (x & t & -> & _ & p & t' & -> & Ht). by exists (x :: p), t'.
    + intros ([|x p] & t & -> & Ht); [by apply Hr in Ht|]. exists x, (p ++ t). split; [done|]. split; [done|]. by exists p, t.
  - intros x t -> Hb'. apply (IH re); [done|done|]. cbn [length] in Hf. lia.
Qed.

Lemma match_re_correct fuel re text a b : string_at m a re -> string_at m b text ->
  (2 * length re + length text + 2 <= fuel)%nat -> decides (match_re fuel m a b) (matches re text).
Proof.
  intros Ha Hb Hf. unfold match_re. rewrite (string_head m a _ Ha). destruct re as [|c re]; [change (default 0 (head [])) with 0|change (default 0 (head (c :: re))) with c].
  { by apply (match_loop_correct fuel [] text a b). }
  destruct (Z.eqb_spec c 94) as [->|Hc].
  - apply string_tail in Ha as (_ & _ & Ha). apply (match_correct fuel); [done|done|]. cbn [length] in Hf. lia.
  - eapply decides_iff; [|by apply (match_loop_correct fuel (c :: re) text a b)]. unfold matches.
    destruct c as [|c|c]; try done. repeat (destruct c as [c|c|]; try done).
Qed.
End Match.

(** ** The program *)
Definition BUFSZ : Z := 1024.

Section Grep.
Context `{Sys} (buf : Z).

(** The body of the inner loop: the line from [p] to the newline at [q]. *)
Definition grep_line (deep : nat) (pattern p q : Z) : UK unit :=
  modify (fun s => s <| u_mem := store8 (u_mem s) q 0 |>) ;;
  let! m := Prelude.gets u_mem in
  let! r := pure (match_re deep m pattern p) in
  when r
    (modify (fun s => s <| u_mem := store8 (u_mem s) q 10 |>) ;;
     let! _ := write 1 p (q + 1 - p) in
     kret tt).

(** The inner loop: [p] is where the next line starts; its final value is the
    start of the part that has no newline.  [fuel] bounds the lines, [deep] the
    library's loops. *)
Fixpoint grep_lines (fuel deep : nat) (pattern p : Z) : UK Z :=
  match fuel with
  | O => hang
  | S fuel' =>
      let! m := Prelude.gets u_mem in
      let! q := pure (strchr deep m p 10) in
      if q =? 0 then kret p else
      grep_line deep pattern p q ;;
      grep_lines fuel' deep pattern (q + 1)
  end.

Fixpoint grep_loop (fuel deep : nat) (pattern fd m : Z) : UK unit :=
  match fuel with
  | O => hang
  | S fuel' =>
      let! n := read fd (buf + m) (BUFSZ - m - 1) in
      if n <=? 0 then kret tt else
      let m := m + n in
      modify (fun s => s <| u_mem := store8 (u_mem s) (buf + m) 0 |>) ;;
      let! p := grep_lines deep deep pattern buf in
      if 0 <? m then
        let m := m - (p - buf) in
        modify (fun s => s <| u_mem := umemmove (u_mem s) buf p m |>) ;;
        grep_loop fuel' deep pattern fd m
      else grep_loop fuel' deep pattern fd m
  end.
Definition grep (fuel deep : nat) (pattern fd : Z) : UK unit := grep_loop fuel deep pattern fd 0.
End Grep.

(** ** What it prints *)
(** The complete lines of a text, without their newlines, and what follows the
    last one. *)
Fixpoint split_lines (l : list Z) : list (list Z) * list Z :=
  match l with
  | [] => ([], [])
  | c :: l' =>
      let '(ls, r) := split_lines l' in
      if c =? 10 then ([] :: ls, r)
      else match ls with [] => ([], c :: r) | x :: ls => ((c :: x) :: ls, r) end
  end.

(** [prints re ls out]: [out] are the writes that show the matching lines of [ls]. *)
Inductive prints (re : list Z) : list (list Z) -> list (Z * list Z) -> Prop :=
| P_nil : prints re [] []
| P_yes l ls out : matches re l -> prints re ls out -> prints re (l :: ls) ((1, l ++ [10]) :: out)
| P_no l ls out : ~ matches re l -> prints re ls out -> prints re (l :: ls) out.

Lemma prints_app re ls1 ls2 out1 out2 : prints re ls1 out1 -> prints re ls2 out2 -> prints re (ls1 ++ ls2) (out1 ++ out2).
Proof. intros P1 P2. induction P1; cbn; [done|by constructor|by constructor]. Qed.

Lemma split_none l : 10 ∉ l -> split_lines l = ([], l).
Proof.
  induction l as [|c l IH]; intros Hn; [done|]. rewrite not_elem_of_cons in Hn. destruct Hn as [Hc Hn]. cbn. rewrite IH by done.
  by rewrite (proj2 (Z.eqb_neq c 10)) by congruence.
Qed.

Lemma split_line l l' : 10 ∉ l -> split_lines (l ++ 10 :: l') = (l :: (split_lines l').1, (split_lines l').2).
Proof.
  induction l as [|c l IH]; intros Hn; cbn [app split_lines]; [by destruct (split_lines l')|].
  rewrite not_elem_of_cons in Hn. destruct Hn as [Hc Hn]. rewrite IH by done. by rewrite (proj2 (Z.eqb_neq c 10)) by congruence.
Qed.

(** The lines of a text that arrives in two parts. *)
Lemma split_app l1 l2 : split_lines (l1 ++ l2) =
  ((split_lines l1).1 ++ (split_lines ((split_lines l1).2 ++ l2)).1, (split_lines ((split_lines l1).2 ++ l2)).2).
Proof.
  induction l1 as [|c l1 IH]; cbn [app split_lines fst snd]; [by destruct (split_lines l2)|]. rewrite IH.
  destruct (split_lines l1) as [ls r]. cbn [fst snd] in *. destruct (Z.eqb_spec c 10) as [->|Hc]; [done|].
  destruct ls as [|x ls]; cbn [app fst snd split_lines]; [|done].
  destruct (split_lines (r ++ l2)) as [ls' r']. cbn [fst snd]. rewrite (proj2 (Z.eqb_neq _ _) Hc). by destruct ls'.
Qed.

(** What is left of a text has no newline and is part of it. *)
Lemma split_rest l : 10 ∉ (split_lines l).2.
Proof.
  induction l as [|c l IH]; cbn; [apply not_elem_of_nil|]. destruct (split_lines l) as [ls r]. cbn in IH.
  destruct (Z.eqb_spec c 10); [done|]. destruct ls; [|done]. cbn. rewrite not_elem_of_cons. by split; [congruence|].
Qed.

Lemma split_sub (P : Z -> Prop) l : Forall P l -> Forall P (split_lines l).2.
Proof.
  induction 1 as [|c l Hc Hl IH]; cbn; [constructor|]. destruct (split_lines l) as [ls r]. cbn in IH.
  destruct (c =? 10); [done|]. destruct ls; [|done]. by constructor.
Qed.

Lemma split_prefix w l : 10 ∉ w -> split_lines (w ++ l) =
  match (split_lines l).1 with [] => ([], w ++ (split_lines l).2) | x :: ls => ((w ++ x) :: ls, (split_lines l).2) end.
Proof.
  induction w as [|c w IH]; intros Hn; cbn [app split_lines]; [by destruct (split_lines l) as [[] ?]|].
  rewrite not_elem_of_cons in Hn. destruct Hn as [Hc Hn]. rewrite IH by done. rewrite (proj2 (Z.eqb_neq c 10)) by congruence.
  by destruct (split_lines l).1.
Qed.

(** The beginning of a line is no longer than the line. *)
Lemma prefix_fits B w l : 10 ∉ w -> Forall (fun x : list Z => Z.of_nat (length x) < B) (split_lines (w ++ l)).1 ->
  Z.of_nat (length (split_lines (w ++ l)).2) < B -> Z.of_nat (length w) < B.
Proof.
  intros Hn. rewrite split_prefix by done. destruct (split_lines l).1 as [|x ls]; cbn [fst snd].
  - rewrite length_app. lia.
  - intros [Hx _]%Forall_cons _. rewrite length_app in Hx. lia.
Qed.

(** ** Correctness *)
Section Correct.
Context `{SysOk} (buf pat : Z) (re : list Z) (deep : nat) (tr : list (ustate -> ustate)).
Context (Hbuf : 0 < buf) (Hpat : pat + Z.of_nat (length re) < buf \/ buf + BUFSZ <= pat).
Context (Hdeep : (2 * length re + 1025 <= deep)%nat).

(** Only the buffer is written, with bytes. *)
Definition keeps (m m' : Z -> Z) : Prop :=
  (forall x, x < buf \/ buf + BUFSZ <= x -> m' x = m x) /\ (bytes m -> bytes m').

Lemma keeps_refl m : keeps m m.
Proof. done. Qed.

Lemma keeps_trans m1 m2 m3 : keeps m1 m2 -> keeps m2 m3 -> keeps m1 m3.
Proof. intros [A1 A2] [B1 B2]. split; [intros x Hx; by rewrite B1, A1|auto]. Qed.

Lemma keeps_store m a v : buf <= a < buf + BUFSZ -> keeps m (store8 m a v).
Proof.
  intros Ha. split; [|apply bytes_store8]. intros x Hx. unfold store8. by rewrite (proj2 (Z.eqb_neq _ _)) by lia.
Qed.

Lemma keeps_pattern m m' : keeps m m' -> string_at m pat re -> string_at m' pat re.
Proof. intros [Hk _] Hs. eapply string_ext; [done|]. intros x Hx. apply Hk. lia. Qed.

Definition upd_out (m : Z -> Z) (out : list (Z * list Z)) (s : ustate) : ustate :=
  s <| u_mem := m |> <| u_out := u_out s ++ out |>.

(** The iteration for one line: the line is cut out, matched and printed. *)
Lemma line_run p l l' s : string_at (u_mem s) pat re -> string_at (u_mem s) p (l ++ 10 :: l') -> buf <= p ->
  p + Z.of_nat (length (l ++ 10 :: l')) < buf + BUFSZ ->
  let q := p + Z.of_nat (length l) in
  exists m' out, grep_line deep pat p q s tr = Done tt (upd_out m' out s) tr /\
    prints re [l] out /\ (forall x, x <> q -> m' x = u_mem s x) /\ keeps (u_mem s) m'.
Proof.
  intros Hre Hs Hp Hend q. unfold grep_line. rewrite length_app in Hend. cbn [length] in Hend. set (m1 := store8 (u_mem s) q 0).
  destruct (string_cut _ _ _ _ _ Hs) as (Hl & _ & _). fold q m1 in Hl.
  assert (K1 : keeps (u_mem s) m1) by (apply keeps_store; unfold q; lia).
  destruct (match_re_correct m1 deep re l pat p (keeps_pattern _ _ K1 Hre) Hl) as (r & Er & Hr); [unfold BUFSZ in *; lia|].
  assert (E1 : forall x, x <> q -> m1 x = u_mem s x) by (intros x Hx; unfold m1, store8; by rewrite (proj2 (Z.eqb_neq _ _) Hx)).
  destruct r.
  - set (m2 := store8 m1 q 10). exists m2, [(1, l ++ [10])].
    assert (E2 : forall x, x <> q -> m2 x = m1 x) by (intros x Hx; unfold m2, store8; by rewrite (proj2 (Z.eqb_neq _ _) Hx)).
    split; [|split; [constructor; [by apply Hr|constructor]|split; [intros x Hx; by rewrite E2, E1|]]].
    + kstep modify_run. kstep gets_run. kexact (pure_run (match_re deep m1 pat p) true (s <| u_mem := m1 |>) tr Er). cbn [when].
      kstep modify_run. fold m2. replace (q + 1 - p) with (Z.of_nat (length l + 1)) by (unfold q; lia).
      kstep write_run; [lia|]. unfold kret. rewrite Nat2Z.id. cbn [u_mem upd_field]. fold m1. fold m2.
      unfold upd_out. do 3 f_equal. rewrite (read_string m2 p l 10); [done| |].
      * intros i c Hi. pose proof (lookup_lt_Some _ _ _ Hi). rewrite E2 by (unfold q; lia). by apply (sa_byte _ _ _ Hl).
      * fold q. unfold m2, store8. by rewrite Z.eqb_refl.
    + eapply keeps_trans; [exact K1|]. apply keeps_store. unfold q. lia.
  - exists m1, []. split; [|split; [apply P_no; [intros Hm; by apply Hr in Hm|constructor]|done]].
    kstep modify_run. kstep gets_run. kexact (pure_run (match_re deep m1 pat p) false (s <| u_mem := m1 |>) tr Er). cbn [when].
    unfold kret, upd_out. by rewrite app_nil_r.
Qed.

Lemma first_line t i x : list_find (fun c => c = 10) t = Some (i, x) ->
  exists l l', t = l ++ 10 :: l' /\ (10 ∉ l) /\ length l = i.
Proof.
  intros (Hi & -> & Hno)%list_find_Some. exists (take i t), (drop (S i) t).
  split; [by rewrite (take_drop_middle t i 10)|]. split.
  - intros (j & Hj & Hlt)%elem_of_take. by apply (Hno j 10).
  - apply lookup_lt_Some in Hi. rewrite length_take. lia.
Qed.

Lemma grep_lines_run fuel : forall t p s, string_at (u_mem s) pat re -> string_at (u_mem s) p t -> buf <= p ->
  p + Z.of_nat (length t) < buf + BUFSZ -> (length t < fuel)%nat ->
  let rest := (split_lines t).2 in let p' := p + Z.of_nat (length t) - Z.of_nat (length rest) in
  exists m' out, grep_lines fuel deep pat p s tr = Done p' (upd_out m' out s) tr /\
    prints re (split_lines t).1 out /\ p <= p' /\ string_at m' p' rest /\ keeps (u_mem s) m'.
Proof.
  induction fuel as [|fuel IH]; intros t p s Hre Ht Hp Hend Hf; [lia|]. cbn [grep_lines].
  assert (Hchr := strchr_run (u_mem s) 10 t deep p Ht ltac:(unfold BUFSZ in *; lia)).
  destruct (list_find (fun x => x = 10) t) as [[i x]|] eqn:Ef.
  - destruct (first_line t i x Ef) as (l & l' & -> & Hl & <-). set (q := p + Z.of_nat (length l)) in *.
    rewrite split_line by done. cbn [fst snd].
    destruct (line_run p l l' s Hre Ht Hp Hend) as (m1 & out1 & E1 & P1 & M1 & K1). fold q in E1, M1.
    rewrite length_app in *. cbn [length] in *. set (s1 := upd_out m1 out1 s).
    destruct (string_cut _ _ _ _ _ Ht) as (_ & Ht' & _). fold q in Ht'.
    destruct (IH l' (q + 1) s1) as (m2 & out2 & E2 & P2 & L2 & S2 & K2).
    + by eapply keeps_pattern.
    + eapply string_ext; [exact Ht'|]. intros y Hy. apply M1. lia.
    + unfold q. lia.
    + unfold q. lia.
    + lia.
    + exists m2, (out1 ++ out2). replace (q + 1 + Z.of_nat (length l') - _)
        with (p + Z.of_nat (length l + S (length l')) - Z.of_nat (length (split_lines l').2)) in * by (unfold q; lia).
      split; [|split; [by apply (prints_app re [l])|split; [unfold q in *; lia|split; [done|by eapply keeps_trans]]]].
      kstep gets_run. kexact (pure_run _ q s tr Hchr). rewrite (proj2 (Z.eqb_neq q 0)) by (unfold q; lia).
      kexact E1. etransitivity; [exact E2|]. unfold s1, upd_out. cbn. by rewrite <- app_assoc.
  - assert (Hn : 10 ∉ t).
    { intros Hin. apply list_find_None in Ef. rewrite Forall_forall in Ef. by apply (Ef 10). }
    rewrite split_none by done. cbn [fst snd]. replace (p + Z.of_nat (length t) - Z.of_nat (length t)) with p by lia.
    exists (u_mem s), []. split; [|split; [constructor|split; [lia|split; [done|apply keeps_refl]]]].
    kstep gets_run. kexact (pure_run _ 0 s tr Hchr). unfold kret, upd_out. rewrite app_nil_r. by destruct s.
Qed.

(** A line that fits the buffer together with the NUL behind it. *)
Definition fits_buf (l : list Z) : Prop := Z.of_nat (length l) < BUFSZ - 1.

Lemma bytes_umemmove m d s n : 0 <= n -> bytes m -> bytes (umemmove m d s n).
Proof. intros Hn Hm a. rewrite umemmove_spec by done. destruct (_ && _); apply Hm. Qed.

(** The reads of one iteration: [w] in the buffer, [k] bytes of the input behind it. *)
Lemma fill_buf s w k : let t := w ++ take k (u_in s) in
  (forall i c, w !! i = Some c -> u_mem s (buf + Z.of_nat i) = c) -> Forall (fun c => 0 < c < 256) t ->
  Z.of_nat (length t) < BUFSZ -> string_at (u_mem s) pat re ->
  let m := store8 (write_bytes (u_mem s) (buf + Z.of_nat (length w)) (take k (u_in s))) (buf + Z.of_nat (length t)) 0 in
  string_at m buf t /\ string_at m pat re /\ (bytes (u_mem s) -> bytes m).
Proof.
  intros t Hw Hb Hlen Hre m. split; [by apply string_extend|]. unfold t in *. rewrite length_app in Hlen. split.
  - eapply string_ext; [exact Hre|]. intros x Hx. unfold m, store8. rewrite length_app, (proj2 (Z.eqb_neq _ _)) by lia.
    apply write_bytes_other. lia.
  - intros Hm. by apply bytes_store8, bytes_write_bytes.
Qed.

(** The unfinished line moved to the front. *)
Lemma move_rest m p rest : bytes m -> buf <= p -> p + Z.of_nat (length rest) < buf + BUFSZ ->
  string_at m p rest -> string_at m pat re ->
  let m' := umemmove m buf p (Z.of_nat (length rest)) in
  (forall i c, rest !! i = Some c -> m' (buf + Z.of_nat i) = c) /\ string_at m' pat re /\ bytes m'.
Proof.
  intros Hm Hp Hend Hr Hre m'. split; [|split; [|by apply bytes_umemmove; [lia|]]].
  - intros i c Hi. pose proof (lookup_lt_Some _ _ _ Hi). unfold m'. rewrite umemmove_spec by (done || lia).
    replace ((_ <=? _) && (_ <? _)) with true by lia. rewrite <- (sa_byte _ _ _ Hr i c Hi). f_equal. lia.
  - eapply string_ext; [exact Hre|]. intros x Hx. unfold m'. rewrite umemmove_spec by (done || lia).
    replace ((_ <=? _) && (_ <? _)) with false by lia. done.
Qed.

(** At the head of the loop the buffer holds [w], the beginning of a line. *)
Lemma grep_loop_run fd fuel : forall s w, bytes (u_mem s) -> string_at (u_mem s) pat re ->
  (forall i c, w !! i = Some c -> u_mem s (buf + Z.of_nat i) = c) ->
  Forall (fun c => 0 < c < 256) (w ++ u_in s) -> 10 ∉ w ->
  Forall fits_buf (split_lines (w ++ u_in s)).1 -> fits_buf (split_lines (w ++ u_in s)).2 ->
  (length (u_in s) < fuel)%nat ->
  exists m' out, grep_loop buf fuel deep pat fd (Z.of_nat (length w)) s tr = Done tt ((upd_out m' out s) <| u_in := [] |>) tr /\
    prints re (split_lines (w ++ u_in s)).1 out.
Proof.
  induction fuel as [|fuel IH]; intros s w Hm Hre Hw Hb Hline Hfit Hrest Hf; [lia|]. cbn [grep_loop].
  assert (Hwfit : fits_buf w) by (by eapply prefix_fits). unfold fits_buf in Hwfit.
  destruct (read_run fd (buf + Z.of_nat (length w)) (BUFSZ - Z.of_nat (length w) - 1) s tr) as (k & Er & Hk1 & Hk2 & Hk3); [lia|].
  destruct k as [|k'].
  { assert (Hin : u_in s = []) by (destruct (u_in s); [done|]; exfalso; pose proof (Hk3 ltac:(lia) ltac:(done)); lia).
    exists (u_mem s), []. rewrite Hin, app_nil_r, split_none by done. split; [|constructor]. kexact Er.
    unfold kret, upd_out. rewrite app_nil_r. destruct s. cbn in *. by rewrite Hin. }
  set (k := S k') in *. set (t := w ++ take k (u_in s)). assert (Ht : length t = (length w + k)%nat) by (unfold t; rewrite length_app, length_take; lia).
  assert (Eall : w ++ u_in s = t ++ drop k (u_in s)) by (unfold t; by rewrite <- app_assoc, take_drop). rewrite Eall in *.
  apply Forall_app in Hb as [Hbt Hbd].
  destruct (fill_buf s w k Hw Hbt ltac:(fold t; lia) Hre) as (S1 & R1 & B1). fold t in S1, R1, B1. set (m1 := store8 _ _ 0) in *.
  set (s1 := s <| u_mem := m1 |> <| u_in := drop k (u_in s) |>).
  destruct (grep_lines_run deep t buf s1 R1 S1) as (m2 & out1 & E2 & P2 & L2 & S2 & K2); [lia|lia|unfold BUFSZ in *; lia|].
  set (rest := (split_lines t).2) in *. set (p := buf + Z.of_nat (length t) - Z.of_nat (length rest)) in *.
  destruct (move_rest m2 p rest) as (M3 & R3 & B3); [by apply K2, B1|lia|unfold p; lia|done|by apply (keeps_pattern m1)|].
  set (m3 := umemmove m2 buf p (Z.of_nat (length rest))) in *. set (s3 := (upd_out m3 out1 s1)).
  rewrite split_app in Hfit, Hrest |- *. fold rest in Hfit, Hrest |- *. cbn [fst snd] in *. apply Forall_app in Hfit as [_ Hfit].
  destruct (IH s3 rest B3 R3 M3) as (m4 & out2 & E4 & P4); [|by apply split_rest|done|done|cbn; rewrite length_drop; lia|].
  { apply Forall_app. split; [by apply split_sub|done]. }
  exists m4, (out1 ++ out2). split; [|by apply prints_app].
  kexact Er. rewrite (proj2 (Z.leb_gt _ _)) by lia. kstep modify_run. replace (Z.of_nat (length w) + Z.of_nat k) with (Z.of_nat (length t)) by lia.
  kexact E2. rewrite (proj2 (Z.ltb_lt _ _)) by lia. kstep modify_run.
  replace (Z.of_nat (length t) - (p - buf)) with (Z.of_nat (length rest)) by (unfold p; lia).
  etransitivity; [exact E4|]. unfold s3, s1, upd_out. cbn. by rewrite <- app_assoc.
Qed.
End Correct.

(** C34. The matcher decides the pattern language: [match] returns 1 exactly if the
    text contains a string that the pattern denotes, from its beginning after a
    caret and up to its end before a final dollar; and it always returns. *)
Theorem match_re_spec m fuel re text a b :
  string_at m a re -> string_at m b text -> (2 * length re + length text + 2 <= fuel)%nat ->
  exists r, match_re fuel m a b = Some r /\ (r = true <-> matches re text).
Proof. apply match_re_correct. Qed.


(** The pattern [b.*d] and the text [abcd]. *)
Definition demo_re : list Z := [98; 46; 42; 100].
Definition demo_text : Z -> Z := write_bytes (write_bytes (fun _ => 0) 5000 demo_re) 6000 [97; 98; 99; 100].

Lemma demo_string a l : (a = 5000 /\ l = demo_re \/ a = 6000 /\ l = [97; 98; 99; 100]) -> string_at demo_text a l.
Proof.
  intros [[-> ->]|[-> ->]]; (split; [|by vm_compute|by repeat constructor]); intros [|[|[|[|i]]]] c [= <-]; by vm_compute.
Qed.

Lemma demo_match : matches demo_re [97; 98; 99; 100].
Proof.
  exists [97], [98; 99; 100]. split; [done|]. exists [98; 99; 100], []. split; [done|]. split; [|done].
  apply (L_one 98 98); [by right|]. apply (L_star 46 [99]); [repeat constructor|]. apply (L_one 100 100); [by right|constructor].
Qed.

Lemma match_re_spec_witness : match_re 20 demo_text 5000 6000 = Some true.
Proof.
  destruct (match_re_spec demo_text 20 demo_re [97; 98; 99; 100] 5000 6000) as (r & E & Hr).
  - apply demo_string. left. split; reflexivity.
  - apply demo_string. right. split; reflexivity.
  - cbn. lia.
  - rewrite E. apply f_equal. apply Hr. exact demo_match.
Defined.

(** Of the lines [bd], [x] the first matches; the rest [d] is not a line. *)
Definition demo_input : ustate := mkustate demo_text [98; 100; 10; 120; 10; 98; 100] [] 0 0.

Lemma demo_bytes : bytes demo_text.
Proof. apply bytes_write_bytes, bytes_write_bytes. intros a. lia. Qed.

