(* ===== verification/UMalloc.v ===== *)
(** * The user's memory allocator (user/umalloc.c)

    The free blocks form a circular list in the order of their addresses, starting
    at the static header [base]; a header is a pointer and a size in units of
    sixteen bytes.  [heap] is the allocator's invariant: the free and the allocated
    blocks are disjoint parts of the heap.  [free] and [malloc] preserve it and do
    not touch the contents of other allocated blocks. *)

From stdpp Require Import prelude list strings.
From Stdlib Require Import ZArith Lia ZifyBool.
From S2P Require Import Prelude State CString ULib.
Local Open Scope Z_scope.

(** ** Headers *)
(** [sizeof(Header)] *)
Definition HSZ : Z := 16.
(** [p->s.ptr] and [p->s.size]. *)
Definition hptr (m : Z -> Z) (p : Z) : Z := load64 m p.
Definition hsize (m : Z -> Z) (p : Z) : Z := load_le m (p + 8) 4.
Definition set_ptr (p v : Z) (m : Z -> Z) : Z -> Z := store64 m p v.
Definition set_size (p v : Z) (m : Z -> Z) : Z -> Z := store_le m (p + 8) (u32 v) 4.
Definition SBRK_ERROR : Z := 2 ^ 64 - 1.

(** ** The code *)
Definition upd_mem (f : (Z -> Z) -> Z -> Z) : UK unit := modify (fun s => s <| u_mem ::= f |>).

(** The loop of [free]: the free block behind which [bp] belongs. *)
Fixpoint free_find (fuel : nat) (m : Z -> Z) (bp p : Z) : option Z :=
  match fuel with
  | O => None
  | S fuel' =>
      if (p <? bp) && (bp <? hptr m p) then Some p
      else if (hptr m p <=? p) && ((p <? bp) || (bp <? hptr m p)) then Some p
      else free_find fuel' m bp (hptr m p)
  end.

Definition free (fuel : nat) (ap : Z) : UK unit :=
  let bp := ap - HSZ in
  let! s := kget in
  let! p := pure (free_find fuel (u_mem s) bp (u_freep s)) in
  let! m := Prelude.gets u_mem in
  (if bp + HSZ * hsize m bp =? hptr m p then
     upd_mem (fun m => set_size bp (hsize m bp + hsize m (hptr m p)) m) ;;
     upd_mem (fun m => set_ptr bp (hptr m (hptr m p)) m)
   else upd_mem (fun m => set_ptr bp (hptr m p) m)) ;;
  let! m := Prelude.gets u_mem in
  (if p + HSZ * hsize m p =? bp then
     upd_mem (fun m => set_size p (hsize m p + hsize m bp) m) ;;
     upd_mem (fun m => set_ptr p (hptr m bp) m)
   else upd_mem (fun m => set_ptr p bp m)) ;;
  modify (fun s => s <| u_freep := p |>).

Section Malloc.
Context `{Sys} (base : Z).

Definition morecore (fuel : nat) (nu : Z) : UK Z :=
  let nu := if nu <? 4096 then 4096 else nu in
  let! p := sbrk (i32 (nu * HSZ)) in
  if p =? SBRK_ERROR then kret 0 else
  upd_mem (set_size p nu) ;;
  free fuel (p + HSZ) ;;
  Prelude.gets u_freep.

(** The loop of [malloc]; [fuel] bounds the blocks it looks at, and those that
    [free] looks at. *)
Fixpoint malloc_loop (fuel deep : nat) (nunits prevp p : Z) : UK Z :=
  match fuel with
  | O => hang
  | S fuel' =>
      let! m := Prelude.gets u_mem in
      if nunits <=? hsize m p then
        let! q := (if hsize m p =? nunits then
                     upd_mem (fun m => set_ptr prevp (hptr m p) m) ;; kret p
                   else
                     let k := u32 (hsize m p - nunits) in
                     upd_mem (set_size p k) ;;
                     upd_mem (set_size (p + HSZ * k) nunits) ;;
                     kret (p + HSZ * k)) in
        modify (fun s => s <| u_freep := prevp |>) ;;
        kret (q + HSZ)
      else
        let! s := kget in
        let! p := (if p =? u_freep s then morecore deep nunits else kret p) in
        if p =? 0 then kret 0 else
        let! m := Prelude.gets u_mem in
        malloc_loop fuel' deep nunits p (hptr m p)
  end.

Definition malloc (fuel : nat) (nbytes : Z) : UK Z :=
  let nunits := u32 ((nbytes + HSZ - 1) / HSZ + 1) in
  let! s := kget in
  when (u_freep s =? 0)
    (upd_mem (set_ptr base base) ;;
     modify (fun s => s <| u_freep := base |>) ;;
     upd_mem (set_size base 0)) ;;
  let! prevp := Prelude.gets u_freep in
  let! m := Prelude.gets u_mem in
  malloc_loop fuel fuel nunits prevp (hptr m prevp).
End Malloc.

(** ** Headers that change *)
Lemma hptr_set_ptr m p v : 0 <= v < 2 ^ 64 -> hptr (set_ptr p v m) p = v.
Proof. apply load64_store64. Qed.

Lemma hsize_set_size m p v : 0 <= v < 2 ^ 32 -> hsize (set_size p v m) p = v.
Proof. intros Hv. unfold hsize, set_size, u32. rewrite Z.mod_small by done. by apply load_store_le. Qed.

Lemma set_ptr_other m p v x : x < p \/ p + HSZ <= x -> set_ptr p v m x = m x.
Proof. unfold HSZ. intros Hx. apply store64_other. lia. Qed.

Lemma set_size_other m p v x : x < p \/ p + HSZ <= x -> set_size p v m x = m x.
Proof. unfold HSZ. intros Hx. apply store_le_other. lia. Qed.

Lemma hsize_set_ptr m p v : hsize (set_ptr p v m) p = hsize m p.
Proof. apply load_le_ext. intros x Hx. apply store64_other. lia. Qed.

Lemma hptr_set_size m p v : hptr (set_size p v m) p = hptr m p.
Proof. apply load64_ext. intros x Hx. apply store_le_other. lia. Qed.

(** Memory that agrees on the header at [q]. *)
Lemma header_ext m m' q : (forall x, q <= x < q + HSZ -> m' x = m x) -> hptr m' q = hptr m q /\ hsize m' q = hsize m q.
Proof. unfold HSZ. intros E. split; [apply load64_ext|apply load_le_ext]; intros x Hx; apply E; lia. Qed.

(** ** The list of free blocks *)
(** A block of size 0 is the header [base], which still takes its own sixteen
    bytes. *)
Definition extent (n : Z) : Z := HSZ * Z.max 1 n.
Definition next (B : list (Z * Z)) (last : Z) : Z := match B with [] => last | (b, _) :: _ => b end.
Fixpoint chain (m : Z -> Z) (B : list (Z * Z)) (last : Z) : Prop :=
  match B with
  | [] => True
  | (a, n) :: B' => hsize m a = n /\ hptr m a = next B' last /\ chain m B' last
  end.
Fixpoint ordered (lo : Z) (B : list (Z * Z)) (hi : Z) : Prop :=
  match B with
  | [] => lo <= hi
  | (a, n) :: B' => lo <= a /\ 0 <= n /\ ordered (a + extent n) B' hi
  end.

Lemma extent_pos n : HSZ <= extent n.
Proof. unfold extent, HSZ. lia. Qed.

Lemma next_app B1 B2 last : next (B1 ++ B2) last = next B1 (next B2 last).
Proof. by destruct B1 as [|[]]. Qed.

Arguments hptr : simpl never.
Arguments hsize : simpl never.

Lemma chain_app m B1 B2 last : chain m (B1 ++ B2) last <-> chain m B1 (next B2 last) /\ chain m B2 last.
Proof. induction B1 as [|[a n] B1 IH]; cbn; [tauto|]. rewrite IH, next_app. tauto. Qed.

Lemma blocks_ext m m' B last : (forall a n x, (a, n) ∈ B -> a <= x < a + HSZ -> m' x = m x) -> chain m B last -> chain m' B last.
Proof.
  induction B as [|[a n] B IH]; intros E; cbn; [done|]. intros (H1 & H2 & H3).
  destruct (header_ext m m' a) as [-> ->]; [intros x Hx; apply (E a n); [by left|done]|].
  split; [done|]. split; [done|]. apply IH; [|done]. intros b k x Hin. apply (E b k). by right.
Qed.

Lemma ordered_le lo lo' B hi hi' : lo' <= lo -> hi <= hi' -> ordered lo B hi -> ordered lo' B hi'.
Proof.
  revert lo lo'. induction B as [|[a n] B IH]; intros lo lo' H1 H2; cbn; [lia|]. intros (H3 & H4 & H5).
  split; [lia|]. split; [done|]. by apply (IH (a + extent n)); [lia| |].
Qed.

Lemma ordered_app B1 p sp B2 : forall lo hi, ordered lo (B1 ++ (p, sp) :: B2) hi <->
  ordered lo B1 p /\ 0 <= sp /\ ordered (p + extent sp) B2 hi.
Proof.
  induction B1 as [|[a n] B1 IH]; intros lo hi; cbn; [tauto|]. rewrite IH. tauto.
Qed.

Lemma ordered_range B : forall lo hi, ordered lo B hi -> lo <= hi.
Proof.
  induction B as [|[a n] B IH]; intros lo hi; cbn; [done|]. intros (H1 & H2 & H3). apply IH in H3. pose proof (extent_pos n). unfold HSZ in *. lia.
Qed.

Lemma ordered_in B a n : forall lo hi, ordered lo B hi -> (a, n) ∈ B -> lo <= a /\ 0 <= n /\ a + extent n <= hi.
Proof.
  intros lo hi Ho (B1 & B2 & ->)%list_elem_of_split. apply ordered_app in Ho as (H1 & H2 & H3).
  split; [by apply ordered_range in H1|]. split; [done|]. by apply ordered_range in H3.
Qed.

Lemma next_bounds B last lo hi : 0 <= last < 2 ^ 64 -> 0 <= lo -> hi < 2 ^ 64 -> ordered lo B hi -> 0 <= next B last < 2 ^ 64.
Proof.
  destruct B as [|[b k] B]; cbn [next ordered]; [done|]. intros _ H1 H2 (H3 & _ & H4). apply ordered_range in H4. pose proof (extent_pos k). unfold HSZ in *. lia.
Qed.

(** Two blocks that do not overlap. *)
Definition apart (a n b k : Z) : Prop := a + HSZ * n <= b \/ b + HSZ * k <= a.

Lemma apart_join a na b k k' : 1 <= na -> apart a na b k -> apart a na (b + HSZ * k) k' -> apart a na b (k + k').
Proof. unfold apart, HSZ. lia. Qed.

(** The place of a block among the free ones: behind [p]. *)
Lemma place bp n hi B : forall a sz lo, ordered lo ((a, sz) :: B) hi -> a + extent sz <= bp -> bp + HSZ * n <= hi ->
  (forall b k, (b, k) ∈ B -> 1 <= k /\ apart bp n b k) ->
  exists B1 p sp B2, (a, sz) :: B = B1 ++ (p, sp) :: B2 /\ p + extent sp <= bp /\ ordered (bp + HSZ * n) B2 hi.
Proof.
  induction B as [|[b k] B IH]; intros a sz lo (H1 & H2 & H3) Ha Hhi Hd.
  - by exists [], a, sz, [].
  - destruct (Hd b k) as [Hk [Hap|Hap]]; [by left| |].
    + exists [], a, sz, ((b, k) :: B). split; [done|]. split; [done|]. destruct H3 as (_ & H4 & H5). by split.
    + destruct (IH b k (a + extent sz) H3) as (B1 & p & sp & B2 & E & Hp & Ho).
      * unfold extent, HSZ in *. lia.
      * done.
      * intros b' k' Hin. apply Hd. by right.
      * exists ((a, sz) :: B1), p, sp, B2. by rewrite E.
Qed.

Section Search.
Context (m : Z -> Z) (base bp n hi : Z) (B1 B2 : list (Z * Z)) (p sp : Z).
Context (Hc : chain m (B1 ++ (p, sp) :: B2) base) (Ho : ordered base (B1 ++ (p, sp) :: B2) hi).
Context (Hp : p + extent sp <= bp) (Hn : 1 <= n) (H2 : ordered (bp + HSZ * n) B2 hi) (Hb : next (B1 ++ (p, sp) :: B2) base = base).

Lemma node_base : base <= p.
Proof. apply ordered_app in Ho as (H & _ & _). by apply ordered_range in H. Qed.

(** From a free block before [p] the search runs up to [p]. *)
Lemma find_forward L1 : forall B0 fuel, B1 = B0 ++ L1 -> (length L1 < fuel)%nat ->
  free_find fuel m bp (next (L1 ++ (p, sp) :: B2) base) = Some p.
Proof.
  pose proof node_base as Hbp. pose proof (extent_pos sp) as Hsp.
  induction L1 as [|[x k] L1 IH]; intros B0 [|fuel] E Hf; cbn [length] in Hf; try lia; cbn [free_find app next].
  - pose proof Hc as Hc'. rewrite chain_app in Hc'. destruct Hc' as [_ (_ & -> & _)]. unfold HSZ in *.
    destruct B2 as [|[y ky] B2']; cbn [next].
    + rewrite (proj2 (Z.ltb_ge bp base)), andb_false_r by lia. by rewrite (proj2 (Z.leb_le _ _)), (proj2 (Z.ltb_lt _ _)) by lia.
    + destruct H2 as (Hy & _). by rewrite !(proj2 (Z.ltb_lt _ _)) by lia.
  - pose proof Hc as Hc'. rewrite E, <- app_assoc, chain_app in Hc'. destruct Hc' as [_ (_ & Hx & _)]. rewrite Hx.
    pose proof Ho as Ho'. rewrite E, <- !app_assoc in Ho'. cbn [app] in Ho'. apply ordered_app in Ho' as (_ & _ & Ho').
    pose proof (extent_pos k) as Hk. unfold HSZ in *.
    assert (Hy : x < next (L1 ++ (p, sp) :: B2) base <= p).
    { destruct L1 as [|[y ky] L1']; cbn [app next] in *; [destruct Ho' as (? & _); lia|].
      destruct Ho' as (? & _ & Ho'). apply ordered_app in Ho' as (Ho' & _). apply ordered_range in Ho'. pose proof (extent_pos ky). unfold HSZ in *. lia. }
    rewrite (proj2 (Z.ltb_ge bp _)), andb_false_r by lia. rewrite (proj2 (Z.leb_gt _ x)) by lia. cbn [andb].
    apply (IH (B0 ++ [(x, k)])); [by rewrite <- app_assoc|lia].
Qed.

(** From one behind [bp] it first runs to the end and around. *)
Lemma find_around L : forall B0 fuel, B2 = B0 ++ L -> L <> [] -> (length L + length B1 < fuel)%nat ->
  free_find fuel m bp (next L base) = Some p.
Proof.
  pose proof node_base as Hbp. pose proof (extent_pos sp) as Hsp.
  induction L as [|[x k] L IH]; intros B0 [|fuel] E Hne Hf; cbn [length] in Hf; try done; try lia. cbn [free_find next].
  pose proof Hc as Hc'. rewrite chain_app in Hc'. destruct Hc' as [_ (_ & _ & Hc')]. rewrite E, chain_app in Hc'. destruct Hc' as [_ (_ & Hx & _)].
  pose proof H2 as Ho'. rewrite E in Ho'. apply ordered_app in Ho' as (Ho1 & _ & Ho2). apply ordered_range in Ho1.
  pose proof (extent_pos k) as Hk. unfold HSZ in *. rewrite Hx, (proj2 (Z.ltb_ge x bp)) by lia. cbn [andb orb].
  destruct L as [|[y ky] L']; cbn [next].
  - rewrite (proj2 (Z.ltb_ge bp base)), andb_false_r by lia. rewrite <- Hb at 1.
    apply (find_forward B1 [] fuel eq_refl). cbn [length] in Hf. lia.
  - destruct Ho2 as (Hy & _). rewrite (proj2 (Z.leb_gt y x)) by lia. cbn [andb].
    apply (IH (B0 ++ [(x, k)]) fuel); [by rewrite <- app_assoc|done|lia].
Qed.

Lemma find_run f fuel : f ∈ (B1 ++ (p, sp) :: B2).*1 -> (length (B1 ++ (p, sp) :: B2) < fuel)%nat ->
  free_find fuel m bp f = Some p.
Proof.
  intros Hin Hf. rewrite length_app in Hf. cbn [length] in Hf. rewrite fmap_app in Hin. apply elem_of_app in Hin as [Hin|Hin].
  - apply list_elem_of_fmap in Hin as ([x k] & -> & (Ba & Bb & E)%list_elem_of_split). cbn [fst].
    apply (find_forward ((x, k) :: Bb) Ba fuel E). rewrite E, length_app in Hf. cbn [length] in *. lia.
  - cbn in Hin. apply elem_of_cons in Hin as [->|Hin].
    + apply (find_forward [] B1 fuel); [by rewrite app_nil_r|cbn; lia].
    + apply list_elem_of_fmap in Hin as ([x k] & -> & (Ba & Bb & E)%list_elem_of_split). cbn [fst].
      apply (find_around ((x, k) :: Bb) Ba fuel E); [done|]. rewrite E, length_app in Hf. cbn [length] in *. lia.
Qed.
End Search.

(** ** Insertion and coalescing *)
Definition units (B : list (Z * Z)) : Z := foldr (fun b t => b.2 + t) 0 B.

Lemma units_cons a k B : units ((a, k) :: B) = k + units B.
Proof. done. Qed.

Lemma units_app B1 B2 : units (B1 ++ B2) = units B1 + units B2.
Proof. induction B1 as [|[a k] B1 IH]; [done|]. cbn [app]. rewrite !units_cons, IH. lia. Qed.

(** The two halves of [free]: joining the block to the next one, and to [p]. *)
Definition join_next (p bp : Z) (m : Z -> Z) : Z -> Z :=
  if bp + HSZ * hsize m bp =? hptr m p then
    let m := set_size bp (hsize m bp + hsize m (hptr m p)) m in set_ptr bp (hptr m (hptr m p)) m
  else set_ptr bp (hptr m p) m.
Definition join_prev (p bp : Z) (m : Z -> Z) : Z -> Z :=
  if p + HSZ * hsize m p =? bp then
    let m := set_size p (hsize m p + hsize m bp) m in set_ptr p (hptr m bp) m
  else set_ptr p bp m.

Lemma free_run fuel ap s tr p : free_find fuel (u_mem s) (ap - HSZ) (u_freep s) = Some p ->
  free fuel ap s tr = Done tt (s <| u_mem := join_prev p (ap - HSZ) (join_next p (ap - HSZ) (u_mem s)) |> <| u_freep := p |>) tr.
Proof.
  intros Hf. unfold free, upd_mem. kstep (eq_refl : kget s tr = Done s s tr). kexact (pure_run _ p s tr Hf). kstep gets_run.
  unfold join_next. destruct (_ =? hptr (u_mem s) p); repeat kstep modify_run; kstep gets_run; cbn [u_mem upd_field];
    unfold join_prev; destruct (_ =? ap - HSZ); by repeat kstep modify_run.
Qed.

Section Insert.
Context (m : Z -> Z) (base bp n hi : Z) (B1 B2 : list (Z * Z)) (p sp : Z).
Context (Hbase : 0 < base) (Hhi : hi < 2 ^ 36).
Context (Hc : chain m (B1 ++ (p, sp) :: B2) base) (Ho : ordered base (B1 ++ (p, sp) :: B2) hi).
Context (Hp : p + extent sp <= bp) (Hn : 1 <= n) (H2 : ordered (bp + HSZ * n) B2 hi) (Hsize : hsize m bp = n).

Lemma chain_parts : chain m B1 p /\ hsize m p = sp /\ hptr m p = next B2 base /\ chain m B2 base.
Proof. pose proof Hc as Hc'. rewrite chain_app in Hc'. by destruct Hc' as [? (? & ? & ?)]. Qed.

Lemma base_p : base <= p /\ 0 <= sp /\ ordered base B1 p.
Proof. pose proof Ho as Ho'. apply ordered_app in Ho' as (H & Hs & _). split; [by apply ordered_range in H|done]. Qed.

(** The block after it has been joined to the next one: its size and what follows. *)
Lemma join_next_spec : exists n' B2', let m1 := join_next p bp m in
  hsize m1 bp = n' /\ hptr m1 bp = next B2' base /\ chain m B2' base /\ n <= n' /\ ordered (bp + HSZ * n') B2' hi /\
  n' + units B2' = n + units B2 /\ (forall b, b ∈ B2' -> b ∈ B2) /\ (length B2' <= length B2)%nat /\
  (forall a na, 1 <= na -> apart a na bp n -> (forall b k, (b, k) ∈ B2 -> apart a na b k) -> apart a na bp n') /\
  (forall x, x < bp \/ bp + HSZ <= x -> m1 x = m x).
Proof.
  destruct chain_parts as (C1 & Sp & Pp & C2). destruct base_p as (Hb & Hsp & _). pose proof (extent_pos sp).
  pose proof (ordered_range _ _ _ H2) as Hr. unfold join_next. rewrite Hsize, Pp. unfold HSZ in *.
  destruct B2 as [|[y k] B3]; cbn [next] in *.
  - rewrite (proj2 (Z.eqb_neq _ base)) by lia. exists n, []. cbv zeta. rewrite hsize_set_ptr, hptr_set_ptr by lia.
    split; [done|]. split; [done|]. split; [done|]. split; [lia|]. split; [done|]. split; [done|]. split; [done|]. split; [done|]. split; [done|].
    intros x Hx. by apply set_ptr_other.
  - destruct C2 as (Sy & Py & C2). destruct H2 as (Hy & Hk & H3). pose proof (extent_pos k).
    pose proof (ordered_range _ _ _ H3) as Hr3. unfold extent, HSZ in *.
    assert (Hnx : 0 <= next B3 base < 2 ^ 64).
    { eapply (next_bounds B3 base _ hi); [| | |exact H3]; unfold extent, HSZ; lia. }
    destruct (Z.eqb_spec (bp + 16 * n) y) as [E|E].
    + exists (n + k), B3. cbv zeta. rewrite Sy. set (m' := set_size bp (n + k) m).
      destruct (header_ext m m' y) as [Py' _]; [intros x Hx; apply set_size_other; unfold HSZ in *; lia|].
      destruct (header_ext m m' p) as [Pp' _]; [intros x Hx; apply set_size_other; unfold HSZ in *; lia|].
      rewrite Pp', Pp, Py', Py, hsize_set_ptr, hptr_set_ptr by done. unfold m'. rewrite hsize_set_size by lia.
      split; [done|]. split; [done|]. split; [done|]. split; [lia|]. split; [eapply (ordered_le _ _ _ hi hi); [|done|exact H3]; lia|]. split; [rewrite units_cons; lia|].
      split; [by right|]. split; [cbn; lia|]. split.
      * intros a na Hna A1 A2. apply apart_join; [done|done|]. unfold HSZ. rewrite E. apply A2. by left.
      * intros x Hx. rewrite set_ptr_other by (unfold HSZ; lia). apply set_size_other. unfold HSZ. lia.
    + exists n, ((y, k) :: B3). cbv zeta. rewrite hsize_set_ptr, hptr_set_ptr by lia.
      split; [done|]. split; [done|]. split; [done|]. split; [lia|]. split; [by split|]. split; [done|]. split; [done|]. split; [done|]. split; [done|].
      intros x Hx. by apply set_ptr_other.
Qed.


(** The list with the block joined to [p], and with the block behind it. *)
Section Prev.
Context (m1 : Z -> Z) (n' : Z) (B2' : list (Z * Z)).
Context (S1 : hsize m1 bp = n') (P1 : hptr m1 bp = next B2' base) (C2' : chain m B2' base) (Hnn : n <= n').
Context (O2 : ordered (bp + HSZ * n') B2' hi) (Fr : forall x, x < bp \/ bp + HSZ <= x -> m1 x = m x).

Lemma prev_below m2 : (forall x, x < p \/ bp + HSZ <= x -> m2 x = m x) -> chain m2 B1 p /\ chain m2 B2' base.
Proof.
  intros E. destruct base_p as (Hb & Hsp & Ho1). destruct chain_parts as (C1 & _). pose proof (extent_pos sp). unfold HSZ in *. split.
  - eapply blocks_ext; [|exact C1]. intros a k x Hin Hx. apply E. destruct (ordered_in _ _ _ _ _ Ho1 Hin) as (_ & _ & ?).
    pose proof (extent_pos k). unfold HSZ in *. lia.
  - eapply blocks_ext; [|exact C2']. intros a k x Hin Hx. apply E. destruct (ordered_in _ _ _ _ _ O2 Hin) as (? & _). unfold HSZ in *. lia.
Qed.

Lemma next_range : 0 <= next B2' base < 2 ^ 64.
Proof.
  destruct base_p as (Hb & Hsp & _). pose proof (extent_pos sp). pose proof (ordered_range _ _ _ O2). unfold HSZ in *.
  eapply (next_bounds B2' base _ hi); [| | |exact O2]; unfold HSZ; lia.
Qed.

Lemma m1_prev : hptr m1 p = next B2 base /\ hsize m1 p = sp.
Proof.
  destruct chain_parts as (_ & Sp & Pp & _). pose proof (extent_pos sp).
  destruct (header_ext m m1 p) as [-> ->]; [intros x Hx; apply Fr; unfold HSZ in *; lia|]. done.
Qed.

Lemma prev_apart : let m2 := set_ptr p bp m1 in
  chain m2 (B1 ++ (p, sp) :: (bp, n') :: B2') base /\ ordered base (B1 ++ (p, sp) :: (bp, n') :: B2') hi.
Proof.
  intros m2. destruct base_p as (Hb & Hsp & Ho1). destruct m1_prev as [_ Sp]. pose proof (extent_pos sp). pose proof (ordered_range _ _ _ O2). unfold HSZ in *.
  assert (F2 : forall x, x < p \/ p + 16 <= x -> m2 x = m1 x) by (intros x Hx; by apply set_ptr_other).
  destruct (prev_below m2) as [D1 D2]; [intros x Hx; unfold HSZ in *; rewrite F2 by lia; apply Fr; unfold HSZ; lia|].
  destruct (header_ext m1 m2 bp) as [Eb1 Eb2]; [intros x Hx; apply F2; unfold HSZ in *; lia|].
  split.
  - rewrite chain_app. cbn [chain next]. split; [done|]. unfold m2 in *. rewrite hsize_set_ptr, hptr_set_ptr by lia. by rewrite Eb1, Eb2.
  - rewrite ordered_app. split; [done|]. split; [done|]. cbn [ordered]. split; [done|]. split; [lia|].
    eapply (ordered_le _ _ _ hi hi); [|done|exact O2]. unfold extent, HSZ. lia.
Qed.

Lemma prev_joined : p + HSZ * sp = bp -> let m := set_size p (sp + n') m1 in let m2 := set_ptr p (hptr m bp) m in
  chain m2 (B1 ++ (p, sp + n') :: B2') base /\ ordered base (B1 ++ (p, sp + n') :: B2') hi.
Proof.
  intros E m' m2. destruct base_p as (Hb & Hsp & Ho1). destruct m1_prev as [_ Sp]. pose proof (extent_pos sp). pose proof (ordered_range _ _ _ O2). unfold HSZ in *.
  assert (F1 : forall x, x < p \/ p + 16 <= x -> m' x = m1 x) by (intros x Hx; by apply set_size_other).
  destruct (header_ext m1 m' bp) as [Eb1 _]; [intros x Hx; apply F1; unfold HSZ in *; lia|].
  assert (F2 : forall x, x < p \/ p + 16 <= x -> m2 x = m1 x) by (intros x Hx; unfold m2; rewrite set_ptr_other by done; by apply F1).
  destruct (prev_below m2) as [D1 D2]; [intros x Hx; unfold HSZ in *; rewrite F2 by lia; apply Fr; unfold HSZ; lia|].
  pose proof next_range. split.
  - rewrite chain_app. cbn [chain next]. split; [done|]. unfold m2 in *. rewrite Eb1, P1 in *. rewrite hsize_set_ptr, hptr_set_ptr by done.
    unfold m' in *. rewrite hsize_set_size by lia. done.
  - rewrite ordered_app. split; [done|]. split; [lia|]. eapply (ordered_le _ _ _ hi hi); [|done|exact O2]. unfold extent, HSZ in *. lia.
Qed.

(** Either the block has its own place behind [p], or it is a part of [p]'s. *)
Lemma join_prev_spec : exists R, let m2 := join_prev p bp m1 in
  (R = (p, sp) :: (bp, n') :: B2' \/ 1 <= sp /\ p + HSZ * sp = bp /\ R = (p, sp + n') :: B2') /\
  chain m2 (B1 ++ R) base /\ ordered base (B1 ++ R) hi /\ forall x, x < p \/ p + HSZ <= x -> m2 x = m1 x.
Proof.
  destruct base_p as (_ & Hsp & _). destruct m1_prev as [_ Sp]. unfold join_prev. rewrite Sp. destruct (Z.eqb_spec (p + HSZ * sp) bp) as [E|E].
  - rewrite S1. destruct (prev_joined E) as [C O]. exists ((p, sp + n') :: B2'). split; [right; unfold extent, HSZ in *; split; [lia|done]|].
    split; [done|]. split; [done|]. intros x Hx. cbv zeta. by rewrite set_ptr_other, set_size_other.
  - destruct prev_apart as [C O]. exists ((p, sp) :: (bp, n') :: B2'). split; [by left|]. split; [done|]. split; [done|].
    intros x Hx. by apply set_ptr_other.
Qed.
End Prev.
End Insert.

(** ** The invariant *)
Record heap (base : Z) (s : ustate) (fl al : list (Z * Z)) : Prop := {
  hp_base : 0 < base;
  hp_hi : u_brk s < 2 ^ 36;
  hp_chain : chain (u_mem s) ((base, 0) :: fl) base;
  hp_ord : ordered base ((base, 0) :: fl) (u_brk s);
  hp_free : Forall (fun b => 1 <= b.2) fl;
  hp_freep : u_freep s ∈ ((base, 0) :: fl).*1;
  hp_al : forall a n, (a, n) ∈ al -> 1 <= n /\ base + HSZ <= a /\ a + HSZ * n <= u_brk s /\ hsize (u_mem s) a = n /\
    forall b k, (b, k) ∈ fl -> apart a n b k;
  hp_dis : forall i j a n b k, al !! i = Some (a, n) -> al !! j = Some (b, k) -> i <> j -> apart a n b k }.

(** The contents of the allocated blocks, headers included, are as they were. *)
Definition untouched (m m' : Z -> Z) (al : list (Z * Z)) : Prop :=
  forall a n x, (a, n) ∈ al -> a <= x < a + HSZ * n -> m' x = m x.

(** What a step of the allocator leaves alone. *)
Definition same_io (s s' : ustate) : Prop := u_in s' = u_in s /\ u_out s' = u_out s.

Lemma heap_al base s s' fl fl' bp n al :
  heap base s fl ((bp, n) :: al) -> u_brk s' = u_brk s -> untouched (u_mem s) (u_mem s') al ->
  chain (u_mem s') ((base, 0) :: fl') base -> ordered base ((base, 0) :: fl') (u_brk s) -> Forall (fun b => 1 <= b.2) fl' ->
  u_freep s' ∈ ((base, 0) :: fl').*1 ->
  (forall a na, 1 <= na -> apart a na bp n -> (forall b k, (b, k) ∈ fl -> apart a na b k) ->
    forall b k, (b, k) ∈ fl' -> apart a na b k) ->
  heap base s' fl' al.
Proof.
  intros [H1 H2 H3 H4 H5 H6 H7 H8] Eb Un C O F Fp Ap. split; rewrite ?Eb; try done.
  - intros a na Hin. destruct (H7 a na) as (A1 & A2 & A3 & A4 & A5); [by right|]. split; [done|]. split; [done|]. split; [done|]. split.
    + rewrite <- A4. apply header_ext. intros x Hx. apply (Un a na); [done|]. unfold HSZ in *. lia.
    + intros b k Hbk. apply (Ap a na A1); [|done|done]. apply list_elem_of_lookup in Hin as [i Hi]. by apply (H8 (S i) 0%nat).
  - intros i j a na b k Hi Hj Hne. apply (H8 (S i) (S j)); [done|done|lia].
Qed.

(** An allocated block does not reach into the header of a free one. *)
Lemma heap_node base s fl al p sp a k x : heap base s fl al -> (p, sp) ∈ (base, 0) :: fl -> (a, k) ∈ al ->
  a <= x < a + HSZ * k -> x < p \/ p + HSZ <= x.
Proof.
  intros [H1 H2 H3 H4 H5 H6 H7 H8] Hp Ha Hx. destruct (H7 _ _ Ha) as (K1 & K2 & K3 & K4 & K5).
  apply elem_of_cons in Hp as [[= -> ->]|Hp]; [lia|]. rewrite Forall_forall in H5. specialize (H5 _ Hp). cbn in H5.
  specialize (K5 _ _ Hp). unfold apart, HSZ in *. lia.
Qed.

(** The header of a free block is not at address 0. *)
Lemma heap_pos base s fl al b : heap base s fl al -> b ∈ ((base, 0) :: fl).*1 -> b <> 0.
Proof.
  intros Hh ([b' k] & -> & Hb)%list_elem_of_fmap. destruct (ordered_in _ _ _ _ _ (hp_ord _ _ _ _ Hh) Hb) as [H _].
  pose proof (hp_base _ _ _ _ Hh). cbn. lia.
Qed.

(** The free list after an insertion, without the header [base]. *)
Lemma inserted base fl bp n n' B1 p sp B2 B2' R :
  (base, 0) :: fl = B1 ++ (p, sp) :: B2 -> Forall (fun b => 1 <= b.2) fl -> 1 <= n -> n <= n' ->
  (forall b, b ∈ B2' -> b ∈ B2) -> (length B2' <= length B2)%nat -> n' + units B2' = n + units B2 ->
  (forall a na, 1 <= na -> apart a na bp n -> (forall b k, (b, k) ∈ B2 -> apart a na b k) -> apart a na bp n') ->
  (R = (p, sp) :: (bp, n') :: B2' \/ 1 <= sp /\ p + HSZ * sp = bp /\ R = (p, sp + n') :: B2') ->
  exists fl', B1 ++ R = (base, 0) :: fl' /\ units fl' = units fl + n /\ Forall (fun b => 1 <= b.2) fl' /\ (length fl' <= length fl + 1)%nat /\
    p ∈ ((base, 0) :: fl').*1 /\ (exists b k, (b, k) ∈ fl' /\ n <= k) /\
    forall a na, 1 <= na -> apart a na bp n -> (forall b k, (b, k) ∈ fl -> apart a na b k) -> forall b k, (b, k) ∈ fl' -> apart a na b k.
Proof.
  intros E F Hn Hnn Sub Len U Ap HR. rewrite Forall_forall in F.
  destruct B1 as [|b0 B1]; cbn [app] in E.
  - injection E as <- <- <-. destruct HR as [->|(Hs & _)]; [|lia]. exists ((bp, n') :: B2'). split; [done|].
    rewrite units_cons. split; [lia|]. split; [apply Forall_cons; split; [cbn; lia|]; apply Forall_forall; intros b Hb; by apply F, Sub|].
    split; [cbn; lia|]. split; [by left|]. split; [exists bp, n'; split; [by left|done]|].
    intros a na Hna A1 A2 b k [[= -> ->]|Hin]%elem_of_cons; [by apply Ap|by apply A2, Sub].
  - injection E as <- ->. assert (FB : forall b, b ∈ B1 \/ b ∈ B2' -> 1 <= b.2).
    { intros b [Hb|Hb]; apply F, elem_of_app; [by left|right; right; by apply Sub]. }
    assert (AB : forall a na (Q : forall b k, (b, k) ∈ B1 ++ (p, sp) :: B2 -> apart a na b k) b k, (b, k) ∈ B1 \/ (b, k) ∈ B2' -> apart a na b k).
    { intros a na Q b k [Hb|Hb]; apply Q, elem_of_app; [by left|right; right; by apply Sub]. }
    exists (B1 ++ R). split; [done|]. rewrite !units_app, !length_app, units_cons. cbn [length].
    destruct HR as [->|(Hs & Hadj & ->)]; rewrite ?units_cons; cbn [length].
    + split; [lia|]. split; [apply Forall_forall; intros b; rewrite elem_of_app, !elem_of_cons; intros [Hb|[->|[->|Hb]]]; [apply FB; by left|apply F, elem_of_app; right; by left|cbn; lia|apply FB; by right]|].
      split; [lia|]. split; [rewrite fmap_cons, fmap_app; right; apply elem_of_app; right; by left|].
      split; [exists bp, n'; split; [apply elem_of_app; right; right; by left|done]|].
      intros a na Hna A1 A2 b k. rewrite elem_of_app, !elem_of_cons. intros [Hb|[[= -> ->]|[[= -> ->]|Hb]]].
      * apply (AB a na A2). by left.
      * apply A2, elem_of_app. right. by left.
      * apply Ap; [done|done|]. intros b k Hb. apply A2, elem_of_app. right. by right.
      * apply (AB a na A2). by right.
    + split; [lia|]. split; [apply Forall_forall; intros b; rewrite elem_of_app, !elem_of_cons; intros [Hb|[->|Hb]]; [apply FB; by left|cbn; lia|apply FB; by right]|].
      split; [lia|]. split; [rewrite fmap_cons, fmap_app; right; apply elem_of_app; right; by left|].
      split; [exists p, (sp + n'); split; [apply elem_of_app; right; by left|lia]|].
      intros a na Hna A1 A2 b k. rewrite elem_of_app, !elem_of_cons. intros [Hb|[[= -> ->]|Hb]].
      * apply (AB a na A2). by left.
      * apply apart_join; [done|apply A2, elem_of_app; right; by left|]. rewrite Hadj. apply Ap; [done|done|].
        intros b k Hb. apply A2, elem_of_app. right. by right.
      * apply (AB a na A2). by right.
Qed.

Lemma free_heap base fuel s tr fl bp n al :
  heap base s fl ((bp, n) :: al) -> (length fl + 1 < fuel)%nat ->
  exists s' fl', free fuel (bp + HSZ) s tr = Done tt s' tr /\ heap base s' fl' al /\
    units fl' = units fl + n /\ untouched (u_mem s) (u_mem s') al /\ u_brk s' = u_brk s /\ same_io s s' /\
    (length fl' <= length fl + 1)%nat /\ exists b k, (b, k) ∈ fl' /\ n <= k.
Proof.
  intros Hh Hf. pose proof Hh as [H1 H2 H3 H4 H5 H6 H7 H8]. destruct (H7 bp n) as (A1 & A2 & A3 & A4 & A5); [by left|].
  destruct (place bp n (u_brk s) fl base 0 base H4) as (B1 & p & sp & B2 & E & Hp & O2); [done|done| |].
  { intros b k Hin. split; [|by apply A5]. rewrite Forall_forall in H5. by apply (H5 (b, k)). }
  assert (Hb : next (B1 ++ (p, sp) :: B2) base = base) by (by rewrite <- E). rewrite E in H3, H4, H6.
  pose proof (find_run (u_mem s) base bp n (u_brk s) B1 B2 p sp H3 H4 Hp A1 O2 Hb (u_freep s) fuel H6) as Ef.
  rewrite <- E in Ef. cbn [length] in Ef. specialize (Ef ltac:(lia)).
  destruct (join_next_spec (u_mem s) base bp n (u_brk s) B1 B2 p sp H1 H2 H3 H4 Hp A1 O2 A4)
    as (n' & B2' & S1 & P1 & C2' & Hnn & O2' & U & Sub & Len & Ap & Fr). set (m1 := join_next p bp (u_mem s)) in *.
  destruct (join_prev_spec (u_mem s) base bp n (u_brk s) B1 B2 p sp H1 H2 H3 H4 Hp A1 m1 n' B2' S1 P1 C2' Hnn O2' Fr)
    as (R & HR & C & O & Fr2). set (m2 := join_prev p bp m1) in *.
  destruct (inserted base fl bp n n' B1 p sp B2 B2' R E H5 A1 Hnn Sub Len U Ap HR) as (fl' & ER & Uf & Ff & Lf & Pf & Bf & Af).
  rewrite ER in C, O. set (s' := s <| u_mem := m2 |> <| u_freep := p |>). exists s', fl'.
  assert (Un : untouched (u_mem s) m2 al).
  { intros a k x Hin Hx. destruct (H7 a k) as (K1 & K2 & K3 & K4 & K5); [by right|].
    assert (Kb : apart a k bp n) by (apply list_elem_of_lookup in Hin as [i Hi]; by apply (H8 (S i) 0%nat)).
    assert (Kp : x < p \/ p + HSZ <= x).
    { apply (heap_node _ _ _ _ p sp a k x Hh); [rewrite E; apply elem_of_app; right; by left|by right|done]. }
    rewrite Fr2 by done. apply Fr. unfold apart, HSZ in *. lia. }
  split; [|split; [apply (heap_al base s s' fl fl' bp n al Hh); done|done]].
  rewrite (free_run fuel (bp + HSZ) s tr p); replace (bp + HSZ - HSZ) with bp by lia; done.
Qed.

(** ** Taking a block *)
(** What a successful [malloc] gives: the block [q] of [n] units, which no other
    allocated block and no free one overlaps; the units that remain are free. *)
Definition granted (base n : Z) (s : ustate) (fl al : list (Z * Z)) (r : Z) (s' : ustate) : Prop :=
  exists q fl', r = q + HSZ /\ heap base s' fl' ((q, n) :: al) /\ untouched (u_mem s) (u_mem s') al /\ same_io s s' /\
    HSZ * (units fl' + n) = HSZ * units fl + (u_brk s' - u_brk s).

(** A free block that follows another one. *)
Lemma heap_split base s fl al a : heap base s fl al -> a ∈ ((base, 0) :: fl).*1 -> 1 <= hsize (u_mem s) (hptr (u_mem s) a) ->
  exists B1 sa k B3, (base, 0) :: fl = B1 ++ (a, sa) :: (hptr (u_mem s) a, k) :: B3 /\ hsize (u_mem s) (hptr (u_mem s) a) = k.
Proof.
  intros Hh ([a' sa] & E & (B1 & B2 & EN)%list_elem_of_split)%list_elem_of_fmap Hs. cbn in E. subst a'.
  pose proof (hp_chain _ _ _ _ Hh) as C. pose proof C as C0. rewrite EN, chain_app in C. destruct C as [_ (_ & Ea & C)].
  destruct B2 as [|[p k] B3]; cbn [next] in Ea; rewrite Ea in *.
  - destruct C0 as [E0 _]. lia.
  - destruct C as (Ek & _). exists B1, sa, k, B3. by rewrite EN.
Qed.

Section Take.
Context (base n : Z) (s : ustate) (fl al : list (Z * Z)) (a : Z).
Context (Hh : heap base s fl al) (Hn : 1 <= n).
Context (B1 B3 : list (Z * Z)) (sa p k : Z) (EN : (base, 0) :: fl = B1 ++ (a, sa) :: (p, k) :: B3) (Hk : n <= k).

Lemma take_in : (p, k) ∈ fl /\ 0 < base /\ base <= a /\ a + HSZ <= p /\ p + HSZ * k <= u_brk s.
Proof.
  destruct Hh as [H1 H2 H3 H4 H5 H6 H7 H8]. rewrite EN, ordered_app in H4. destruct H4 as (O1 & Hsa & Hp & Hk0 & O3).
  apply ordered_range in O1, O3. pose proof (extent_pos sa). unfold extent, HSZ in *.
  assert (Hin : (p, k) ∈ (base, 0) :: fl) by (rewrite EN; apply elem_of_app; right; right; by left).
  apply elem_of_cons in Hin as [[= -> ->]|Hin]; [lia|]. split; [done|]. lia.
Qed.

(** The nodes other than [a] and [p] lie outside their headers. *)
Lemma take_frame m' : (forall x, (x < a \/ a + HSZ <= x) -> (x < p \/ p + HSZ * k <= x) -> m' x = u_mem s x) ->
  chain m' B1 a /\ chain m' B3 base.
Proof.
  intros E. destruct take_in as (_ & H0 & Ha & Hap & Hpk). pose proof (hp_chain _ _ _ _ Hh) as C. pose proof (hp_ord _ _ _ _ Hh) as O.
  rewrite EN, chain_app in C. destruct C as (C1 & _ & _ & _ & _ & C3). rewrite EN, ordered_app in O. destruct O as (O1 & _ & Hp & _ & O3). split.
  - eapply blocks_ext; [|exact C1]. intros b j x Hin Hx. destruct (ordered_in _ _ _ _ _ O1 Hin) as (_ & _ & ?). pose proof (extent_pos j).
    unfold HSZ in *. apply E; lia.
  - eapply blocks_ext; [|exact C3]. intros b j x Hin Hx. destruct (ordered_in _ _ _ _ _ O3 Hin) as (? & _ & _).
    unfold extent, HSZ in *. apply E; lia.
Qed.

Lemma take_apart b j : (b, j) ∈ B1 ++ (a, sa) :: B3 -> apart p k b j.
Proof.
  pose proof (hp_ord _ _ _ _ Hh) as O. rewrite EN, ordered_app in O. destruct O as (O1 & Hsa & Hp & _ & O3).
  rewrite elem_of_app, elem_of_cons. unfold apart. pose proof (extent_pos sa). intros [Hb|[[= -> ->]|Hb]].
  - destruct (ordered_in _ _ _ _ _ O1 Hb) as (? & ? & ?). unfold extent, HSZ in *. lia.
  - unfold extent, HSZ in *. lia.
  - destruct (ordered_in _ _ _ _ _ O3 Hb) as (? & ? & ?). unfold extent, HSZ in *. lia.
Qed.

(** The list with [X] in the place of the block [p]. *)
Lemma take_list X k' : (X = [] /\ k' = 0 \/ 1 <= k' /\ X = [(p, k')]) -> n = k - k' ->
  exists fl', B1 ++ (a, sa) :: X ++ B3 = (base, 0) :: fl' /\ units fl' = units fl - n /\ Forall (fun b => 1 <= b.2) fl' /\
    a ∈ ((base, 0) :: fl').*1 /\ forall b j, (b, j) ∈ fl' -> (b, j) ∈ fl /\ apart p k b j \/ b = p /\ j = k'.
Proof.
  intros HX Hnk. pose proof take_apart as TA. pose proof (hp_free _ _ _ _ Hh) as F. rewrite Forall_forall in F.
  assert (UX : units X = k') by (destruct HX as [[-> ->]|[_ ->]]; cbn; lia).
  assert (XX : forall b j, (b, j) ∈ X -> b = p /\ j = k' /\ 1 <= k').
  { intros b j Hb. destruct HX as [[-> _]|[? ->]]; [by apply elem_of_nil in Hb|]. apply list_elem_of_singleton in Hb as [= -> ->]. done. }
  destruct B1 as [|b0 B1']; cbn [app] in *; injection EN as E1 E2.
  - subst. exists (X ++ B3). split; [done|]. rewrite units_app, units_cons. split; [lia|]. split; [|split; [by left|]].
    + apply Forall_forall. intros [b j] [Hb|Hb]%elem_of_app; cbn; [apply XX in Hb; lia|]. apply (F (b, j)). by right.
    + intros b j [Hb|Hb]%elem_of_app; [right; by apply XX in Hb as (? & ? & _)|left]. split; [by right|]. apply TA. by right.
  - subst b0 fl. exists (B1' ++ (a, sa) :: X ++ B3). split; [done|]. rewrite !units_app, !units_cons, !units_app. split; [lia|]. split; [|split].
    + apply Forall_forall. intros [b j]. rewrite elem_of_app, elem_of_cons, elem_of_app. intros Hb. cbn.
      destruct (decide ((b, j) ∈ X)) as [Hx|Hx]; [apply XX in Hx; lia|]. apply (F (b, j)). rewrite elem_of_app, !elem_of_cons. tauto.
    + rewrite fmap_cons, fmap_app. right. apply elem_of_app. right. by left.
    + intros b j Hb. rewrite elem_of_app, elem_of_cons, elem_of_app in Hb.
      destruct (decide ((b, j) ∈ X)) as [Hx|Hx]; [right; by apply XX in Hx as (? & ? & _)|left]. split.
      * rewrite elem_of_app, !elem_of_cons. tauto.
      * apply TA. rewrite elem_of_cons, elem_of_app, elem_of_cons. tauto.
Qed.

Lemma take_heap X k' m' : (X = [] /\ k' = 0 \/ 1 <= k' /\ X = [(p, k')]) -> n = k - k' ->
  (forall x, (x < a \/ a + HSZ <= x) -> (x < p \/ p + HSZ * k <= x) -> m' x = u_mem s x) ->
  hsize m' a = sa -> hptr m' a = next (X ++ B3) base -> (X = [(p, k')] -> hsize m' p = k' /\ hptr m' p = next B3 base) ->
  hsize m' (p + HSZ * k') = n ->
  granted base n s fl al (p + HSZ * k' + HSZ) (s <| u_mem := m' |> <| u_freep := a |>).
Proof.
  intros HX Hnk Fr Sa Pa PX Sq. destruct (take_list X k' HX Hnk) as (fl' & EL & U & F & Pf & Sub). destruct (take_frame m' Fr) as [C1 C3].
  destruct take_in as (Hin & H0 & Ha & Hap & Hpk). pose proof Hh as [_ H2 _ O H5 _ H7 H8]. set (s' := s <| u_mem := m' |> <| u_freep := a |>).
  assert (Un : untouched (u_mem s) m' al).
  { intros b j x Hb Hx. destruct (H7 _ _ Hb) as (Hj & _ & _ & _ & Hd). specialize (Hd _ _ Hin). apply Fr; [|unfold apart in Hd; lia].
    apply (heap_node _ _ _ _ a sa b j x Hh); [|done|done]. rewrite EN. apply elem_of_app. right. by left. }
  assert (Al : forall b j, (b, j) ∈ al -> apart b j p k) by (intros b j Hb; by apply H7).
  exists (p + HSZ * k'), fl'. split; [done|]. split; [|split; [done|]; split; [done|]; change (u_brk s') with (u_brk s); lia].
  split; try done; change (u_brk s') with (u_brk s); change (u_mem s') with m'.
  - rewrite <- EL, chain_app. split; [done|]. cbn [chain]. split; [done|]. split; [done|].
    destruct HX as [[-> _]|[_ ->]]; [done|]. by destruct (PX eq_refl).
  - rewrite <- EL, ordered_app. rewrite EN, ordered_app in O. destruct O as (O1 & Hsa & Hp & Hk0 & O3). split; [done|]. split; [done|].
    destruct HX as [[-> _]|[Hk' ->]]; cbn [app ordered]; [eapply (ordered_le _ _ _ (u_brk s) (u_brk s)); [|done|exact O3]|split; [done|]; split; [lia|]; eapply (ordered_le _ _ _ (u_brk s) (u_brk s)); [|done|exact O3]];
      unfold extent, HSZ in *; lia.
  - intros b j [[= -> ->]|Hb]%elem_of_cons.
    + split; [done|]. unfold HSZ in *. split; [lia|]. split; [lia|]. split; [done|]. intros b j Hb.
      apply Sub in Hb as [[_ Hb]|[-> ->]]; unfold apart, HSZ in *; lia.
    + destruct (H7 _ _ Hb) as (K1 & K2 & K3 & K4 & K5). split; [done|]. split; [done|]. split; [done|]. split.
      * rewrite <- K4. apply header_ext. intros x Hx. apply (Un b j); [done|]. unfold HSZ in *. lia.
      * intros c l [[Hc _]|[-> ->]]%Sub; [by apply K5|]. specialize (Al _ _ Hb). unfold apart, HSZ in *. lia.
  - intros [|i] [|j] b1 j1 b2 j2; cbn [lookup list_lookup]; intros Hi Hj Hne; [done| | |apply (H8 i j); [done|done|congruence]].
    + injection Hi as <- <-. apply list_elem_of_lookup_2, Al in Hj. unfold apart, HSZ in *. lia.
    + injection Hj as <- <-. apply list_elem_of_lookup_2, Al in Hi. unfold apart, HSZ in *. lia.
Qed.
End Take.

(** ** The loop of malloc *)
(** The headers that follow [a] on the list. *)
Fixpoint path (m : Z -> Z) (a : Z) (L : list Z) : Prop :=
  match L with [] => True | b :: L' => hptr m a = b /\ path m b L' end.

Lemma path_app m L1 : forall a b L2, path m a (L1 ++ b :: L2) <-> path m a (L1 ++ [b]) /\ path m b L2.
Proof. induction L1 as [|c L1 IH]; intros a b L2; cbn; [tauto|]. rewrite IH. tauto. Qed.

Lemma chain_path m B : forall a sa last, chain m ((a, sa) :: B) last -> path m a (B.*1 ++ [last]).
Proof.
  induction B as [|[b k] B IH]; intros a sa last (H1 & H2 & H3); cbn; [done|]. split; [done|]. by apply (IH b k).
Qed.

(** Once around: from [freep] through every block back to [freep]. *)
Lemma heap_around base s fl al : heap base s fl al -> exists L0, path (u_mem s) (u_freep s) (L0 ++ [u_freep s]) /\
  (u_freep s ∉ L0) /\ length L0 = length fl /\ forall b, b ∈ L0 ++ [u_freep s] <-> b ∈ ((base, 0) :: fl).*1.
Proof.
  intros [H1 H2 H3 H4 H5 H6 H7 H8]. apply list_elem_of_fmap in H6 as ([f sf] & E & (B1 & B2 & EN)%list_elem_of_split). cbn in E. rewrite E in *. clear E.
  assert (El : length fl = (length B1 + length B2)%nat) by (apply (f_equal length) in EN; rewrite length_app in EN; cbn in EN; lia).
  assert (Nf : (f ∉ B1.*1) /\ (f ∉ B2.*1)).
  { rewrite EN, ordered_app in H4. destruct H4 as (O1 & _ & O2). pose proof (extent_pos sf).
    split; intros ([b k] & -> & Hb)%list_elem_of_fmap; cbn in *.
    - destruct (ordered_in _ _ _ _ _ O1 Hb) as (_ & _ & ?). pose proof (extent_pos k). unfold HSZ in *. lia.
    - destruct (ordered_in _ _ _ _ _ O2 Hb) as (? & _). unfold HSZ in *. lia. }
  exists (B2.*1 ++ B1.*1). rewrite length_app, !length_fmap, El, EN, <- (app_assoc B2.*1). split.
  - pose proof H3 as C. rewrite EN, chain_app in C. destruct C as [C1 C2]. apply chain_path in C2.
    destruct B1 as [|[b k] B1]; cbn in EN; injection EN as E1 E2 E3; [by subst|]. subst b k. cbn [fmap list_fmap app fst].
    apply path_app. split; [done|]. by apply chain_path in C1.
  - split; [rewrite not_elem_of_app; tauto|]. split; [lia|]. intros b. rewrite fmap_app, fmap_cons, !elem_of_app, list_elem_of_singleton, elem_of_cons. cbn. tauto.
Qed.

Section Loop.
Context `{Sys} (base n : Z).
Context (Hn : 1 <= n).

Lemma hit_run fuel deep a p s tr : let m := u_mem s in let k := u32 (hsize m p - n) in n <= hsize m p ->
  malloc_loop (S fuel) deep n a p s tr =
    if hsize m p =? n then Done (p + HSZ) (s <| u_mem := set_ptr a (hptr m p) m |> <| u_freep := a |>) tr
    else Done (p + HSZ * k + HSZ) (s <| u_mem := set_size (p + HSZ * k) n (set_size p k m) |> <| u_freep := a |>) tr.
Proof.
  intros m k Hk. cbn [malloc_loop]. unfold upd_mem. kstep gets_run. rewrite (proj2 (Z.leb_le _ _)) by done. subst m k.
  destruct (_ =? n); repeat kstep modify_run; reflexivity.
Qed.

Lemma take_run fuel deep s tr fl al a : heap base s fl al -> a ∈ ((base, 0) :: fl).*1 -> n <= hsize (u_mem s) (hptr (u_mem s) a) ->
  exists r s', malloc_loop (S fuel) deep n a (hptr (u_mem s) a) s tr = Done r s' tr /\ granted base n s fl al r s' /\ u_brk s' = u_brk s.
Proof.
  intros Hh Ha Hk. destruct (heap_split base s fl al a Hh Ha) as (B1 & sa & k & B3 & EN & Ek); [lia|]. rewrite Ek in Hk.
  pose proof (take_in base n s fl al a Hh Hn B1 B3 sa _ k EN Hk) as (Hin & H0 & Ha0 & Hap & Hpk).
  pose proof (hp_hi _ _ _ _ Hh) as Hhi. pose proof (hp_chain _ _ _ _ Hh) as C. rewrite EN, chain_app in C. destruct C as (_ & Sa & _ & _ & Pp & _).
  pose proof (hp_ord _ _ _ _ Hh) as O. rewrite EN, ordered_app in O. destruct O as (_ & _ & _ & _ & O3).
  rewrite (hit_run fuel deep a) by lia. set (p := hptr (u_mem s) a) in *. rewrite Ek. pose proof (ordered_range _ _ _ O3) as Hr. unfold extent in Hr.
  destruct (Z.eqb_spec k n) as [->|Hne]; eexists _, _; (split; [reflexivity|]; split; [|done]).
  - replace (p + HSZ) with (p + HSZ * 0 + HSZ) by lia. apply (take_heap base n s fl al a Hh Hn B1 B3 sa p n EN Hk [] 0); [by left|lia| | | |done|].
    + intros x Hx _. by apply set_ptr_other.
    + by rewrite hsize_set_ptr.
    + rewrite hptr_set_ptr; [done|]. rewrite Pp. by apply (next_bounds B3 base (p + extent n) (u_brk s)); [..|exact O3]; unfold extent, HSZ in *; lia.
    + rewrite Z.mul_0_r, Z.add_0_r. etrans; [|exact Ek]. apply header_ext. intros x Hx. apply set_ptr_other. unfold HSZ in *. lia.
  - unfold u32. rewrite (Z.mod_small (k - n)) by (unfold HSZ in *; lia). set (k' := k - n) in *.
    apply (take_heap base n s fl al a Hh Hn B1 B3 sa p k EN Hk [(p, k')] k'); [by right; split; [lia|]|lia| | | | |].
    + intros x Hx1 Hx2. unfold HSZ in *. rewrite !set_size_other by (unfold HSZ; lia). done.
    + rewrite <- Sa. apply header_ext. intros x Hx. rewrite !set_size_other by (unfold HSZ in *; lia). done.
    + cbn [app next]. fold p. apply header_ext. intros x Hx. rewrite !set_size_other by (unfold HSZ in *; lia). done.
    + intros _. set (m1 := set_size p k' (u_mem s)). destruct (header_ext m1 (set_size (p + HSZ * k') n m1) p) as [-> ->].
      { intros x Hx. apply set_size_other. unfold HSZ in *. lia. }
      unfold m1. rewrite hptr_set_size, Pp. split; [|done]. apply hsize_set_size. unfold HSZ in *. lia.
    + apply hsize_set_size. unfold HSZ in *. lia.
Qed.

(** A block that is too small, before [freep] is reached. *)
Lemma miss_run fuel deep a s tr : let p := hptr (u_mem s) a in hsize (u_mem s) p < n -> p <> u_freep s -> p <> 0 ->
  malloc_loop (S fuel) deep n a p s tr = malloc_loop fuel deep n p (hptr (u_mem s) p) s tr.
Proof.
  intros p Hs Hf H0. cbn [malloc_loop]. kstep gets_run. rewrite (proj2 (Z.leb_gt _ _)) by done. kstep (eq_refl : kget s tr = Done s s tr).
  rewrite (proj2 (Z.eqb_neq _ _) Hf). kstep @kret_run. rewrite (proj2 (Z.eqb_neq _ _) H0). kstep gets_run. reflexivity.
Qed.

(** At [freep] the heap grows. *)
Lemma grow_run fuel deep a s tr : let p := hptr (u_mem s) a in hsize (u_mem s) p < n -> p = u_freep s ->
  malloc_loop (S fuel) deep n a p s tr =
    (let! p := morecore deep n in if p =? 0 then kret 0 else let! m := Prelude.gets u_mem in malloc_loop fuel deep n p (hptr m p)) s tr.
Proof.
  intros p Hs Hf. cbn [malloc_loop]. kstep gets_run. rewrite (proj2 (Z.leb_gt _ _)) by done. kstep (eq_refl : kget s tr = Done s s tr).
  by rewrite (proj2 (Z.eqb_eq _ _) Hf).
Qed.

(** Along the list, up to [freep]: the first block that is large enough is taken. *)
Lemma scan deep s tr fl al L0 : heap base s fl al -> (u_freep s ∉ L0) ->
  forall a fuel, a ∈ ((base, 0) :: fl).*1 -> path (u_mem s) a (L0 ++ [u_freep s]) ->
    (forall b, b ∈ L0 -> b ∈ ((base, 0) :: fl).*1) -> (length L0 < fuel)%nat ->
  (exists r s', malloc_loop fuel deep n a (hptr (u_mem s) a) s tr = Done r s' tr /\ granted base n s fl al r s' /\ u_brk s' = u_brk s) \/
  ((forall b, b ∈ L0 ++ [u_freep s] -> hsize (u_mem s) b < n) /\
   malloc_loop fuel deep n a (hptr (u_mem s) a) s tr =
    (let! p := morecore deep n in if p =? 0 then kret 0 else
     let! m := Prelude.gets u_mem in malloc_loop (fuel - length L0 - 1) deep n p (hptr m p)) s tr).
Proof.
  intros Hh. induction L0 as [|b L0 IH]; intros Nf a fuel Ha P Sub Hf; (destruct fuel as [|fuel]; [cbn in Hf; lia|]).
  - destruct P as [P _]. destruct (Z.le_gt_cases n (hsize (u_mem s) (hptr (u_mem s) a))) as [Hk|Hk].
    + left. by apply take_run.
    + right. split; [intros b ->%list_elem_of_singleton; by rewrite <- P|]. cbn [length]. replace (S fuel - 0 - 1)%nat with fuel by lia. by apply grow_run.
  - destruct P as [P P']. destruct (Z.le_gt_cases n (hsize (u_mem s) (hptr (u_mem s) a))) as [Hk|Hk]; [left; by apply take_run|].
    apply not_elem_of_cons in Nf as [Nb Nf]. assert (Hb : b ∈ ((base, 0) :: fl).*1) by (apply Sub; by left).
    rewrite miss_run; [|done|congruence|].
    + rewrite P. destruct (IH Nf b fuel Hb P') as [Hit|[Hm E]]; [intros c Hc; apply Sub; by right|cbn in Hf; lia|by left|right].
      split; [|rewrite E; cbn [length]; by replace (S fuel - S (length L0) - 1)%nat with (fuel - length L0 - 1)%nat by lia].
      intros c [->|Hc]%elem_of_cons; [by rewrite <- P|by apply Hm].
    + rewrite P. by apply (heap_pos base s fl al b Hh).
Qed.
End Loop.

(** ** Growing the heap *)
(** [sbrk] (sys_sbrk with SBRK_EAGER) extends the process's memory by [n] bytes and
    returns its old end, or fails.  The pages are allocated at once, so the end stays
    within the machine's memory (PHYSTOP - KERNBASE is 2^27). *)
Class SbrkOk `{Sys} := sbrk_run : forall n s tr, 0 <= n < 2 ^ 31 ->
  sbrk n s tr = Done SBRK_ERROR s tr \/
  exists s', sbrk n s tr = Done (u_brk s) s' tr /\ u_brk s' = u_brk s + n /\ u_brk s' < 2 ^ 36 /\
    (forall x, x < u_brk s -> u_mem s' x = u_mem s x) /\ u_freep s' = u_freep s /\ same_io s s'.

Lemma heap_grow base s s1 fl al nu : heap base s fl al -> 1 <= nu -> u_brk s1 = u_brk s + HSZ * nu -> u_brk s1 < 2 ^ 36 ->
  (forall x, x < u_brk s -> u_mem s1 x = u_mem s x) -> u_freep s1 = u_freep s -> hsize (u_mem s1) (u_brk s) = nu ->
  heap base s1 fl ((u_brk s, nu) :: al).
Proof.
  intros [H1 H2 H3 H4 H5 H6 H7 H8] Hnu Eb Hb Fr Ef Sz. split; rewrite ?Ef; try done.
  - eapply blocks_ext; [|exact H3]. intros a k x Hin Hx. apply Fr. destruct (ordered_in _ _ _ _ _ H4 Hin) as (_ & _ & ?).
    pose proof (extent_pos k). lia.
  - eapply (ordered_le base base _ (u_brk s)); [done| |exact H4]. unfold HSZ in *. lia.
  - pose proof H4 as (_ & _ & H4'). assert (Hr : base + HSZ <= u_brk s) by (apply ordered_range in H4'; exact H4').
    intros a k [[= -> ->]|Hin]%elem_of_cons.
    + split; [done|]. split; [done|]. split; [lia|]. split; [done|]. intros b j Hb'. right.
      destruct (ordered_in _ b j _ _ H4') as (_ & _ & ?); [done|]. unfold extent, HSZ in *. lia.
    + destruct (H7 _ _ Hin) as (K1 & K2 & K3 & K4 & K5). split; [done|]. split; [done|]. split; [unfold HSZ in *; lia|]. split; [|done].
      rewrite <- K4. apply header_ext. intros x Hx. apply Fr. unfold HSZ in *. lia.
  - intros [|i] [|j] b1 j1 b2 j2; cbn [lookup list_lookup]; intros Hi Hj Hne; [done| | |apply (H8 i j); [done|done|congruence]].
    + injection Hi as <- <-. apply list_elem_of_lookup_2, H7 in Hj as (_ & _ & ? & _). by right.
    + injection Hj as <- <-. apply list_elem_of_lookup_2, H7 in Hi as (_ & _ & ? & _). by left.
Qed.

(** The header of a free block holds its size. *)
Lemma chain_size m B last a k : chain m B last -> (a, k) ∈ B -> hsize m a = k.
Proof. intros C (B1 & B2 & ->)%list_elem_of_split. rewrite chain_app in C. by destruct C as (_ & ? & _). Qed.

Lemma heap_size base s fl al b k : heap base s fl al -> (b, k) ∈ fl -> hsize (u_mem s) b = k.
Proof. intros Hh Hin. apply (chain_size _ _ _ _ _ (hp_chain _ _ _ _ Hh)). by right. Qed.

Lemma granted_pos base n s fl al r s' : granted base n s fl al r s' -> r <> 0.
Proof.
  intros (q & fl' & -> & Hh & _). destruct (hp_al _ _ _ _ Hh q n) as (_ & ? & _); [by left|]. pose proof (hp_base _ _ _ _ Hh).
  unfold HSZ in *. lia.
Qed.

Lemma granted_after base n s s1 fl fl1 al r s' : HSZ * units fl1 = HSZ * units fl + (u_brk s1 - u_brk s) ->
  untouched (u_mem s) (u_mem s1) al -> same_io s s1 -> granted base n s1 fl1 al r s' -> granted base n s fl al r s'.
Proof.
  intros U Un [I1 I2] (q & fl' & -> & Hh & Un' & [I3 I4] & U'). exists q, fl'. split; [done|]. split; [done|]. split; [|split; [|lia]].
  - intros a k x Ha Hx. rewrite (Un' a k x Ha Hx). by apply (Un a k).
  - split; congruence.
Qed.

Section Grow.
Context `{SbrkOk} (base : Z).

Lemma morecore_heap deep n s tr fl al : heap base s fl al -> 1 <= n -> HSZ * n < 2 ^ 31 -> (length fl + 1 < deep)%nat ->
  morecore deep n s tr = Done 0 s tr \/
  exists s' fl', morecore deep n s tr = Done (u_freep s') s' tr /\ heap base s' fl' al /\
    HSZ * units fl' = HSZ * units fl + (u_brk s' - u_brk s) /\ untouched (u_mem s) (u_mem s') al /\ same_io s s' /\
    (length fl' <= length fl + 1)%nat /\ exists b k, (b, k) ∈ fl' /\ n <= k.
Proof.
  intros Hh Hn Hb Hd. unfold morecore. set (nu := if n <? 4096 then 4096 else n).
  assert (Hnu : n <= nu /\ HSZ * nu < 2 ^ 31) by (unfold nu, HSZ in *; destruct (Z.ltb_spec n 4096); lia).
  assert (Ei : i32 (nu * HSZ) = HSZ * nu) by (unfold i32; rewrite Z.mod_small by (unfold HSZ in *; lia); lia). rewrite Ei.
  destruct (sbrk_run (HSZ * nu) s tr) as [E|(s1 & E & Eb & Hb1 & Fr & Ef & Io)]; [unfold HSZ in *; lia| |].
  - left. by kstep E.
  - right. pose proof (hp_hi _ _ _ _ Hh) as Hhi.
    set (s2 := s1 <| u_mem ::= set_size (u_brk s) nu |>).
    assert (Fr2 : forall x, x < u_brk s -> u_mem s2 x = u_mem s x).
    { intros x Hx. change (u_mem s2 x) with (set_size (u_brk s) nu (u_mem s1) x). rewrite set_size_other by lia. by apply Fr. }
    assert (Hh2 : heap base s2 fl ((u_brk s, nu) :: al)).
    { apply (heap_grow base s s2); try done; [lia|]. apply hsize_set_size. unfold HSZ in *. lia. }
    destruct (free_heap base deep s2 tr fl (u_brk s) nu al Hh2 Hd) as (s' & fl' & F & Hh' & U & Un & Eb' & Io' & L & b & k & Hbk & Hk).
    exists s', fl'. split; [|split; [done|]; split; [|split; [|split; [|split; [done|]; exists b, k; split; [done|lia]]]]].
    + kstep E. rewrite (proj2 (Z.eqb_neq _ _)) by (unfold SBRK_ERROR; lia). unfold upd_mem. kstep modify_run. kstep F. done.
    + rewrite Eb'. change (u_brk s2) with (u_brk s1). lia.
    + intros a j x Ha Hx. rewrite (Un a j x Ha Hx). apply Fr2. destruct (hp_al _ _ _ _ Hh _ _ Ha) as (_ & _ & ? & _). lia.
    + destruct Io, Io'. split; etrans; done.
Qed.

Lemma loop_heap n fuel s tr fl al : heap base s fl al -> 1 <= n -> HSZ * n < 2 ^ 31 -> (2 * length fl + 4 < fuel)%nat ->
  exists r s', malloc_loop fuel fuel n (u_freep s) (hptr (u_mem s) (u_freep s)) s tr = Done r s' tr /\
    (r = 0 /\ s' = s /\ (forall b k, (b, k) ∈ fl -> k < n) \/ r <> 0 /\ granted base n s fl al r s').
Proof.
  intros Hh Hn Hb Hf. destruct (heap_around base s fl al Hh) as (L0 & P & Nf & Len & Mem). pose proof (hp_freep _ _ _ _ Hh) as Hfp.
  destruct (scan base n Hn fuel s tr fl al L0 Hh Nf (u_freep s) fuel Hfp P) as [(r & s' & E & G & _)|[Hm E]];
    [intros b Hb'; apply Mem, elem_of_app; by left|lia| |]; [exists r, s'; split; [done|]; right; split; [by apply (granted_pos _ _ _ _ _ _ _ G)|done]|].
  destruct (morecore_heap fuel n s tr fl al Hh Hn Hb) as [M|(s1 & fl1 & M & Hh1 & U1 & Un1 & Io1 & L1 & b & k & Hbk & Hk)]; [lia| |].
  - exists 0, s. split; [rewrite E; by kstep M|]. left. split; [done|]. split; [done|]. intros b k Hbk.
    rewrite <- (heap_size _ _ _ _ _ _ Hh Hbk). apply Hm, Mem. apply (list_elem_of_fmap_2 fst) in Hbk. by right.
  - pose proof (hp_freep _ _ _ _ Hh1) as Hfp1. destruct (heap_around base s1 fl1 al Hh1) as (L2 & P2 & Nf2 & Len2 & Mem2).
    destruct (scan base n Hn fuel s1 tr fl1 al L2 Hh1 Nf2 (u_freep s1) (fuel - length L0 - 1) Hfp1 P2) as [(r & s' & E2 & G & _)|[Hm2 _]];
      [intros c Hc; apply Mem2, elem_of_app; by left|lia| |].
    + exists r, s'. split; [|right; split; [by apply (granted_pos _ _ _ _ _ _ _ G)|by apply (granted_after base n s s1 fl fl1)]].
      rewrite E. kstep M. rewrite (proj2 (Z.eqb_neq _ _)) by (by apply (heap_pos base s1 fl1 al)). kstep gets_run. exact E2.
    + exfalso. specialize (Hm2 b). rewrite (heap_size _ _ _ _ _ _ Hh1 Hbk) in Hm2. apply (list_elem_of_fmap_2 fst) in Hbk.
      enough (k < n) by lia. apply Hm2, Mem2. by right.
Qed.

(** The heap before the first call. *)
Definition fresh (s : ustate) : Prop := u_freep s = 0 /\ 0 < base /\ base + HSZ <= u_brk s < 2 ^ 36.

Definition ready (s : ustate) (fl al : list (Z * Z)) : Prop := heap base s fl al \/ fresh s /\ fl = [] /\ al = [].

Lemma init_heap s : fresh s ->
  heap base (s <| u_mem ::= set_ptr base base |> <| u_freep := base |> <| u_mem ::= set_size base 0 |>) [] [].
Proof.
  intros (F1 & F2 & F3). set (s1 := _ <| u_mem ::= set_size base 0 |>). change (u_brk s) with (u_brk s1) in F3.
  split; [done|by destruct F3| | |done|by left|by intros ? ? ?%elem_of_nil|done].
  - cbn [chain next]. change (u_mem s1) with (set_size base 0 (set_ptr base base (u_mem s))).
    rewrite hsize_set_size, hptr_set_size, hptr_set_ptr by (unfold HSZ in *; lia). done.
  - cbn [ordered]. unfold extent, HSZ in *. lia.
Qed.

(** The part of [malloc] before the loop. *)
Lemma malloc_enter fuel nbytes s tr fl al : ready s fl al -> exists s0, heap base s0 fl al /\ u_brk s0 = u_brk s /\
  untouched (u_mem s) (u_mem s0) al /\ same_io s s0 /\
  malloc base fuel nbytes s tr =
    malloc_loop fuel fuel (u32 ((nbytes + HSZ - 1) / HSZ + 1)) (u_freep s0) (hptr (u_mem s0) (u_freep s0)) s0 tr.
Proof.
  intros [Hh|(Hf & -> & ->)].
  - exists s. split; [done|]. split; [done|]. split; [done|]. split; [done|]. unfold malloc. kstep (eq_refl : kget s tr = Done s s tr).
    rewrite (proj2 (Z.eqb_neq _ _)) by (apply (heap_pos base s fl al); [done|apply (hp_freep _ _ _ _ Hh)]). done.
  - pose proof (init_heap s Hf) as Hh. destruct Hf as (F & _ & _). eexists. split; [exact Hh|]. split; [done|].
    split; [by intros ? ? ? ?%elem_of_nil|]. split; [done|]. unfold malloc. kstep (eq_refl : kget s tr = Done s s tr). rewrite F. done.
Qed.

End Grow.


(** ** Requests of 2 GiB and more *)
(** [free] of a block behind [base] when there is no other free block. *)
Lemma free_first base fuel s tr bp n : 0 < base -> base + HSZ <= bp -> bp < 2 ^ 36 -> 1 <= n -> hsize (u_mem s) bp = n ->
  u_freep s = base -> hptr (u_mem s) base = base -> hsize (u_mem s) base = 0 ->
  exists s', free (S fuel) (bp + HSZ) s tr = Done tt s' tr /\ u_brk s' = u_brk s /\ u_freep s' = base /\
    hptr (u_mem s') base = bp /\ hsize (u_mem s') bp = n.
Proof.
  intros H0 Hb Hhi Hn Sz Ef Pb Sb. unfold HSZ in *. set (m1 := set_ptr bp base (u_mem s)).
  destruct (header_ext (u_mem s) m1 base) as [P1 S1]; [intros x Hx; apply set_ptr_other; unfold HSZ in *; lia|].
  destruct (header_ext m1 (set_ptr base bp m1) bp) as [_ S2]; [intros x Hx; apply set_ptr_other; unfold HSZ in *; lia|].
  eexists. split; [|split; [|split]].
  - rewrite (free_run (S fuel) (bp + 16) s tr base); replace (bp + 16 - HSZ) with bp by (unfold HSZ; lia).
    + unfold join_next. rewrite Sz, Pb, (proj2 (Z.eqb_neq _ base)) by (unfold HSZ; lia). fold m1.
      unfold join_prev. rewrite S1, Sb, (proj2 (Z.eqb_neq _ bp)) by (unfold HSZ; lia). reflexivity.
    + cbn [free_find]. rewrite Ef, Pb. rewrite (proj2 (Z.ltb_ge bp base)), andb_false_r by lia.
      by rewrite Z.leb_refl, (proj2 (Z.ltb_lt base bp)) by lia.
  - done.
  - done.
  - cbn [u_mem upd_field]. rewrite S2, hptr_set_ptr by lia. unfold m1. by rewrite hsize_set_ptr.
Qed.


(** ** A small heap *)
(** An [sbrk] that grants up to a megabyte. *)
Definition demo_sbrk : Sys := {|
  read := fun _ _ _ => kret 0;
  write := fun _ _ n => kret n;
  sbrk := fun n s tr => if u_brk s + n <=? 2 ^ 20 then Done (u_brk s) (s <| u_brk ::= Z.add n |>) tr else Done SBRK_ERROR s tr |}.

#[local] Instance demo_sbrk_ok : @SbrkOk demo_sbrk.
Proof.
  intros n s tr Hn. cbn. destruct (Z.leb_spec (u_brk s + n) (2 ^ 20)); [right|by left].
  eexists. split; [reflexivity|]. cbn [u_brk u_mem u_freep upd_field]. split; [lia|]. split; [lia|]. done.
Qed.

Definition demo_new : ustate := mkustate (fun _ => 0) [] [] 8192 0.

Lemma demo_new_fresh : fresh 4096 demo_new.
Proof. split; [reflexivity|]. split; [reflexivity|]. unfold HSZ. cbn [u_brk demo_new]. lia. Qed.

(** One block of two units behind [base], and an allocated one of three behind it. *)
Definition demo_mem : Z -> Z :=
  set_size 5032 3 (set_size 5000 2 (set_ptr 5000 4096 (set_ptr 4096 5000 (fun _ => 0)))).
Definition demo_heap : ustate := mkustate demo_mem [] [] 8192 4096.

Lemma demo_heap_ok : heap 4096 demo_heap [(5000, 2)] [(5032, 3)].
Proof.
  split; try reflexivity.
  - repeat split; reflexivity.
  - cbn [ordered u_brk demo_heap]. unfold extent, HSZ. lia.
  - repeat constructor. cbn. lia.
  - by left.
  - intros a n [= -> ->]%list_elem_of_singleton. split; [lia|]. unfold HSZ. cbn [u_brk demo_heap]. split; [lia|]. split; [lia|]. split; [reflexivity|].
    intros b k [= -> ->]%list_elem_of_singleton. unfold apart, HSZ. lia.
  - intros [|[|i]] [|[|j]] a n b k; cbn; try discriminate. lia.
Qed.



