(* ===== verification/USh.v ===== *)
(** * The shell's parser (user/sh.c)

    A line of input is turned into a tree of commands by recursive descent.  The
    nodes of the tree live in a store, as the memory [malloc] returns does in the C
    code: [parseexec] goes on filling in the arguments of a node that redirections
    already point to.  Words are pointers to the start and behind the end of a part
    of the line; [nulterminate] makes them C strings in place. *)

From stdpp Require Import prelude list strings.
From Stdlib Require Import ZArith Lia ZifyBool.
From S2P Require Import Prelude State CString Syscall ULib.
Local Open Scope Z_scope.

(** ** Commands *)
Definition MAXARGS : Z := 10.

(** A parsed command; a [struct cmd *] is 0 or one more than the node's index. *)
Inductive cmd :=
| EXEC (argv eargv : list Z)
| REDIR (sub file efile mode fd : Z)
| PIPE (left right : Z)
| LIST (left right : Z)
| BACK (sub : Z).

(** The state of the parser: the bytes in memory, the variable [ps] points to, the
    nodes, and how many more [malloc] can provide. *)
Record shstate := mkshstate {
  sh_mem : Z -> Z;
  sh_ps : Z;
  sh_nodes : list cmd;
  sh_room : nat }.
#[export] Instance eta_shstate : Eta shstate := fun s => mkshstate (sh_mem s) (sh_ps s) (sh_nodes s) (sh_room s).

Abbreviation SK := (K shstate).

Definition node_at (nodes : list cmd) (p : Z) : option cmd := if p <=? 0 then None else nodes !! Z.to_nat (p - 1).

(** [cmd = malloc(sizeof( *cmd))] and the initialisation of the node: writing
    through the null pointer that a failed [malloc] returns is undefined. *)
Definition new_cmd (c : cmd) : SK Z :=
  let! s := kget in
  match sh_room s with
  | O => undefined
  | S room => modify (fun s => s <| sh_nodes := sh_nodes s ++ [c] |> <| sh_room := room |>) ;;
              kret (Z.of_nat (length (sh_nodes s)) + 1)
  end.

Definition execcmd : SK Z := new_cmd (EXEC (replicate (Z.to_nat MAXARGS) 0) (replicate (Z.to_nat MAXARGS) 0)).
Definition redircmd (subcmd file efile mode fd : Z) : SK Z := new_cmd (REDIR subcmd file efile mode fd).
Definition pipecmd (left right : Z) : SK Z := new_cmd (PIPE left right).
Definition listcmd (left right : Z) : SK Z := new_cmd (LIST left right).
Definition backcmd (subcmd : Z) : SK Z := new_cmd (BACK subcmd).

(** ** Tokens *)
Definition whitespace : list Z := [32; 9; 13; 10; 11].
Definition symbols : list Z := [60; 124; 62; 38; 59; 40; 41].

(** [strchr(l, c) != 0] for a string constant [l]. *)
Definition occurs (l : list Z) (c : Z) : bool := existsb (Z.eqb c) l.

(** [while (s < es && strchr(whitespace, *s)) s++], [n] being [es - s]. *)
Fixpoint skip_white (n : nat) (m : Z -> Z) (s : Z) : Z :=
  match n with
  | O => s
  | S n' => if occurs whitespace (m s) then skip_white n' m (s + 1) else s
  end.

Fixpoint skip_word (n : nat) (m : Z -> Z) (s : Z) : Z :=
  match n with
  | O => s
  | S n' => if negb (occurs whitespace (m s)) && negb (occurs symbols (m s)) then skip_word n' m (s + 1) else s
  end.

(** The [switch] on [*s]: the kind of the token at [s], and its end. *)
Definition token_at (m : Z -> Z) (es s : Z) : Z * Z :=
  if m s =? 0 then (0, s)
  else if occurs [124; 40; 41; 59; 38; 60] (m s) then (m s, s + 1)
  else if m s =? 62 then if m (s + 1) =? 62 then (43, s + 2) else (62, s + 1)
  else (97, skip_word (Z.to_nat (es - s)) m s).

(** The result with [*q] and [*eq]. *)
Definition gettoken (es : Z) : SK (Z * Z * Z) :=
  let! st := kget in
  let m := sh_mem st in
  let q := skip_white (Z.to_nat (es - sh_ps st)) m (sh_ps st) in
  let '(ret, s) := token_at m es q in
  modify (fun st => st <| sh_ps := skip_white (Z.to_nat (es - s)) m s |>) ;;
  kret (ret, q, s).

Definition peek (es : Z) (toks : list Z) : SK bool :=
  let! st := kget in
  let m := sh_mem st in
  let s := skip_white (Z.to_nat (es - sh_ps st)) m (sh_ps st) in
  modify (fun st => st <| sh_ps := s |>) ;;
  kret (negb (m s =? 0) && occurs toks (m s)).

(** ** The parser *)
Fixpoint parseredirs (fuel : nat) (cmd es : Z) : SK Z :=
  match fuel with
  | O => hang
  | S fuel' =>
      let! b := peek es [60; 62] in
      if b then
        let! '(tok, _, _) := gettoken es in
        let! '(t, q, eq) := gettoken es in
        if negb (t =? 97) then panic "missing file for redirection" else
        let! cmd := (if tok =? 60 then redircmd cmd q eq O_RDONLY 0
                     else if tok =? 62 then redircmd cmd q eq (Z.lor (Z.lor O_WRONLY O_CREATE) O_TRUNC) 1
                     else if tok =? 43 then redircmd cmd q eq (Z.lor O_WRONLY O_CREATE) 1
                     else kret cmd) in
        parseredirs fuel' cmd es
      else kret cmd
  end.

(** [cmd->argv[i] = q; cmd->eargv[i] = eq] *)
Definition set_arg (p : Z) (i : nat) (q eq : Z) : SK unit :=
  let! s := kget in
  match node_at (sh_nodes s) p with
  | Some (EXEC argv eargv) =>
      if (i <? length argv)%nat
      then modify (fun s => s <| sh_nodes := <[Z.to_nat (p - 1) := EXEC (<[i := q]> argv) (<[i := eq]> eargv)]> (sh_nodes s) |>)
      else undefined
  | _ => undefined
  end.

(** The loop of [parseexec] and what follows it. *)
Fixpoint parseargs (fuel : nat) (cmd ret : Z) (argc : nat) (es : Z) : SK Z :=
  match fuel with
  | O => hang
  | S fuel' =>
      let! b := peek es [124; 41; 38; 59] in
      if b then set_arg cmd argc 0 0 ;; kret ret else
      let! '(tok, q, eq) := gettoken es in
      if tok =? 0 then set_arg cmd argc 0 0 ;; kret ret else
      if negb (tok =? 97) then panic "syntax" else
      set_arg cmd argc q eq ;;
      if MAXARGS <=? Z.of_nat (S argc) then panic "too many args" else
      let! ret := parseredirs fuel' ret es in
      parseargs fuel' cmd ret (S argc) es
  end.

Fixpoint parseback (fuel : nat) (cmd es : Z) : SK Z :=
  match fuel with
  | O => hang
  | S fuel' =>
      let! b := peek es [38] in
      if b then gettoken es ;; let! cmd := backcmd cmd in parseback fuel' cmd es else kret cmd
  end.

Fixpoint parseline (fuel : nat) (es : Z) : SK Z :=
  match fuel with
  | O => hang
  | S fuel' =>
      let! cmd := parsepipe fuel' es in
      let! cmd := parseback fuel' cmd es in
      let! b := peek es [59] in
      if b then gettoken es ;; let! r := parseline fuel' es in listcmd cmd r else kret cmd
  end
with parsepipe (fuel : nat) (es : Z) : SK Z :=
  match fuel with
  | O => hang
  | S fuel' =>
      let! cmd := parseexec fuel' es in
      let! b := peek es [124] in
      if b then gettoken es ;; let! r := parsepipe fuel' es in pipecmd cmd r else kret cmd
  end
with parseexec (fuel : nat) (es : Z) : SK Z :=
  match fuel with
  | O => hang
  | S fuel' =>
      let! b := peek es [40] in
      if b then parseblock fuel' es else
      let! cmd := execcmd in
      let! ret := parseredirs fuel' cmd es in
      parseargs fuel' cmd ret 0 es
  end
with parseblock (fuel : nat) (es : Z) : SK Z :=
  match fuel with
  | O => hang
  | S fuel' =>
      let! b := peek es [40] in
      if negb b then panic "parseblock" else
      gettoken es ;;
      let! cmd := parseline fuel' es in
      let! b := peek es [41] in
      if negb b then panic "syntax - missing )" else
      gettoken es ;;
      parseredirs fuel' cmd es
  end.

(** [for (i = 0; ecmd->argv[i]; i++) *ecmd->eargv[i] = 0] *)
Fixpoint term_args (argv eargv : list Z) : SK unit :=
  match argv, eargv with
  | q :: argv', eq :: eargv' =>
      if q =? 0 then kret tt
      else modify (fun s => s <| sh_mem := store8 (sh_mem s) eq 0 |>) ;; term_args argv' eargv'
  | _, _ => undefined
  end.

Fixpoint nulterminate (fuel : nat) (cmd : Z) : SK Z :=
  match fuel with
  | O => hang
  | S fuel' =>
      if cmd =? 0 then kret 0 else
      let! s := kget in
      let! c := deref (node_at (sh_nodes s) cmd) in
      match c with
      | EXEC argv eargv => term_args argv eargv
      | REDIR sub file efile mode fd =>
          nulterminate fuel' sub ;;
          modify (fun s => s <| sh_mem := store8 (sh_mem s) efile 0 |>)
      | PIPE l r => nulterminate fuel' l ;; nulterminate fuel' r ;; kret tt
      | LIST l r => nulterminate fuel' l ;; nulterminate fuel' r ;; kret tt
      | BACK sub => nulterminate fuel' sub ;; kret tt
      end ;;
      kret cmd
  end.

Definition parsecmd (fuel : nat) (s : Z) : SK Z :=
  let! m := Prelude.gets sh_mem in
  let! n := pure (ustrlen fuel m s) in
  let es := s + n in
  modify (fun st => st <| sh_ps := s |>) ;;
  let! cmd := parseline fuel es in
  peek es [] ;;
  let! ps := Prelude.gets sh_ps in
  if negb (ps =? es) then panic "syntax" else
  nulterminate fuel cmd ;;
  kret cmd.

(** ** The language *)
(** A character of a word. *)
Definition wordc (c : Z) : Prop := c <> 0 /\ occurs whitespace c = false /\ occurs symbols c = false.

Inductive token :=
| Word (w : list Z)
| Sym (c : Z)
| Append.   (* >> *)

(** How a line splits into tokens. *)
Inductive lexes : list Z -> list token -> Prop :=
| lex_nil : lexes [] []
| lex_white c l ts : occurs whitespace c = true -> lexes l ts -> lexes (c :: l) ts
| lex_sym c l ts : occurs [124; 40; 41; 59; 38; 60] c = true -> lexes l ts -> lexes (c :: l) (Sym c :: ts)
| lex_great l ts : head l <> Some 62 -> lexes l ts -> lexes (62 :: l) (Sym 62 :: ts)
| lex_append l ts : lexes l ts -> lexes (62 :: 62 :: l) (Append :: ts)
| lex_word w l ts : w <> [] -> Forall wordc w -> (forall c, head l = Some c -> ~ wordc c) -> lexes l ts -> lexes (w ++ l) (Word w :: ts).

(** Commands with their words. *)
Inductive tree :=
| TExec (args : list (list Z))
| TRedir (c : tree) (file : list Z) (mode fd : Z)
| TPipe (l r : tree)
| TList (l r : tree)
| TBack (c : tree).

(** A redirection: its token, and its mode and descriptor. *)
Inductive redir_op : token -> Z -> Z -> Prop :=
| redir_in : redir_op (Sym 60) O_RDONLY 0
| redir_out : redir_op (Sym 62) (Z.lor (Z.lor O_WRONLY O_CREATE) O_TRUNC) 1
| redir_append : redir_op Append (Z.lor O_WRONLY O_CREATE) 1.

Inductive g_redirs : list token -> list (list Z * Z * Z) -> Prop :=
| g_redirs_nil : g_redirs [] []
| g_redirs_cons o mode fd f ts rs : redir_op o mode fd -> g_redirs ts rs -> g_redirs (o :: Word f :: ts) ((f, mode, fd) :: rs).

(** The grammar; a simple command is a sequence of words and redirections. *)
Inductive g_words : list token -> list (list Z) -> list (list Z * Z * Z) -> Prop :=
| g_words_nil : g_words [] [] []
| g_words_word w ts ws rs : g_words ts ws rs -> g_words (Word w :: ts) (w :: ws) rs
| g_words_redir o mode fd f ts ws rs : redir_op o mode fd -> g_words ts ws rs ->
    g_words (o :: Word f :: ts) ws ((f, mode, fd) :: rs).

(** The redirections of a command are around it, the first one innermost. *)
Definition wrap (c : tree) (r : list Z * Z * Z) : tree := TRedir c r.1.1 r.1.2 r.2.

Inductive g_line : list token -> tree -> Prop :=
| g_line_end ts bs c : g_pipe ts c -> Forall (eq (Sym 38)) bs -> g_line (ts ++ bs) (Nat.iter (length bs) TBack c)
| g_line_list ts bs c ts' c' : g_pipe ts c -> Forall (eq (Sym 38)) bs -> g_line ts' c' ->
    g_line (ts ++ bs ++ Sym 59 :: ts') (TList (Nat.iter (length bs) TBack c) c')
with g_pipe : list token -> tree -> Prop :=
| g_pipe_one ts c : g_exec ts c -> g_pipe ts c
| g_pipe_cons ts c ts' c' : g_exec ts c -> g_pipe ts' c' -> g_pipe (ts ++ Sym 124 :: ts') (TPipe c c')
with g_exec : list token -> tree -> Prop :=
| g_exec_words ts ws rs : g_words ts ws rs -> Z.of_nat (length ws) < MAXARGS -> g_exec ts (foldl wrap (TExec ws) rs)
| g_exec_block ts c ts' rs : g_line ts c -> g_redirs ts' rs -> g_exec (Sym 40 :: ts ++ Sym 41 :: ts') (foldl wrap c rs).

Scheme g_line_mut := Minimality for g_line Sort Prop
  with g_pipe_mut := Minimality for g_pipe Sort Prop
  with g_exec_mut := Minimality for g_exec Sort Prop.
Combined Scheme g_mut from g_line_mut, g_pipe_mut, g_exec_mut.

(** ** Lexical analysis *)
Lemma occurs_spec l c : occurs l c = true <-> c ∈ l.
Proof.
  unfold occurs. rewrite existsb_exists. split; [intros (x & Hx & ->%Z.eqb_eq); by apply list_elem_of_In|].
  intros H. exists c. split; [by apply list_elem_of_In|apply Z.eqb_refl].
Qed.

Lemma occurs_false l c : occurs l c = false <-> c ∉ l.
Proof. rewrite <- occurs_spec. by destruct (occurs l c). Qed.

(** Decide the membership of characters in constant lists. *)
Ltac chars :=
  repeat match goal with
  | H : occurs _ _ = true |- _ => apply occurs_spec in H
  | H : occurs _ _ = false |- _ => apply occurs_false in H
  | H : wordc _ |- _ => destruct H as (? & ?%occurs_false & ?%occurs_false)
  | |- occurs _ _ = true => apply occurs_spec
  | |- occurs _ _ = false => apply occurs_false
  end; unfold whitespace, symbols in *;
  repeat match goal with
  | H : context [_ ∈ _ :: _] |- _ => rewrite elem_of_cons in H
  | H : context [_ ∈ []] |- _ => rewrite elem_of_nil in H
  | |- context [_ ∈ _ :: _] => rewrite elem_of_cons
  | |- context [_ ∈ []] => rewrite elem_of_nil
  end.

Lemma lexes_white c l ts : occurs whitespace c = true -> lexes (c :: l) ts -> lexes l ts.
Proof.
  intros Hc H. remember (c :: l) as l0 eqn:E. destruct H as [|c' l' ts Hw H|c' l' ts Hs H|l' ts Hh H|l' ts H|w l' ts Hne Hw Hh H];
    [done|by injection E as -> ->| | | |].
  1-3: exfalso; injection E as E _; subst; chars; lia.
  destruct w as [|c' w]; [done|]. cbn [app] in E. injection E as E _. subst c'. apply Forall_cons in Hw as [Hw _]. exfalso. chars. lia.
Qed.

Lemma string_length_tail a c (l : list Z) : a + Z.of_nat (length (c :: l)) = (a + 1) + Z.of_nat (length l).
Proof. cbn [length]. lia. Qed.

Lemma skip_white_run m ts l : forall s, string_at m s l -> lexes l ts ->
  exists l', string_at m (skip_white (length l) m s) l' /\ skip_white (length l) m s + Z.of_nat (length l') = s + Z.of_nat (length l) /\
    s <= skip_white (length l) m s /\ lexes l' ts /\ forall c, head l' = Some c -> occurs whitespace c = false.
Proof.
  induction l as [|c l IH]; intros s Hs Hl; cbn [length skip_white].
  - exists []. split; [done|]. split; [done|]. split; [lia|]. done.
  - pose proof (string_tail m s c l Hs) as (Hc & Em & Hs'). rewrite Em. destruct (occurs whitespace c) eqn:Ew.
    + destruct (IH (s + 1) Hs' (lexes_white c l ts Ew Hl)) as (l' & H1 & H2 & H3 & H4 & H5). exists l'. split; [done|]. split; [lia|]. split; [lia|]. done.
    + exists (c :: l). split; [done|]. split; [cbn; lia|]. split; [lia|]. split; [done|]. by intros c' [= <-].
Qed.

Lemma skip_word_run m w l : Forall wordc w -> (forall c, head l = Some c -> ~ wordc c) ->
  forall s, string_at m s (w ++ l) -> skip_word (length (w ++ l)) m s = s + Z.of_nat (length w).
Proof.
  intros Hw Hl. induction Hw as [|c w Hc Hw IH]; intros s Hs; cbn [app length skip_word] in *.
  - destruct l as [|c l]; cbn [length skip_word]; [lia|]. pose proof (string_tail m s c l Hs) as (Hc & -> & _).
    destruct (negb _ && negb _) eqn:E; [|lia]. exfalso. apply (Hl c eq_refl). split; [done|]. by destruct (occurs whitespace c), (occurs symbols c).
  - pose proof (string_tail m s c (w ++ l) Hs) as (_ & -> & Hs'). destruct Hc as (_ & -> & ->). cbn [negb andb].
    rewrite IH by done. lia.
Qed.

(** [w] is the word between [q] and [eq]. *)
Record word_at (m : Z -> Z) (lo es q eq : Z) (w : list Z) : Prop := {
  wa_lo : lo <= q;
  wa_end : eq = q + Z.of_nat (length w);
  wa_es : eq <= es;
  wa_byte : forall i c, w !! i = Some c -> m (q + Z.of_nat i) = c;
  wa_word : Forall wordc w;
  wa_sep : ~ wordc (m eq) }.

Definition tok_code (ts : list token) : Z :=
  match ts with [] => 0 | Word _ :: _ => 97 | Sym c :: _ => c | Append :: _ => 43 end.
Definition peeks (toks : list Z) (ts : list token) : bool :=
  match ts with Sym c :: _ => occurs toks c | Append :: _ => occurs toks 62 | _ => false end.

Section Parse.
Context (m : Z -> Z) (lo es : Z).

(** The tokens [ts] are still to be parsed. *)
Definition parsing (ts : list token) (s : shstate) : Prop :=
  sh_mem s = m /\ lo <= sh_ps s /\ exists l, string_at m (sh_ps s) l /\ sh_ps s + Z.of_nat (length l) = es /\ lexes l ts.

(** The position at the next token. *)
Lemma at_token ts s : parsing ts s -> let q := skip_white (Z.to_nat (es - sh_ps s)) m (sh_ps s) in
  exists l, string_at m q l /\ q + Z.of_nat (length l) = es /\ lexes l ts /\ lo <= q /\ forall c, head l = Some c -> occurs whitespace c = false.
Proof.
  intros (_ & Hlo & l & Hs & He & Hl). replace (Z.to_nat (es - sh_ps s)) with (length l) by lia.
  destruct (skip_white_run m ts l (sh_ps s) Hs Hl) as (l' & H1 & H2 & H3 & H4 & H5). exists l'.
  split; [done|]. split; [lia|]. split; [done|]. split; [lia|done].
Qed.

(** The first character of the next token. *)
Lemma peeks_char toks l ts q : (forall c, c ∈ toks -> c ∈ symbols) -> string_at m q l -> lexes l ts ->
  (forall c, head l = Some c -> occurs whitespace c = false) -> negb (m q =? 0) && occurs toks (m q) = peeks toks ts.
Proof.
  intros Ht Hs Hl Hw. rewrite (string_head m q l Hs). destruct Hl as [|c l ts H H'|c l ts H H'|l ts Hh H|l ts H|w l ts Hne Hf Hh H]; cbn [head default peeks].
  - done.
  - specialize (Hw c eq_refl). congruence.
  - pose proof (string_tail m q c l Hs) as (Hc & _). cbn. by rewrite (proj2 (Z.eqb_neq c 0)).
  - by cbn.
  - by cbn.
  - destruct w as [|c w]; [done|]. apply Forall_cons in Hf as [(Hc & _ & Hsy) _]. cbn. apply andb_false_intro2.
    destruct (occurs toks c) eqn:E; [|done]. apply occurs_spec, Ht in E. apply occurs_false in Hsy. done.
Qed.

Lemma peek_run toks ts s tr : (forall c, c ∈ toks -> c ∈ symbols) -> parsing ts s ->
  exists q, peek es toks s tr = Done (peeks toks ts) (s <| sh_ps := q |>) tr /\ parsing ts (s <| sh_ps := q |>).
Proof.
  intros Ht Hp. destruct (at_token ts s Hp) as (l & H1 & H2 & H3 & H4 & H5). set (q := skip_white _ m (sh_ps s)) in *.
  exists q. destruct Hp as (Em & _). split; [|split; [done|]; split; [done|]; by exists l].
  unfold peek. kstep (eq_refl : kget s tr = Done s s tr). rewrite Em. kstep modify_run. fold q. by rewrite (peeks_char toks l ts q).
Qed.

Lemma token_at_run ts l q : string_at m q l -> q + Z.of_nat (length l) = es -> lexes l ts -> lo <= q ->
  (forall c, head l = Some c -> occurs whitespace c = false) ->
  exists eq l', token_at m es q = (tok_code ts, eq) /\ string_at m eq l' /\ eq + Z.of_nat (length l') = es /\ lexes l' (tail ts) /\ q <= eq /\
    forall w, head ts = Some (Word w) -> word_at m lo es q eq w.
Proof.
  intros Hs He Hl Hlo Hw. unfold token_at. destruct Hl as [|c l ts H H'|c l ts H H'|l ts Hh H|l ts H|w l ts Hne Hf Hh H]; cbn [tok_code tail].
  - rewrite (string_head m q [] Hs). change (default 0 (head [])) with 0. exists q, []. cbn [Z.eqb length] in *. split; [done|]. split; [done|]. split; [lia|]. split; [apply lex_nil|]. split; [lia|done].
  - specialize (Hw c eq_refl). congruence.
  - pose proof (string_tail m q c l Hs) as (Hc & -> & Hs'). rewrite (proj2 (Z.eqb_neq c 0)), H by done.
    exists (q + 1), l. rewrite <- He, string_length_tail. split; [done|]. split; [done|]. split; [done|]. split; [done|]. split; [lia|done].
  - pose proof (string_tail m q 62 l Hs) as (Hc & -> & Hs'). cbn [Z.eqb occurs existsb orb]. rewrite (string_head m _ l Hs').
    exists (q + 1), l. rewrite <- He, string_length_tail. split; [|split; [done|]; split; [done|]; split; [done|]; split; [lia|done]].
    destruct l as [|c l]; [done|]. cbn. by rewrite (proj2 (Z.eqb_neq c 62)) by (intros ->; by apply Hh).
  - pose proof (string_tail m q 62 _ Hs) as (Hc & -> & Hs'). pose proof (string_tail m (q + 1) 62 l Hs') as (_ & E2 & Hs2). cbn [Z.eqb occurs existsb orb].
    rewrite E2. exists (q + 2), l. rewrite <- He, !string_length_tail. replace (q + 1 + 1) with (q + 2) in * by lia.
    split; [done|]. split; [done|]. split; [done|]. split; [done|]. split; [lia|done].
  - assert (Hsep := string_app m w q l Hs). rewrite length_app in He.
    replace (Z.to_nat (es - q)) with (length (w ++ l)) by (rewrite length_app; lia). rewrite (skip_word_run m w l Hf Hh q Hs).
    exists (q + Z.of_nat (length w)), l. split; [|split; [done|]; split; [lia|]; split; [done|]; split; [lia|]].
    + destruct w as [|c w]; [done|]. cbn [app] in Hs. pose proof (string_tail m q c _ Hs) as (Hc & -> & _). apply Forall_cons in Hf as [Hf _].
      rewrite (proj2 (Z.eqb_neq c 0)) by done. destruct (occurs _ c) eqn:E1; [exfalso; chars; lia|].
      destruct (Z.eqb_spec c 62) as [->|]; [exfalso; chars; lia|done].
    + intros w' [= <-]. split; [done|done|lia| |done|].
      * intros i c Hi. apply (sa_byte _ _ _ Hs). by rewrite lookup_app_l by (by apply lookup_lt_Some in Hi).
      * rewrite (string_head m _ l Hsep). destruct l as [|c l]; [by intros [? _]|]. by apply Hh.
Qed.

Lemma gettoken_run ts s tr : parsing ts s ->
  exists x q eq, gettoken es s tr = Done (tok_code ts, q, eq) (s <| sh_ps := x |>) tr /\ parsing (tail ts) (s <| sh_ps := x |>) /\
    forall w, head ts = Some (Word w) -> word_at m lo es q eq w.
Proof.
  intros Hp. destruct (at_token ts s Hp) as (l & H1 & H2 & H3 & H4 & H5). set (q := skip_white _ m (sh_ps s)) in *. destruct Hp as (Em & _).
  destruct (token_at_run ts l q H1 H2 H3 H4 H5) as (eq & l' & E & Hs' & He & Hl' & Hq & Hw).
  destruct (skip_white_run m _ l' eq Hs' Hl') as (l2 & K1 & K2 & K3 & K4 & K5).
  exists (skip_white (length l') m eq), q, eq. split; [|split; [|done]].
  - unfold gettoken. kstep (eq_refl : kget s tr = Done s s tr). rewrite Em. fold q. rewrite E. kstep modify_run.
    by replace (Z.to_nat (es - eq)) with (length l') by lia.
  - split; [done|]. split; [cbn; lia|]. exists l2. split; [done|]. split; [cbn; lia|done].
Qed.
End Parse.
