(* ===== verification/UShParse.v ===== *)
(** * The shell's parser accepts exactly its grammar

    [parsecmd] on a line: if the tokens of the line form a command of the grammar
    [g_line], the result is that command's tree, its words C strings in the line's
    buffer; otherwise the shell reports a syntax error.  It always comes to an end. *)

From stdpp Require Import prelude list strings.
From Stdlib Require Import ZArith Lia ZifyBool.
From S2P Require Import Prelude State CString Syscall ULib USh.
Local Open Scope Z_scope.

(** The first two actions of a routine together. *)
Lemma runs_bind2 {S A B C} (c : K S A) (k : A -> K S B) (h : B -> K S C) s tr Q R :
  runs (kbind c k) s tr Q -> (forall b s', Q b s' -> runs (h b) s' tr R) -> runs (kbind c (fun a => kbind (k a) h)) s tr R.
Proof. intros H1 H2. pose proof (runs_bind _ h s tr Q R H1 H2) as H. unfold runs in *. by setoid_rewrite kbind_assoc in H. Qed.

(** ** Nodes *)
Definition keeps_nodes (nodes nodes' : list cmd) : Prop :=
  forall p c, node_at nodes p = Some c -> node_at nodes' p = Some c.

Lemma node_at_app nodes l p c : node_at nodes p = Some c -> node_at (nodes ++ l) p = Some c.
Proof. unfold node_at. destruct (p <=? 0); [done|]. apply lookup_app_l_Some. Qed.

Lemma node_at_new nodes c : node_at (nodes ++ [c]) (Z.of_nat (length nodes) + 1) = Some c.
Proof.
  unfold node_at. destruct (Z.leb_spec (Z.of_nat (length nodes) + 1) 0); [lia|].
  replace (Z.to_nat (Z.of_nat (length nodes) + 1 - 1)) with (length nodes) by lia. by apply list_lookup_middle.
Qed.

Lemma node_at_pos nodes p c : node_at nodes p = Some c -> 1 <= p <= Z.of_nat (length nodes).
Proof. unfold node_at. destruct (Z.leb_spec p 0); [done|]. intros Hp. apply lookup_lt_Some in Hp. lia. Qed.

Lemma node_at_set nodes p c c' p' : node_at nodes p = Some c' ->
  node_at (<[Z.to_nat (p - 1) := c]> nodes) p' = if decide (p' = p) then Some c else node_at nodes p'.
Proof.
  intros H. pose proof (node_at_pos _ _ _ H) as Hp. unfold node_at. destruct (decide (p' = p)) as [->|Hne].
  - destruct (Z.leb_spec p 0); [lia|]. apply list_lookup_insert_eq. lia.
  - destruct (Z.leb_spec p' 0); [done|]. apply list_lookup_insert_ne. lia.
Qed.

(** The state [s'] has the nodes of [s] and needed at most [k] new ones. *)
Definition grows (k : nat) (s s' : shstate) : Prop := keeps_nodes (sh_nodes s) (sh_nodes s') /\ (sh_room s <= sh_room s' + k)%nat.

Lemma grows_trans k k' s s1 s2 : grows k s s1 -> grows k' s1 s2 -> grows (k + k') s s2.
Proof. intros [H1 H2] [H3 H4]. split; [intros p c Hp; by apply H3, H1|lia]. Qed.

Lemma grows_le k k' s s' : grows k s s' -> (k <= k')%nat -> grows k' s s'.
Proof. intros [H1 H2] H. split; [done|lia]. Qed.

Lemma grows_same s s' : sh_nodes s' = sh_nodes s -> sh_room s' = sh_room s -> grows 0 s s'.
Proof. intros E1 E2. split; [intros p c; by rewrite E1|by rewrite E2, Nat.add_0_r]. Qed.

(** Chains of steps. *)
Ltac grown :=
  repeat match goal with H : grows _ _ _ |- _ => destruct H as [? ?] end;
  split; [intros ? ? ?; unfold keeps_nodes in *; eauto 10|lia].

Lemma new_cmd_run c s tr : (1 <= sh_room s)%nat -> exists p s', new_cmd c s tr = Done p s' tr /\ grows 1 s s' /\
  node_at (sh_nodes s') p = Some c /\ node_at (sh_nodes s) p = None /\ sh_mem s' = sh_mem s /\ sh_ps s' = sh_ps s.
Proof.
  intros Hr. unfold new_cmd. eexists _, (s <| sh_nodes := sh_nodes s ++ [c] |> <| sh_room := pred (sh_room s) |>). split; [|split; [|split; [|split; [|done]]]].
  - kstep (eq_refl : kget s tr = Done s s tr). destruct (sh_room s); [lia|]. kstep modify_run. done.
  - split; [intros p c' H; by apply node_at_app|cbn; lia].
  - apply node_at_new.
  - unfold node_at. destruct (Z.leb_spec (Z.of_nat (length (sh_nodes s)) + 1) 0); [lia|]. apply lookup_ge_None. lia.
Qed.

Lemma parsing_same m lo es ts s s' : sh_mem s' = sh_mem s -> sh_ps s' = sh_ps s -> parsing m lo es ts s -> parsing m lo es ts s'.
Proof. unfold parsing. by intros -> ->. Qed.

(** ** Trees in the store *)
Section Tree.
Context (m : Z -> Z) (lo es : Z).

(** The arguments [ws] have been entered. *)
Definition args_at (argv eargv : list Z) (ws : list (list Z)) : Prop :=
  forall i w, ws !! i = Some w -> exists q eq, argv !! i = Some q /\ eargv !! i = Some eq /\ word_at m lo es q eq w.

Fixpoint tree_at (nodes : list cmd) (p : Z) (t : tree) : Prop :=
  match t with
  | TExec ws => exists argv eargv, node_at nodes p = Some (EXEC argv eargv) /\ length eargv = length argv /\
      args_at argv eargv ws /\ argv !! length ws = Some 0
  | TRedir c f mode fd => exists sub q eq, node_at nodes p = Some (REDIR sub q eq mode fd) /\ word_at m lo es q eq f /\ tree_at nodes sub c
  | TPipe l r => exists pl pr, node_at nodes p = Some (PIPE pl pr) /\ tree_at nodes pl l /\ tree_at nodes pr r
  | TList l r => exists pl pr, node_at nodes p = Some (LIST pl pr) /\ tree_at nodes pl l /\ tree_at nodes pr r
  | TBack c => exists sub, node_at nodes p = Some (BACK sub) /\ tree_at nodes sub c
  end.

Lemma tree_at_mono nodes nodes' t : keeps_nodes nodes nodes' -> forall p, tree_at nodes p t -> tree_at nodes' p t.
Proof.
  intros K. induction t as [ws|c IH f mode fd|l IHl r IHr|l IHl r IHr|c IH]; intros p; cbn.
  - intros (argv & eargv & H1 & H2). exists argv, eargv. split; [by apply K|done].
  - intros (sub & q & eq & H1 & H2 & H3). exists sub, q, eq. split; [by apply K|]. split; [done|by apply IH].
  - intros (pl & pr & H1 & H2 & H3). exists pl, pr. split; [by apply K|]. split; [by apply IHl|by apply IHr].
  - intros (pl & pr & H1 & H2 & H3). exists pl, pr. split; [by apply K|]. split; [by apply IHl|by apply IHr].
  - intros (sub & H1 & H2). exists sub. split; [by apply K|by apply IH].
Qed.

(** The node [p] is [p0] with the redirections [rs] around it. *)
Fixpoint wraps (nodes : list cmd) (p0 p : Z) (rs : list (list Z * Z * Z)) : Prop :=
  match rs with
  | [] => p = p0
  | (f, mode, fd) :: rs' => exists p1 q eq, node_at nodes p1 = Some (REDIR p0 q eq mode fd) /\ word_at m lo es q eq f /\ wraps nodes p1 p rs'
  end.

Lemma wraps_tree nodes rs : forall p0 p c, tree_at nodes p0 c -> wraps nodes p0 p rs -> tree_at nodes p (foldl wrap c rs).
Proof.
  induction rs as [|[[f mode] fd] rs IH]; intros p0 p c Hc; cbn; [by intros ->|]. intros (p1 & q & eq & H1 & H2 & H3).
  apply (IH p1); [|done]. exists p0, q, eq. done.
Qed.

Lemma wraps_mono nodes nodes' rs : (forall p sub q eq mode fd, node_at nodes p = Some (REDIR sub q eq mode fd) -> node_at nodes' p = Some (REDIR sub q eq mode fd)) ->
  forall p0 p, wraps nodes p0 p rs -> wraps nodes' p0 p rs.
Proof.
  intros K. induction rs as [|[[f mode] fd] rs IH]; intros p0 p; cbn; [done|]. intros (p1 & q & eq & H1 & H2 & H3).
  exists p1, q, eq. split; [by apply K|]. split; [done|by apply IH].
Qed.

Lemma wraps_app nodes rs rs' : forall p0 p1 p, wraps nodes p0 p1 rs -> wraps nodes p1 p rs' -> wraps nodes p0 p (rs ++ rs').
Proof.
  induction rs as [|[[f mode] fd] rs IH]; intros p0 p1 p; cbn; [by intros ->|]. intros (p2 & q & eq & H1 & H2 & H3) H.
  exists p2, q, eq. split; [done|]. split; [done|]. by apply (IH p2 p1).
Qed.
End Tree.

(** ** The parser on the sentences of the grammar *)
Definition follow (l : list Z) (ts : list token) : Prop :=
  match ts with [] => True | Sym c :: _ => c ∈ l | _ => False end.

Lemma follow_peeks l toks ts : follow l ts -> (forall c, c ∈ l -> occurs toks c = false) -> peeks toks ts = false.
Proof. destruct ts as [|[w|c|] ts]; cbn; try done. intros Hc H. by apply H. Qed.

Lemma follow_mono l l' ts : follow l ts -> (forall c, c ∈ l -> c ∈ l') -> follow l' ts.
Proof. destruct ts as [|[w|c|] ts]; cbn; try done. intros Hc H. by apply H. Qed.

(** Membership in a constant list. *)
Ltac chars_in := let c := fresh in let H := fresh in intros c H; chars; lia.

Lemma g_redirs_length ts rs : g_redirs ts rs -> length ts = (2 * length rs)%nat.
Proof. induction 1; cbn; lia. Qed.

Lemma g_words_length ts ws rs : g_words ts ws rs -> length ts = (length ws + 2 * length rs)%nat.
Proof. induction 1; cbn; lia. Qed.

Section Accept.
Context (m : Z -> Z) (lo es : Z).

(** Looking at the next token, and taking it. *)
Lemma peek_runs toks ts s tr : (forall c, c ∈ toks -> c ∈ symbols) -> parsing m lo es ts s ->
  runs (peek es toks) s tr (fun b s' => b = peeks toks ts /\ parsing m lo es ts s' /\ grows 0 s s').
Proof.
  intros Ht Hp. destruct (peek_run m lo es toks ts s tr Ht Hp) as (q & E & Hp'). eexists _, _. split; [exact E|].
  split; [done|]. split; [done|apply grows_same; done].
Qed.

Lemma token_runs t ts s tr : parsing m lo es (t :: ts) s -> runs (gettoken es) s tr (fun r s' =>
  r.1.1 = tok_code [t] /\ parsing m lo es ts s' /\ grows 0 s s' /\ forall w, t = Word w -> word_at m lo es r.1.2 r.2 w).
Proof.
  intros Hp. destruct (gettoken_run m lo es (t :: ts) s tr Hp) as (x & q & eq & E & Hp' & Hw). eexists _, _. split; [exact E|].
  split; [by destruct t|]. split; [done|]. split; [by apply grows_same|]. intros w ->. by apply Hw.
Qed.

Lemma new_runs c ts s tr : parsing m lo es ts s -> (1 <= sh_room s)%nat -> runs (new_cmd c) s tr (fun p s' =>
  parsing m lo es ts s' /\ grows 1 s s' /\ node_at (sh_nodes s') p = Some c /\ node_at (sh_nodes s) p = None).
Proof.
  intros Hp Hr. destruct (new_cmd_run c s tr Hr) as (p & s' & E & G & N & N0 & Em & Ep). eexists _, _. split; [exact E|].
  split; [by apply (parsing_same _ _ _ _ s)|done].
Qed.

Lemma redirs_run ts rs : g_redirs ts rs -> forall rest fuel s tr p0, parsing m lo es (ts ++ rest) s -> peeks [60; 62] rest = false ->
  (length ts < fuel)%nat -> (length rs <= sh_room s)%nat ->
  runs (parseredirs fuel p0 es) s tr (fun p s' => parsing m lo es rest s' /\ wraps m lo es (sh_nodes s') p0 p rs /\ grows (length rs) s s').
Proof.
  induction 1 as [|o mode fd f ts rs Ho H IH]; intros rest [|fuel] s tr p0 Hp Hrest Hf Hr; cbn [length] in Hf, Hr; try lia; cbn [parseredirs app] in *.
  - rstep (peek_runs [60; 62] rest) as (-> & Hp1 & G1); [chars_in|done|]. rewrite Hrest. by apply runs_ret.
  - rstep (peek_runs [60; 62] (o :: Word f :: ts ++ rest)) as (-> & Hp1 & G1); [chars_in|done|].
    replace (peeks [60; 62] _) with true by (by destruct Ho).
    rstep (token_runs _ _ _ _ Hp1) as (E2 & Hp2 & G2 & _). destruct a as [[tok q0] eq0]. cbn in E2. subst tok.
    rstep (token_runs _ _ _ _ Hp2) as (E3 & Hp3 & G3 & Hw). destruct a as [[t q] eq]. cbn in E3, Hw. subst t. cbn [Z.eqb negb Pos.eqb].
    assert (Hr3 : (sh_room s <= sh_room s'1)%nat) by (destruct G1, G2, G3; lia).
    eapply (runs_bind _ _ _ _ (fun p s' => parsing m lo es (ts ++ rest) s' /\ grows 1 s'1 s' /\ node_at (sh_nodes s') p = Some (REDIR p0 q eq mode fd))).
    { destruct Ho; cbn [tok_code Z.eqb Pos.eqb]; (eapply runs_impl; [apply (new_runs _ _ _ _ Hp3); lia|]; intros ? ? (? & ? & ? & _); done). }
    intros p1 s4 (Hp4 & G4 & N). pose proof G4 as [_ Hr4].
    rlast (IH rest fuel s4 tr p1 Hp4 Hrest) as (Hp5 & W & G5); [lia|lia|]. split; [done|]. split.
    + exists p1, q, eq. split; [by apply G5|]. split; [by apply Hw|done].
    + cbn [length]. grown.
Qed.

(** The node [e] while [parseexec] enters its arguments. *)
Definition filling (e : Z) (ws : list (list Z)) (s : shstate) : Prop := exists argv eargv,
  node_at (sh_nodes s) e = Some (EXEC argv eargv) /\ length argv = Z.to_nat MAXARGS /\ length eargv = Z.to_nat MAXARGS /\ args_at m lo es argv eargv ws.

(** The nodes other than [e] are kept. *)
Definition grows_but (e : Z) (k : nat) (s s' : shstate) : Prop :=
  (forall p c, p <> e -> node_at (sh_nodes s) p = Some c -> node_at (sh_nodes s') p = Some c) /\ (sh_room s <= sh_room s' + k)%nat.

Lemma filling_grows e ws k s s' : grows k s s' -> filling e ws s -> filling e ws s'.
Proof. intros [K _] (argv & eargv & H1 & H2). exists argv, eargv. split; [by apply K|done]. Qed.

Lemma set_arg_runs e ws q eq ts s tr : filling e ws s -> Z.of_nat (length ws) < MAXARGS -> parsing m lo es ts s ->
  runs (set_arg e (length ws) q eq) s tr (fun _ s' => parsing m lo es ts s' /\ grows_but e 0 s s' /\
    (forall w, word_at m lo es q eq w -> filling e (ws ++ [w]) s') /\
    (q = 0 -> tree_at m lo es (sh_nodes s') e (TExec ws))).
Proof.
  intros (argv & eargv & N & L1 & L2 & A) Hlt Hp. unfold set_arg. rstep (runs_det kget s tr s s eq_refl) as [-> ->]. rewrite N.
  rewrite (proj2 (Nat.ltb_lt _ _)) by (unfold MAXARGS in *; lia). rlast runs_modify as ->.
  set (argv' := <[length ws := q]> argv). set (eargv' := <[length ws := eq]> eargv).
  assert (N' : forall p, node_at (<[Z.to_nat (e - 1) := EXEC argv' eargv']> (sh_nodes s)) p = if decide (p = e) then Some (EXEC argv' eargv') else node_at (sh_nodes s) p)
    by (intros p; by apply node_at_set with (EXEC argv eargv)).
  assert (A' : args_at m lo es argv' eargv' ws).
  { intros i w Hi. destruct (A i w Hi) as (q' & eq' & ? & ? & ?). apply lookup_lt_Some in Hi. exists q', eq'.
    unfold argv', eargv'. rewrite !list_lookup_insert_ne by lia. done. }
  assert (Lk : argv' !! length ws = Some q /\ eargv' !! length ws = Some eq).
  { unfold argv', eargv'. rewrite !list_lookup_insert_eq by (unfold MAXARGS in *; lia). done. }
  split; [done|]. split; [|split].
  - split; [|cbn; lia]. intros p c Hne Hpc. cbn. by rewrite N', decide_False.
  - intros w Hw. exists argv', eargv'. cbn. rewrite N', decide_True by done. unfold argv', eargv'. rewrite !length_insert. split; [done|]. split; [done|]. split; [done|].
    intros i w' [Hi|[Hl Hi]]%lookup_app_Some; [by apply A'|]. apply list_lookup_singleton_Some in Hi as [Hi <-].
    replace i with (length ws) by lia. exists q, eq. destruct Lk. done.
  - intros ->. exists argv', eargv'. cbn. rewrite N', decide_True by done. split; [done|]. split; [unfold argv', eargv'; by rewrite !length_insert, L1, L2|].
    split; [done|]. by destruct Lk.
Qed.

(** The redirections before the next word. *)
Lemma g_words_split ts ws rs : g_words ts ws rs -> exists ts1 rs1 ts2 rs2, ts = ts1 ++ ts2 /\ rs = rs1 ++ rs2 /\ g_redirs ts1 rs1 /\
  (ts2 = [] /\ ws = [] /\ rs2 = [] \/ exists w ts3 ws', ts2 = Word w :: ts3 /\ ws = w :: ws' /\ g_words ts3 ws' rs2).
Proof.
  induction 1 as [|w ts ws rs H IH|o mode fd f ts ws rs Ho H IH].
  - exists [], [], [], []. split; [done|]. split; [done|]. split; [constructor|by left].
  - exists [], [], (Word w :: ts), rs. split; [done|]. split; [done|]. split; [constructor|]. right. by exists w, ts, ws.
  - destruct IH as (ts1 & rs1 & ts2 & rs2 & -> & -> & G & Hc). exists (o :: Word f :: ts1), ((f, mode, fd) :: rs1), ts2, rs2.
    split; [done|]. split; [done|]. split; [by constructor|done].
Qed.

Lemma wraps_but e k s s' p rs : (exists argv eargv, node_at (sh_nodes s) e = Some (EXEC argv eargv)) -> grows_but e k s s' ->
  wraps m lo es (sh_nodes s) e p rs -> wraps m lo es (sh_nodes s') e p rs.
Proof.
  intros (argv & eargv & N) [K _]. apply wraps_mono. intros p' sub q eq mode fd Hp. apply K; [|done]. intros ->. congruence.
Qed.

(** At the end of the line. *)
Lemma end_runs s tr : parsing m lo es [] s -> runs (gettoken es) s tr (fun r s' => r.1.1 = 0 /\ parsing m lo es [] s' /\ grows 0 s s').
Proof.
  intros Hp. destruct (gettoken_run m lo es [] s tr Hp) as (x & q & eq & E & Hp' & _). eexists _, _. split; [exact E|].
  split; [done|]. split; [done|by apply grows_same].
Qed.

Lemma filling_node e ws s : filling e ws s -> exists argv eargv, node_at (sh_nodes s) e = Some (EXEC argv eargv).
Proof. intros (argv & eargv & N & _). by exists argv, eargv. Qed.

(** [cmd->argv[argc] = 0; cmd->eargv[argc] = 0; return ret] *)
Lemma finish_runs e ws ret rs rest s tr : filling e ws s -> Z.of_nat (length ws) < MAXARGS -> parsing m lo es rest s -> wraps m lo es (sh_nodes s) e ret rs ->
  runs (set_arg e (length ws) 0 0 ;; kret ret) s tr (fun p s' =>
    parsing m lo es rest s' /\ tree_at m lo es (sh_nodes s') e (TExec ws) /\ wraps m lo es (sh_nodes s') e p rs /\ grows_but e 0 s s').
Proof.
  intros Fi Hlt Hp W. rstep (set_arg_runs e ws 0 0 rest s tr Fi Hlt Hp) as (Hp' & Gr & _ & T). apply runs_ret.
  split; [done|]. split; [by apply T|]. split; [|done]. by apply (wraps_but e 0 s); [apply (filling_node e ws)| |].
Qed.

Lemma words_run e ws : forall ts rs dn rs0 ret rest fuel s tr, g_words ts ws rs -> parsing m lo es (ts ++ rest) s -> follow [41; 38; 59; 124] rest ->
  filling e dn s -> wraps m lo es (sh_nodes s) e ret rs0 -> Z.of_nat (length dn + length ws) < MAXARGS -> (length ts < fuel)%nat -> (length rs <= sh_room s)%nat ->
  runs (let! ret := parseredirs fuel ret es in parseargs fuel e ret (length dn) es) s tr (fun p s' =>
    parsing m lo es rest s' /\ tree_at m lo es (sh_nodes s') e (TExec (dn ++ ws)) /\ wraps m lo es (sh_nodes s') e p (rs0 ++ rs) /\ grows_but e (length rs) s s').
Proof.
  induction ws as [|w ws IH]; intros ts rs dn rs0 ret rest fuel s tr G Hp Fo Fi W Ha Hf Hr.
  all: destruct (g_words_split ts _ rs G) as (ts1 & rs1 & ts2 & rs2 & -> & -> & G1 & Hc); rewrite length_app in Hf, Hr; rewrite <- app_assoc in Hp.
  all: assert (Hs : peeks [60; 62] (ts2 ++ rest) = false)
         by (destruct Hc as [(-> & _)|(w' & ts3 & ws' & -> & _)]; [apply (follow_peeks _ _ _ Fo); chars_in|done]).
  all: rstep (redirs_run ts1 rs1 G1 (ts2 ++ rest) fuel s tr ret Hp Hs) as (Hp1 & W1 & Gr1); [lia|lia|].
  all: rename a into ret1, s' into s1; assert (Fi1 := filling_grows e dn _ _ _ Gr1 Fi); pose proof Gr1 as [K1 Hr1].
  all: assert (W1' : wraps m lo es (sh_nodes s1) e ret1 (rs0 ++ rs1))
         by (apply (wraps_app _ _ _ _ _ _ e ret); [eapply wraps_mono; [|exact W]; intros; by apply K1|done]).
  all: destruct fuel as [|fuel]; [lia|]; cbn [parseargs].
  all: rstep (peek_runs [124; 41; 38; 59] (ts2 ++ rest)) as (-> & Hp2 & Gr2); [chars_in|done|]; rename s' into s2.
  all: assert (Fi2 := filling_grows e dn _ _ _ Gr2 Fi1); pose proof Gr2 as [K2 Hr2].
  all: assert (W2 : wraps m lo es (sh_nodes s2) e ret1 (rs0 ++ rs1)) by (eapply wraps_mono; [|exact W1']; intros; by apply K2).
  - destruct Hc as [(-> & _ & ->)|(w' & ts3 & ws' & _ & ? & _)]; [|done]. rewrite app_nil_r in *. cbn [app] in *.
    destruct rest as [|[w|c|] rest]; cbn [peeks] in *; try done.
    + rstep (end_runs s2 tr Hp2) as (E & Hp3 & Gr3). destruct a as [[tok q] eq]. cbn in E. subst tok. cbn [Z.eqb].
      assert (Fi3 := filling_grows e dn _ _ _ Gr3 Fi2). pose proof Gr3 as [K3 Hr3].
      rlast (finish_runs e dn ret1 (rs0 ++ rs1) [] s' tr Fi3) as (Hp4 & T & W4 & [K4 Hr4]); [lia|done|eapply wraps_mono; [|exact W2]; intros; by apply K3|].
      rewrite ?app_nil_r. split; [done|]. split; [done|]. split; [done|]. split; [|lia]. intros p c Hne Hpc. by apply K4, K3, K2, K1.
    + replace (occurs [124; 41; 38; 59] c) with true by (symmetry; cbn in Fo; chars; lia).
      rlast (finish_runs e dn ret1 (rs0 ++ rs1) _ s2 tr Fi2) as (Hp4 & T & W4 & [K4 Hr4]); [lia|exact Hp2|done|].
      rewrite ?app_nil_r. split; [done|]. split; [done|]. split; [done|]. split; [|lia]. intros p c' Hne Hpc. by apply K4, K2, K1.
  - destruct Hc as [(_ & ? & _)|(w' & ts3 & ws' & -> & [= <- <-] & G3)]; [done|]. cbn [app peeks] in *.
    rstep (token_runs _ _ _ _ Hp2) as (E & Hp3 & Gr3 & Hw). destruct a as [[tok q] eq]. cbn in E, Hw. subst tok. cbn [Z.eqb Pos.eqb negb].
    rename s' into s3. assert (Fi3 := filling_grows e dn _ _ _ Gr3 Fi2). pose proof Gr3 as [K3 Hr3]. cbn [length] in *.
    rstep (set_arg_runs e dn q eq (ts3 ++ rest) s3 tr Fi3) as (Hp4 & Gr4 & Fi4 & _); [lia|done|]. rename s' into s4. pose proof Gr4 as [K4 Hr4].
    rewrite (proj2 (Z.leb_gt _ _)) by lia. rewrite !length_app in *. cbn [length] in *.
    assert (W4 : wraps m lo es (sh_nodes s4) e ret1 (rs0 ++ rs1)).
    { apply (wraps_but e 0 s3); [by apply (filling_node e dn)|done|]. eapply wraps_mono; [|exact W2]. intros. by apply K3. }
    specialize (IH ts3 rs2 (dn ++ [w]) (rs0 ++ rs1) ret1 rest fuel s4 tr G3 Hp4 Fo (Fi4 w (Hw w eq_refl)) W4).
    rewrite length_app in IH. cbn [length] in IH. replace (length dn + 1)%nat with (S (length dn)) in IH by lia.
    rlast IH as (Hp5 & T & W5 & [K5 Hr5]); [lia|lia|lia|]. split; [done|]. split; [by rewrite <- app_assoc in T|]. split; [by rewrite <- app_assoc in W5|].
    split; [|lia]. intros p c Hne Hpc. by apply K5, K4, K3, K2, K1.
Qed.

Lemma back_run bs : Forall (eq (Sym 38)) bs -> forall rest fuel s tr p c, parsing m lo es (bs ++ rest) s -> peeks [38] rest = false ->
  tree_at m lo es (sh_nodes s) p c -> (length bs < fuel)%nat -> (length bs <= sh_room s)%nat ->
  runs (parseback fuel p es) s tr (fun p' s' =>
    parsing m lo es rest s' /\ tree_at m lo es (sh_nodes s') p' (Nat.iter (length bs) TBack c) /\ grows (length bs) s s').
Proof.
  induction 1 as [|b bs <- H IH]; intros rest [|fuel] s tr p c Hp Hrest T Hf Hr; cbn [length] in Hf, Hr; try lia; cbn [parseback app] in *.
  - rstep (peek_runs [38] rest) as (-> & Hp1 & G1); [chars_in|done|]. rewrite Hrest. apply runs_ret. split; [done|]. split; [|done].
    eapply tree_at_mono; [|exact T]. by destruct G1.
  - rstep (peek_runs [38] (Sym 38 :: bs ++ rest)) as (-> & Hp1 & G1); [chars_in|done|]. cbn [peeks occurs existsb Z.eqb Pos.eqb orb].
    rstep (token_runs _ _ _ _ Hp1) as (_ & Hp2 & G2 & _). assert (Hr2 : (sh_room s <= sh_room s'0)%nat) by (destruct G1, G2; lia).
    rstep (new_runs (BACK p) _ _ _ Hp2) as (Hp3 & G3 & N & _); [lia|]. rename s'1 into s3, a0 into p1.
    assert (T3 : tree_at m lo es (sh_nodes s3) p1 (TBack c)).
    { exists p. split; [done|]. eapply tree_at_mono; [|exact T]. assert (G : grows 1 s s3) by grown. by destruct G. }
    pose proof G3 as [_ Hr3].
    rlast (IH rest fuel s3 tr p1 (TBack c) Hp3 Hrest T3) as (Hp4 & T4 & G4); [lia|lia|]. split; [done|]. cbn [length]. rewrite Nat.iter_succ_r. split; [done|]. grown.
Qed.

Definition accepts (parse : nat -> SK Z) (fol : list Z) (extra : nat) (ts : list token) (t : tree) : Prop :=
  forall rest fuel s tr, parsing m lo es (ts ++ rest) s -> follow fol rest -> (4 * length ts + extra <= fuel)%nat -> (2 * length ts + 1 <= sh_room s)%nat ->
  runs (parse fuel) s tr (fun p s' => parsing m lo es rest s' /\ tree_at m lo es (sh_nodes s') p t /\ grows (2 * length ts + 1) s s').

(** A pipeline and the [&] behind it. *)
Lemma accepts_back ts bs c rest fuel s tr : accepts (fun f => parsepipe f es) [41; 38; 59] 3 ts c -> Forall (eq (Sym 38)) bs ->
  parsing m lo es (ts ++ bs ++ rest) s -> follow [41; 59] rest -> (4 * length (ts ++ bs) + 3 <= fuel)%nat -> (2 * length (ts ++ bs) + 1 <= sh_room s)%nat ->
  runs (let! cmd := parsepipe fuel es in parseback fuel cmd es) s tr (fun p s' =>
    parsing m lo es rest s' /\ tree_at m lo es (sh_nodes s') p (Nat.iter (length bs) TBack c) /\ grows (2 * length (ts ++ bs) + 1) s s').
Proof.
  intros A Hb Hp Fo Hf Hr. rewrite length_app in Hf, Hr.
  rstep (A (bs ++ rest) fuel s tr Hp) as (Hp1 & T1 & G1); [|lia|lia|].
  { destruct Hb as [|b bs <- Hb]; cbn [app]; [by apply (follow_mono _ _ _ Fo); chars_in|cbn; chars; lia]. }
  pose proof G1 as [_ Hr1]. rlast (back_run bs Hb rest fuel s' tr a c Hp1) as (Hp2 & T2 & G2); [apply (follow_peeks _ _ _ Fo); chars_in|done|lia|lia|].
  split; [done|]. split; [done|]. rewrite length_app. grown.
Qed.

Lemma accepts_words ts ws rs : g_words ts ws rs -> Z.of_nat (length ws) < MAXARGS ->
  accepts (fun f => parseexec f es) [41; 38; 59; 124] 2 ts (foldl wrap (TExec ws) rs).
Proof.
  intros G Hw rest fuel s tr Hp Fo Hf Hr. destruct fuel as [|fuel]; [lia|]. cbn [parseexec].
  rstep (peek_runs [40] _) as (-> & Hp1 & G1); [chars_in|exact Hp|].
  assert (E : peeks [40] (ts ++ rest) = false).
  { destruct G as [|w ts ws rs G|o mode fd f ts ws rs Ho G]; [apply (follow_peeks _ _ _ Fo); chars_in|done|by destruct Ho]. }
  rewrite E. pose proof G1 as [K1 Hr1]. pose proof (g_words_length _ _ _ G) as Hl.
  rstep (new_runs _ _ _ _ Hp1) as (Hp2 & G2 & N & N0); [lia|]. rename a into e, s'0 into s2. pose proof G2 as [K2 Hr2].
  assert (Fi : filling e [] s2) by (eexists _, _; split; [exact N|]; split; [done|]; split; [done|]; by intros i w Hi).
  rlast (words_run e ws ts rs [] [] e rest fuel s2 tr G Hp2 Fo Fi) as (Hp3 & T & W & [K3 Hr3]); [done|done|lia|lia|].
  split; [done|]. split; [by apply (wraps_tree _ _ _ _ rs e)|]. split; [|lia]. intros p c Hpc.
  apply K3; [intros ->; apply K1 in Hpc; congruence|]. by apply K2, K1.
Qed.

(** A command in parentheses. *)
Lemma accepts_block ts c ts' rs : accepts (fun f => parseline f es) [41] 4 ts c -> g_redirs ts' rs ->
  accepts (fun f => parseexec f es) [41; 38; 59; 124] 2 (Sym 40 :: ts ++ Sym 41 :: ts') (foldl wrap c rs).
Proof.
  intros A G rest fuel s tr Hp Fo Hf Hr. cbn [length] in Hf, Hr. rewrite length_app in Hf, Hr. cbn [length] in Hf, Hr.
  replace ((Sym 40 :: ts ++ Sym 41 :: ts') ++ rest) with (Sym 40 :: ts ++ Sym 41 :: ts' ++ rest) in Hp by (cbn [app]; by rewrite <- !app_assoc).
  destruct fuel as [|[|fuel]]; [lia|lia|]. cbn [parseexec].
  rstep (peek_runs [40] _) as (-> & Hp1 & G1); [chars_in|exact Hp|]. cbn [peeks occurs existsb Z.eqb Pos.eqb orb parseblock].
  rstep (peek_runs [40] _) as (-> & Hp2 & G2); [chars_in|exact Hp1|]. cbn [peeks occurs existsb Z.eqb Pos.eqb orb negb].
  rstep (token_runs _ _ _ _ Hp2) as (_ & Hp3 & G3 & _). assert (Hr3 : (sh_room s <= sh_room s'1)%nat) by (destruct G1, G2, G3; lia).
  rstep (A _ fuel _ tr Hp3) as (Hp4 & T4 & G4); [cbn; chars; lia|lia|lia|]. rename a0 into p, s'2 into s4. pose proof G4 as [_ Hr4].
  rstep (peek_runs [41] _) as (-> & Hp5 & G5); [chars_in|exact Hp4|]. cbn [peeks occurs existsb Z.eqb Pos.eqb orb negb].
  rstep (token_runs _ _ _ _ Hp5) as (_ & Hp6 & G6 & _). rename s'3 into s6. assert (Hr6 : (sh_room s4 <= sh_room s6)%nat) by (destruct G5, G6; lia).
  pose proof (g_redirs_length _ _ G) as Hl.
  rlast (redirs_run ts' rs G rest fuel s6 tr p Hp6) as (Hp7 & W & G7); [apply (follow_peeks _ _ _ Fo); chars_in|lia|lia|].
  split; [done|]. split; [|cbn [length]; rewrite length_app; cbn [length]; grown].
  apply (wraps_tree _ _ _ _ rs p); [|done]. eapply tree_at_mono; [|exact T4]. enough (G' : grows (length rs) s4 s'3) by (by destruct G'). grown.
Qed.

Lemma grammar_accepted : (forall ts t, g_line ts t -> accepts (fun f => parseline f es) [41] 4 ts t) /\
  (forall ts t, g_pipe ts t -> accepts (fun f => parsepipe f es) [41; 38; 59] 3 ts t) /\
  (forall ts t, g_exec ts t -> accepts (fun f => parseexec f es) [41; 38; 59; 124] 2 ts t).
Proof.
  apply g_mut.
  - intros ts bs c _ A Hb rest fuel s tr Hp Fo Hf Hr. destruct fuel as [|fuel]; [lia|]. cbn [parseline]. rewrite <- app_assoc in Hp.
    eapply runs_bind2; [apply (accepts_back ts bs c rest fuel s tr A Hb Hp); [by apply (follow_mono _ _ _ Fo); chars_in|lia|lia]|].
    intros p s1 (Hp1 & T1 & G1). rstep (peek_runs [59] rest) as (-> & Hp2 & G2); [chars_in|done|].
    rewrite (follow_peeks [41] [59] rest Fo) by chars_in. apply runs_ret. split; [done|]. split; [eapply tree_at_mono; [|exact T1]; by destruct G2|grown].
  - intros ts bs c ts' c' _ A Hb _ A' rest fuel s tr Hp Fo Hf Hr. destruct fuel as [|fuel]; [lia|]. cbn [parseline].
    replace ((ts ++ bs ++ Sym 59 :: ts') ++ rest) with (ts ++ bs ++ Sym 59 :: ts' ++ rest) in Hp by (by rewrite <- !app_assoc).
    rewrite !length_app in Hf, Hr. cbn [length] in Hf, Hr.
    eapply runs_bind2; [apply (accepts_back ts bs c _ fuel s tr A Hb Hp); [cbn; chars; lia|rewrite length_app; lia|rewrite length_app; lia]|].
    intros p s1 (Hp1 & T1 & G1). rstep (peek_runs [59] _) as (-> & Hp2 & G2); [chars_in|exact Hp1|]. cbn [peeks occurs existsb Z.eqb Pos.eqb orb].
    rstep (token_runs _ _ _ _ Hp2) as (_ & Hp3 & G3 & _). rewrite length_app in G1.
    assert (Hr3 : (sh_room s <= sh_room s'0 + (2 * (length ts + length bs) + 1))%nat) by (destruct G1, G2, G3; lia).
    rstep (A' rest fuel _ tr Hp3 Fo) as (Hp4 & T4 & G4); [lia|lia|]. pose proof G4 as [_ Hr4].
    rlast (new_runs (LIST p a0) _ _ _ Hp4) as (Hp5 & G5 & N & _); [lia|]. split; [done|]. split; [|rewrite !length_app; cbn [length]; grown].
    exists p, a0. split; [done|]. split; [|eapply tree_at_mono; [|exact T4]; by destruct G5].
    eapply tree_at_mono; [|exact T1]. enough (G : grows (2 * length ts' + 2) s1 s'2) by (by destruct G). grown.
  - intros ts c _ A rest fuel s tr Hp Fo Hf Hr. destruct fuel as [|fuel]; [lia|]. cbn [parsepipe].
    rstep (A rest fuel s tr Hp) as (Hp1 & T1 & G1); [by apply (follow_mono _ _ _ Fo); chars_in|lia|lia|].
    rstep (peek_runs [124] rest) as (-> & Hp2 & G2); [chars_in|done|]. rewrite (follow_peeks _ [124] rest Fo) by chars_in.
    apply runs_ret. split; [done|]. split; [eapply tree_at_mono; [|exact T1]; by destruct G2|grown].
  - intros ts c ts' c' _ A _ A' rest fuel s tr Hp Fo Hf Hr. destruct fuel as [|fuel]; [lia|]. cbn [parsepipe].
    replace ((ts ++ Sym 124 :: ts') ++ rest) with (ts ++ Sym 124 :: ts' ++ rest) in Hp by (by rewrite <- app_assoc).
    rewrite length_app in Hf, Hr. cbn [length] in Hf, Hr.
    rstep (A _ fuel s tr Hp) as (Hp1 & T1 & G1); [cbn; chars; lia|lia|lia|]. rename a into p, s' into s1.
    rstep (peek_runs [124] _) as (-> & Hp2 & G2); [chars_in|exact Hp1|]. cbn [peeks occurs existsb Z.eqb Pos.eqb orb].
    rstep (token_runs _ _ _ _ Hp2) as (_ & Hp3 & G3 & _).
    assert (Hr3 : (sh_room s <= sh_room s'0 + (2 * length ts + 1))%nat) by (destruct G1, G2, G3; lia).
    rstep (A' rest fuel _ tr Hp3 Fo) as (Hp4 & T4 & G4); [lia|lia|]. pose proof G4 as [_ Hr4].
    rlast (new_runs (PIPE p a0) _ _ _ Hp4) as (Hp5 & G5 & N & _); [lia|]. split; [done|]. split; [|rewrite length_app; cbn [length]; grown].
    exists p, a0. split; [done|]. split; [|eapply tree_at_mono; [|exact T4]; by destruct G5].
    eapply tree_at_mono; [|exact T1]. enough (G : grows (2 * length ts' + 2) s1 s'2) by (by destruct G). grown.
  - apply accepts_words.
  - intros ts c ts' rs _ A G. by apply accepts_block.
Qed.
End Accept.

(** ** The parser accepts nothing else, and always ends *)
(** The routine returns a result that satisfies [Q], or the shell gives up with a
    message. *)
Definition ends {S A} (c : K S A) (s : S) (tr : list (S -> S)) (Q : A -> S -> Prop) : Prop :=
  runs c s tr Q \/ exists msg, c s tr = Panicked msg.

Lemma ends_bind {S A B} (c : K S A) (k : A -> K S B) s tr Q R :
  ends c s tr Q -> (forall a s', Q a s' -> ends (k a) s' tr R) -> ends (kbind c k) s tr R.
Proof.
  intros [(a & s' & E & HQ)|[msg E]] H.
  - destruct (H a s' HQ) as [(b & s2 & E2 & HR)|[msg E2]]; [left|right].
    + exists b, s2. split; [|done]. by kstep E.
    + exists msg. by kstep E.
  - right. exists msg. unfold kbind. by rewrite E.
Qed.

Lemma ends_impl {S A} (c : K S A) s tr (Q R : A -> S -> Prop) : ends c s tr Q -> (forall a s', Q a s' -> R a s') -> ends c s tr R.
Proof. intros [H|H] HI; [left; by apply (runs_impl _ _ _ Q)|by right]. Qed.

Lemma ends_runs {S A} (c : K S A) s tr Q : runs c s tr Q -> ends c s tr Q.
Proof. by left. Qed.

Lemma ends_ret {S A} (a : A) (s : S) tr (Q : A -> S -> Prop) : Q a s -> ends (kret a) s tr Q.
Proof. intros H. left. by apply runs_ret. Qed.

Lemma ends_panic {S A} msg (s : S) tr (Q : A -> S -> Prop) : ends (panic msg) s tr Q.
Proof. right. by exists msg. Qed.

Lemma ends_bind2 {S A B C} (c : K S A) (k : A -> K S B) (h : B -> K S C) s tr Q R :
  ends (kbind c k) s tr Q -> (forall b s', Q b s' -> ends (h b) s' tr R) -> ends (kbind c (fun a => kbind (k a) h)) s tr R.
Proof. intros H1 H2. pose proof (ends_bind _ h s tr Q R H1 H2) as H. unfold ends, runs in *. by setoid_rewrite kbind_assoc in H. Qed.

(** [estep H as p]: the next action, which returns by [H]. *)
Tactic Notation "estep" open_constr(H) "as" simple_intropattern(p) :=
  eapply ends_bind; [eapply ends_runs, H|intros ? ? p; cbv beta].

Definition tok_ok (t : token) : Prop := match t with Sym c => c ∈ symbols | _ => True end.

Lemma lexes_ok l ts : lexes l ts -> Forall tok_ok ts.
Proof. induction 1; try done; apply Forall_cons; (split; [|done]); cbn; [chars; lia|chars; lia|done|done]. Qed.

Section Reject.
Context (m : Z -> Z) (lo es : Z).

Lemma parsing_ok ts s : parsing m lo es ts s -> Forall tok_ok ts.
Proof. intros (_ & _ & l & _ & _ & H). by apply (lexes_ok l). Qed.

(** The next token, which may be the end of the line. *)
Lemma any_token ts s tr : parsing m lo es ts s -> runs (gettoken es) s tr (fun r s' =>
  r.1.1 = tok_code ts /\ parsing m lo es (tail ts) s' /\ grows 0 s s' /\ forall w, head ts = Some (Word w) -> word_at m lo es r.1.2 r.2 w).
Proof.
  intros Hp. destruct (gettoken_run m lo es ts s tr Hp) as (x & q & eq & E & Hp' & Hw). eexists _, _. split; [exact E|].
  split; [done|]. split; [done|]. split; [by apply grows_same|done].
Qed.

(** Only a word has the code ['a']. *)
Lemma word_code ts : Forall tok_ok ts -> tok_code ts = 97 -> exists w, head ts = Some (Word w).
Proof. intros [|[w|c|] ts' H _]; cbn; try done; [by exists w|]. intros ->. cbn in H. chars. lia. Qed.

Lemma redirs_ends tr fuel : forall ts s p0, parsing m lo es ts s -> (length ts < fuel)%nat -> (length ts <= sh_room s)%nat ->
  ends (parseredirs fuel p0 es) s tr (fun _ s' => exists ts1 rs rest, ts = ts1 ++ rest /\ g_redirs ts1 rs /\ parsing m lo es rest s' /\
    grows (length rs) s s').
Proof.
  induction fuel as [|fuel IH]; intros ts s p0 Hp Hf Hr; [lia|]. cbn [parseredirs].
  estep (peek_runs m lo es [60; 62] ts) as (-> & Hp1 & G1); [chars_in|done|]. destruct (peeks [60; 62] ts) eqn:Ep.
  2: { apply ends_ret. exists [], [], ts. split; [done|]. split; [constructor|done]. }
  destruct ts as [|o ts]; [done|]. assert (Ho : exists mode fd, redir_op o mode fd).
  { destruct o as [w|c|]; cbn in Ep; [done| |eexists _, _; constructor]. assert (c = 60 \/ c = 62) as [-> | ->] by lia; eexists _, _; constructor. }
  destruct Ho as (mode & fd & Ho). cbn [length] in Hf, Hr.
  estep (token_runs m lo es o ts s' tr Hp1) as (E2 & Hp2 & G2 & _). destruct a as [[tok q0] eq0]. cbn in E2.
  estep (any_token ts _ tr Hp2) as (E3 & Hp3 & G3 & Hw). destruct a as [[t q] eq]. cbn in E3, Hw.
  destruct (Z.eqb_spec t 97) as [->|Hne]; cbn [negb]; [|apply ends_panic].
  destruct (word_code ts) as [w Hhd]; [by apply (parsing_ok ts s'0)|done|]. destruct ts as [|t ts]; [done|]. injection Hhd as ->. cbn [tail length] in *.
  assert (Hr3 : (sh_room s <= sh_room s'1)%nat) by (destruct G1, G2, G3; lia).
  eapply (ends_bind _ _ _ _ (fun p s' => parsing m lo es ts s' /\ grows 1 s'1 s')).
  { destruct Ho; cbn in E2; subst tok; cbn [Z.eqb Pos.eqb]; (eapply ends_runs, runs_impl; [apply (new_runs m lo es _ _ _ _ Hp3); lia|]; intros ? ? (? & ? & _); done). }
  intros p1 s4 (Hp4 & G4). pose proof G4 as [_ Hr4]. eapply ends_impl; [apply (IH ts s4 p1 Hp4); lia|].
  intros p s5 (ts1 & rs & rest & -> & G & Hp5 & G5). exists (o :: Word w :: ts1), ((w, mode, fd) :: rs), rest.
  split; [done|]. split; [by constructor|]. split; [done|]. cbn [length]. grown.
Qed.

Lemma g_words_redirs ts1 rs1 ts ws rs : g_redirs ts1 rs1 -> g_words ts ws rs -> g_words (ts1 ++ ts) ws (rs1 ++ rs).
Proof. induction 1; cbn [app]; [done|]. intros H'. constructor; [done|by apply IHg_redirs]. Qed.

Lemma words_ends tr e fuel : forall ts dn ret s, parsing m lo es ts s -> filling m lo es e dn s -> Z.of_nat (length dn) < MAXARGS ->
  (length ts < fuel)%nat -> (length ts <= sh_room s)%nat ->
  ends (let! ret := parseredirs fuel ret es in parseargs fuel e ret (length dn) es) s tr (fun _ s' => exists ts1 ws rs rest, ts = ts1 ++ rest /\
    g_words ts1 ws rs /\ Z.of_nat (length dn + length ws) < MAXARGS /\ parsing m lo es rest s' /\ grows_but e (length rs) s s').
Proof.
  induction fuel as [|fuel IH]; intros ts dn ret s Hp Fi Ha Hf Hr; [lia|].
  eapply ends_bind; [apply (redirs_ends tr (S fuel) ts s ret Hp Hf Hr)|]. intros ret1 s1 (ts1 & rs1 & rest & -> & G1 & Hp1 & Gr1).
  rewrite length_app in Hf, Hr. pose proof (g_redirs_length _ _ G1) as Hl. pose proof Gr1 as [K1 Hr1]. cbn [parseargs].
  assert (Fi1 := filling_grows m lo es e dn _ _ _ Gr1 Fi).
  estep (peek_runs m lo es [124; 41; 38; 59] rest) as (-> & Hp2 & Gr2); [chars_in|done|]. rename s' into s2.
  assert (Fi2 := filling_grows m lo es e dn _ _ _ Gr2 Fi1). pose proof Gr2 as [K2 Hr2].
  assert (Fin : forall s3, filling m lo es e dn s3 -> parsing m lo es rest s3 -> grows 0 s2 s3 ->
    ends (set_arg e (length dn) 0 0 ;; kret ret1) s3 tr (fun _ s' => exists ts2 ws rs rest', ts1 ++ rest = ts2 ++ rest' /\
      g_words ts2 ws rs /\ Z.of_nat (length dn + length ws) < MAXARGS /\ parsing m lo es rest' s' /\ grows_but e (length rs) s s')).
  { intros s3 Fi3 Hp3 [K3 Hr3]. estep (set_arg_runs m lo es e dn 0 0 rest s3 tr Fi3 Ha Hp3) as (Hp4 & [K4 Hr4] & _). apply ends_ret.
    exists ts1, [], rs1, rest. split; [done|]. split; [|split; [cbn; lia|]; split; [done|]; split; [|lia]].
    - replace rs1 with (rs1 ++ []) by apply app_nil_r. replace ts1 with (ts1 ++ []) by apply app_nil_r. apply g_words_redirs; [done|constructor].
    - intros p c Hne Hpc. by apply K4, K3, K2, K1. }
  destruct (peeks _ rest); [by apply Fin; [| |apply grows_same]|].
  estep (any_token rest s2 tr Hp2) as (E3 & Hp3 & Gr3 & Hw). destruct a as [[tok q] eq]. cbn in E3, Hw. rename s' into s3.
  assert (Fi3 := filling_grows m lo es e dn _ _ _ Gr3 Fi2). pose proof Gr3 as [K3 Hr3].
  destruct (Z.eqb_spec tok 0) as [->|Hn0].
  { assert (rest = []) as ->. { assert (Ok := parsing_ok _ _ Hp2). destruct Ok as [|[w|c|] rest' Ok _]; [done|done| |done]. cbn in E3, Ok. chars. lia. }
    by apply Fin. }
  destruct (Z.eqb_spec tok 97) as [->|]; cbn [negb]; [|apply ends_panic].
  destruct (word_code rest) as [w Hhd]; [by apply (parsing_ok rest s2)|done|]. destruct rest as [|t rest]; [done|]. injection Hhd as ->. cbn [tail length] in *.
  estep (set_arg_runs m lo es e dn q eq rest s3 tr Fi3 Ha Hp3) as (Hp4 & [K4 Hr4] & Fi4 & _). rename s' into s4.
  destruct (Z.leb_spec MAXARGS (Z.of_nat (S (length dn)))) as [|Hlt]; [apply ends_panic|].
  specialize (IH rest (dn ++ [w]) ret1 s4 Hp4 (Fi4 w (Hw w eq_refl))). rewrite length_app in IH. cbn [length] in IH.
  replace (length dn + 1)%nat with (S (length dn)) in IH by lia.
  eapply ends_impl; [apply IH; lia|]. intros p s5 (ts2 & ws & rs2 & rest' & -> & G2 & Ha' & Hp5 & [K5 Hr5]).
  exists (ts1 ++ Word w :: ts2), (w :: ws), (rs1 ++ rs2), rest'. split; [by rewrite <- app_assoc|].
  split; [apply g_words_redirs; [done|by constructor]|]. split; [cbn [length]; lia|]. split; [done|]. rewrite length_app.
  split; [|lia]. intros p' c Hne Hpc. by apply K5, K4, K3, K2, K1.
Qed.

(** Looking for one symbol. *)
Lemma peeks_one c ts : c <> 62 -> peeks [c] ts = true -> exists ts', ts = Sym c :: ts'.
Proof. intros Hc. destruct ts as [|[w|c'|] ts]; cbn [peeks occurs existsb]; try done; [|intros H; exfalso; lia]. intros H. replace c' with c by lia. by exists ts. Qed.

Lemma back_ends tr fuel : forall ts s p, parsing m lo es ts s -> (length ts < fuel)%nat -> (length ts <= sh_room s)%nat ->
  ends (parseback fuel p es) s tr (fun _ s' => exists bs rest, ts = bs ++ rest /\ Forall (eq (Sym 38)) bs /\ parsing m lo es rest s' /\ grows (length bs) s s').
Proof.
  induction fuel as [|fuel IH]; intros ts s p Hp Hf Hr; [lia|]. cbn [parseback].
  estep (peek_runs m lo es [38] ts) as (-> & Hp1 & G1); [chars_in|done|]. destruct (peeks [38] ts) eqn:Ep.
  2: { apply ends_ret. by exists [], ts. }
  destruct (peeks_one 38 ts) as [ts' ->]; [done|done|]. cbn [length] in *.
  estep (token_runs m lo es _ _ _ tr Hp1) as (_ & Hp2 & G2 & _). assert (Hr2 : (sh_room s <= sh_room s'0)%nat) by (destruct G1, G2; lia).
  estep (new_runs m lo es (BACK p) _ _ tr Hp2) as (Hp3 & G3 & _); [lia|]. pose proof G3 as [_ Hr3].
  eapply ends_impl; [apply (IH ts' s'1 a0 Hp3); lia|]. intros ? s4 (bs & rest & -> & Hb & Hp4 & G4). exists (Sym 38 :: bs), rest.
  split; [done|]. split; [by constructor|]. split; [done|]. cbn [length]. grown.
Qed.

Definition parses (g : list token -> tree -> Prop) (ts : list token) (s s' : shstate) : Prop :=
  exists ts1 t rest, ts = ts1 ++ rest /\ g ts1 t /\ parsing m lo es rest s' /\ grows (2 * length ts1 + 1) s s'.

Definition bounded (parse : nat -> SK Z) (extra : nat) (g : list token -> tree -> Prop) (fuel : nat) : Prop := forall ts s tr,
  parsing m lo es ts s -> (4 * length ts + extra <= fuel)%nat -> (2 * length ts + 1 <= sh_room s)%nat ->
  ends (parse fuel) s tr (fun _ s' => parses g ts s s').

Lemma bounded_block fuel : bounded (fun f => parseline f es) 4 g_line fuel -> bounded (fun f => parseblock f es) 1 g_exec (S fuel).
Proof.
  intros IHl ts s tr Hp Hf Hr. cbn [parseblock].
  estep (peek_runs m lo es [40] ts) as (-> & Hp1 & G1); [chars_in|done|]. destruct (peeks [40] ts) eqn:Ep; cbn [negb]; [|apply ends_panic].
  destruct (peeks_one 40 ts) as [ts' ->]; [done|done|]. cbn [length] in *.
  estep (token_runs m lo es _ _ _ tr Hp1) as (_ & Hp2 & G2 & _). assert (Hr2 : (sh_room s <= sh_room s'0)%nat) by (destruct G1, G2; lia).
  eapply ends_bind; [apply (IHl ts' s'0 tr Hp2); lia|]. intros p s3 (ts1 & t & rest & -> & G & Hp3 & G3). rewrite length_app in *. pose proof G3 as [_ Hr3].
  estep (peek_runs m lo es [41] rest) as (-> & Hp4 & G4); [chars_in|done|]. destruct (peeks [41] rest) eqn:Ep'; cbn [negb]; [|apply ends_panic].
  destruct (peeks_one 41 rest) as [rest' ->]; [done|done|]. cbn [length] in *.
  estep (token_runs m lo es _ _ _ tr Hp4) as (_ & Hp5 & G5 & _). assert (Hr5 : (sh_room s3 <= sh_room s'2)%nat) by (destruct G4, G5; lia).
  eapply ends_impl; [apply (redirs_ends tr fuel rest' s'2 p Hp5); lia|]. intros ? s6 (ts2 & rs & rest2 & -> & Gr & Hp6 & G6).
  pose proof (g_redirs_length _ _ Gr) as Hl. exists (Sym 40 :: ts1 ++ Sym 41 :: ts2), (foldl wrap t rs), rest2.
  split; [cbn [app]; by rewrite <- !app_assoc|]. split; [by constructor|]. split; [done|]. cbn [length]. rewrite length_app. cbn [length]. grown.
Qed.

Lemma bounded_exec fuel : bounded (fun f => parseblock f es) 1 g_exec fuel -> bounded (fun f => parseexec f es) 2 g_exec (S fuel).
Proof.
  intros IHb ts s tr Hp Hf Hr. cbn [parseexec].
  estep (peek_runs m lo es [40] ts) as (-> & Hp1 & G1); [chars_in|done|]. pose proof G1 as [K1 Hr1]. destruct (peeks [40] ts) eqn:Ep.
  - eapply ends_impl; [apply (IHb ts s' tr Hp1); lia|]. intros ? s2 (ts1 & t & rest & -> & G & Hp2 & G2). exists ts1, t, rest.
    split; [done|]. split; [done|]. split; [done|]. grown.
  - estep (new_runs m lo es _ _ _ tr Hp1) as (Hp2 & G2 & N & N0); [lia|]. rename a into e, s'0 into s2. pose proof G2 as [K2 Hr2].
    assert (Fi : filling m lo es e [] s2) by (eexists _, _; split; [exact N|]; split; [done|]; split; [done|]; by intros i w Hi).
    eapply ends_impl; [apply (words_ends tr e fuel ts [] e s2 Hp2 Fi); [done|lia|lia]|].
    intros ? s3 (ts1 & ws & rs & rest & -> & G & Ha & Hp3 & [K3 Hr3]). pose proof (g_words_length _ _ _ G) as Hl.
    exists ts1, (foldl wrap (TExec ws) rs), rest. split; [done|]. split; [by constructor|]. split; [done|]. split; [|lia].
    intros p c Hpc. apply K3; [intros ->; apply K1 in Hpc; congruence|]. by apply K2, K1.
Qed.

Lemma bounded_pipe fuel : bounded (fun f => parseexec f es) 2 g_exec fuel -> bounded (fun f => parsepipe f es) 3 g_pipe fuel ->
  bounded (fun f => parsepipe f es) 3 g_pipe (S fuel).
Proof.
  intros IHe IHp ts s tr Hp Hf Hr. cbn [parsepipe].
  eapply ends_bind; [apply (IHe ts s tr Hp); lia|]. intros p s1 (ts1 & t & rest & -> & G & Hp1 & G1). rewrite length_app in *. pose proof G1 as [_ Hr1].
  estep (peek_runs m lo es [124] rest) as (-> & Hp2 & G2); [chars_in|done|]. destruct (peeks [124] rest) eqn:Ep.
  - destruct (peeks_one 124 rest) as [rest' ->]; [done|done|]. cbn [length] in *.
    estep (token_runs m lo es _ _ _ tr Hp2) as (_ & Hp3 & G3 & _). assert (Hr3 : (sh_room s1 <= sh_room s'0)%nat) by (destruct G2, G3; lia).
    eapply ends_bind; [apply (IHp rest' s'0 tr Hp3); lia|]. intros p2 s4 (ts2 & t2 & rest2 & -> & Gp & Hp4 & G4). rewrite length_app in *. pose proof G4 as [_ Hr4].
    eapply ends_impl; [eapply ends_runs, (new_runs m lo es (PIPE p p2) _ _ tr Hp4); lia|]. intros ? s5 (Hp5 & G5 & _).
    exists (ts1 ++ Sym 124 :: ts2), (TPipe t t2), rest2. split; [by rewrite <- app_assoc|]. split; [by constructor|]. split; [done|].
    rewrite length_app. cbn [length]. grown.
  - apply ends_ret. exists ts1, t, rest. split; [done|]. split; [by constructor|]. split; [done|]. grown.
Qed.

Lemma bounded_line fuel : bounded (fun f => parsepipe f es) 3 g_pipe fuel -> bounded (fun f => parseline f es) 4 g_line fuel ->
  bounded (fun f => parseline f es) 4 g_line (S fuel).
Proof.
  intros IHp IHl ts s tr Hp Hf Hr. cbn [parseline].
  eapply ends_bind; [apply (IHp ts s tr Hp); lia|]. intros p s1 (ts1 & t & rest & -> & G & Hp1 & G1). rewrite length_app in *. pose proof G1 as [_ Hr1].
  eapply ends_bind; [apply (back_ends tr fuel rest s1 p Hp1); lia|]. intros pb s2 (bs & rest1 & -> & Hb & Hp2 & G2). rewrite length_app in *. pose proof G2 as [_ Hr2].
  estep (peek_runs m lo es [59] rest1) as (-> & Hp3 & G3); [chars_in|done|]. destruct (peeks [59] rest1) eqn:Ep.
  - destruct (peeks_one 59 rest1) as [rest' ->]; [done|done|]. cbn [length] in *.
    estep (token_runs m lo es _ _ _ tr Hp3) as (_ & Hp4 & G4 & _). assert (Hr4 : (sh_room s2 <= sh_room s'0)%nat) by (destruct G3, G4; lia).
    eapply ends_bind; [apply (IHl rest' s'0 tr Hp4); lia|]. intros p2 s5 (ts2 & t2 & rest2 & -> & Gp & Hp5 & G5). rewrite length_app in *. pose proof G5 as [_ Hr5].
    eapply ends_impl; [eapply ends_runs, (new_runs m lo es (LIST pb p2) _ _ tr Hp5); lia|]. intros ? s6 (Hp6 & G6 & _).
    exists (ts1 ++ bs ++ Sym 59 :: ts2), (TList (Nat.iter (length bs) TBack t) t2), rest2. split; [by rewrite <- !app_assoc|]. split; [by constructor|]. split; [done|].
    rewrite !length_app. cbn [length]. grown.
  - apply ends_ret. exists (ts1 ++ bs), (Nat.iter (length bs) TBack t), rest1. split; [by rewrite <- app_assoc|]. split; [by constructor|]. split; [done|].
    rewrite length_app. grown.
Qed.

Lemma parser_ends fuel : bounded (fun f => parseline f es) 4 g_line fuel /\ bounded (fun f => parsepipe f es) 3 g_pipe fuel /\
  bounded (fun f => parseexec f es) 2 g_exec fuel /\ bounded (fun f => parseblock f es) 1 g_exec fuel.
Proof.
  induction fuel as [|fuel (IHl & IHp & IHe & IHb)].
  - split; [|split; [|split]]; intros ts s tr _ Hf; lia.
  - split; [by apply bounded_line|]. split; [by apply bounded_pipe|]. split; [by apply bounded_exec|by apply bounded_block].
Qed.
End Reject.

(** ** Terminating the words *)
(** The tree with its words as C strings. *)
Fixpoint tree_str (nodes : list cmd) (m : Z -> Z) (p : Z) (t : tree) : Prop :=
  match t with
  | TExec ws => exists argv eargv, node_at nodes p = Some (EXEC argv eargv) /\ argv !! length ws = Some 0 /\
      forall i w, ws !! i = Some w -> exists q, argv !! i = Some q /\ q <> 0 /\ string_at m q w
  | TRedir c f mode fd => exists sub q eq, node_at nodes p = Some (REDIR sub q eq mode fd) /\ string_at m q f /\ tree_str nodes m sub c
  | TPipe l r => exists pl pr, node_at nodes p = Some (PIPE pl pr) /\ tree_str nodes m pl l /\ tree_str nodes m pr r
  | TList l r => exists pl pr, node_at nodes p = Some (LIST pl pr) /\ tree_str nodes m pl l /\ tree_str nodes m pr r
  | TBack c => exists sub, node_at nodes p = Some (BACK sub) /\ tree_str nodes m sub c
  end.

Fixpoint depth (t : tree) : nat :=
  match t with
  | TExec _ => 1
  | TRedir c _ _ _ | TBack c => S (depth c)
  | TPipe l r | TList l r => S (Nat.max (depth l) (depth r))
  end.

Section Terminate.
Context (m0 : Z -> Z) (lo es : Z) (Hlo : 0 < lo).

(** [m'] differs from [m] in zeros that end words. *)
Definition cleared (m m' : Z -> Z) : Prop := forall x, m' x = m x \/ m' x = 0 /\ ~ wordc (m0 x) /\ lo <= x <= es.

Lemma cleared_trans m1 m2 m3 : cleared m1 m2 -> cleared m2 m3 -> cleared m1 m3.
Proof. intros H1 H2 x. destruct (H1 x) as [E1|?], (H2 x) as [E2|?]; rewrite ?E2; auto. Qed.

(** A word of the original line whose end has been cleared. *)
Lemma word_string m q eq w : word_at m0 lo es q eq w -> (forall x, wordc (m0 x) -> m x = m0 x) -> m eq = 0 -> string_at m q w.
Proof.
  intros [W1 -> W3 W4 W5 W6] Hk He. rewrite Forall_lookup in W5. split; [|done|].
  - intros i c Hi. rewrite Hk; [by apply W4|]. rewrite (W4 i c Hi). by apply (W5 i).
  - apply Forall_lookup. intros i c Hi. by apply (W5 i).
Qed.

Lemma store8_zero m a x : store8 m a 0 x = if decide (x = a) then 0 else m x.
Proof. unfold store8. destruct (Z.eqb_spec x a), (decide (x = a)); done. Qed.

Lemma cleared_store m q eq w : word_at m0 lo es q eq w -> cleared m (store8 m eq 0) /\ store8 m eq 0 eq = 0.
Proof.
  intros [W1 W2 W3 W4 W5 W6]. split; [|by rewrite store8_zero, decide_True]. intros x. rewrite store8_zero. destruct (decide (x = eq)) as [->|Hne]; [right|by left].
  split; [done|]. split; [done|lia].
Qed.

(** What [nulterminate] guarantees of a command: its words end in a zero. *)
Definition done_tree (nodes : list cmd) (m : Z -> Z) (p : Z) (t : tree) : Prop :=
  forall m', (forall x, wordc (m0 x) -> m' x = m0 x) -> (forall x, m x = 0 -> m' x = 0) -> tree_str nodes m' p t.

Definition only_mem (s s' : shstate) : Prop := sh_nodes s' = sh_nodes s /\ cleared (sh_mem s) (sh_mem s').

Lemma cleared_zero m m' x : cleared m m' -> m x = 0 -> m' x = 0.
Proof. intros H Hx. by destruct (H x) as [->|[? _]]. Qed.

Lemma term_args_runs ws : forall argv eargv s tr, args_at m0 lo es argv eargv ws -> argv !! length ws = Some 0 -> length eargv = length argv ->
  runs (term_args argv eargv) s tr (fun _ s' => only_mem s s' /\
    forall i w, ws !! i = Some w -> exists q eq, argv !! i = Some q /\ word_at m0 lo es q eq w /\ sh_mem s' eq = 0).
Proof.
  induction ws as [|w ws IH]; intros argv eargv s tr A Z0 L; (destruct argv as [|q argv]; [done|]; destruct eargv as [|eq eargv]; [done|]); cbn [term_args].
  - injection Z0 as ->. apply runs_ret. split; [|done]. split; [done|by left].
  - destruct (A 0%nat w eq_refl) as (q' & eq' & [= <-] & [= <-] & W). rewrite (proj2 (Z.eqb_neq q 0)) by (destruct W; lia).
    destruct (cleared_store (sh_mem s) q eq w W) as [C Ez]. rstep runs_modify as ->. set (s1 := s <| sh_mem := _ |>).
    rlast (IH argv eargv s1 tr) as ([N1 C1] & H); [intros i w' Hi; apply (A (S i) w' Hi)|done|by injection L|]. split.
    + split; [done|]. by apply (cleared_trans _ (sh_mem s1)).
    + intros [|i] w' Hi; [injection Hi as <-|by apply (H i)]. exists q, eq. split; [done|]. split; [done|]. by apply (cleared_zero _ _ _ C1).
Qed.

Lemma only_mem_trans s1 s2 s3 : only_mem s1 s2 -> only_mem s2 s3 -> only_mem s1 s3.
Proof. intros [N1 C1] [N2 C2]. split; [congruence|by apply (cleared_trans _ (sh_mem s2))]. Qed.

Lemma done_tree_later nodes m m' p t : cleared m m' -> done_tree nodes m p t -> done_tree nodes m' p t.
Proof. intros C H m2 Hk Hz. apply H; [done|]. intros x Hx. by apply Hz, (cleared_zero m m'). Qed.

Lemma tree_at_pos nodes p t : tree_at m0 lo es nodes p t -> p <> 0.
Proof. destruct t; cbn; intros T; decompose [ex and] T; match goal with H : node_at _ _ = _ |- _ => apply node_at_pos in H end; lia. Qed.

Definition nul_ok (t : tree) : Prop := forall p fuel s tr, tree_at m0 lo es (sh_nodes s) p t -> (depth t <= fuel)%nat ->
  runs (nulterminate fuel p) s tr (fun _ s' => only_mem s s' /\ done_tree (sh_nodes s) (sh_mem s') p t).

Lemma nul_two l r pl pr fuel s tr : nul_ok l -> nul_ok r ->
  tree_at m0 lo es (sh_nodes s) pl l -> tree_at m0 lo es (sh_nodes s) pr r -> (depth l <= fuel)%nat -> (depth r <= fuel)%nat ->
  runs (nulterminate fuel pl ;; nulterminate fuel pr ;; kret tt) s tr (fun _ s' => only_mem s s' /\
    done_tree (sh_nodes s) (sh_mem s') pl l /\ done_tree (sh_nodes s) (sh_mem s') pr r).
Proof.
  intros Hl Hr Tl Tr Fl Fr. rstep (Hl pl fuel s tr Tl Fl) as (O1 & D1). pose proof O1 as [N1 C1].
  rstep (Hr pr fuel s' tr) as (O2 & D2); [by rewrite N1|done|]. rlast runs_kret as [_ ->]. rewrite N1 in D2. pose proof O2 as [_ C2].
  split; [by apply (only_mem_trans _ s')|]. split; [by apply (done_tree_later _ (sh_mem s'))|done].
Qed.

Lemma nulterminate_runs t : nul_ok t.
Proof.
  induction t as [ws|c IH f mode fd|l IHl r IHr|l IHl r IHr|c IH]; intros p [|fuel] s tr T Hf; cbn [depth] in Hf; try lia; cbn [nulterminate].
  all: assert (Hne : (p =? 0) = false) by (by apply Z.eqb_neq, (tree_at_pos (sh_nodes s) p _ T)).
  all: rewrite Hne; rstep (runs_det kget s tr s s eq_refl) as [-> ->].
  - destruct T as (argv & eargv & N & L & A & Z0). rstep (runs_det _ s tr (EXEC argv eargv) s) as [-> ->]; [by rewrite N|].
    rstep (term_args_runs ws argv eargv s tr A Z0 L) as (O & H). rlast runs_kret as [_ ->]. split; [done|].
    intros m' Hk Hz. exists argv, eargv. split; [done|]. split; [done|]. intros i w Hi. destruct (H i w Hi) as (q & eq & Hq & W & E).
    exists q. split; [done|]. split; [destruct W; lia|]. by apply (word_string m' q eq w W Hk), Hz.
  - destruct T as (sub & q & eq & N & W & T). rstep (runs_det _ s tr (REDIR sub q eq mode fd) s) as [-> ->]; [by rewrite N|].
    rstep (IH sub fuel s tr T) as (O1 & D1); [lia|]. rstep runs_modify as ->. rlast runs_kret as [_ ->]. set (s2 := s' <| sh_mem := _ |>).
    destruct (cleared_store (sh_mem s') q eq f W) as [C Ez]. split; [apply (only_mem_trans _ s'); [done|by split]|].
    intros m' Hk Hz. exists sub, q, eq. split; [done|]. split; [apply (word_string m' q eq f W Hk), Hz, Ez|].
    apply (done_tree_later _ (sh_mem s') (sh_mem s2)) in D1; [|done]. by apply D1.
  - destruct T as (pl & pr & N & Tl & Tr). rstep (runs_det _ s tr (PIPE pl pr) s) as [-> ->]; [by rewrite N|]. rassoc.
    eapply runs_bind2; [apply (nul_two l r pl pr fuel s tr IHl IHr Tl Tr); lia|]. intros ? s' (O & Dl & Dr). rlast runs_kret as [_ ->].
    split; [done|]. intros m' Hk Hz. exists pl, pr. split; [done|]. split; [by apply Dl|by apply Dr].
  - destruct T as (pl & pr & N & Tl & Tr). rstep (runs_det _ s tr (LIST pl pr) s) as [-> ->]; [by rewrite N|]. rassoc.
    eapply runs_bind2; [apply (nul_two l r pl pr fuel s tr IHl IHr Tl Tr); lia|]. intros ? s' (O & Dl & Dr). rlast runs_kret as [_ ->].
    split; [done|]. intros m' Hk Hz. exists pl, pr. split; [done|]. split; [by apply Dl|by apply Dr].
  - destruct T as (sub & N & T). rstep (runs_det _ s tr (BACK sub) s) as [-> ->]; [by rewrite N|].
    rstep (IH sub fuel s tr T) as (O & D); [lia|]. rstep runs_kret as [_ ->]. rlast runs_kret as [_ ->]. split; [done|].
    intros m' Hk Hz. exists sub. split; [done|by apply D].
Qed.
End Terminate.

(** ** The whole line *)
Lemma lexes_length l ts : lexes l ts -> (length ts <= length l)%nat.
Proof. induction 1 as [| | | | |w l ts Hne]; cbn; try lia. rewrite length_app. destruct w; [done|]. cbn. lia. Qed.

#[local] Instance wordc_dec c : Decision (wordc c).
Proof. unfold wordc. apply _. Defined.

Lemma word_prefix l : exists w r, l = w ++ r /\ Forall wordc w /\ forall c, head r = Some c -> ~ wordc c.
Proof.
  induction l as [|c l (w & r & -> & Hw & Hr)]; [by exists [], []|]. destruct (decide (wordc c)) as [Hc|Hc].
  - exists (c :: w), r. split; [done|]. split; [by constructor|done].
  - exists [], (c :: w ++ r). split; [done|]. split; [constructor|]. intros c'. cbn. by intros [= <-].
Qed.

(** Every line without NUL bytes is a sequence of tokens. *)
Lemma lexes_total l : Forall (fun c => c <> 0) l -> exists ts, lexes l ts.
Proof.
  remember (length l) as n eqn:En. revert l En. induction n as [n IH0] using lt_wf_ind. intros l -> Hl.
  assert (IH : forall l', (length l' < length l)%nat -> Forall (fun c => c <> 0) l' -> exists ts, lexes l' ts) by (intros l' Hlt; by apply (IH0 (length l'))). clear IH0. destruct l as [|c l]; [exists []; constructor|].
  pose proof Hl as [Hc Hl']%Forall_cons. destruct (IH l) as [ts Hts]; [cbn; lia|done|].
  destruct (occurs whitespace c) eqn:Ew; [exists ts; by constructor|].
  destruct (occurs [124; 40; 41; 59; 38; 60] c) eqn:Es; [exists (Sym c :: ts); by constructor|].
  destruct (decide (c = 62)) as [->|Hne].
  - destruct l as [|c l]; [exists (Sym 62 :: ts); by constructor|]. destruct (decide (c = 62)) as [->|Hc62].
    + apply Forall_cons in Hl' as [_ Hl']. destruct (IH l) as [ts' Hts']; [cbn; lia|done|]. exists (Append :: ts'). by constructor.
    + exists (Sym 62 :: ts). apply lex_great; [|done]. cbn. by intros [= ->].
  - assert (Hw : wordc c) by (split; [done|]; split; [done|]; chars; lia).
    destruct (word_prefix l) as (w & r & -> & Hwc & Hr). cbn [length] in *. rewrite length_app in *.
    destruct (IH r) as [ts' Hts']; [lia|by apply Forall_app in Hl' as [_ ?]|]. exists (Word (c :: w) :: ts').
    change (c :: w ++ r) with ((c :: w) ++ r). constructor; [done|by constructor|done|done].
Qed.

Lemma depth_wrap rs : forall c, depth (foldl wrap c rs) = (depth c + length rs)%nat.
Proof. induction rs as [|r rs IH]; intros c; cbn; [lia|]. rewrite IH. cbn. lia. Qed.

Lemma depth_back n c : depth (Nat.iter n TBack c) = (depth c + n)%nat.
Proof. induction n as [|n IH]; [cbn; lia|]. rewrite Nat.iter_succ. cbn [depth]. rewrite IH. lia. Qed.

Lemma depth_bound : (forall ts t, g_line ts t -> (depth t <= length ts + 1)%nat) /\ (forall ts t, g_pipe ts t -> (depth t <= length ts + 1)%nat) /\
  (forall ts t, g_exec ts t -> (depth t <= length ts + 1)%nat).
Proof.
  apply g_mut.
  - intros ts bs c _ H Hb. rewrite depth_back, length_app. lia.
  - intros ts bs c ts' c' _ H Hb _ H'. cbn [depth]. rewrite depth_back, !length_app. cbn [length]. lia.
  - done.
  - intros ts c ts' c' _ H _ H'. cbn [depth]. rewrite length_app. cbn [length]. lia.
  - intros ts ws rs G _. rewrite depth_wrap. pose proof (g_words_length _ _ _ G). cbn [depth]. lia.
  - intros ts c ts' rs _ H G. rewrite depth_wrap. pose proof (g_redirs_length _ _ G). cbn [length]. rewrite length_app. cbn [length]. lia.
Qed.

Lemma lexes_nil ts : lexes [] ts -> ts = [].
Proof. intros H. remember [] as l eqn:E. destruct H as [| | | | |w l' ts Hne]; try done. by destruct w. Qed.

(** The end of the line has been reached exactly when no token is left. *)
Lemma parsing_end m lo es ts s : parsing m lo es ts s ->
  let q := skip_white (Z.to_nat (es - sh_ps s)) m (sh_ps s) in q = es <-> ts = [].
Proof.
  intros Hp. destruct (at_token m lo es ts s Hp) as (l & H1 & H2 & H3 & H4 & H5). cbv zeta. set (q := skip_white _ _ _) in *. split.
  - intros Eq. assert (l = []) as -> by (destruct l; [done|cbn in H2; lia]). by apply lexes_nil.
  - intros ->. destruct l as [|c l]; [cbn in H2; lia|]. specialize (H5 c eq_refl). inversion H3; congruence.
Qed.

(** The end of [parsecmd]. *)
Definition finish (fuel : nat) (es cmd : Z) : SK Z :=
  peek es [] ;; let! ps := Prelude.gets sh_ps in if negb (ps =? es) then panic "syntax" else nulterminate fuel cmd ;; kret cmd.

Lemma peek_none m lo es ts s tr : parsing m lo es ts s -> exists q, peek es [] s tr = Done false (s <| sh_ps := q |>) tr /\ (q = es <-> ts = []).
Proof.
  intros Hp. eexists. split; [|by apply (parsing_end m lo es ts s Hp)]. unfold peek. kstep (eq_refl : kget s tr = Done s s tr).
  destruct Hp as [-> _]. kstep modify_run. by rewrite andb_false_r.
Qed.

Lemma finish_rejects m lo es ts s tr fuel cmd : parsing m lo es ts s -> ts <> [] -> finish fuel es cmd s tr = Panicked "syntax".
Proof.
  intros Hp Hne. destruct (peek_none m lo es ts s tr Hp) as (q & E & Hq). unfold finish. kstep E. kstep gets_run.
  cbn [sh_ps upd_field]. by rewrite (proj2 (Z.eqb_neq q es)) by tauto.
Qed.

Lemma finish_accepts m lo es s tr fuel cmd t : 0 < lo -> m es = 0 -> parsing m lo es [] s -> tree_at m lo es (sh_nodes s) cmd t -> (depth t <= fuel)%nat ->
  runs (finish fuel es cmd) s tr (fun p s' => tree_str (sh_nodes s') (sh_mem s') p t /\ forall x, x < lo \/ es <= x -> sh_mem s' x = m x).
Proof.
  intros Hlo Hz Hp T Hf. destruct (peek_none m lo es [] s tr Hp) as (q & E & [_ Hq]). specialize (Hq eq_refl). subst q.
  unfold finish. rstep (runs_det _ _ _ _ _ E) as [-> ->]. rstep runs_gets as [-> ->]. cbn [sh_ps upd_field]. rewrite Z.eqb_refl. cbn [negb].
  set (s1 := s <| sh_ps := es |>). destruct Hp as (Em & _). change (sh_mem s) with (sh_mem s1) in Em. change (sh_nodes s) with (sh_nodes s1) in T.
  rstep (nulterminate_runs m lo es Hlo t cmd fuel s1 tr T Hf) as ([N C] & D). rlast runs_kret as [-> ->]. rewrite N. rewrite Em in C. split.
  - apply D; [|done]. intros x Hx. destruct (C x) as [?|(_ & ? & _)]; [done|by exfalso].
  - intros x Hx. destruct (C x) as [?|(E0 & _ & Hr)]; [done|]. replace x with es by lia. replace x with es in E0 by lia. by rewrite E0, Hz.
Qed.

Lemma parsecmd_lexed a text ts s tr fuel : string_at (sh_mem s) a text -> 0 < a -> lexes text ts ->
  (4 * length text + 4 <= fuel)%nat -> (2 * length text + 1 <= sh_room s)%nat ->
  (exists t p s', g_line ts t /\ parsecmd fuel a s tr = Done p s' tr /\ tree_str (sh_nodes s') (sh_mem s') p t /\
      (forall x, x < a \/ a + Z.of_nat (length text) <= x -> sh_mem s' x = sh_mem s x) /\ forall t', g_line ts t' -> tree_str (sh_nodes s') (sh_mem s') p t') \/
  ((forall t, ~ g_line ts t) /\ exists msg, parsecmd fuel a s tr = Panicked msg).
Proof.
  intros Hs Ha Hts Hf Hr.
  pose proof (lexes_length _ _ Hts) as Hlen. set (es := a + Z.of_nat (length text)). set (m := sh_mem s) in *. set (s0 := s <| sh_ps := a |>).
  assert (Hp : parsing m a es ts s0) by (split; [done|]; split; [cbn; lia|]; by exists text).
  assert (E : parsecmd fuel a s tr = (let! cmd := parseline fuel es in finish fuel es cmd) s0 tr).
  { unfold parsecmd. kstep gets_run. assert (EL : ustrlen fuel m a = Some (Z.of_nat (length text))).
    { unfold ustrlen. rewrite (ustrlen_run m text fuel a 0); [done|by rewrite Z.add_0_r|lia]. }
    kexact (pure_run _ _ s tr EL). kstep modify_run. done. }
  rewrite E. clear E. destruct (grammar_accepted m a es) as (A & _). destruct (parser_ends m a es fuel) as [B _].
  assert (Acc : forall t, g_line ts t -> exists p s1, parseline fuel es s0 tr = Done p s1 tr /\ parsing m a es [] s1 /\ tree_at m a es (sh_nodes s1) p t).
  { intros t G. rewrite <- (app_nil_r ts) in Hp. destruct (A ts t G [] fuel s0 tr Hp) as (p & s1 & E1 & Hp1 & T & _); [done|lia|cbn; lia|]. by exists p, s1. }
  destruct (B ts s0 tr Hp) as [(p & s1 & E1 & ts1 & t & rest & Ets & G & Hp1 & _)|[msg E1]]; [lia|cbn; lia| |].
  - assert (E0 : (let! cmd := parseline fuel es in finish fuel es cmd) s0 tr = finish fuel es p s1 tr) by (by kstep E1). rewrite E0. destruct rest as [|tk rest].
    + left. rewrite app_nil_r in Ets. subst ts1. destruct (Acc t G) as (p' & s1' & E1' & Hp1' & T). rewrite E1 in E1'. injection E1' as <- <-.
      pose proof (proj1 depth_bound _ _ G) as Hd. assert (Hz : m es = 0) by apply (sa_end _ _ _ Hs).
      destruct (finish_accepts m a es s1 tr fuel p t Ha Hz Hp1 T) as (p' & s' & E2 & H1 & H2); [lia|]. exists t, p', s'.
      split; [done|]. split; [done|]. split; [done|]. split; [done|]. intros t' G'. destruct (Acc t' G') as (p2 & s2 & E3 & _ & T'). rewrite E1 in E3. injection E3 as <- <-.
      pose proof (proj1 depth_bound _ _ G'). destruct (finish_accepts m a es s1 tr fuel p t' Ha Hz Hp1 T') as (p2 & s2 & E4 & H3 & _); [lia|].
      rewrite E2 in E4. by injection E4 as <- <-.
    + right. split; [|exists "syntax"; by apply (finish_rejects m a es (tk :: rest))]. intros t' G'.
      destruct (Acc t' G') as (p' & s1' & E1' & Hp1' & _). rewrite E1 in E1'. injection E1' as <- <-.
      apply parsing_end in Hp1, Hp1'. cbv zeta in *. destruct Hp1' as [_ Hp1']. apply Hp1 in Hp1'; done.
  - right. split; [|exists msg; unfold kbind; by rewrite E1]. intros t' G'. destruct (Acc t' G') as (p' & s1' & E1' & _). congruence.
Qed.

(** C30. The parser of the shell on a line [text] ends within the given fuel and memory
    for the nodes.  The line is a sequence of tokens; if these form a command of the
    grammar, the result is the tree of that command, with its words as C strings in
    the buffer of the line, whose surroundings are unchanged; if not, and only then,
    the shell reports a syntax error. *)
Theorem parsecmd_spec a text s tr fuel : string_at (sh_mem s) a text -> 0 < a ->
  (4 * length text + 4 <= fuel)%nat -> (2 * length text + 1 <= sh_room s)%nat ->
  exists ts, lexes text ts /\
    ((exists t p s', g_line ts t /\ parsecmd fuel a s tr = Done p s' tr /\ tree_str (sh_nodes s') (sh_mem s') p t /\
        forall x, x < a \/ a + Z.of_nat (length text) <= x -> sh_mem s' x = sh_mem s x) \/
     ((forall t, ~ g_line ts t) /\ exists msg, parsecmd fuel a s tr = Panicked msg)).
Proof.
  intros Hs Ha Hf Hr. destruct (lexes_total text) as [ts Hts]; [apply (sa_nul _ _ _ Hs)|]. exists ts. split; [done|].
  destruct (parsecmd_lexed a text ts s tr fuel Hs Ha Hts Hf Hr) as [(t & p & s' & G & E & T & Fr & _)|H]; [left; by exists t, p, s'|by right].
Qed.

(** The line [a <f|b&]. *)
Definition demo_line : list Z := [97; 32; 60; 102; 124; 98; 38].
Definition demo_shell : shstate := mkshstate (write_bytes (fun _ => 0) 100 demo_line) 0 [] 20.

Lemma parsecmd_spec_witness : exists ts, lexes demo_line ts /\ parsecmd 40 100 demo_shell [] <> Blocked.
Proof.
  destruct (parsecmd_spec 100 demo_line demo_shell [] 40) as (ts & L & H).
  - apply string_write; [|reflexivity]. repeat constructor; lia.
  - lia.
  - cbn. lia.
  - cbn. lia.
  - exists ts. split; [exact L|]. destruct H as [(t & p & s' & _ & E & _)|[_ [msg E]]]; rewrite E; discriminate.
Defined.
