(* ===== verification/UShRun.v ===== *)
(** * Running a command line (user/sh.c, [runcmd])

    [runcmd] only makes system calls and forks, so it is the tree of its system
    calls, [prog], with a continuation for each result.  [execute] is what the calls
    do to the descriptors of the processes, and collects the programs that are
    started, each with its arguments and descriptors.  The theorem compares them with
    the meaning of the command: what each redirection and each pipe connects. *)

From stdpp Require Import prelude list strings.
From Stdlib Require Import ZArith Lia ZifyBool.
From S2P Require Import Prelude State CString Syscall ULib USh UShParse.
Local Open Scope Z_scope.

(** ** The code *)
(** The system calls of a process, each followed by the rest of the program. *)
Inductive prog :=
| Exit (status : Z)
| Exec (path : Z) (argv : list Z) (failed : prog)
| Open (file mode : Z) (k : Z -> prog)
| Close (fd : Z) (k : prog)
| Dup (fd : Z) (k : prog)
| Pipe (k : option (Z * Z) -> prog)
| Fork (k : Z -> prog)
| Wait (k : prog)
| Message (msg : string) (k : prog)
| Fault
| Endless.

Definition sh_panic (msg : string) : prog := Message msg (Exit 1).

Definition fork1 (k : Z -> prog) : prog := Fork (fun pid => if pid =? -1 then sh_panic "fork" else k pid).

Fixpoint runcmd (fuel : nat) (nodes : list cmd) (cmd : Z) : prog :=
  match fuel with
  | O => Endless
  | S fuel' =>
      if cmd =? 0 then Exit 1 else
      match node_at nodes cmd with
      | None => Fault
      | Some (EXEC argv _) =>
          match argv with
          | [] => Fault
          | path :: _ => if path =? 0 then Exit 1 else Exec path argv (Message "exec failed" (Exit 0))
          end
      | Some (REDIR sub file _ mode fd) =>
          Close fd (Open file mode (fun r => if r <? 0 then Message "open failed" (Exit 1) else runcmd fuel' nodes sub))
      | Some (LIST l r) =>
          fork1 (fun pid => if pid =? 0 then runcmd fuel' nodes l else Wait (runcmd fuel' nodes r))
      | Some (PIPE l r) =>
          Pipe (fun o => match o with
          | None => sh_panic "pipe"
          | Some (p0, p1) =>
              fork1 (fun pid => if pid =? 0 then Close 1 (Dup p1 (Close p0 (Close p1 (runcmd fuel' nodes l)))) else
              fork1 (fun pid => if pid =? 0 then Close 0 (Dup p0 (Close p0 (Close p1 (runcmd fuel' nodes r)))) else
              Close p0 (Close p1 (Wait (Wait (Exit 0))))))
          end)
      | Some (BACK sub) => fork1 (fun pid => if pid =? 0 then runcmd fuel' nodes sub else Exit 0)
      end
  end.

(** ** What the system calls do *)
(** What a descriptor stands for: a file, an end of the [n]th pipe, or something that
    was open when the shell started the command. *)
Inductive desc :=
| Opened (file : list Z) (mode : Z)
| ReadEnd (n : nat)
| WriteEnd (n : nat)
| Inherited (n : nat).

(** The lowest free descriptor. *)
Fixpoint lowest (F : list (option desc)) : option nat :=
  match F with
  | [] => None
  | None :: _ => Some O
  | Some _ :: F' => S <$> lowest F'
  end.

Definition set_fd (fd : Z) (d : option desc) (F : list (option desc)) : list (option desc) := <[Z.to_nat fd := d]> F.

(** The C string at [q], of less than [lim] bytes. *)
Fixpoint cstring (lim : nat) (m : Z -> Z) (q : Z) : list Z :=
  match lim with
  | O => []
  | S lim' => if m q =? 0 then [] else m q :: cstring lim' m (q + 1)
  end.
(** The strings of an argument vector. *)
Fixpoint strings (lim : nat) (m : Z -> Z) (argv : list Z) : list (list Z) :=
  match argv with
  | [] => []
  | q :: argv' => if q =? 0 then [] else cstring lim m q :: strings lim m argv'
  end.

Section Execute.
Context (lim : nat) (m : Z -> Z) (opens : list Z -> Z -> bool).

(** The programs started, with their descriptors, by a process and the processes it
    forks; [n] numbers the pipes.  [opens] says which files can be opened. *)
Fixpoint execute (c : prog) (F : list (option desc)) (n : nat) : list (list (list Z) * list (option desc)) * nat :=
  match c with
  | Exit _ | Fault | Endless => ([], n)
  | Exec path argv _ => ([(strings lim m argv, F)], n)
  | Open file mode k =>
      match lowest F with
      | Some fd =>
          if opens (cstring lim m file) mode
          then execute (k (Z.of_nat fd)) (set_fd (Z.of_nat fd) (Some (Opened (cstring lim m file) mode)) F) n
          else execute (k (-1)) F n
      | None => execute (k (-1)) F n
      end
  | Close fd k => execute k (set_fd fd None F) n
  | Dup fd k =>
      match lowest F with
      | Some i => execute k (set_fd (Z.of_nat i) (mjoin (F !! Z.to_nat fd)) F) n
      | None => execute k F n
      end
  | Pipe k =>
      match lowest F with
      | Some i =>
          let F1 := set_fd (Z.of_nat i) (Some (ReadEnd n)) F in
          match lowest F1 with
          | Some j => execute (k (Some (Z.of_nat i, Z.of_nat j))) (set_fd (Z.of_nat j) (Some (WriteEnd n)) F1) (S n)
          | None => execute (k None) F n
          end
      | None => execute (k None) F n
      end
  | Fork k =>
      let '(e1, n1) := execute (k 0) F n in
      let '(e2, n2) := execute (k 1) F n1 in (e1 ++ e2, n2)
  | Wait k => execute k F n
  | Message _ k => execute k F n
  end.

(** ** The meaning of a command *)
Fixpoint meaning (t : tree) (F : list (option desc)) (n : nat) : list (list (list Z) * list (option desc)) * nat :=
  match t with
  | TExec [] => ([], n)
  | TExec ws => ([(ws, F)], n)
  | TRedir c f mode fd => if opens f mode then meaning c (set_fd fd (Some (Opened f mode)) F) n else ([], n)
  | TPipe l r =>
      let '(e1, n1) := meaning l (set_fd 1 (Some (WriteEnd n)) F) (S n) in
      let '(e2, n2) := meaning r (set_fd 0 (Some (ReadEnd n)) F) n1 in (e1 ++ e2, n2)
  | TList l r =>
      let '(e1, n1) := meaning l F n in
      let '(e2, n2) := meaning r F n1 in (e1 ++ e2, n2)
  | TBack c => meaning c F n
  end.
End Execute.

(** ** Descriptors *)
Lemma lowest_spec F : forall i, lowest F = Some i <-> F !! i = Some None /\ forall k, (k < i)%nat -> exists d, F !! k = Some (Some d).
Proof.
  induction F as [|[d|] F IH]; intros i; cbn [lowest].
  - split; [done|]. by intros [? _].
  - rewrite fmap_Some. split.
    + intros (j & Hj%IH & ->). destruct Hj as [H1 H2]. split; [done|]. intros [|k] Hk; [by exists d|]. apply (H2 k). lia.
    + intros [H1 H2]. destruct i as [|i]; [done|]. exists i. split; [|done]. apply IH. split; [done|]. intros k Hk. apply (H2 (S k)). lia.
  - split; [intros [= <-]; split; [done|lia]|]. intros [H1 H2]. destruct i as [|i]; [done|]. destruct (H2 0%nat) as [d Hd]; [lia|]. done.
Qed.

Lemma lowest_some F i : F !! i = Some None -> exists k, lowest F = Some k.
Proof.
  revert i. induction F as [|[d|] F IH]; intros i Hi; cbn [lowest]; [done| |by exists 0%nat]. destruct i as [|i]; [done|].
  destruct (IH i Hi) as [k ->]. by exists (S k).
Qed.

(** Standard input and output are open, and there is room for a pipe. *)
Record ready (F : list (option desc)) : Prop := {
  rd_in : exists d, F !! 0%nat = Some (Some d);
  rd_out : exists d, F !! 1%nat = Some (Some d);
  rd_free : exists i j, i <> j /\ F !! i = Some None /\ F !! j = Some None }.

Lemma ready_set F fd d : ready F -> fd = 0 \/ fd = 1 -> ready (set_fd fd (Some d) F).
Proof.
  intros [[d0 H0] [d1 H1] (i & j & Hij & Hi & Hj)] Hfd. unfold set_fd.
  assert (Hout : Z.to_nat fd <> i /\ Z.to_nat fd <> j) by (destruct Hfd as [-> | ->]; [change (Z.to_nat 0) with 0%nat|change (Z.to_nat 1) with 1%nat]; split; intros <-; congruence).
  assert (L : forall k e, F !! k = Some (Some e) -> exists e', <[Z.to_nat fd := Some d]> F !! k = Some (Some e')).
  { intros k e Hk. destruct (decide (Z.to_nat fd = k)) as [<-|Hne]; [exists d; apply list_lookup_insert_eq; by apply lookup_lt_Some in Hk|].
    exists e. by rewrite list_lookup_insert_ne. }
  split; [by apply (L 0%nat d0)|by apply (L 1%nat d1)|]. exists i, j. rewrite !list_lookup_insert_ne by tauto. done.
Qed.

(** Closing one of the first two descriptors makes it the lowest free one. *)
Lemma lowest_closed F fd : ready F -> fd = 0 \/ fd = 1 -> lowest (set_fd fd None F) = Some (Z.to_nat fd).
Proof.
  intros [[d0 H0] [d1 H1] _] Hfd. apply lowest_spec. unfold set_fd. split.
  - apply list_lookup_insert_eq. apply lookup_lt_Some in H1. destruct Hfd as [-> | ->]; cbn; lia.
  - intros k Hk. exists d0. destruct Hfd as [-> | ->]; cbn in Hk; [lia|]. replace k with 0%nat by lia. by rewrite list_lookup_insert_ne.
Qed.

(** The two descriptors of a new pipe. *)
Lemma pipe_fds F n : ready F -> exists i j, lowest F = Some i /\ lowest (set_fd (Z.of_nat i) (Some (ReadEnd n)) F) = Some j /\
  (2 <= i)%nat /\ (2 <= j)%nat /\ i <> j /\ F !! i = Some None /\ F !! j = Some None.
Proof.
  intros [[d0 H0] [d1 H1] (i' & j' & Hij & Hi & Hj)]. destruct (lowest_some F i' Hi) as [i Ei]. pose proof Ei as [Ni _]%lowest_spec.
  assert (Hge : forall k, F !! k = Some None -> (2 <= k)%nat) by (intros [|[|k]] Hk; [congruence|congruence|lia]).
  assert (Free : exists k, <[i := Some (ReadEnd n)]> F !! k = Some None).
  { destruct (decide (i = i')) as [->|Hne]; [exists j'|exists i']; by rewrite list_lookup_insert_ne. }
  destruct Free as [k Hk]. destruct (lowest_some _ k Hk) as [j Ej]. pose proof Ej as [Nj _]%lowest_spec.
  assert (i <> j) by (intros <-; rewrite list_lookup_insert_eq in Nj; [done|by apply lookup_lt_Some in Ni]).
  rewrite list_lookup_insert_ne in Nj by done. exists i, j. unfold set_fd. rewrite Nat2Z.id. split; [done|]. split; [done|]. auto.
Qed.

(** What is left after the dance of [close] and [dup] in the child of a pipe. *)
Lemma child_fds F i j fd d x y : (2 <= i)%nat -> (2 <= j)%nat -> F !! i = Some None -> F !! j = Some None -> fd = 0 \/ fd = 1 ->
  set_fd (Z.of_nat j) None (set_fd (Z.of_nat i) None (set_fd fd (Some d) (set_fd fd None (set_fd (Z.of_nat j) x (set_fd (Z.of_nat i) y F))))) =
  set_fd fd (Some d) F.
Proof.
  intros Hi Hj Ni Nj Hfd. unfold set_fd. rewrite !Nat2Z.id. set (f := Z.to_nat fd). assert (Hf : (f < 2)%nat) by (unfold f; lia).
  apply list_eq. intros k. pose proof (lookup_lt_Some _ _ _ Ni). pose proof (lookup_lt_Some _ _ _ Nj).
  destruct (decide (k = j)) as [->|Hkj]; [rewrite list_lookup_insert_eq by (rewrite !length_insert; lia); by rewrite list_lookup_insert_ne by lia|].
  rewrite list_lookup_insert_ne by done.
  destruct (decide (k = i)) as [->|Hki]; [rewrite list_lookup_insert_eq by (rewrite !length_insert; lia); by rewrite list_lookup_insert_ne by lia|].
  rewrite list_lookup_insert_ne by done. rewrite list_insert_insert_eq. destruct (decide (k = f)) as [->|Hkf].
  - by rewrite !list_lookup_insert_eq by (rewrite ?length_insert; lia).
  - by rewrite !list_lookup_insert_ne by done.
Qed.

(** ** Running the tree *)
Fixpoint redirects (t : tree) : Prop :=
  match t with
  | TExec _ => True
  | TRedir c _ _ fd => (fd = 0 \/ fd = 1) /\ redirects c
  | TPipe l r | TList l r => redirects l /\ redirects r
  | TBack c => redirects c
  end.

(** Every word of the tree is shorter than [lim]. *)
Fixpoint short (lim : nat) (t : tree) : Prop :=
  match t with
  | TExec ws => Forall (fun w => (length w < lim)%nat) ws
  | TRedir c f _ _ => (length f < lim)%nat /\ short lim c
  | TPipe l r | TList l r => short lim l /\ short lim r
  | TBack c => short lim c
  end.

Lemma cstring_run m w : forall lim q, string_at m q w -> (length w < lim)%nat -> cstring lim m q = w.
Proof.
  induction w as [|c w IH]; intros [|lim] q Hs Hl; cbn [length] in Hl; try lia; cbn [cstring].
  - by rewrite (string_head m q [] Hs).
  - apply string_tail in Hs as (Hc & -> & Hs). rewrite (proj2 (Z.eqb_neq c 0)) by done. by rewrite IH by (done || lia).
Qed.

Lemma strings_run lim m ws : forall argv, Forall (fun w => (length w < lim)%nat) ws -> argv !! length ws = Some 0 ->
  (forall i w, ws !! i = Some w -> exists q, argv !! i = Some q /\ q <> 0 /\ string_at m q w) -> strings lim m argv = ws.
Proof.
  induction ws as [|w ws IH]; intros argv Hl Hz A; (destruct argv as [|q argv]; [done|]); cbn [strings].
  - by injection Hz as ->.
  - apply Forall_cons in Hl as [Hw Hl]. destruct (A 0%nat w eq_refl) as (q' & [= <-] & Hq & Hs). rewrite (proj2 (Z.eqb_neq q 0)) by done.
    rewrite (cstring_run m w lim q Hs Hw), (IH argv Hl); [done|done|]. intros i w' Hi. apply (A (S i) w' Hi).
Qed.

Section Run.
Context (lim : nat) (m : Z -> Z) (opens : list Z -> Z -> bool) (nodes : list cmd).
Abbreviation exe := (execute lim m opens).
Abbreviation mean := (meaning opens).

Lemma execute_redir F fd file f mode n (k k' : prog) : ready F -> fd = 0 \/ fd = 1 -> string_at m file f -> (length f < lim)%nat ->
  exe (Close fd (Open file mode (fun r => if r <? 0 then k else k'))) F n =
    if opens f mode then exe k' (set_fd fd (Some (Opened f mode)) F) n else exe k (set_fd fd None F) n.
Proof.
  intros HF Hfd Hs Hl. cbn [execute]. rewrite (lowest_closed F fd HF Hfd), (cstring_run m f lim file Hs Hl), Z2Nat.id by lia.
  rewrite (proj2 (Z.ltb_ge fd 0)) by lia. destruct (opens f mode); [|done]. unfold set_fd. by rewrite list_insert_insert_eq.
Qed.

Lemma execute_pipe k F n i j : lowest F = Some i -> lowest (set_fd (Z.of_nat i) (Some (ReadEnd n)) F) = Some j ->
  exe (Pipe k) F n = exe (k (Some (Z.of_nat i, Z.of_nat j))) (set_fd (Z.of_nat j) (Some (WriteEnd n)) (set_fd (Z.of_nat i) (Some (ReadEnd n)) F)) (S n).
Proof. intros Ei Ej. cbn [execute]. by rewrite Ei, Ej. Qed.

Lemma execute_fork k F n : exe (fork1 k) F n =
  let '(e1, n1) := exe (k 0) F n in let '(e2, n2) := exe (k 1) F n1 in (e1 ++ e2, n2).
Proof. done. Qed.

(** The child that runs one side of a pipe. *)
Lemma execute_child F i j fd d n x y k p : ready F -> (2 <= i)%nat -> (2 <= j)%nat -> i <> j -> F !! i = Some None -> F !! j = Some None -> fd = 0 \/ fd = 1 ->
  let F2 := set_fd (Z.of_nat j) (Some x) (set_fd (Z.of_nat i) (Some y) F) in F2 !! Z.to_nat p = Some (Some d) -> 2 <= p ->
  exe (Close fd (Dup p (Close (Z.of_nat i) (Close (Z.of_nat j) k)))) F2 n = exe k (set_fd fd (Some d) F) n.
Proof.
  intros HF Hi Hj Hij Ni Nj Hfd F2 Hp Hp2. cbn [execute].
  assert (R0 : forall e, (e < 2)%nat -> F2 !! e = F !! e).
  { intros e He. unfold F2, set_fd. rewrite !Nat2Z.id, !list_lookup_insert_ne by lia. done. }
  assert (Low : lowest (set_fd fd None F2) = Some (Z.to_nat fd)).
  { destruct HF as [[d0 H0] [d1 H1] _]. apply lowest_spec. unfold set_fd. split.
    - apply list_lookup_insert_eq. rewrite <- (R0 1%nat) in H1 by lia. apply lookup_lt_Some in H1. destruct Hfd as [-> | ->]; cbn; lia.
    - intros k' Hk. exists d0. destruct Hfd as [-> | ->]; cbn in Hk; [lia|]. replace k' with 0%nat by lia. rewrite list_lookup_insert_ne by done. by rewrite R0 by lia. }
  assert (Hd : set_fd fd None F2 !! Z.to_nat p = Some (Some d)) by (unfold set_fd; rewrite list_lookup_insert_ne by lia; exact Hp).
  rewrite Low, Hd. cbn [mjoin option_join]. rewrite Z2Nat.id by lia.
  unfold F2. by rewrite child_fds.
Qed.

Lemma runcmd_executes t : forall p fuel F n, tree_str nodes m p t -> redirects t -> short lim t -> (depth t <= fuel)%nat -> ready F ->
  exe (runcmd fuel nodes p) F n = mean t F n.
Proof.
  induction t as [ws|c IH f mode fd|l IHl r IHr|l IHl r IHr|c IH]; intros p [|fuel] F n T Hr Hs Hf HF; cbn [depth] in Hf; try lia; cbn [runcmd].
  all: assert (Hp : (p =? 0) = false) by (apply Z.eqb_neq; destruct T as (? & T); decompose [ex and] T; match goal with H : node_at _ _ = _ |- _ => apply node_at_pos in H; lia end).
  all: rewrite Hp.
  - destruct T as (argv & eargv & -> & Hz & A). destruct ws as [|w ws]; (destruct argv as [|q argv]; [done|]).
    + injection Hz as ->. done.
    + destruct (A 0%nat w eq_refl) as (q' & [= <-] & Hq & _). rewrite (proj2 (Z.eqb_neq q 0)) by done. cbn [execute meaning].
      by rewrite (strings_run lim m (w :: ws) (q :: argv) Hs Hz A).
  - destruct T as (sub & q & eq & -> & Hq & T), Hr as [Hfd Hr], Hs as [Hl Hs]. rewrite (execute_redir F fd q f mode n _ _ HF Hfd Hq Hl). cbn [meaning].
    destruct (opens f mode); [|done]. apply IH; [done|done|done|lia|by apply ready_set].
  - destruct T as (pl & pr & -> & Tl & Tr), Hr as [Rl Rr], Hs as [Sl Sr]. destruct (pipe_fds F n HF) as (i & j & Ei & Ej & Hi & Hj & Hij & Ni & Nj).
    set (F2 := set_fd (Z.of_nat j) (Some (WriteEnd n)) (set_fd (Z.of_nat i) (Some (ReadEnd n)) F)).
    pose proof (lookup_lt_Some _ _ _ Ni) as Li. pose proof (lookup_lt_Some _ _ _ Nj) as Lj.
    assert (Fi : F2 !! Z.to_nat (Z.of_nat i) = Some (Some (ReadEnd n)))
      by (unfold F2, set_fd; rewrite !Nat2Z.id, list_lookup_insert_ne by done; by apply list_lookup_insert_eq).
    assert (Fj : F2 !! Z.to_nat (Z.of_nat j) = Some (Some (WriteEnd n)))
      by (unfold F2, set_fd; rewrite !Nat2Z.id; apply list_lookup_insert_eq; by rewrite length_insert).
    rewrite (execute_pipe _ F n i j Ei Ej), execute_fork. cbn [Z.eqb meaning].
    rewrite (execute_child F i j 1 (WriteEnd n) (S n) _ _ _ (Z.of_nat j) HF) by (done || auto || lia).
    rewrite IHl; [|done|done|done|lia|by apply ready_set; [|right]]. destruct (mean l _ (S n)) as [e1 n1].
    rewrite execute_fork. cbn [Z.eqb]. rewrite (execute_child F i j 0 (ReadEnd n) n1 _ _ _ (Z.of_nat i) HF) by (done || auto || lia).
    rewrite IHr; [|done|done|done|lia|by apply ready_set; [|left]]. destruct (mean r _ n1) as [e2 n2]. cbn [execute]. by rewrite app_nil_r.
  - destruct T as (pl & pr & -> & Tl & Tr), Hr as [Rl Rr], Hs as [Sl Sr]. unfold fork1. cbn [execute Z.eqb meaning].
    rewrite IHl by (done || lia). destruct (mean l F n) as [e1 n1]. by rewrite IHr by (done || lia).
  - destruct T as (sub & -> & T). unfold fork1. cbn [execute Z.eqb meaning]. rewrite IH by (done || lia). destruct (mean c F n) as [e1 n1].
    by rewrite app_nil_r.
Qed.
End Run.

(** ** From the line to the programs *)
Definition short_tok (lim : nat) (tk : token) : Prop := match tk with Word w => (length w < lim)%nat | _ => True end.

Lemma lexes_short l ts : lexes l ts -> Forall (short_tok (S (length l))) ts.
Proof.
  assert (Mono : forall n k ts, (n <= k)%nat -> Forall (short_tok n) ts -> Forall (short_tok k) ts).
  { intros n k ts' H Hs. eapply Forall_impl; [exact Hs|]. intros [w|c|]; cbn; [lia|done|done]. }
  induction 1 as [|c l ts H H' IH|c l ts H H' IH|l ts Hh H IH|l ts H IH|w l ts Hne Hf Hh H IH]; [done|..].
  all: rewrite ?length_app; try (apply Forall_cons; split; [cbn; try done; lia|]); (eapply Mono; [|exact IH]); cbn [length]; lia.
Qed.

Lemma wrap_ok lim ts rs : g_redirs ts rs -> Forall (short_tok lim) ts -> forall c, redirects c -> short lim c ->
  redirects (foldl wrap c rs) /\ short lim (foldl wrap c rs).
Proof.
  induction 1 as [|o mode fd f ts rs Ho H IH]; intros Hs c Hr Hc; [done|]. apply Forall_cons in Hs as [_ [Hf Hs]%Forall_cons].
  apply (IH Hs); cbn; [|done]. split; [destruct Ho; auto|done].
Qed.

Lemma words_ok lim ts ws rs : g_words ts ws rs -> Forall (short_tok lim) ts ->
  Forall (fun w => (length w < lim)%nat) ws /\ exists ts', g_redirs ts' rs /\ Forall (short_tok lim) ts'.
Proof.
  induction 1 as [|w ts ws rs H IH|o mode fd f ts ws rs Ho H IH]; intros Hs.
  - split; [done|]. exists []. split; [constructor|done].
  - apply Forall_cons in Hs as [Hw Hs]. destruct (IH Hs) as (H1 & H2). split; [by constructor|done].
  - apply Forall_cons in Hs as [Hw [Hf Hs]%Forall_cons]. destruct (IH Hs) as (H1 & ts' & H2 & H3). split; [done|].
    exists (o :: Word f :: ts'). split; [by constructor|]. by repeat constructor.
Qed.

Definition fine (lim : nat) (ts : list token) (t : tree) : Prop := Forall (short_tok lim) ts -> redirects t /\ short lim t.

Lemma back_ok lim c n : redirects c /\ short lim c -> redirects (Nat.iter n TBack c) /\ short lim (Nat.iter n TBack c).
Proof. intros H. induction n as [|n IH]; [done|]. rewrite Nat.iter_succ. exact IH. Qed.

Lemma grammar_fine lim : (forall ts t, g_line ts t -> fine lim ts t) /\ (forall ts t, g_pipe ts t -> fine lim ts t) /\ (forall ts t, g_exec ts t -> fine lim ts t).
Proof.
  apply g_mut; unfold fine.
  - intros ts bs c _ IH _ [H _]%Forall_app. by apply back_ok, IH.
  - intros ts bs c ts' c' _ IH _ _ IH' [H [_ [_ H']%Forall_cons]%Forall_app]%Forall_app. destruct (back_ok lim c (length bs) (IH H)), (IH' H'). done.
  - done.
  - intros ts c ts' c' _ IH _ IH' [H [_ H']%Forall_cons]%Forall_app. destruct (IH H), (IH' H'). done.
  - intros ts ws rs G _ H. destruct (words_ok lim ts ws rs G H) as (Hw & ts' & G' & H'). by apply (wrap_ok lim ts').
  - intros ts c ts' rs _ IH G [_ [H [_ H']%Forall_cons]%Forall_app]%Forall_cons. destruct (IH H). by apply (wrap_ok lim ts').
Qed.

(** C31. The shell on a line whose tokens form the command [t]: the tree that
    [parsecmd] builds, run by [runcmd] in a process whose standard input and output
    are open, starts exactly the programs of [t], each with the arguments of the line
    and with the descriptors that [t] gives it: a redirection replaces descriptor 0
    or 1, the two sides of a pipe are connected by it, and no other descriptor of a
    pipe is left open. *)
Theorem shell_spec a text ts t s tr fuel opens F n : string_at (sh_mem s) a text -> 0 < a -> lexes text ts -> g_line ts t ->
  (4 * length text + 4 <= fuel)%nat -> (2 * length text + 1 <= sh_room s)%nat -> ready F ->
  exists p s', parsecmd fuel a s tr = Done p s' tr /\
    execute (S (length text)) (sh_mem s') opens (runcmd fuel (sh_nodes s') p) F n = meaning opens t F n.
Proof.
  intros Hs Ha Hl G Hf Hr HF. destruct (parsecmd_lexed a text ts s tr fuel Hs Ha Hl Hf Hr) as [(_ & p & s' & _ & E & _ & _ & T)|[Hno _]]; [|by destruct (Hno t)].
  exists p, s'. split; [done|]. destruct (proj1 (grammar_fine (S (length text))) ts t G (lexes_short text ts Hl)) as [R S].
  pose proof (proj1 depth_bound _ _ G). pose proof (lexes_length _ _ Hl). apply runcmd_executes; [by apply T|done|done|lia|done].
Qed.

(** The line [a <f|b&], run with the descriptors of the shell. *)
Definition demo_toks : list token := [Word [97]; Sym 60; Word [102]; Sym 124; Word [98]; Sym 38].
Definition demo_cmd : tree := TBack (TPipe (TRedir (TExec [[97]]) [102] O_RDONLY 0) (TExec [[98]])).
Definition demo_fds : list (option desc) := [Some (Inherited 0); Some (Inherited 1); Some (Inherited 2)] ++ replicate 13 None.

Lemma demo_lexes : lexes demo_line demo_toks.
Proof.
  assert (W : forall c l ts, wordc c -> (forall c', head l = Some c' -> ~ wordc c') -> lexes l ts -> lexes (c :: l) (Word [c] :: ts)).
  { intros c l ts Hc Hl H. apply (lex_word [c]); [done|by constructor|done|done]. }
  assert (N : forall c l, occurs whitespace c = true \/ occurs symbols c = true -> forall c', head (c :: l) = Some c' -> ~ wordc c').
  { intros c l Hc c' [= <-] (_ & H1 & H2). destruct Hc; congruence. }
  unfold demo_line, demo_toks. apply W; [done|apply N; auto|]. apply lex_white; [done|]. apply lex_sym; [done|]. apply W; [done|apply N; auto|].
  apply lex_sym; [done|]. apply W; [done|apply N; auto|]. apply lex_sym; [done|]. apply lex_nil.
Qed.

Lemma demo_parses : g_line demo_toks demo_cmd.
Proof.
  apply (g_line_end [Word [97]; Sym 60; Word [102]; Sym 124; Word [98]] [Sym 38]); [|by repeat constructor].
  apply (g_pipe_cons [Word [97]; Sym 60; Word [102]] _ [Word [98]]).
  - apply (g_exec_words _ [[97]] [([102], O_RDONLY, 0)]); [|done]. repeat constructor.
  - apply g_pipe_one, (g_exec_words _ [[98]] []); [|done]. repeat constructor.
Qed.

Lemma shell_spec_witness : exists p s', parsecmd 40 100 demo_shell [] = Done p s' [] /\
  execute 8 (sh_mem s') (fun _ _ => true) (runcmd 40 (sh_nodes s') p) demo_fds 0 = meaning (fun _ _ => true) demo_cmd demo_fds 0.
Proof.
  destruct (shell_spec 100 demo_line demo_toks demo_cmd demo_shell [] 40 (fun _ _ => true) demo_fds 0) as (p & s' & E & H).
  - apply string_write; [|reflexivity]. repeat constructor; lia.
  - lia.
  - exact demo_lexes.
  - exact demo_parses.
  - cbn. lia.
  - cbn. lia.
  - split; [exists (Inherited 0); reflexivity|exists (Inherited 1); reflexivity|]. exists 3%nat, 4%nat. split; [lia|]. split; reflexivity.
  - exists p, s'. split; [exact E|exact H].
Defined.
