(* ===== verification/UPrintf.v ===== *)
(** * Formatted output (user/printf.c)

    [vprintf] walks over the format string with a two-state machine and writes one
    character at a time; [render] is the text that a format and its arguments stand
    for.  A number printed in decimal is read back by [atoi]. *)

From stdpp Require Import prelude list strings.
From Stdlib Require Import ZArith Lia ZifyBool.
From S2P Require Import Prelude State CString ULib.
Local Open Scope Z_scope.

(** ** The code *)
Definition udigits : list Z := [48; 49; 50; 51; 52; 53; 54; 55; 56; 57; 65; 66; 67; 68; 69; 70].

(** The loop of [printint]: the digits of [x], the lowest first. *)
Fixpoint udigits_of (fuel : nat) (x base : Z) : list Z :=
  match fuel with
  | O => []
  | S fuel' => nth (Z.to_nat (x mod base)) udigits 0 :: (if x / base =? 0 then [] else udigits_of fuel' (x / base) base)
  end.

(** [buf] when it is printed, which goes from its end. *)
Definition uprint_buf (xx base : Z) (sgn : bool) : list Z :=
  let neg := sgn && (xx <? 0) in
  let x := if neg then u64 (- xx) else u64 xx in
  let buf := udigits_of 64 x base in
  if neg then buf ++ [45] else buf.

Section Printf.
(** The address of [putc]'s argument. *)
Context `{Sys} (loc : Z).

Definition putc (fd c : Z) : UK unit :=
  modify (fun s => s <| u_mem := store8 (u_mem s) loc c |>) ;;
  write fd loc 1 ;;
  kret tt.

(** [while (--i >= 0) putc(fd, buf[i])], and the other loops that print. *)
Fixpoint putcs (fd : Z) (l : list Z) : UK unit :=
  match l with [] => kret tt | c :: l' => putc fd c ;; putcs fd l' end.

Definition uprintint (fd xx base : Z) (sgn : bool) : UK unit := putcs fd (rev (uprint_buf xx base sgn)).

Definition uprintptr (fd x : Z) : UK unit :=
  putc fd 48 ;; putc fd 120 ;;
  putcs fd (map (fun i => nth (Z.to_nat (Z.shiftr (u64 (Z.shiftl x (4 * Z.of_nat i))) 60)) udigits 0) (seq 0 16)).

(** [for (; *s; s++) putc(fd, *s)] *)
Fixpoint putstr (fuel : nat) (fd s : Z) : UK unit :=
  match fuel with
  | O => hang
  | S fuel' =>
      let! m := Prelude.gets u_mem in
      if m s =? 0 then kret tt else putc fd (m s) ;; putstr fuel' fd (s + 1)
  end.

(** [va_arg(ap, uint64)] *)
Definition va_arg (ap : list Z) : UK (Z * list Z) := deref (match ap with [] => None | v :: ap' => Some (v, ap') end).

(** A conversion: the characters after the percent sign; the result is the number of
    characters by which the index advances beyond them, and the rest of the arguments. *)
Definition convert (fuel : nat) (fd c0 c1 c2 : Z) (ap : list Z) : UK (Z * list Z) :=
  let num base sgn (conv : Z -> Z) skip :=
    let! '(v, ap) := va_arg ap in uprintint fd (conv v) base sgn ;; kret (skip, ap) in
  if c0 =? 100 then num 10 true i32 0
  else if (c0 =? 108) && (c1 =? 100) then num 10 true i64 1
  else if (c0 =? 108) && (c1 =? 108) && (c2 =? 100) then num 10 true i64 2
  else if c0 =? 117 then num 10 false u32 0
  else if (c0 =? 108) && (c1 =? 117) then num 10 false i64 1
  else if (c0 =? 108) && (c1 =? 108) && (c2 =? 117) then num 10 false i64 2
  else if c0 =? 120 then num 16 false u32 0
  else if (c0 =? 108) && (c1 =? 120) then num 16 false i64 1
  else if (c0 =? 108) && (c1 =? 108) && (c2 =? 120) then num 16 false i64 2
  else if c0 =? 112 then let! '(v, ap) := va_arg ap in uprintptr fd v ;; kret (0, ap)
  else if c0 =? 99 then let! '(v, ap) := va_arg ap in putc fd v ;; kret (0, ap)
  else if c0 =? 115 then
    let! '(v, ap) := va_arg ap in
    (if v =? 0 then putcs fd [40; 110; 117; 108; 108; 41] else putstr fuel fd v) ;; kret (0, ap)
  else if c0 =? 37 then putc fd 37 ;; kret (0, ap)
  else putc fd 37 ;; putc fd c0 ;; kret (0, ap).

Fixpoint vprintf_loop (fuel : nat) (fd fmt i : Z) (percent : bool) (ap : list Z) : UK unit :=
  match fuel with
  | O => hang
  | S fuel' =>
      let! m := Prelude.gets u_mem in
      if m (fmt + i) =? 0 then kret tt else
      let c0 := m (fmt + i) in
      if negb percent then
        if c0 =? 37 then vprintf_loop fuel' fd fmt (i + 1) true ap
        else putc fd c0 ;; vprintf_loop fuel' fd fmt (i + 1) false ap
      else
        let c1 := m (fmt + i + 1) in
        let c2 := if c1 =? 0 then 0 else m (fmt + i + 2) in
        let! '(skip, ap) := convert fuel' fd c0 c1 c2 ap in
        vprintf_loop fuel' fd fmt (i + skip + 1) false ap
  end.

Definition vprintf (fuel : nat) (fd fmt : Z) (ap : list Z) : UK unit := vprintf_loop fuel fd fmt 0 false ap.
Definition fprintf (fuel : nat) (fd fmt : Z) (ap : list Z) : UK unit := vprintf fuel fd fmt ap.
Definition printf (fuel : nat) (fmt : Z) (ap : list Z) : UK unit := vprintf fuel 1 fmt ap.
End Printf.

(** ** The text a format stands for *)
(** The conversions that print a number: base, sign, and the C type of the argument. *)
Inductive directive : list Z -> Z -> bool -> (Z -> Z) -> Prop :=
| dir_d : directive [100] 10 true i32
| dir_ld : directive [108; 100] 10 true i64
| dir_lld : directive [108; 108; 100] 10 true i64
| dir_u : directive [117] 10 false u32
| dir_lu : directive [108; 117] 10 false i64
| dir_llu : directive [108; 108; 117] 10 false i64
| dir_x : directive [120] 16 false u32
| dir_lx : directive [108; 120] 16 false i64
| dir_llx : directive [108; 108; 120] 16 false i64.

Definition pointer (v : Z) : list Z :=
  [48; 120] ++ map (fun i => nth (Z.to_nat (Z.shiftr (u64 (Z.shiftl v (4 * Z.of_nat i))) 60)) udigits 0) (seq 0 16).

(** [str v l]: the argument [v] points to the string [l]. *)
Inductive renders (str : Z -> list Z -> Prop) : list Z -> list Z -> list Z -> Prop :=
| ren_end ap : renders str [] ap []
| ren_lone ap : renders str [37] ap []
| ren_char c f ap t : c <> 37 -> renders str f ap t -> renders str (c :: f) ap (c :: t)
| ren_number d base sgn conv f v ap t : directive d base sgn conv -> renders str f ap t ->
    renders str (37 :: d ++ f) (v :: ap) (rev (uprint_buf (conv v) base sgn) ++ t)
| ren_pointer f v ap t : renders str f ap t -> renders str (37 :: 112 :: f) (v :: ap) (pointer v ++ t)
| ren_c f v ap t : renders str f ap t -> renders str (37 :: 99 :: f) (v :: ap) (v :: t)
| ren_s f v l ap t : v <> 0 -> str v l -> renders str f ap t -> renders str (37 :: 115 :: f) (v :: ap) (l ++ t)
| ren_null f ap t : renders str f ap t -> renders str (37 :: 115 :: f) (0 :: ap) ([40; 110; 117; 108; 108; 41] ++ t)
| ren_percent f ap t : renders str f ap t -> renders str (37 :: 37 :: f) ap (37 :: t)
| ren_other c f ap t : c ∉ [100; 108; 117; 120; 112; 99; 115; 37] -> renders str f ap t -> renders str (37 :: c :: f) ap (37 :: c :: t).

(** ** Printing *)
Section Output.
Context `{SysOk} (loc : Z).

Definition outs (fd : Z) (l : list Z) : list (Z * list Z) := map (fun c => (fd, [u8 c])) l.

(** [l] has been written, and nothing else has happened. *)
Definition printed (fd : Z) (l : list Z) (s s' : ustate) : Prop :=
  u_out s' = u_out s ++ outs fd l /\ u_in s' = u_in s /\ u_brk s' = u_brk s /\ u_freep s' = u_freep s /\ forall x, x <> loc -> u_mem s' x = u_mem s x.

Lemma printed_nil fd s : printed fd [] s s.
Proof. unfold printed. by rewrite app_nil_r. Qed.

Lemma printed_app fd l l' s s1 s2 : printed fd l s s1 -> printed fd l' s1 s2 -> printed fd (l ++ l') s s2.
Proof.
  intros (O1 & I1 & B1 & F1 & M1) (O2 & I2 & B2 & F2 & M2). unfold printed, outs. rewrite O2, O1, map_app, app_assoc.
  split; [done|]. split; [congruence|]. split; [congruence|]. split; [congruence|]. intros x Hx. by rewrite M2, M1.
Qed.

Lemma putc_runs fd c s tr : runs (putc loc fd c) s tr (fun _ s' => printed fd [c] s s').
Proof.
  unfold putc. set (s1 := s <| u_mem := store8 (u_mem s) loc c |>). eexists _, _. split.
  - kstep modify_run. kstep (write_run fd loc 1 s1 tr ltac:(lia)). reflexivity.
  - assert (E : store8 (u_mem s) loc c loc = u8 c) by (unfold store8; by rewrite Z.eqb_refl).
    split; [change (u_out s ++ [(fd, [store8 (u_mem s) loc c loc])] = u_out s ++ outs fd [c]); by rewrite E|].
    split; [done|]. split; [done|]. split; [done|]. intros x Hx. change (store8 (u_mem s) loc c x = u_mem s x). unfold store8. by rewrite (proj2 (Z.eqb_neq x loc)).
Qed.

Lemma putcs_runs fd l : forall s tr, runs (putcs loc fd l) s tr (fun _ s' => printed fd l s s').
Proof.
  induction l as [|c l IH]; intros s tr; cbn [putcs]; [apply runs_ret, printed_nil|].
  rstep (putc_runs fd c s tr) as P1. rlast (IH s' tr) as P2. by apply (printed_app fd [c] l s s').
Qed.

(** A string that [putc] does not overwrite. *)
Definition safe (m : Z -> Z) (a : Z) (l : list Z) : Prop := string_at m a l /\ ~ (a <= loc <= a + Z.of_nat (length l)).

Lemma safe_printed fd t s s' a l : printed fd t s s' -> safe (u_mem s) a l -> safe (u_mem s') a l.
Proof.
  intros (_ & _ & _ & _ & M) [H1 H2]. split; [|done]. apply (string_ext (u_mem s)); [done|]. intros x Hx. apply M. intros ->. done.
Qed.

Lemma safe_tail m a c l : safe m a (c :: l) -> c <> 0 /\ m a = c /\ safe m (a + 1) l.
Proof. intros [H1 H2]. apply string_tail in H1 as (Hc & Hm & Hs). split; [done|]. split; [done|]. split; [done|]. cbn [length] in H2. lia. Qed.

Lemma safe_app m d : forall a l, safe m a (d ++ l) -> safe m (a + Z.of_nat (length d)) l.
Proof.
  induction d as [|c d IH]; intros a l Hs; cbn [length app] in *; [by rewrite Z.add_0_r|]. apply safe_tail in Hs as (_ & _ & Hs). apply IH in Hs.
  by replace (a + Z.of_nat (S (length d))) with (a + 1 + Z.of_nat (length d)) by lia.
Qed.

Lemma putstr_runs fd l : forall fuel a s tr, safe (u_mem s) a l -> (length l < fuel)%nat -> runs (putstr loc fuel fd a) s tr (fun _ s' => printed fd l s s').
Proof.
  induction l as [|c l IH]; intros [|fuel] a s tr Hs Hf; cbn [length] in Hf; try lia; cbn [putstr]; rstep runs_gets as [-> ->].
  - destruct Hs as [Hs _]. rewrite (string_head _ _ _ Hs). apply runs_ret, printed_nil.
  - pose proof (safe_tail _ _ _ _ Hs) as (Hc & -> & Hs'). rewrite (proj2 (Z.eqb_neq c 0)) by done.
    rstep (putc_runs fd c s tr) as P1. rlast (IH fuel (a + 1) s' tr) as P2; [by apply (safe_printed fd [c] s)|lia|]. by apply (printed_app fd [c] l s s').
Qed.

Lemma number_runs fuel fd d base sgn conv f v ap c0 c1 c2 s tr : directive d base sgn conv ->
  c0 = nth 0 (d ++ f) 0 -> c1 = nth 1 (d ++ f) 0 -> c2 = nth 2 (d ++ f) 0 ->
  runs (convert loc fuel fd c0 c1 c2 (v :: ap)) s tr (fun r s' => r = (Z.of_nat (length d) - 1, ap) /\ printed fd (rev (uprint_buf (conv v) base sgn)) s s').
Proof.
  intros Hd -> -> ->. unfold convert, va_arg. destruct Hd; cbn [nth app Z.eqb Pos.eqb andb deref];
    (rstep runs_kret as [-> ->]; unfold uprintint; rstep (putcs_runs fd _ s tr) as P; by apply runs_ret).
Qed.

(** The character after a percent sign, and the two that follow it. *)
Lemma format_chars m a f : string_at m a f -> f <> [] ->
  m a = nth 0 f 0 /\ m a <> 0 /\ m (a + 1) = nth 1 f 0 /\ (if m (a + 1) =? 0 then 0 else m (a + 2)) = nth 2 f 0.
Proof.
  intros Hs Hne. destruct f as [|c0 f]; [done|]. apply string_tail in Hs as (N0 & E0 & Hs). split; [done|]. split; [by rewrite E0|].
  destruct f as [|c1 f]; cbn [nth]; [by rewrite (string_head _ _ _ Hs)|]. apply string_tail in Hs as (N1 & E1 & Hs). rewrite E1.
  replace (a + 1 + 1) with (a + 2) in Hs by lia. rewrite (proj2 (Z.eqb_neq c1 0)) by done. split; [done|].
  rewrite (string_head _ _ _ Hs). by destruct f.
Qed.

(** One step of the loop. *)
Lemma loop_end fuel fd fmt i b ap s tr : safe (u_mem s) (fmt + i) [] -> runs (vprintf_loop loc (S fuel) fd fmt i b ap) s tr (fun _ s' => printed fd [] s s').
Proof.
  intros [Hs _]. cbn [vprintf_loop]. rstep runs_gets as [-> ->]. rewrite (string_head _ _ _ Hs). apply runs_ret, printed_nil.
Qed.

Lemma loop_convert fuel fd fmt i ap s tr f (Q : unit -> ustate -> Prop) : f <> [] -> safe (u_mem s) (fmt + i) (37 :: f) ->
  runs (let! '(skip, ap) := convert loc fuel fd (nth 0 f 0) (nth 1 f 0) (nth 2 f 0) ap in vprintf_loop loc fuel fd fmt (i + 1 + skip + 1) false ap) s tr Q ->
  runs (vprintf_loop loc (S (S fuel)) fd fmt i false ap) s tr Q.
Proof.
  intros Hne Hs R. pose proof (safe_tail _ _ _ _ Hs) as (_ & E & [Hs' _]). destruct (format_chars _ _ f Hs' Hne) as (E0 & N0 & E1 & E2).
  cbn [vprintf_loop]. rstep runs_gets as [-> ->]. rewrite E. cbn [Z.eqb Pos.eqb negb].
  rstep runs_gets as [-> ->]. replace (fmt + (i + 1)) with (fmt + i + 1) by lia. rewrite (proj2 (Z.eqb_neq _ 0) N0). cbn [negb]. by rewrite E2, E1, E0.
Qed.

(** The loop prints the text [t] of the format [f]. *)
Definition loop_ok (str : Z -> list Z -> Prop) (f ap t : list Z) : Prop := forall fuel fd fmt i s tr N, safe (u_mem s) (fmt + i) f ->
  (forall v l, str v l -> safe (u_mem s) v l /\ (length l < N)%nat) -> (length f + N < fuel)%nat ->
  runs (vprintf_loop loc fuel fd fmt i false ap) s tr (fun _ s' => printed fd t s s').

(** After the text [t'] of the part [d] of the format. *)
Lemma loop_next str f ap t t' d k fuel fd fmt i s s' tr N : loop_ok str f ap t -> printed fd t' s s' -> safe (u_mem s) (fmt + i) (d ++ f) -> k = Z.of_nat (length d) ->
  (forall v l, str v l -> safe (u_mem s) v l /\ (length l < N)%nat) -> (length f + N < fuel)%nat ->
  runs (vprintf_loop loc fuel fd fmt (i + k) false ap) s' tr (fun _ s2 => printed fd (t' ++ t) s s2).
Proof.
  intros IH P Hs -> Hstr Hf. rlast (IH fuel fd fmt (i + Z.of_nat (length d)) s' tr N) as P2; [|intros v l Hv|done|by apply (printed_app fd t' t s s')].
  - rewrite Z.add_assoc. apply (safe_printed fd t' s); [done|]. by apply safe_app.
  - destruct (Hstr v l Hv). split; [by apply (safe_printed fd t' s)|done].
Qed.

(** After a conversion with the directive [d]. *)
Lemma loop_directive str f ap ap' t t' d fuel fd fmt i s tr N : d <> [] -> loop_ok str f ap' t -> safe (u_mem s) (fmt + i) (37 :: d ++ f) ->
  (forall v l, str v l -> safe (u_mem s) v l /\ (length l < N)%nat) -> (S (length (d ++ f)) + N < fuel)%nat ->
  (forall fuel, (N <= fuel)%nat -> runs (convert loc fuel fd (nth 0 (d ++ f) 0) (nth 1 (d ++ f) 0) (nth 2 (d ++ f) 0) ap) s tr (fun r s' =>
    r = (Z.of_nat (length d) - 1, ap') /\ printed fd t' s s')) ->
  runs (vprintf_loop loc fuel fd fmt i false ap) s tr (fun _ s2 => printed fd (t' ++ t) s s2).
Proof.
  intros Hd IH Hs Hstr Hf Hc. rewrite length_app in Hf. assert (Hl : length d <> 0%nat) by (by destruct d).
  destruct fuel as [|[|fuel]]; [lia|lia|]. apply (loop_convert fuel fd fmt i ap s tr (d ++ f)); [by destruct d|done|].
  rstep (Hc fuel ltac:(lia)) as (-> & P). replace (i + 1 + (Z.of_nat (length d) - 1) + 1) with (i + Z.of_nat (length (37 :: d))) by (cbn [length]; lia).
  apply (loop_next str f ap' t t' (37 :: d) _ fuel fd fmt i s s' tr N); [done|done|done|done|done|lia].
Qed.

Lemma vprintf_runs str f ap t : renders str f ap t -> loop_ok str f ap t.
Proof.
  induction 1 as [ap|ap|c f ap t Hc HR IH|d base sgn conv f v ap t Hd HR IH|f v ap t HR IH|f v ap t HR IH|f v l ap t Hv Hl HR IH|f ap t HR IH|f ap t HR IH|c f ap t Hc HR IH];
    intros fuel fd fmt i s tr N Hs Hstr Hf.
  - destruct fuel as [|fuel]; [lia|]. by apply loop_end.
  - destruct fuel as [|[|fuel]]; [cbn in Hf; lia..|]. cbn [vprintf_loop]. rstep runs_gets as [-> ->].
    pose proof (safe_tail _ _ _ _ Hs) as (_ & -> & Hs'). cbn [Z.eqb Pos.eqb negb]. rstep runs_gets as [-> ->].
    destruct Hs' as [Hs' _]. rewrite Z.add_assoc, (string_head _ _ _ Hs'). apply runs_ret, printed_nil.
  - destruct fuel as [|fuel]; [lia|]. cbn [vprintf_loop]. rstep runs_gets as [-> ->]. pose proof (safe_tail _ _ _ _ Hs) as (N0 & -> & _).
    rewrite (proj2 (Z.eqb_neq c 0)), (proj2 (Z.eqb_neq c 37)) by done. cbn [negb]. rstep (putc_runs fd c s tr) as P.
    apply (loop_next str f ap t [c] [c] 1 fuel fd fmt i s s' tr N); [done|done|done|done|done|cbn in Hf; lia].
  - apply (loop_directive str f (v :: ap) ap t _ d fuel fd fmt i s tr N); [by destruct Hd|done|done|done|done|].
    intros fuel' _. by apply (number_runs fuel' fd d base sgn conv f).
  - apply (loop_directive str f (v :: ap) ap t _ [112] fuel fd fmt i s tr N); [done|done|done|done|done|]. intros fuel' _. unfold convert, va_arg. cbn [nth app Z.eqb Pos.eqb andb deref].
    rstep runs_kret as [-> ->]. unfold uprintptr. rstep (putc_runs fd 48 s tr) as P1. rstep (putc_runs fd 120 s' tr) as P2. rstep (putcs_runs fd _ s'0 tr) as P3.
    apply runs_ret. split; [done|]. apply (printed_app fd [48] _ s s'); [done|]. by apply (printed_app fd [120] _ s' s'0).
  - apply (loop_directive str f (v :: ap) ap t [v] [99] fuel fd fmt i s tr N); [done|done|done|done|done|]. intros fuel' _. unfold convert, va_arg. cbn [nth app Z.eqb Pos.eqb andb deref].
    rstep runs_kret as [-> ->]. rstep (putc_runs fd v s tr) as P1. by apply runs_ret.
  - apply (loop_directive str f (v :: ap) ap t l [115] fuel fd fmt i s tr N); [done|done|done|done|done|]. intros fuel' Hf'. unfold convert, va_arg. cbn [nth app Z.eqb Pos.eqb andb deref].
    rstep runs_kret as [-> ->]. rewrite (proj2 (Z.eqb_neq v 0)) by done. destruct (Hstr v l Hl). rstep (putstr_runs fd l fuel' v s tr) as P; [done|lia|]. by apply runs_ret.
  - apply (loop_directive str f (0 :: ap) ap t _ [115] fuel fd fmt i s tr N); [done|done|done|done|done|]. intros fuel' Hf'. unfold convert, va_arg. cbn [nth app Z.eqb Pos.eqb andb deref].
    rstep runs_kret as [-> ->]. rstep (putcs_runs fd _ s tr) as P; by apply runs_ret.
  - apply (loop_directive str f ap ap t [37] [37] fuel fd fmt i s tr N); [done|done|done|done|done|]. intros fuel' Hf'. unfold convert. cbn [nth app Z.eqb Pos.eqb andb].
    rstep (putc_runs fd 37 s tr) as P1. by apply runs_ret.
  - apply (loop_directive str f ap ap t [37; c] [c] fuel fd fmt i s tr N); [done|done|done|done|done|]. intros fuel' Hf'. unfold convert. cbn [nth app].
    rewrite !not_elem_of_cons in Hc. destruct Hc as (? & ? & ? & ? & ? & ? & ? & ? & _).
    rewrite !(fun k H => proj2 (Z.eqb_neq c k) H) by done. cbn [andb].
    rstep (putc_runs fd 37 s tr) as P1. rstep (putc_runs fd c s' tr) as P2. apply runs_ret. split; [done|]. by apply (printed_app fd [37] [c] s s').
Qed.

End Output.

(** ** Reading a number back *)
Definition horner (l : list Z) (n : Z) : Z := foldl (fun n c => n * 10 + c - 48) n l.

Lemma udigit_dec k : 0 <= k < 10 -> nth (Z.to_nat k) udigits 0 = 48 + k.
Proof.
  intros Hk. assert (H : forallb (fun j => nth j udigits 0 =? 48 + Z.of_nat j) (seq 0 10) = true) by done.
  rewrite forallb_forall in H. specialize (H (Z.to_nat k)). rewrite Z2Nat.id in H by lia. apply Z.eqb_eq, H, in_seq. lia.
Qed.

Lemma udigits_value fuel : forall x k, 0 <= x < 10 ^ Z.of_nat k -> (0 < k <= fuel)%nat ->
  let l := udigits_of fuel x 10 in horner (rev l) 0 = x /\ Forall (fun c => 48 <= c <= 57) l /\ (length l <= k)%nat.
Proof.
  induction fuel as [|fuel IH]; intros x k Hx Hk; [lia|]. cbv zeta. cbn [udigits_of rev]. unfold horner in *.
  pose proof (Z.mod_pos_bound x 10 ltac:(lia)) as Hm. pose proof (Z.div_mod x 10 ltac:(lia)) as Hd. rewrite udigit_dec by done.
  rewrite foldl_app. cbn [foldl]. destruct (Z.eqb_spec (x / 10) 0) as [E|E].
  - cbn. split; [lia|]. split; [constructor; [lia|done]|lia].
  - assert (0 <= x / 10) by (apply Z.div_pos; lia). destruct k as [|[|k]]; [lia|cbn in Hx; rewrite Z.div_small in E by lia; done|].
    destruct (IH (x / 10) (S k)) as (I1 & I2 & I3); [|lia|rewrite I1; split; [lia|]; split; [constructor; [lia|done]|cbn [length]; lia]].
    split; [done|]. apply Z.div_lt_upper_bound; [lia|]. rewrite <- Z.pow_succ_r by lia. replace (Z.succ (Z.of_nat (S k))) with (Z.of_nat (S (S k))) by lia. apply Hx.
Qed.

Lemma atoi_run m l : Forall (fun c => 48 <= c <= 57) l -> forall fuel s n, string_at m s l -> (length l < fuel)%nat ->
  atoi_from fuel m s n = Some (horner l n).
Proof.
  induction 1 as [|c l Hc H IH]; intros [|fuel] s n Hs Hf; cbn [length] in Hf; try lia; cbn [atoi_from horner].
  - by rewrite (string_head _ _ _ Hs).
  - apply string_tail in Hs as (_ & -> & Hs). rewrite (proj2 (Z.leb_le 48 c)), (proj2 (Z.leb_le c 57)) by lia. cbn [andb]. rewrite (IH fuel (s + 1)); [done|done|lia].
Qed.

(** What [printf] prints for [%d] and a number that is not negative, [atoi] reads
    back as that number. *)
Theorem printf_atoi str n t m a fuel : 0 <= n < 2 ^ 31 -> renders str [37; 100] [n] t -> string_at m a t -> (10 < fuel)%nat ->
  atoi fuel m a = Some n.
Proof.
  intros Hn HR Hs Hf. assert (Ht : t = rev (udigits_of 64 n 10)).
  { assert (Hi : uprint_buf (i32 n) 10 true = udigits_of 64 n 10).
    { unfold i32. rewrite Z.mod_small by lia. unfold uprint_buf. rewrite (proj2 (Z.ltb_ge _ 0)) by lia. cbn [andb]. unfold u64. f_equal. rewrite Z.mod_small by lia. lia. }
    rewrite <- Hi. inversion HR as [|?|? ? ? ? Hc|d base sgn conv f v ap t' Hd HR' E|?|?|?|?|?|? ? ? ? Hc]; subst; [done| |by exfalso; apply Hc; left].
    destruct Hd; try done. injection E as ->. inversion HR'. by rewrite app_nil_r. }
  destruct (udigits_value 64 n 10) as (V & D & L); [cbn; lia|lia|]. subst t. unfold atoi. rewrite (atoi_run m (rev (udigits_of 64 n 10))); [by rewrite V| |done|].
  - by apply Forall_rev.
  - rewrite length_rev. lia.
Qed.

(** The format [%d:%s] with the arguments 7 and a pointer to [ab]. *)
Definition demo_printf : ustate := mkustate (write_bytes (write_bytes (fun _ => 0) 100 [37; 100; 58; 37; 115]) 200 [97; 98]) [] [] 0 0.
Definition demo_str (v : Z) (l : list Z) : Prop := v = 200 /\ l = [97; 98].

Lemma demo_renders : renders demo_str [37; 100; 58; 37; 115] [7; 200] [55; 58; 97; 98].
Proof.
  apply (ren_number demo_str [100] 10 true i32 [58; 37; 115] 7 [200] [58; 97; 98]); [constructor|].
  apply ren_char; [done|]. apply (ren_s demo_str [] 200 [97; 98] [] []); [done|done|constructor].
Qed.

Lemma demo_safe v l : v = 100 /\ l = [37; 100; 58; 37; 115] \/ demo_str v l -> safe 50 (u_mem demo_printf) v l.
Proof.
  intros [[-> ->]|[-> ->]]; (split; [|cbn; lia]); (split; [|reflexivity|by repeat constructor]).
  - intros [|[|[|[|[|i]]]]] c [= <-]; reflexivity.
  - intros [|[|i]] c [= <-]; reflexivity.
Qed.


Lemma printf_atoi_witness : atoi 11 (write_bytes (fun _ => 0) 300 [52; 50]) 300 = Some 42.
Proof.
  apply (printf_atoi (fun _ _ => False) 42 [52; 50]).
  - lia.
  - apply (ren_number _ [100] 10 true i32 [] 42 [] []); [constructor|constructor].
  - apply string_write; [|reflexivity]. repeat constructor; lia.
  - lia.
Defined.
