(* ===== verification/UProgs.v ===== *)
(** * Small programs (user/cat.c, wc.c, echo.c, nice.c)

    [cat] copies its input, [wc] counts lines, words and characters, [nice] reads
    numbers from its command line.  A program that calls [exit] returns the status;
    a failure of a system call that ends the program with a message is a panic. *)

From stdpp Require Import prelude list strings.
From Stdlib Require Import ZArith Lia ZifyBool.
From S2P Require Import Prelude State CString ULib UPrintf.
Local Open Scope Z_scope.

(** ** The code *)
Section Code.
(** [buf] is the program's buffer and [loc] the address of [putc]'s argument. *)
Context `{Sys} (buf loc : Z).

Definition CATBUF : Z := 512.

(** The loop of [cat]. *)
Fixpoint cat_loop (fuel : nat) (fd : Z) : UK Z :=
  match fuel with
  | O => hang
  | S fuel' =>
      let! n := read fd buf CATBUF in
      if 0 <? n then
        let! k := write 1 buf n in
        if negb (k =? n) then panic "cat: write error" else cat_loop fuel' fd
      else kret n
  end.

Definition cat (fuel : nat) (fd : Z) : UK unit :=
  let! n := cat_loop fuel fd in
  if n <? 0 then panic "cat: read error" else kret tt.

(** The counters of [wc]: lines, words, characters, and [inword]. *)
Record counts := mkcounts { c_lines : Z; c_words : Z; c_chars : Z; c_inword : bool }.

Definition wc_white : list Z := [32; 13; 9; 10; 11].

(** The body of the loop of [wc] on one character. *)
Definition wc_char (x : counts) (c : Z) : counts :=
  let x := mkcounts (c_lines x) (c_words x) (c_chars x + 1) (c_inword x) in
  let x := if c =? 10 then mkcounts (c_lines x + 1) (c_words x) (c_chars x) (c_inword x) else x in
  if existsb (Z.eqb c) wc_white then mkcounts (c_lines x) (c_words x) (c_chars x) false
  else if negb (c_inword x) then mkcounts (c_lines x) (c_words x + 1) (c_chars x) true
  else x.

(** [for (i = 0; i < n; i++)], from address [p]. *)
Fixpoint wc_buf (n : nat) (m : Z -> Z) (p : Z) (x : counts) : counts :=
  match n with O => x | S n' => wc_buf n' m (p + 1) (wc_char x (m p)) end.

Fixpoint wc_loop (fuel : nat) (fd : Z) (x : counts) : UK (Z * counts) :=
  match fuel with
  | O => hang
  | S fuel' =>
      let! n := read fd buf CATBUF in
      if 0 <? n then
        let! m := Prelude.gets u_mem in
        wc_loop fuel' fd (wc_buf (Z.to_nat n) m buf x)
      else kret (n, x)
  end.

(** [fmt] is the address of the format [%d %d %d %s] and newline. *)
Definition wc (fuel : nat) (fd name fmt : Z) : UK unit :=
  let! '(n, x) := wc_loop fuel fd (mkcounts 0 0 0 false) in
  if n <? 0 then panic "wc: read error" else
  printf loc fuel fmt [c_lines x; c_words x; c_chars x; name].

(** [echo]: [blank] and [newline] are the addresses of its two string constants. *)
Fixpoint echo (fuel : nat) (blank newline : Z) (args : list Z) : UK Z :=
  match args with
  | [] => kret 0
  | a :: args' =>
      let! m := Prelude.gets u_mem in
      let! n := pure (ustrlen fuel m a) in
      write 1 a n ;;
      write 1 (match args' with [] => newline | _ => blank end) 1 ;;
      echo fuel blank newline args'
  end.
End Code.

(** [parse_nonnegative_int] of nice.c: [Some (Some v)] is success with the value [v],
    [Some None] the result -1; [None] is the end of the fuel. *)
Fixpoint parse_digits (fuel : nat) (m : Z -> Z) (text number : Z) : option (option Z) :=
  match fuel with
  | O => None
  | S fuel' =>
      if m text =? 0 then Some (Some number) else
      if (m text <? 48) || (57 <? m text) then Some None else
      let digit := m text - 48 in
      if Z.quot (0x7fffffff - digit) 10 <? number then Some None else
      parse_digits fuel' m (text + 1) (i32 (number * 10 + digit))
  end.
Definition parse_nonnegative_int (fuel : nat) (m : Z -> Z) (text : Z) : option (option Z) :=
  if m text =? 0 then Some None else parse_digits fuel m text 0.

Section Nice.
(** The system calls, and the addresses of the messages. *)
Context `{Sys} (loc : Z) (getpriority : Z -> UK Z) (setpriority : Z -> Z -> UK Z).
Context (msg_usage msg_pid msg_found msg_show msg_priority msg_failed msg_changed : Z).

Definition nice (fuel : nat) (argv : list Z) : UK Z :=
  let argc := length argv in
  let! m := Prelude.gets u_mem in
  if negb (argc =? 2)%nat && negb (argc =? 3)%nat then fprintf loc fuel 2 msg_usage [] ;; kret 1 else
  let arg i := nth i argv 0 in
  let! r := pure (parse_nonnegative_int fuel m (arg 1%nat)) in
  match r with
  | None => fprintf loc fuel 2 msg_pid [arg 1%nat] ;; kret 1
  | Some pid =>
      if pid =? 0 then fprintf loc fuel 2 msg_pid [arg 1%nat] ;; kret 1 else
      if (argc =? 2)%nat then
        let! priority := getpriority pid in
        if priority <? 0 then fprintf loc fuel 2 msg_found [pid] ;; kret 1 else
        printf loc fuel msg_show [pid; priority] ;; kret 0
      else
        let! m := Prelude.gets u_mem in
        let! r := pure (parse_nonnegative_int fuel m (arg 2%nat)) in
        match r with
        | None => fprintf loc fuel 2 msg_priority [arg 2%nat] ;; kret 1
        | Some priority =>
            let! k := setpriority pid priority in
            if k <? 0 then fprintf loc fuel 2 msg_failed [pid; priority] ;; kret 1 else
            printf loc fuel msg_changed [pid; priority] ;; kret 0
        end
  end.
End Nice.

(** ** cat *)
Section Spec.
Context `{SysOk} (buf loc : Z).

(** What a [read] leaves in the buffer. *)
Lemma read_buf fd s tr : byte_list (u_in s) -> runs (read fd buf CATBUF) s tr (fun n s' => exists l, u_in s = l ++ u_in s' /\ n = Z.of_nat (length l) /\ n <= CATBUF /\
  read_bytes (u_mem s') buf (length l) = l /\ (u_in s <> [] -> l <> []) /\ u_out s' = u_out s /\
  forall x, x < buf \/ buf + CATBUF <= x -> u_mem s' x = u_mem s x).
Proof.
  intros Hb. destruct (read_run fd buf CATBUF s tr ltac:(done)) as (k & E & Hk & Hl & Hp). eexists _, _. split; [exact E|].
  exists (take k (u_in s)). cbn [u_in u_mem u_out upd_field]. assert (Lk : length (take k (u_in s)) = k) by (rewrite length_take; lia).
  split; [by rewrite take_drop|]. split; [by rewrite Lk|]. split; [done|]. split; [apply read_write_bytes; by apply Forall_take|].
  split; [|split; [done|]].
  - intros Hne El. specialize (Hp ltac:(done) Hne). rewrite El in Lk. cbn in Lk. lia.
  - intros x Hx. apply write_bytes_other. rewrite Lk. lia.
Qed.

Lemma byte_list_rest l l' : byte_list (l ++ l') -> byte_list l'.
Proof. unfold byte_list. rewrite Forall_app. tauto. Qed.

Lemma cat_loop_runs fd tr fuel : forall s, byte_list (u_in s) -> (length (u_in s) < fuel)%nat ->
  runs (cat_loop buf fuel fd) s tr (fun n s' => n = 0 /\ u_in s' = [] /\ (exists chunks, u_out s' = u_out s ++ map (pair 1) chunks /\ concat chunks = u_in s) /\
    forall x, x < buf \/ buf + CATBUF <= x -> u_mem s' x = u_mem s x).
Proof.
  induction fuel as [|fuel IH]; intros s Hb Hf; [lia|]. cbn [cat_loop]. rstep (read_buf fd s tr Hb) as (l & E & -> & Hn & El & Hne & Eo & Ho). rename s' into s1.
  destruct (Z.ltb_spec 0 (Z.of_nat (length l))) as [Hl|Hl].
  - rstep (runs_det _ _ _ _ _ (write_run 1 buf (Z.of_nat (length l)) s1 tr ltac:(lia))) as [-> ->]. rewrite Z.eqb_refl. cbn [negb]. rewrite Nat2Z.id, El.
    set (s2 := s1 <| u_out := _ |>). rewrite E, length_app in Hf.
    rlast (IH s2) as (-> & I2 & (chunks & O2 & C2) & M2); [rewrite E in Hb; by apply byte_list_rest in Hb|cbn; lia|]. split; [done|]. split; [done|].
    split; [|intros x Hx; rewrite M2 by done; by apply Ho]. exists (l :: chunks). split; [rewrite O2; cbn; by rewrite Eo, <- app_assoc|]. cbn [concat]. rewrite C2. by symmetry.
  - assert (l = []) as -> by (destruct l; [done|cbn in Hl; lia]). apply runs_ret. cbn [app] in E. split; [done|].
    assert (u_in s = []) as Ei by (destruct (u_in s) eqn:Ei; [done|]; exfalso; by apply Hne). rewrite Ei in *. split; [done|].
    split; [|done]. exists []. by rewrite Eo, app_nil_r.
Qed.

(** [cat] copies its whole input, in order, to the standard output. *)
Theorem cat_spec fd s tr fuel : byte_list (u_in s) -> (length (u_in s) < fuel)%nat ->
  exists s' chunks, cat buf fuel fd s tr = Done tt s' tr /\ u_in s' = [] /\ u_out s' = u_out s ++ map (pair 1) chunks /\ concat chunks = u_in s.
Proof.
  intros Hb Hf. destruct (cat_loop_runs fd tr fuel s Hb Hf) as (n & s' & E & -> & I & (chunks & O & C) & _). exists s', chunks.
  split; [|done]. unfold cat. by kstep E.
Qed.

(** ** wc *)
Lemma wc_buf_fold m n : forall p x, wc_buf n m p x = foldl wc_char x (read_bytes m p n).
Proof. induction n as [|n IH]; intros p x; cbn [wc_buf read_bytes foldl]; [done|]. apply IH. Qed.

Lemma wc_loop_runs fd tr fuel : forall s x, byte_list (u_in s) -> (length (u_in s) < fuel)%nat ->
  runs (wc_loop buf fuel fd x) s tr (fun r s' => r = (0, foldl wc_char x (u_in s)) /\ u_in s' = [] /\ u_out s' = u_out s /\
    forall x, x < buf \/ buf + CATBUF <= x -> u_mem s' x = u_mem s x).
Proof.
  induction fuel as [|fuel IH]; intros s x Hb Hf; [lia|]. cbn [wc_loop]. rstep (read_buf fd s tr Hb) as (l & E & -> & Hn & El & Hne & Eo & Fr). rename s' into s1.
  destruct (Z.ltb_spec 0 (Z.of_nat (length l))) as [Hl|Hl].
  - rstep runs_gets as [-> ->]. rewrite Nat2Z.id, wc_buf_fold, El. rewrite E, length_app in Hf.
    rlast (IH s1 (foldl wc_char x l)) as (-> & I2 & O2 & F2); [rewrite E in Hb; by apply byte_list_rest in Hb|lia|].
    rewrite E, foldl_app. split; [done|]. split; [done|]. split; [congruence|]. intros y Hy. by rewrite F2, Fr.
  - assert (l = []) as -> by (destruct l; [done|cbn in Hl; lia]). apply runs_ret.
    assert (u_in s = []) as Ei by (destruct (u_in s) eqn:Ei; [done|]; exfalso; by apply Hne). rewrite Ei in *. cbn [app] in E. by rewrite <- E.
Qed.
End Spec.

(** The words of a text: the parts between white space that are not empty. *)
Fixpoint segments (l : list Z) : list (list Z) :=
  match l with
  | [] => [[]]
  | c :: l' =>
      if existsb (Z.eqb c) wc_white then [] :: segments l'
      else match segments l' with [] => [[c]] | w :: ws => (c :: w) :: ws end
  end.
Definition words (l : list Z) : list (list Z) := filter (fun w => w <> []) (segments l).
Definition newlines (l : list Z) : Z := Z.of_nat (length (filter (fun c => c = 10) l)).

(** The number of words that end after [l] begins, when a word has begun before it. *)
Definition more_words (inword : bool) (l : list Z) : Z :=
  Z.of_nat (length (words l)) - match segments l with (_ :: _) :: _ => if inword then 1 else 0 | _ => 0 end.

Lemma more_words_white b c l : existsb (Z.eqb c) wc_white = true -> more_words b (c :: l) = more_words false l.
Proof. intros Hc. unfold more_words, words. cbn [segments]. rewrite Hc, filter_cons_False by (by intros ?). by destruct (segments l) as [|[] ?]. Qed.

Lemma more_words_char b c l : existsb (Z.eqb c) wc_white = false ->
  more_words b (c :: l) = more_words true l + if b then 0 else 1.
Proof.
  intros Hc. unfold more_words, words. cbn [segments]. rewrite Hc. destruct (segments l) as [|w ws] eqn:E.
  - rewrite filter_cons_True by done. by destruct b.
  - rewrite filter_cons_True by done. destruct w as [|c' w].
    + rewrite filter_cons_False by (by intros ?). cbn [length]. destruct b; lia.
    + rewrite filter_cons_True by done. cbn [length]. destruct b; lia.
Qed.

Lemma wc_counts l : forall x, exists b, foldl wc_char x l =
  mkcounts (c_lines x + newlines l) (c_words x + more_words (c_inword x) l) (c_chars x + Z.of_nat (length l)) b.
Proof.
  induction l as [|c l IH]; intros [nl nw nc b]; cbn [foldl c_lines c_words c_chars c_inword].
  - exists b. change (newlines []) with 0. change (more_words b []) with 0. cbn [length]. f_equal; lia.
  - destruct (IH (wc_char (mkcounts nl nw nc b) c)) as [b' ->]. exists b'. unfold wc_char. cbn [c_lines c_words c_chars c_inword].
    assert (Nl : newlines (c :: l) = newlines l + if c =? 10 then 1 else 0).
    { unfold newlines. destruct (Z.eqb_spec c 10); [rewrite filter_cons_True by done|rewrite filter_cons_False by done]; cbn [length]; lia. }
    rewrite Nl. cbn [length]. destruct (existsb (Z.eqb c) wc_white) eqn:Ec; [rewrite (more_words_white b c l Ec)|rewrite (more_words_char b c l Ec)];
      destruct (c =? 10), b; cbn [c_lines c_words c_chars c_inword negb]; f_equal; lia.
Qed.

Definition wc_fmt : list Z := [37; 100; 32; 37; 100; 32; 37; 100; 32; 37; 115; 10].
Definition decimal (n : Z) : list Z := rev (uprint_buf (i32 n) 10 true).

Section WcSpec.
Context `{SysOk} (buf loc : Z).

Lemma wc_renders str l w c name v : v <> 0 -> str v name ->
  renders str wc_fmt [l; w; c; v] (decimal l ++ 32 :: decimal w ++ 32 :: decimal c ++ 32 :: name ++ [10]).
Proof.
  intros Hv Hs. unfold wc_fmt. apply (ren_number str [100] 10 true i32); [constructor|]. apply ren_char; [done|].
  apply (ren_number str [100] 10 true i32); [constructor|]. apply ren_char; [done|]. apply (ren_number str [100] 10 true i32); [constructor|]. apply ren_char; [done|].
  apply ren_s; [done|done|]. apply ren_char; [done|]. constructor.
Qed.

(** [wc] reads its whole input and prints the number of its lines (newlines),
    words and characters, in decimal, and the name; a word is a non-empty part between
    white space. *)
Theorem wc_spec fd fmt v name s tr fuel : byte_list (u_in s) -> v <> 0 -> safe loc (u_mem s) fmt wc_fmt -> safe loc (u_mem s) v name ->
  (fmt + 13 <= buf \/ buf + CATBUF <= fmt) -> (v + Z.of_nat (length name) < buf \/ buf + CATBUF <= v) ->
  (length (u_in s) + length name + 14 < fuel)%nat ->
  exists s', wc buf loc fuel fd v fmt s tr = Done tt s' tr /\ u_in s' = [] /\
    let l := u_in s in u_out s' = u_out s ++ outs 1 (decimal (newlines l) ++ 32 :: decimal (Z.of_nat (length (words l))) ++ 32 ::
      decimal (Z.of_nat (length l)) ++ 32 :: name ++ [10]).
Proof.
  intros Hb Hv [F1 F2] [N1 N2] Bf Bn Hf. destruct (wc_loop_runs buf fd tr fuel s (mkcounts 0 0 0 false) Hb) as (r & s1 & E & -> & I1 & O1 & Fr); [lia|].
  destruct (wc_counts (u_in s) (mkcounts 0 0 0 false)) as [b Ec]. cbn [c_lines c_words c_chars c_inword] in Ec. rewrite Ec in E.
  replace (0 + more_words false (u_in s)) with (Z.of_nat (length (words (u_in s)))) in E by (unfold more_words; destruct (segments _) as [|[] ?]; lia).
  assert (S1 : safe loc (u_mem s1) fmt wc_fmt) by (split; [apply (string_ext (u_mem s)); [done|]; intros x Hx; apply Fr; cbn in Hx; unfold CATBUF in *; lia|done]).
  assert (S2 : safe loc (u_mem s1) v name) by (split; [apply (string_ext (u_mem s)); [done|]; intros x Hx; apply Fr; lia|done]).
  set (str := fun (a : Z) (l : list Z) => a = v /\ l = name).
  pose proof (wc_renders str (newlines (u_in s)) (Z.of_nat (length (words (u_in s)))) (Z.of_nat (length (u_in s))) name v Hv (conj eq_refl eq_refl)) as R.
  pose proof (vprintf_runs loc str wc_fmt _ _ R fuel 1 fmt 0 s1 tr (S (length name))) as V.
  rewrite Z.add_0_r in V. destruct (V S1) as ([] & s2 & E2 & O2 & I2 & _); [intros a l [-> ->]; split; [done|lia]|cbn; lia|].
  exists s2. split; [|split; [congruence|by rewrite O2, O1]]. unfold wc. kstep E. cbn [Z.ltb Z.compare]. exact E2.
Qed.
End WcSpec.

(** ** The numbers of nice *)
Definition isdigit (c : Z) : Prop := 48 <= c <= 57.
#[local] Instance isdigit_dec c : Decision (isdigit c).
Proof. unfold isdigit. apply _. Defined.

Lemma horner_grows l : Forall isdigit l -> forall n, 0 <= n -> n <= horner l n.
Proof.
  induction 1 as [|c l Hc H IH]; intros n Hn; cbn [horner foldl]; [done|]. unfold isdigit in Hc.
  etrans; [|apply IH; lia]. lia.
Qed.

Lemma parse_digits_run m text : forall fuel a n, 0 <= n < 2 ^ 31 -> string_at m a text -> (length text < fuel)%nat ->
  parse_digits fuel m a n = Some (if decide (Forall isdigit text /\ horner text n < 2 ^ 31) then Some (horner text n) else None).
Proof.
  induction text as [|c text IH]; intros [|fuel] a n Hn Hs Hf; cbn [length] in Hf; try lia; cbn [parse_digits].
  - rewrite (string_head _ _ _ Hs). cbn [default head Z.eqb]. rewrite decide_True; [done|]. split; [constructor|cbn; lia].
  - apply string_tail in Hs as (Hc & -> & Hs). rewrite (proj2 (Z.eqb_neq c 0)) by done.
    destruct ((c <? 48) || (57 <? c)) eqn:Ed; [rewrite decide_False; [done|]; intros [[Hd _]%Forall_cons _]; unfold isdigit in Hd; lia|].
    rewrite Z.quot_div_nonneg by lia. pose proof (Z.div_mod (0x7fffffff - (c - 48)) 10 ltac:(lia)) as D. pose proof (Z.mod_pos_bound (0x7fffffff - (c - 48)) 10 ltac:(lia)) as M.
    set (q := (0x7fffffff - (c - 48)) / 10) in *. cbn [horner foldl]. fold (horner text (n * 10 + c - 48)). destruct (Z.ltb_spec q n) as [Hg|Hg].
    + rewrite decide_False; [done|]. intros [[_ Hd]%Forall_cons Hv]. pose proof (horner_grows text Hd (n * 10 + c - 48) ltac:(lia)). lia.
    + unfold i32. rewrite Z.mod_small by lia. replace (n * 10 + (c - 48) + 2 ^ 31 - 2 ^ 31) with (n * 10 + c - 48) by lia.
      rewrite IH by (done || lia). assert (Hd : isdigit c) by (unfold isdigit; lia).
      destruct (decide (Forall isdigit text /\ _)) as [[H1 H2]|H1]; [rewrite decide_True by (split; [by constructor|done])|rewrite decide_False]; try done.
      intros [[_ H2]%Forall_cons H3]. tauto.
Qed.

(** [parse_nonnegative_int] succeeds exactly on a non-empty string of digits whose
    value fits an [int], and then returns that value: its test for overflow is exact. *)
Theorem parse_nonnegative_int_spec m a text fuel : string_at m a text -> (length text < fuel)%nat ->
  exists r, parse_nonnegative_int fuel m a = Some r /\
    forall v, r = Some v <-> text <> [] /\ Forall isdigit text /\ horner text 0 = v /\ v < 2 ^ 31.
Proof.
  intros Hs Hf. unfold parse_nonnegative_int. destruct text as [|c text].
  - rewrite (string_head _ _ _ Hs). exists None. split; [done|]. intros v. split; [done|]. by intros [? _].
  - pose proof (string_tail _ _ _ _ Hs) as (Hc & -> & _). rewrite (proj2 (Z.eqb_neq c 0)) by done. eexists.
    split; [by apply (parse_digits_run m (c :: text))|]. intros v. destruct (decide _) as [[H1 H2]|H1].
    + split; [by intros [= <-]|]. by intros (_ & _ & -> & _).
    + split; [done|]. intros (_ & H2 & <- & H3). tauto.
Qed.

(** ** Examples *)
Definition demo_words : ustate := mkustate (write_bytes (write_bytes (fun _ => 0) 100 wc_fmt) 200 [102]) [97; 32; 98; 10] [] 0 0.

Lemma demo_words_safe v l : v = 100 /\ l = wc_fmt \/ v = 200 /\ l = [102] -> safe 50 (u_mem demo_words) v l.
Proof.
  intros [[-> ->]|[-> ->]]; (split; [|cbn; lia]); (split; [|reflexivity|by repeat constructor]).
  - intros i c Hi. do 12 (destruct i as [|i]; [injection Hi as <-; reflexivity|]). done.
  - intros [|i] c [= <-]; reflexivity.
Qed.

Lemma cat_spec_witness : exists s' chunks, @cat demo_sys 1000 5 0 demo_words [] = Done tt s' [] /\ u_out s' = map (pair 1) chunks /\ concat chunks = [97; 32; 98; 10].
Proof.
  destruct (@cat_spec demo_sys demo_sys_ok 1000 0 demo_words [] 5) as (s' & chunks & E & _ & O & C).
  - repeat constructor; lia.
  - cbn. lia.
  - exists s', chunks. split; [exact E|]. split; [exact O|exact C].
Defined.

Lemma wc_spec_witness : exists s', @wc demo_sys 1000 50 30 0 200 100 demo_words [] = Done tt s' [] /\
  u_out s' = outs 1 [49; 32; 50; 32; 52; 32; 102; 10].
Proof.
  destruct (@wc_spec demo_sys demo_sys_ok 1000 50 0 100 200 [102] demo_words [] 30) as (s' & E & _ & O).
  - repeat constructor; lia.
  - lia.
  - apply demo_words_safe. left. split; reflexivity.
  - apply demo_words_safe. right. split; reflexivity.
  - left. lia.
  - left. cbn. lia.
  - cbn. lia.
  - exists s'. split; [exact E|exact O].
Defined.

Lemma parse_nonnegative_int_spec_witness : parse_nonnegative_int 11 (write_bytes (fun _ => 0) 300 [52; 50]) 300 = Some (Some 42).
Proof.
  destruct (parse_nonnegative_int_spec (write_bytes (fun _ => 0) 300 [52; 50]) 300 [52; 50] 11) as (r & E & Hr).
  - apply string_write; [|reflexivity]. repeat constructor; lia.
  - cbn. lia.
  - rewrite E. apply f_equal, Hr. split; [discriminate|]. split; [repeat constructor; unfold isdigit; lia|]. split; [reflexivity|lia].
Defined.
