(* ===== verification/UMain.v ===== *)
(** * The main functions (user/cat.c, wc.c, grep.c, kill.c, ln.c, mkdir.c, rm.c,
      sync.c, zombie.c, sh.c) and the name column of ls.c

    A main function gets the addresses of its arguments, [argv[0]] first, and
    returns its exit status.  The system calls beyond those of [Sys] are
    parameters; string constants are addresses.  A program that handles its
    arguments one by one is [for_args] with the body of its loop. *)

From stdpp Require Import prelude list strings.
From Stdlib Require Import ZArith Lia ZifyBool.
From S2P Require Import Prelude State CString Fs Syscall ULib UGrep UPrintf UProgs.
Local Open Scope Z_scope.

(** [for (i = ...; i < argc; i++) body(argv[i])]; the body returns a status to
    [exit] with it. *)
Fixpoint for_args (body : Z -> UK (option Z)) (args : list Z) : UK (option Z) :=
  match args with
  | [] => kret None
  | a :: args' =>
      let! r := body a in
      match r with Some status => kret (Some status) | None => for_args body args' end
  end.

(** [exit(0)] after the loop. *)
Definition or_exit0 (c : UK (option Z)) : UK Z := let! r := c in kret (default 0 r).

Section Code.
Context `{Sys} (buf loc : Z) (open : Z -> Z -> UK Z) (close : Z -> UK Z).

Definition cat_main (fuel : nat) (msg : Z) (argv : list Z) : UK Z :=
  if (length argv <=? 1)%nat then cat buf fuel 0 ;; kret 0 else
  or_exit0 (for_args (fun arg =>
    let! fd := open arg O_RDONLY in
    if fd <? 0 then fprintf loc fuel 2 msg [arg] ;; kret (Some 1) else
    cat buf fuel fd ;;
    close fd ;;
    kret None) (tail argv)).

(** [empty] is the address of the empty name. *)
Definition wc_main (fuel : nat) (fmt empty msg : Z) (argv : list Z) : UK Z :=
  if (length argv <=? 1)%nat then wc buf loc fuel 0 empty fmt ;; kret 0 else
  or_exit0 (for_args (fun arg =>
    let! fd := open arg O_RDONLY in
    if fd <? 0 then printf loc fuel msg [arg] ;; kret (Some 1) else
    wc buf loc fuel fd arg fmt ;;
    close fd ;;
    kret None) (tail argv)).

Definition grep_main (fuel deep : nat) (usage msg : Z) (argv : list Z) : UK Z :=
  if (length argv <=? 1)%nat then fprintf loc fuel 2 usage [] ;; kret 1 else
  let pattern := nth 1 argv 0 in
  if (length argv <=? 2)%nat then grep buf fuel deep pattern 0 ;; kret 0 else
  or_exit0 (for_args (fun arg =>
    let! fd := open arg O_RDONLY in
    if fd <? 0 then printf loc fuel msg [arg] ;; kret (Some 1) else
    grep buf fuel deep pattern fd ;;
    close fd ;;
    kret None) (drop 2 argv)).
End Code.

Section Calls.
Context `{Sys} (loc : Z) (kill : Z -> UK Z) (link : Z -> Z -> UK Z) (mkdir unlink : Z -> UK Z) (sync : UK Z).
Context (fork : UK Z) (pause : Z -> UK Z).

Definition kill_main (fuel : nat) (usage : Z) (argv : list Z) : UK Z :=
  if (length argv <? 2)%nat then fprintf loc fuel 2 usage [] ;; kret 1 else
  or_exit0 (for_args (fun arg =>
    let! m := Prelude.gets u_mem in
    let! pid := pure (atoi fuel m arg) in
    kill pid ;;
    kret None) (tail argv)).

Definition ln_main (fuel : nat) (usage msg : Z) (argv : list Z) : UK Z :=
  if negb (length argv =? 3)%nat then fprintf loc fuel 2 usage [] ;; kret 1 else
  let! r := link (nth 1 argv 0) (nth 2 argv 0) in
  when (r <? 0) (fprintf loc fuel 2 msg [nth 1 argv 0; nth 2 argv 0]) ;;
  kret 0.

(** A failure leaves the loop and the status is 0 all the same. *)
Definition mkdir_main (fuel : nat) (usage msg : Z) (argv : list Z) : UK Z :=
  if (length argv <? 2)%nat then fprintf loc fuel 2 usage [] ;; kret 1 else
  or_exit0 (for_args (fun arg =>
    let! r := mkdir arg in
    if r <? 0 then fprintf loc fuel 2 msg [arg] ;; kret (Some 0) else kret None) (tail argv)).

Definition rm_main (fuel : nat) (usage msg : Z) (argv : list Z) : UK Z :=
  if (length argv <? 2)%nat then fprintf loc fuel 2 usage [] ;; kret 1 else
  or_exit0 (for_args (fun arg =>
    let! r := unlink arg in
    if r <? 0 then fprintf loc fuel 2 msg [arg] ;; kret (Some 0) else kret None) (tail argv)).

Definition sync_main : UK Z := let! _ := sync in kret 0.

Definition zombie_main : UK Z :=
  let! pid := fork in
  (if 0 <? pid then let! _ := pause 5 in kret tt else kret tt) ;;
  kret 0.

(** sh.c: [prompt] is the address of the prompt, [c] that of the local variable
    of [gets]. *)
Definition getcmd (prompt c buf nbuf : Z) : UK Z :=
  write 2 prompt 2 ;;
  modify (fun s => s <| u_mem := umemset (u_mem s) buf 0 nbuf |>) ;;
  ULib.gets c buf nbuf ;;
  let! b := Prelude.gets (fun s => u_mem s buf) in
  if b =? 0 then kret (-1) else kret 0.
End Calls.

(** sh.c: the addresses of the prompt, of the name of the console, of the message, of
    the local variable of [gets], of [putc]'s byte and of [buf]; [child] is what the
    child process does with the line, and ends with its status. *)
Section Shell.
Context `{Sys} (prompt console msg c loc buf : Z) (deep : nat).
Context (open : Z -> Z -> UK Z) (close chdir wait : Z -> UK Z) (fork : UK Z) (child : Z -> UK Z).

Definition SHBUF : Z := 100.

(** [while (( *cmd == ' ' || *cmd == '\t')) cmd++]. *)
Fixpoint skip_blanks (fuel : nat) (m : Z -> Z) (cmd : Z) : option Z :=
  match fuel with
  | O => None
  | S fuel' => if (m cmd =? 32) || (m cmd =? 9) then skip_blanks fuel' m (cmd + 1) else Some cmd
  end.

(** The body of the loop after the line has been read. *)
Definition sh_line (cmd : Z) : UK (option Z) :=
  let! m := Prelude.gets u_mem in
  if m cmd =? 10 then kret None else
  if (m cmd =? 99) && (m (cmd + 1) =? 100) && (m (cmd + 2) =? 32) then
    let! n := pure (ustrlen (S (Z.to_nat SHBUF)) m cmd) in
    modify (fun s => s <| u_mem := store8 (u_mem s) (cmd + u32 (n - 1)) 0 |>) ;;
    let! r := chdir (cmd + 3) in
    when (r <? 0) (fprintf loc deep 2 msg [cmd + 3]) ;;
    kret None
  else
    let! pid := fork in
    if pid =? -1 then panic "fork" else
    if pid =? 0 then let! status := child cmd in kret (Some status) else
    wait 0 ;;
    kret None.

Fixpoint sh_loop (fuel : nat) : UK Z :=
  match fuel with
  | O => hang
  | S fuel' =>
      let! r := getcmd prompt c buf SHBUF in
      if r <? 0 then kret 0 else
      let! m := Prelude.gets u_mem in
      let! cmd := pure (skip_blanks (S (Z.to_nat SHBUF)) m buf) in
      let! e := sh_line cmd in
      match e with Some status => kret status | None => sh_loop fuel' end
  end.

Fixpoint open_three (fuel : nat) : UK unit :=
  match fuel with
  | O => hang
  | S fuel' =>
      let! fd := open console O_RDWR in
      if fd <? 0 then kret tt else
      if 3 <=? fd then close fd ;; kret tt else open_three fuel'
  end.

Definition sh_main (fuel : nat) : UK Z := open_three fuel ;; sh_loop fuel.
End Shell.

(** ls.c: the search for the last slash, from [p] down, and [fmtname] with its
    static buffer [buf]. *)
Fixpoint last_slash (fuel : nat) (m : Z -> Z) (path p : Z) : option Z :=
  match fuel with
  | O => None
  | S fuel' => if (path <=? p) && negb (m p =? SLASH) then last_slash fuel' m path (p - 1) else Some p
  end.

Definition fmtname (fuel : nat) (m : Z -> Z) (buf path : Z) : option ((Z -> Z) * Z) :=
  match ustrlen fuel m path with
  | None => None
  | Some n =>
      match last_slash fuel m path (path + n) with
      | None => None
      | Some p =>
          let p := p + 1 in
          match ustrlen fuel m p with
          | None => None
          | Some k =>
              if Z.of_nat DIRSIZ <=? k then Some (m, p) else
              let m := umemmove m buf p k in
              match ustrlen fuel m p with
              | None => None
              | Some k =>
                  let m := umemset m (buf + k) 32 (u32 (Z.of_nat DIRSIZ - k)) in
                  Some (store8 m (buf + Z.of_nat DIRSIZ) 0, buf)
              end
          end
      end
  end.

Lemma renders_text str d f ap t : Forall (fun c => c <> 37) d -> renders str f ap t -> renders str (d ++ f) ap (d ++ t).
Proof. induction 1 as [|c d Hc Hd IH]; intros R; cbn; [done|]. constructor; [done|]. by apply IH. Qed.

(** A message with one string in it. *)
Lemma message_runs `{SysOk} loc fuel msg d a name s tr : Forall (fun c => c <> 37) d -> safe loc (u_mem s) msg (d ++ [37; 115; 10]) ->
  a <> 0 -> safe loc (u_mem s) a name -> (length d + length name + 5 < fuel)%nat ->
  runs (fprintf loc fuel 2 msg [a]) s tr (fun _ s' => printed loc 2 (d ++ name ++ [10]) s s').
Proof.
  intros Hd Hm Ha Hn Hf. pose (str := fun (v : Z) (l : list Z) => v = a /\ l = name).
  assert (R : renders str (d ++ [37; 115; 10]) [a] (d ++ name ++ [10])).
  { apply renders_text; [done|]. apply ren_s; [done|done|]. apply ren_char; [done|]. constructor. }
  pose proof (vprintf_runs loc str _ _ _ R fuel 2 msg 0 s tr (S (length name))) as V. rewrite Z.add_0_r in V.
  apply V; [done|intros v l [-> ->]; split; [done|lia]|]. rewrite length_app. cbn [length]. lia.
Qed.

(** ** Reading a line *)
(** The bytes that [gets] takes: up to [n], to the end of the line or of the input. *)
Fixpoint taken (n : nat) (l : list Z) : list Z :=
  match n, l with
  | S n', c :: l' => if (c =? 10) || (c =? 13) then [c] else c :: taken n' l'
  | _, _ => []
  end.

Lemma taken_length n l : (length (taken n l) <= n)%nat.
Proof. revert l. induction n as [|n IH]; intros [|c l]; cbn; try lia. destruct (_ || _); cbn; [lia|]. specialize (IH l). lia. Qed.

Lemma taken_prefix n l : taken n l ++ drop (length (taken n l)) l = l.
Proof. revert l. induction n as [|n IH]; intros [|c l]; cbn; try done. destruct (_ || _); cbn; [done|]. by rewrite IH. Qed.

Lemma write_bytes_cong l : forall m m' a x, m x = m' x -> write_bytes m a l x = write_bytes m' a l x.
Proof.
  induction l as [|b l IH]; intros m m' a x Hx; [done|]. apply IH. unfold store8. by rewrite Hx.
Qed.

Lemma write_bytes_app l l2 : forall m a, write_bytes m a (l ++ l2) = write_bytes (write_bytes m a l) (a + Z.of_nat (length l)) l2.
Proof.
  induction l as [|b l IH]; intros m a; cbn [app length]; [by rewrite Z.add_0_r|].
  change (write_bytes m a (b :: l ++ l2)) with (write_bytes (store8 m a b) (a + 1) (l ++ l2)). rewrite IH.
  change (write_bytes m a (b :: l)) with (write_bytes (store8 m a b) (a + 1) l). f_equal. lia.
Qed.

Section Line.
Context `{SysOk} (c buf max : Z).
Hypothesis Hc : ~ (buf <= c < buf + max).

Lemma getc_runs s tr : byte_list (u_in s) -> runs (read 0 c 1) s tr (fun n s' => u_out s' = u_out s /\
  match u_in s with
  | [] => n = 0 /\ u_in s' = [] /\ u_mem s' = u_mem s
  | x :: l => n = 1 /\ u_in s' = l /\ u_mem s' = store8 (u_mem s) c x
  end).
Proof.
  intros Hb. destruct (read_run 0 c 1 s tr ltac:(lia)) as (k & E & Hk & Hl & Hp). eexists _, _. split; [exact E|].
  cbn [u_in u_mem u_out upd_field]. split; [done|]. destruct (u_in s) as [|x l] eqn:Ei.
  - cbn in Hl. assert (k = 0%nat) as -> by lia. done.
  - specialize (Hp ltac:(lia) ltac:(done)). assert (k = 1%nat) as -> by lia. done.
Qed.

Lemma gets_loop_runs tr fuel : forall i s, byte_list (u_in s) -> 0 <= i -> (Z.to_nat (max - i) < fuel)%nat ->
  runs (gets_loop fuel c buf max i) s tr (fun j s' => let l := taken (Z.to_nat (max - 1 - i)) (u_in s) in
    j = i + Z.of_nat (length l) /\ u_in s' = drop (length l) (u_in s) /\ u_out s' = u_out s /\
    forall x, x <> c -> u_mem s' x = write_bytes (u_mem s) (buf + i) l x).
Proof.
  induction fuel as [|fuel IH]; intros i s Hb Hi Hf; [lia|]. cbn [gets_loop]. destruct (Z.ltb_spec (i + 1) max) as [Hm|Hm].
  2:{ apply runs_ret. replace (Z.to_nat (max - 1 - i)) with 0%nat by lia. cbn. rewrite Z.add_0_r. done. }
  replace (Z.to_nat (max - 1 - i)) with (S (Z.to_nat (max - 1 - (i + 1)))) by lia.
  rstep (getc_runs s tr Hb) as (O1 & Hr). rename s' into s1. destruct (u_in s) as [|x l] eqn:Ei.
  { destruct Hr as (-> & I1 & M1). cbn [Z.ltb Z.compare]. apply runs_ret. cbn. rewrite Z.add_0_r, M1. done. }
  destruct Hr as (-> & I1 & M1). cbn [Z.ltb Z.compare taken]. apply Forall_cons in Hb as [Hx Hb].
  assert (Ex : u_mem s1 c = x) by (rewrite M1; unfold store8; rewrite Z.eqb_refl; by apply u8_byte).
  rstep (runs_modify (fun s => s <| u_mem := store8 (u_mem s) (buf + i) (u_mem s c) |>) s1 tr) as ->. rewrite Ex.
  set (s2 := s1 <| u_mem := _ |>).
  assert (E2 : u_mem s2 c = x) by (subst s2; cbn; unfold store8; rewrite Ex; case_match; [by apply u8_byte|done]).
  assert (M2 : forall y, y <> c -> u_mem s2 y = store8 (u_mem s) (buf + i) x y)
    by (intros y Hy; subst s2; cbn; rewrite M1; unfold store8; repeat case_match; try done; lia).
  rstep (runs_gets (fun s => u_mem s c) s2 tr) as [-> ->]. rewrite E2. destruct (_ || _).
  - apply runs_ret. cbn [length drop]. split; [lia|]. split; [done|]. split; [done|]. exact M2.
  - rlast (IH (i + 1) s2) as (-> & I3 & O3 & M3); [subst s2; cbn; by rewrite I1|lia|lia|].
    assert (I2 : u_in s2 = l) by done. rewrite I2 in *. cbn [length drop]. split; [lia|]. split; [done|]. split; [by rewrite O3|].
    intros y Hy. rewrite M3 by done. rewrite Z.add_assoc. exact (write_bytes_cong _ (u_mem s2) _ _ y (M2 y Hy)).
Qed.

(** The line, terminated, is in the buffer. *)
Lemma gets_runs s tr : byte_list (u_in s) -> 0 < max ->
  runs (ULib.gets c buf max) s tr (fun a s' => let l := taken (Z.to_nat (max - 1)) (u_in s) in
    a = buf /\ u_in s = l ++ u_in s' /\ u_out s' = u_out s /\
    forall x, x <> c -> u_mem s' x = write_bytes (u_mem s) buf (l ++ [0]) x).
Proof.
  intros Hb Hm. unfold ULib.gets. rstep (gets_loop_runs tr (S (Z.to_nat max)) 0 s Hb) as (-> & I & O & M); [lia|lia|]. rewrite Z.sub_0_r, !Z.add_0_r in *.
  set (l := taken _ _) in *. rename s' into s1. eapply runs_bind; [apply runs_modify|]. intros [] s2 ->. apply runs_ret.
  split; [done|]. split; [cbn; rewrite I; symmetry; apply taken_prefix|]. split; [done|]. intros x Hx. cbn. rewrite ?Z.add_0_l. unfold store8.
  destruct (Z.eqb_spec x (buf + Z.of_nat (length l))) as [->|Hne].
  - rewrite (write_bytes_at (l ++ [0]) _ buf (length l) 0); [done|]. by rewrite lookup_app_r, Nat.sub_diag by lia.
  - rewrite M by done. rewrite write_bytes_app. unfold write_bytes at 2. unfold store8. by rewrite (proj2 (Z.eqb_neq _ _) Hne).
Qed.
End Line.

(** At the prompt: one line is taken from the input, the buffer holds it with nothing
    but zeroes after it, and the answer is -1 exactly if there was no text. *)
Theorem getcmd_spec `{SysOk} prompt c buf nbuf s tr : byte_list (u_in s) -> 0 < nbuf -> ~ (buf <= c < buf + nbuf) ->
  exists s', getcmd prompt c buf nbuf s tr = Done (if decide (u_mem s' buf = 0) then -1 else 0) s' tr /\
    let l := taken (Z.to_nat (nbuf - 1)) (u_in s) in
    u_in s = l ++ u_in s' /\ u_out s' = u_out s ++ [(2, read_bytes (u_mem s) prompt 2)] /\
    read_bytes (u_mem s') buf (Z.to_nat nbuf) = l ++ replicate (Z.to_nat nbuf - length l) 0 /\
    forall x, x <> c -> ~ (buf <= x < buf + nbuf) -> u_mem s' x = u_mem s x.
Proof.
  intros Hb Hn Hc. pose proof (write_run 2 prompt 2 s tr ltac:(lia)) as E1. change (Z.to_nat 2) with 2%nat in E1.
  set (s1 := s <| u_out := u_out s ++ [(2, read_bytes (u_mem s) prompt 2)] |>). set (s2 := s1 <| u_mem := umemset (u_mem s1) buf 0 nbuf |>).
  assert (E2 : modify (fun s : ustate => s <| u_mem := umemset (u_mem s) buf 0 nbuf |>) s1 tr = Done tt s2 tr) by done.
  destruct (gets_runs c buf nbuf Hc s2 tr) as (a & s3 & E3 & -> & I3 & O3 & M3); [done|lia|].
  set (l := taken _ _) in *. change (u_in s2) with (u_in s) in *. exists s3. split.
  { unfold getcmd. kstep E1. kstep E2. kstep E3. cbn. destruct (Z.eqb_spec (u_mem s3 buf) 0); case_decide; done. }
  split; [done|]. split; [done|]. pose proof (taken_length (Z.to_nat (nbuf - 1)) (u_in s)) as Hl. fold l in Hl.
  assert (M2 : forall x, u_mem s2 x = if (buf <=? x) && (x <? buf + nbuf) then 0 else u_mem s x) by (intros x; exact (memset_spec (u_mem s) buf 0 nbuf x)).
  split; [|intros x Hx1 Hx2; rewrite M3, write_bytes_other, M2 by (rewrite ?length_app; cbn [length]; lia); case_match; [lia|done]].
  replace (Z.to_nat nbuf) with (length l + (Z.to_nat nbuf - length l))%nat at 1 by lia. rewrite read_bytes_app. f_equal.
  - rewrite (read_bytes_ext _ _ (write_bytes (u_mem s2) buf l)); [apply read_write_bytes; rewrite I3 in Hb; by apply Forall_app in Hb as [? _]|].
    intros x Hx. rewrite M3 by lia. rewrite write_bytes_app. apply write_bytes_other. cbn [length]. lia.
  - apply list_eq_same_length with (Z.to_nat nbuf - length l)%nat; rewrite ?length_read_bytes, ?length_replicate; try done.
    intros i x y Hi. rewrite read_bytes_lookup by done. rewrite lookup_replicate_2 by done. intros [= <-] [= <-].
    rewrite M3 by lia. rewrite write_bytes_app. destruct i as [|i].
    + by rewrite (write_bytes_at [0] _ (buf + Z.of_nat (length l)) 0%nat 0).
    + rewrite !write_bytes_other by (cbn [length]; lia). rewrite M2. case_match; [done|lia].
Qed.

(** ** The shell's loop *)
Lemma skip_blanks_run m l : forall fuel a, string_at m a l -> (length l < fuel)%nat ->
  exists l1 l2, l = l1 ++ l2 /\ skip_blanks fuel m a = Some (a + Z.of_nat (length l1)).
Proof.
  induction l as [|x l IH]; intros [|fuel] a Hs Hf; cbn [length] in Hf; try lia; cbn [skip_blanks].
  - rewrite (string_head m a [] Hs). exists [], []. cbn. by rewrite Z.add_0_r.
  - pose proof (string_tail m a x l Hs) as (_ & _ & Ht). destruct (_ || _).
    + destruct (IH fuel (a + 1) Ht ltac:(lia)) as (l1 & l2 & -> & ->). exists (x :: l1), l2. split; [done|]. f_equal. cbn [length]. lia.
    + exists [], (x :: l). split; [done|]. f_equal. cbn [length]. lia.
Qed.

(** A buffer that holds a text without zeroes and then zeroes holds a string. *)
Lemma buffer_string m a l n : read_bytes m a n = l ++ replicate (n - length l) 0 -> (length l < n)%nat -> 0 ∉ l -> string_at m a l.
Proof.
  intros E Hl Hz. assert (L : forall i x, (l ++ replicate (n - length l) 0) !! i = Some x -> m (a + Z.of_nat i) = x).
  { intros i x Hi. rewrite <- E in Hi. pose proof (lookup_lt_Some _ _ _ Hi) as Hn. rewrite length_read_bytes in Hn.
    rewrite read_bytes_lookup in Hi by done. by injection Hi. }
  split.
  - intros i x Hi. apply L. by apply lookup_app_l_Some.
  - apply L. rewrite lookup_app_r, Nat.sub_diag by lia. apply lookup_replicate_2. lia.
  - apply Forall_forall. intros x Hx ->. by apply Hz.
Qed.

(** [cannot cd %s] and newline: the text before the directive. *)
Definition sh_text : list Z := [99; 97; 110; 110; 111; 116; 32; 99; 100; 32].

(** [cmd] without its last character, from the fourth on. *)
Lemma chopped_string m cmd x1 x2 x3 t : string_at m cmd (x1 :: x2 :: x3 :: t) ->
  exists name, string_at (store8 m (cmd + 2 + Z.of_nat (length t)) 0) (cmd + 3) name /\ (length name <= length t)%nat.
Proof.
  intros Hs. pose proof (string_app m [x1; x2; x3] cmd t Hs) as Ht. cbn [length] in Ht. change (Z.of_nat 3) with 3 in Ht.
  destruct t as [|z t _] using rev_ind.
  - exists []. split; [|done]. apply (string_ext m); [done|]. intros x Hx. cbn [length] in *. unfold store8. case_match; lia.
  - exists t. rewrite length_app. cbn [length]. split; [|lia]. apply string_cut in Ht as [Ht _].
    replace (cmd + 2 + Z.of_nat (length t + 1)) with (cmd + 3 + Z.of_nat (length t)) by lia. done.
Qed.

Section ShellSpec.
Context `{SysOk} (prompt console msg c loc buf : Z) (deep : nat).
Context (chdir wait : Z -> UK Z) (fork : UK Z) (child : Z -> UK Z).

(** What the parent sees of the system calls: they leave its memory and input alone. *)
Hypothesis Hchdir : forall a s tr, runs (chdir a) s tr (fun _ s' => u_mem s' = u_mem s /\ u_in s' = u_in s).
Hypothesis Hwait : forall a s tr, runs (wait a) s tr (fun _ s' => u_mem s' = u_mem s /\ u_in s' = u_in s).
Hypothesis Hfork : forall s tr, runs fork s tr (fun pid s' => 0 < pid /\ u_mem s' = u_mem s /\ u_in s' = u_in s).
Hypothesis Hbuf : 0 < buf.
Hypothesis Hloc : ~ (buf <= loc < buf + SHBUF).
Hypothesis Hc : ~ (buf <= c < buf + SHBUF).
Hypothesis Hdeep : (120 < deep)%nat.

(** Nothing outside the shell's variables has changed. *)
Definition same_outside (m m' : Z -> Z) : Prop := forall x, x <> c -> x <> loc -> ~ (buf <= x < buf + SHBUF) -> m' x = m x.

Lemma sh_line_runs cmd l s tr : string_at (u_mem s) cmd l -> buf <= cmd -> cmd + Z.of_nat (length l) < buf + SHBUF ->
  safe loc (u_mem s) msg (sh_text ++ [37; 115; 10]) -> ~ (msg - SHBUF < buf <= msg + 13) ->
  runs (sh_line msg loc deep chdir wait fork child cmd) s tr (fun e s' => e = None /\ u_in s' = u_in s /\ same_outside (u_mem s) (u_mem s')).
Proof.
  intros Hs Hlo Hhi Hm Hd. unfold sh_line. rstep (runs_gets u_mem s tr) as [-> ->]. destruct (_ =? 10); [by apply runs_ret|].
  destruct (_ && _) eqn:Ecd.
  - destruct l as [|x1 [|x2 [|x3 t]]].
    + pose proof (string_head _ _ _ Hs). cbn in *. lia.
    + pose proof (string_tail _ _ _ _ Hs) as (_ & _ & Ht). pose proof (string_head _ _ _ Ht). cbn in *. lia.
    + pose proof (string_tail _ _ _ _ Hs) as (_ & _ & Ht). pose proof (string_tail _ _ _ _ Ht) as (_ & _ & Hu). pose proof (string_head _ _ _ Hu) as Hz.
      replace (cmd + 1 + 1) with (cmd + 2) in Hz by lia. cbn in *. lia.
    + cbn [length] in Hhi. rstep (runs_det _ _ _ _ _ (pure_run _ (0 + Z.of_nat (length (x1 :: x2 :: x3 :: t))) s tr
        (ustrlen_run _ _ (S (Z.to_nat SHBUF)) cmd 0 ltac:(by rewrite Z.add_0_r) ltac:(cbn [length]; unfold SHBUF in *; lia)))) as [-> ->].
      cbn [length]. eapply runs_bind; [apply runs_modify|]. intros [] s1 ->. unfold u32. rewrite Z.mod_small by (unfold SHBUF in *; lia).
      replace (cmd + (0 + Z.of_nat (S (S (S (length t)))) - 1)) with (cmd + 2 + Z.of_nat (length t)) by lia.
      destruct (chopped_string _ _ _ _ _ _ Hs) as (name & Hname & Hln). set (s1 := s <| u_mem := store8 (u_mem s) _ 0 |>).
      assert (O1 : forall x, ~ (buf <= x < buf + SHBUF) -> u_mem s1 x = u_mem s x)
        by (intros x Hx; subst s1; cbn; unfold store8; case_match; [lia|done]).
      rstep (Hchdir (cmd + 3) s1 tr) as [M2 I2]. rename s' into s2. change (string_at (u_mem s1) (cmd + 3) name) in Hname.
      assert (W : runs (when (a <? 0) (fprintf loc deep 2 msg [cmd + 3])) s2 tr (fun _ s' => u_in s' = u_in s2 /\ forall x, x <> loc -> u_mem s' x = u_mem s2 x)).
      { destruct (a <? 0); [|by apply runs_ret]. eapply runs_impl; [apply (message_runs loc deep msg sh_text (cmd + 3) name)|intros ? ? (_ & I & _ & _ & M); done].
        - by repeat constructor.
        - destruct Hm as [Hm1 Hm2]. split; [|done]. apply (string_ext (u_mem s)); [done|]. intros x Hx. rewrite M2. apply O1. cbn in Hx. lia.
        - lia.
        - rewrite M2. split; [done|]. lia.
        - cbn [length sh_text]. unfold SHBUF in *. lia. }
      rstep W as [I3 M3]. apply runs_ret. split; [done|]. split; [rewrite I3, I2; done|]. intros x _ Hx1 Hx2. rewrite M3, M2 by done. by apply O1.
  - rstep (Hfork s tr) as (Hp & M1 & I1). rewrite !(proj2 (Z.eqb_neq a _)) by lia. rename s' into s1.
    rstep (Hwait 0 s1 tr) as (M2 & I2). apply runs_ret. split; [done|]. split; [congruence|]. intros x _ _ _. congruence.
Qed.
Lemma sh_loop_runs tr fuel : forall s, byte_list (u_in s) -> 0 ∉ u_in s -> (length (u_in s) < fuel)%nat ->
  safe loc (u_mem s) msg (sh_text ++ [37; 115; 10]) -> ~ (msg - SHBUF < buf <= msg + 13) -> ~ (msg <= c <= msg + 13) ->
  runs (sh_loop prompt msg c loc buf deep chdir wait fork child fuel) s tr (fun r s' => r = 0 /\ u_in s' = []).
Proof.
  induction fuel as [|fuel IH]; intros s Hb Hz Hf Hm Hd Hmc; [lia|]. cbn [sh_loop].
  destruct (getcmd_spec prompt c buf SHBUF s tr Hb ltac:(done) Hc) as (s1 & E1 & I1 & O1 & B1 & M1).
  set (l := taken _ _) in *. pose proof (taken_length (Z.to_nat (SHBUF - 1)) (u_in s)) as Hl. fold l in Hl.
  assert (Hzl : 0 ∉ l) by (intros Hin; apply Hz; rewrite I1; apply elem_of_app; by left).
  assert (Hs : string_at (u_mem s1) buf l) by (apply (buffer_string _ _ _ _ B1); [unfold SHBUF in *; lia|done]).
  eapply runs_bind; [exact (runs_det _ _ _ _ _ E1)|]. intros r s1' [-> ->]. pose proof (string_head _ _ _ Hs) as Hh. destruct (u_in s) as [|x rest] eqn:Ei.
  { assert (l = []) as El by (subst l; by destruct (Z.to_nat (SHBUF - 1))). rewrite El in *. cbn in Hh. rewrite Hh. apply runs_ret. cbn in I1. done. }
  assert (exists l', l = x :: l') as [l' El] by (subst l; change (Z.to_nat (SHBUF - 1)) with 99%nat; cbn [taken]; destruct (_ || _); eauto).
  assert (x <> 0) by (intros ->; apply Hz; constructor). rewrite El in Hh. cbn in Hh. rewrite decide_False by congruence. cbn [Z.ltb Z.compare].
  rstep (runs_gets u_mem s1 tr) as [-> ->]. destruct (skip_blanks_run _ _ (S (Z.to_nat SHBUF)) _ Hs) as (l1 & l2 & E12 & Esk); [unfold SHBUF in *; lia|].
  rstep (runs_det _ _ _ _ _ (pure_run _ _ s1 tr Esk)) as [-> ->].
  assert (Hs2 : string_at (u_mem s1) (buf + Z.of_nat (length l1)) l2) by (apply string_app; by rewrite <- E12).
  assert (Hlen : length l = (length l1 + length l2)%nat) by (by rewrite E12, length_app). destruct Hm as [Hm1 Hm2].
  assert (Hm1' : safe loc (u_mem s1) msg (sh_text ++ [37; 115; 10])).
  { split; [|done]. apply (string_ext (u_mem s)); [done|]. intros y Hy. cbn in Hy. apply M1; unfold SHBUF in *; lia. }
  rstep (sh_line_runs (buf + Z.of_nat (length l1)) l2 s1 tr Hs2 ltac:(lia) ltac:(unfold SHBUF in *; lia) Hm1' Hd) as (-> & I2 & M2). rename s' into s2.
  assert (Er : u_in s = l ++ u_in s2) by (rewrite Ei, I2; exact I1). rewrite Ei in Er. rewrite Er in Hb, Hz, Hf. rewrite length_app, El in Hf. cbn [length] in Hf.
  apply IH; [by apply byte_list_rest in Hb|intros Hin; apply Hz; apply elem_of_app; by right|lia| |done|done].
  destruct Hm1' as [Hm1' _]. split; [|done]. apply (string_ext (u_mem s1)); [done|]. intros y Hy. apply M2; [|intros ->; by apply Hm2|]; cbn in Hy; unfold SHBUF in *; lia.
Qed.

(** Whatever the lines typed, with commands that fail, changes of directory that fail and
    lines longer than the buffer, the shell reads its whole input and then exits with
    status 0.  The descriptors 0 to 2 are open already, as init leaves them, so that the
    console gets a higher one or none. *)
Theorem sh_main_ends (open : Z -> Z -> UK Z) (close : Z -> UK Z) fuel s tr :
  (forall s tr, runs (open console O_RDWR) s tr (fun fd s' => (fd < 0 \/ 3 <= fd) /\ u_mem s' = u_mem s /\ u_in s' = u_in s)) ->
  (forall fd s tr, runs (close fd) s tr (fun _ s' => u_mem s' = u_mem s /\ u_in s' = u_in s)) ->
  byte_list (u_in s) -> 0 ∉ u_in s -> (length (u_in s) < fuel)%nat ->
  safe loc (u_mem s) msg (sh_text ++ [37; 115; 10]) -> ~ (msg - SHBUF < buf <= msg + 13) -> ~ (msg <= c <= msg + 13) ->
  exists s', sh_main prompt console msg c loc buf deep open close chdir wait fork child fuel s tr = Done 0 s' tr /\ u_in s' = [].
Proof.
  intros Hopen Hclose Hb Hz Hf Hm Hd Hmc.
  assert (Ho : runs (open_three console open close fuel) s tr (fun _ s' => u_mem s' = u_mem s /\ u_in s' = u_in s)).
  { destruct fuel as [|fuel]; [lia|]. cbn [open_three]. rstep (Hopen s tr) as (Hfd & M & I). rename s' into s1.
    destruct (Z.ltb_spec a 0); [by apply runs_ret|]. destruct (Z.leb_spec 3 a); [|lia]. rstep (Hclose a s1 tr) as (M2 & I2). apply runs_ret. split; congruence. }
  destruct Ho as ([] & s1 & E & M & I). rewrite <- M in Hm. rewrite <- I in Hb, Hz, Hf.
  destruct (sh_loop_runs tr fuel s1 Hb Hz Hf Hm Hd Hmc) as (r & s' & E' & -> & I').
  exists s'. split; [|done]. unfold sh_main. by kstep E.
Qed.
End ShellSpec.

(** ** The name column of ls *)
Lemma last_slash_run m path dir base : string_at m path (dir ++ base) -> SLASH ∉ base -> (dir = [] \/ last dir = Some SLASH) ->
  forall k fuel, (k <= S (length base))%nat -> (k < fuel)%nat ->
  last_slash fuel m path (path + Z.of_nat (length dir) + Z.of_nat k - 1) = Some (path + Z.of_nat (length dir) - 1).
Proof.
  intros Hs Hb Hd. induction k as [|k IH]; intros [|fuel] Hk Hf; try lia; cbn [last_slash].
  - replace (path + Z.of_nat (length dir) + Z.of_nat 0 - 1) with (path + Z.of_nat (length dir) - 1) by lia. destruct Hd as [->|Hd].
    + cbn [length]. destruct (Z.leb_spec path (path + Z.of_nat 0 - 1)); [lia|done].
    + apply last_Some in Hd as [dir' ->]. rewrite length_app. cbn [length].
      replace (path + Z.of_nat (length dir' + 1) - 1) with (path + Z.of_nat (length dir')) by lia.
      rewrite (sa_byte _ _ _ Hs (length dir') SLASH); [by rewrite andb_false_r|]. by rewrite <- app_assoc, lookup_app_r, Nat.sub_diag by lia.
  - replace (path + Z.of_nat (length dir) + Z.of_nat (S k) - 1) with (path + Z.of_nat (length dir + k)) by lia.
    assert (Hne : m (path + Z.of_nat (length dir + k)) <> SLASH).
    { destruct (base !! k) as [x|] eqn:Ex.
      - rewrite (sa_byte _ _ _ Hs (length dir + k) x) by (rewrite lookup_app_r by lia; by replace (length dir + k - length dir)%nat with k by lia).
        intros ->. by apply list_elem_of_lookup_2 in Ex.
      - apply lookup_ge_None in Ex. replace (length dir + k)%nat with (length (dir ++ base)) by (rewrite length_app; lia). by rewrite (sa_end _ _ _ Hs). }
    rewrite (proj2 (Z.eqb_neq _ _) Hne), (proj2 (Z.leb_le path _)) by lia. cbn [andb negb].
    replace (path + Z.of_nat (length dir + k) - 1) with (path + Z.of_nat (length dir) + Z.of_nat k - 1) by lia. apply IH; lia.
Qed.

Lemma padded_string m m' p buf base : string_at m p base -> (length base < DIRSIZ)%nat ->
  (forall x, m' x = if x =? buf + Z.of_nat DIRSIZ then u8 0 else
     if (buf + Z.of_nat (length base) <=? x) && (x <? buf + Z.of_nat DIRSIZ) then 32 else
     if (buf <=? x) && (x <? buf + Z.of_nat (length base)) then m (p + (x - buf)) else m x) ->
  string_at m' buf (base ++ replicate (DIRSIZ - length base) 32).
Proof.
  intros [Hb _ Hn] Hl M. split.
  - intros i c Hi. rewrite M. apply lookup_app_Some in Hi as [Hi|[Hge Hi]].
    + pose proof (lookup_lt_Some _ _ _ Hi). repeat case_match; try lia. rewrite <- (Hb i c Hi). f_equal. lia.
    + apply lookup_replicate in Hi as [-> Hi]. repeat case_match; try done; lia.
  - rewrite M, length_app, length_replicate. replace (length base + (DIRSIZ - length base))%nat with DIRSIZ by lia. by rewrite Z.eqb_refl.
  - apply Forall_app. split; [done|]. by apply Forall_replicate.
Qed.

(** [fmtname] answers with the last element of the path, padded with blanks to
    DIRSIZ characters, and writes only to its own buffer. *)
Theorem fmtname_spec m buf path dir base fuel : bytes m -> string_at m path (dir ++ base) -> SLASH ∉ base ->
  (dir = [] \/ last dir = Some SLASH) -> path + Z.of_nat (length (dir ++ base)) < buf \/ buf + Z.of_nat DIRSIZ < path ->
  (length (dir ++ base) + 2 < fuel)%nat ->
  exists m' r, fmtname fuel m buf path = Some (m', r) /\ string_at m' r (base ++ replicate (DIRSIZ - length base) 32) /\
    forall x, ~ (buf <= x <= buf + Z.of_nat DIRSIZ) -> m' x = m x.
Proof.
  intros Hm Hs Hb Hd Hbuf Hf. set (p := path + Z.of_nat (length dir)). assert (Hp : string_at m p base) by by apply string_app.
  rewrite length_app in Hbuf, Hf.
  assert (Ep : last_slash fuel m path (path + Z.of_nat (length (dir ++ base))) = Some (p - 1)).
  { etrans; [|apply (last_slash_run m path dir base Hs Hb Hd (S (length base)) fuel); lia]. f_equal. rewrite length_app. lia. }
  assert (El : forall m, string_at m p base -> ustrlen fuel m p = Some (Z.of_nat (length base))).
  { intros m' Hp'. unfold ustrlen. rewrite (ustrlen_run m' base fuel p 0); [done|by rewrite Z.add_0_r|lia]. }
  unfold fmtname. unfold ustrlen at 1. rewrite (ustrlen_run m (dir ++ base) fuel path 0) by (rewrite ?Z.add_0_r, ?length_app; done || lia).
  rewrite Z.add_0_l, Ep. replace (p - 1 + 1) with p by lia. rewrite (El m Hp). destruct (Z.leb_spec (Z.of_nat DIRSIZ) (Z.of_nat (length base))) as [Hl|Hl].
  { exists m, p. split; [done|]. replace (DIRSIZ - length base)%nat with 0%nat by lia. cbn [replicate]. by rewrite app_nil_r. }
  assert (M1 : forall x, umemmove m buf p (Z.of_nat (length base)) x = if (buf <=? x) && (x <? buf + Z.of_nat (length base)) then m (p + (x - buf)) else m x)
    by (intros x; apply umemmove_spec; [done|lia]).
  set (m1 := umemmove m buf p (Z.of_nat (length base))) in *. rewrite (El m1) by (apply (string_ext m); [done|]; intros x Hx; rewrite M1; case_match; [lia|done]).
  eexists _, buf. split; [reflexivity|].
  set (m2 := umemset m1 _ 32 _). assert (M2 : forall x, m2 x = if (buf + Z.of_nat (length base) <=? x) && (x <? buf + Z.of_nat DIRSIZ) then 32 else m1 x).
  { intros x. change (m2 x) with (memset m1 (buf + Z.of_nat (length base)) 32 (u32 (Z.of_nat DIRSIZ - Z.of_nat (length base))) x).
    rewrite memset_spec. unfold u32. assert (Z.of_nat DIRSIZ = 14) by done. rewrite Z.mod_small by lia. repeat case_match; try done; lia. }
  clearbody m1 m2. split.
  2:{ intros x Hx. unfold store8. rewrite M2, M1. repeat case_match; try done; lia. }
  apply (padded_string m _ p); [done|lia|]. intros x. unfold store8. rewrite M2, M1. done.
Qed.

(** ** cat *)
(** What the arguments name, up to the first that cannot be opened. *)
Fixpoint readable (file : Z -> option (list Z)) (args : list Z) : list (list Z) * option Z :=
  match args with
  | [] => ([], None)
  | a :: args' =>
      match file a with
      | None => ([], Some a)
      | Some l => let '(ls, e) := readable file args' in (l :: ls, e)
      end
  end.

(** [cat: cannot open %s] and newline: the text before the directive. *)
Definition cat_text : list Z := [99; 97; 116; 58; 32; 99; 97; 110; 110; 111; 116; 32; 111; 112; 101; 110; 32].
Definition cat_msg : list Z := cat_text ++ [37; 115; 10].

Section CatMain.
Context `{SysOk} (buf loc : Z) (open : Z -> Z -> UK Z) (close : Z -> UK Z).
(** The files, by the address of the name, and the texts of the names. *)
Context (file : Z -> option (list Z)) (name : Z -> list Z).

(** [open] finds the files, and reads then deliver their contents; [close] does nothing
    that shows. *)
Hypothesis Hopen : forall a s tr, runs (open a O_RDONLY) s tr (fun fd s' => u_mem s' = u_mem s /\ u_out s' = u_out s /\
  match file a with Some l => 0 <= fd /\ u_in s' = l | None => fd < 0 end).
Hypothesis Hclose : forall fd s tr, runs (close fd) s tr (fun _ s' => u_mem s' = u_mem s /\ u_out s' = u_out s).

(** A string that neither the buffer nor [putc]'s byte overlaps. *)
Definition kept (m : Z -> Z) (a : Z) (l : list Z) : Prop :=
  safe loc m a l /\ (a + Z.of_nat (length l) < buf \/ buf + CATBUF <= a).

Lemma kept_ext m m' a l : (forall x, x < buf \/ buf + CATBUF <= x -> m' x = m x) -> kept m a l -> kept m' a l.
Proof. intros E [[Hs Hl] Hb]. split; [|done]. split; [|done]. apply (string_ext m); [done|]. intros x Hx. apply E. lia. Qed.

(** What the loop needs of its arguments. *)
Definition args_ok (fuel : nat) (m : Z -> Z) (args : list Z) : Prop := Forall (fun a =>
  match file a with
  | Some l => byte_list l /\ (length l < fuel)%nat
  | None => a <> 0 /\ kept m a (name a) /\ (length (name a) + 30 < fuel)%nat
  end) args.

Lemma args_ok_ext fuel m m' args : (forall x, x < buf \/ buf + CATBUF <= x -> m' x = m x) -> args_ok fuel m args -> args_ok fuel m' args.
Proof.
  intros E Ha. refine (Forall_impl _ _ _ Ha _). intros a. destruct (file a); [done|]. intros (H1 & H2 & H3). split; [done|]. split; [|done]. by apply (kept_ext m).
Qed.

Lemma cat_args_run fuel msg tr : forall args s, kept (u_mem s) msg cat_msg -> args_ok fuel (u_mem s) args ->
  runs (for_args (fun arg =>
    let! fd := open arg O_RDONLY in
    if fd <? 0 then fprintf loc fuel 2 msg [arg] ;; kret (Some 1) else
    cat buf fuel fd ;; close fd ;; kret None) args) s tr (fun r s' => exists chunks, concat chunks = concat (readable file args).1 /\
  match (readable file args).2 with
  | None => r = None /\ u_out s' = u_out s ++ map (pair 1) chunks
  | Some a => r = Some 1 /\ u_out s' = u_out s ++ map (pair 1) chunks ++ outs 2 (cat_text ++ name a ++ [10])
  end).
Proof.
  induction args as [|a args IH]; intros s Hm Ha; cbn [for_args readable].
  { apply runs_ret. exists []. split; [done|]. by rewrite app_nil_r. }
  apply Forall_cons in Ha as [Ha Hargs]. rassoc. rstep (Hopen a s tr) as (M1 & O1 & H1). rename a0 into fd, s' into s1. destruct (file a) as [l|].
  - destruct H1 as [Hfd I1], Ha as [Hl Hf]. rewrite (proj2 (Z.ltb_ge fd 0) Hfd). rassoc.
    assert (C : runs (cat buf fuel fd) s1 tr (fun _ s' => (exists chunks, u_out s' = u_out s1 ++ map (pair 1) chunks /\ concat chunks = u_in s1) /\
      forall x, x < buf \/ buf + CATBUF <= x -> u_mem s' x = u_mem s1 x)).
    { unfold cat. rstep (cat_loop_runs buf fd tr fuel s1) as (-> & _ & C & M); [by rewrite I1|by rewrite I1|]. by apply runs_ret. }
    rstep C as [(chunks & O2 & C2) M2]. rename s' into s2. rassoc. rstep (Hclose fd s2 tr) as [M3 O3]. rename s' into s3.
    assert (M : forall x, x < buf \/ buf + CATBUF <= x -> u_mem s3 x = u_mem s x) by (intros x Hx; rewrite M3, M2, M1 by done; done).
    rlast (IH s3 (kept_ext _ _ _ _ M Hm) (args_ok_ext _ _ _ _ M Hargs)) as (rest & Cr & Hr). destruct (readable file args) as [ls e]. cbn [fst snd] in *.
    exists (chunks ++ rest). split; [rewrite concat_app, C2, I1; cbn; by rewrite Cr|].
    rewrite map_app. destruct e; destruct Hr as [-> ->]; split; try done; rewrite O3, O2, O1, <- !app_assoc; done.
  - rewrite (proj2 (Z.ltb_lt fd 0) H1). destruct Ha as (Ha & Hk & Hf). rassoc. rewrite <- M1 in Hm, Hk.
    rstep (message_runs loc fuel msg cat_text a (name a) s1 tr ltac:(by repeat constructor) (proj1 Hm) Ha (proj1 Hk) ltac:(cbn; lia)) as (O2 & _). apply runs_ret. exists []. split; [done|]. split; [done|]. cbn [map app fst snd]. by rewrite O2, O1.
Qed.

(** [cat] with arguments writes the contents of the files to the standard output, in
    the order of the arguments; at the first that cannot be opened it writes the
    message to the standard error and the status is 1. *)
Theorem cat_main_spec fuel msg arg0 args s tr : args <> [] -> kept (u_mem s) msg cat_msg -> args_ok fuel (u_mem s) args ->
  exists s' chunks, concat chunks = concat (readable file args).1 /\
  match (readable file args).2 with
  | None => cat_main buf loc open close fuel msg (arg0 :: args) s tr = Done 0 s' tr /\ u_out s' = u_out s ++ map (pair 1) chunks
  | Some a => cat_main buf loc open close fuel msg (arg0 :: args) s tr = Done 1 s' tr /\
      u_out s' = u_out s ++ map (pair 1) chunks ++ outs 2 (cat_text ++ name a ++ [10])
  end.
Proof.
  intros Hne Hm Ha. destruct (cat_args_run fuel msg tr args s Hm Ha) as (r & s' & E & chunks & C & Hr). exists s', chunks. split; [done|].
  assert (Em : cat_main buf loc open close fuel msg (arg0 :: args) s tr = Done (default 0 r) s' tr).
  { unfold cat_main. replace (length (arg0 :: args) <=? 1)%nat with false by (destruct args; done). unfold or_exit0. cbn [tail]. by kstep E. }
  destruct (readable file args).2; destruct Hr as [-> ->]; done.
Qed.
End CatMain.

(** ** One file that exists and one that does not *)
Definition demo_open (a _ : Z) : UK Z :=
  if a =? 300 then modify (fun s => s <| u_in := [104; 105] |>) ;; kret 3 else kret (-1).
Definition demo_file (a : Z) : option (list Z) := if a =? 300 then Some [104; 105] else None.
Definition demo_cat : ustate := mkustate (write_bytes (write_bytes (fun _ => 0) 100 cat_msg) 400 [120]) [] [] 0 0.

Lemma demo_kept a l : a = 100 /\ l = cat_msg \/ a = 400 /\ l = [120] -> kept 1000 50 (u_mem demo_cat) a l.
Proof.
  intros [[-> ->]|[-> ->]]; (split; [|left; done]); (split; [|cbn; lia]).
  - apply (string_ext (write_bytes (fun _ => 0) 100 cat_msg)); [apply string_write; [by repeat constructor|done]|].
    intros x Hx. apply write_bytes_other. cbn in *. lia.
  - apply string_write; [by repeat constructor|done].
Qed.

Lemma cat_main_spec_witness : exists s' chunks, @cat_main demo_sys 1000 50 demo_open (fun _ => kret 0) 40 100 [200; 300; 400] demo_cat [] = Done 1 s' [] /\
  concat chunks = [104; 105] /\ u_out s' = map (pair 1) chunks ++ outs 2 (cat_text ++ [120; 10]).
Proof.
  destruct (@cat_main_spec demo_sys demo_sys_ok 1000 50 demo_open (fun _ => kret 0) demo_file (fun _ => [120])) with (fuel := 40%nat) (msg := 100) (arg0 := 200) (args := [300; 400]) (s := demo_cat) (tr := @nil (ustate -> ustate)) as (s' & chunks & C & E & O).
  - intros a s tr. unfold demo_open, demo_file. destruct (a =? 300); [by exists 3, (s <| u_in := [104; 105] |>)|by exists (-1), s].
  - intros fd s tr. by exists 0, s.
  - done.
  - apply demo_kept. by left.
  - constructor; [cbn; split; [by repeat constructor|lia]|]. constructor; [|constructor]. split; [done|]. split; [apply demo_kept; by right|cbn; lia].
  - exists s', chunks. split; [exact E|]. split; [exact C|exact O].
Defined.

Definition demo_shell : ustate := mkustate (write_bytes (fun _ => 0) 100 (sh_text ++ [37; 115; 10])) [32; 99; 100; 32; 120; 10; 108; 115; 10] [] 0 0.

Lemma sh_main_ends_witness : exists s', @sh_main demo_sys 90 95 100 60 50 1000 200 (fun _ _ => kret 3) (fun _ => kret 0) (fun _ => kret (-1)) (fun _ => kret 7) (kret 7) (fun _ => kret 0) 20 demo_shell [] = Done 0 s' [] /\ u_in s' = [].
Proof.
  apply (@sh_main_ends demo_sys demo_sys_ok).
  - intros a s tr. by exists (-1), s.
  - intros a s tr. by exists 7, s.
  - intros s tr. by exists 7, s.
  - done.
  - unfold SHBUF. lia.
  - unfold SHBUF. lia.
  - lia.
  - intros s tr. exists 3, s. split; [done|]. split; [by right|done].
  - intros fd s tr. by exists 0, s.
  - by repeat constructor.
  - cbn. set_solver.
  - cbn. lia.
  - split; [apply string_write; [by repeat constructor|done]|cbn; lia].
  - unfold SHBUF. lia.
  - lia.
Defined.
